(* ===== verification/_CoqProject ===== *)
-Q . S2P
Prelude.v
Machine.v
JsString.v
StatusRules.v
JsRegex.v
JsNumber.v
JsInteger.v
JsMath.v
Json.v
JsonText.v
JsonUnits.v
JsMap.v
JsExpr.v
BillingExpr.v
BillingFacts.v
BillingRoundTrip.v
TierExpr.v
TierFacts.v
AuthSession.v
HttpClient.v
AuthFacts.v
AdvancedCustom.v
AdvancedCustomFacts.v
PlaygroundMessages.v
StreamController.v
StreamFacts.v
PlaygroundFacts.v
ModelMapping.v
ChannelUtils.v
ChannelFacts.v
RatioSync.v
RatioSyncFacts.v
Redirects.v
RedirectFacts.v
Permissions.v
ChannelGuards.v
ChatHandler.v
ChatFacts.v
ChatBatching.v
PlaygroundStorage.v
StorageFacts.v
ChannelForm.v
ChannelFormFacts.v
ChannelFormRoundTrip.v
ModelPricing.v
PricingFacts.v
ParamOverride.v
ParamEditor.v
ParamOverrideFacts.v
ParamValidator.v
ParamEditorFacts.v
ParamDrafts.v
NavModules.v
NavEditor.v
Sidebar.v
NavFacts.v
SidebarFacts.v
SidebarLayers.v
DashboardFlow.v
FlowFacts.v
FlowConservation.v
FlowFilters.v
ExplicitDifficulty.v
DifficultyFacts.v
