(* ===== verification/Prelude.v ===== *)
(** * Verification of the acu-frontend web client

    The repository is a gateway in front of language model providers: a Go server and,
    under [web/], the TypeScript client this development verifies.  Paths below are
    relative to [web/src].

    ** The program and the files that model it

    - Sign-in.  [stores/auth-store.ts] keeps the user, the access token, its expiry and
      the session; [lib/auth-session.ts] renews the token through a refresh request that
      all callers share, under a browser lock, with retries; [lib/auth-session-sync.ts]
      and [routes/__root.tsx] tell the other tabs about sign-in and sign-out.
      [AuthSession] has the store, the bundles and rotations, the session events and the
      refresh runner, cut at its awaits: [RunState] is the place where it is suspended.
      One tab is a record [Tab] and what it does to the outside is appended to its log.
    - HTTP.  [lib/http-client.ts] puts the token on requests, retries once after a 401,
      shares identical GET requests and turns errors into messages
      ([lib/server-error-message.ts]).  [HttpClient] has the interceptors and the tab as
      a transition system: [step] takes an event (a request fails, the lock is granted, a
      response, a delay or a peer event arrives, the user signs in or out) to the next
      tab, [reachable] is its closure.  [AuthFacts] has the theorems.
    - Billing.  [features/pricing/lib/billing-expr.ts] reads and writes the price
      expressions of models.  [BillingExpr] transcribes it with its regular expressions;
      [BillingFacts] has the lemmas on splitting and on single conditions and
      [BillingRoundTrip] the theorems.  [TierExpr] is [tier-expr.ts], the table of tiers
      of the price editor, the expression it generates and its estimate of a cost, over
      the fragment of JavaScript expressions in [JsExpr]; [TierFacts].
    - Channels.  [AdvancedCustom] is [features/channels/lib/advanced-custom.ts], the
      route table of a custom channel, with [AdvancedCustomFacts]; [ModelMapping] is
      [model-mapping-validation.ts]; [ChannelUtils] is [channel-utils.ts], with
      [ChannelFacts]; [StatusRules] is [lib/http-status-code-rules.ts].  [ChannelForm] is
      [channel-form.ts] with the update request of [use-channel-mutate-form.ts]: the
      schema, the reading of a channel and the payloads, with [ChannelFormFacts] and
      [ChannelFormRoundTrip].  [ChannelGuards] is [channel-field-update.ts],
      [status-code-risk-guard.ts] and [upstream-update-utils.ts].
    - Parameter overrides.  The dialog of
      [features/channels/components/dialogs/param-override-editor-dialog.tsx]:
      [ParamOverride] has its rules, templates, reading, writing, validation and the
      drafts of single modes, [ParamEditor] the dialog as a machine with one definition
      per handler; [ParamOverrideFacts], [ParamValidator], [ParamEditorFacts] and
      [ParamDrafts].
    - Navigation.  Administrators choose which modules the header and the sidebar offer,
      users narrow their own sidebar.  [NavModules] is [lib/nav-modules.ts], which reads
      the settings from the status of the server, with the guards of the routes and the
      links of the header; [NavEditor] is the editors of the settings
      ([features/system-settings/maintenance]) and the card of the user
      ([features/profile/components/sidebar-modules-card.tsx]); [Sidebar] is
      [hooks/use-sidebar-config.ts], [use-sidebar-data.ts] and [use-sidebar-view.ts] with
      the nested views and [components/layout/lib/url-utils.ts].  [NavFacts],
      [SidebarFacts] and [SidebarLayers].
    - Playground.  [PlaygroundMessages] is [features/playground/lib/message/*.ts] and the
      pure part of [lib/streaming/*.ts]: messages, reasoning tags, streaming, edits and
      payloads, with [PlaygroundFacts]; [StreamController] is the request controller of
      [hooks/use-stream-request.ts] as a transition system, with [StreamFacts].
      [ChatHandler] composes it with [hooks/use-chat-handler.ts],
      [use-playground-conversation.ts] and the message state of [use-playground-state.ts];
      [ChatFacts] and [ChatBatching].  [PlaygroundStorage] is [lib/storage/*.ts], saving
      and loading of conversations and settings through the schemas, with [StorageFacts].
    - Dashboard.  [DashboardFlow] is [features/dashboard/lib/flow.ts], the graph of quota
      flowing from users to channels, without the specification of its chart; [FlowFacts],
      [FlowConservation] and [FlowFilters].
    - Work timeline.  [ExplicitDifficulty] is
      [features/usage-logs/lib/explicit-difficulty.ts], the difficulties and qualities
      estimated for requests that named a model; [DifficultyFacts].
    - Prices of upstreams.  [RatioSync] is
      [features/system-settings/models/upstream-ratio-sync-helpers.ts] with the settings
      and the state of the page in [upstream-ratio-sync.tsx]; [RatioSyncFacts].
    - Model prices.  [ModelPricing] is the price editor of
      [features/system-settings/models]: the panel of one model as a machine on its
      events, the table read from ten JSON options, what the panel writes to them and the
      requests that save them; [PricingFacts].
    - Redirects.  [Redirects] is [features/auth/lib/auth-redirect.ts] and
      [lib/legacy-route.ts] over an interface for the URL objects of the browser, a class
      of operations and one of laws; [RedirectFacts] has the theorems for every
      implementation of the laws, and one implementation.
    - Permissions.  [Permissions] is [lib/admin-permissions.ts].
    - The language.  [JsString] (strings as lists of 16-bit units), [JsRegex] (a
      backtracking matcher), [JsNumber] (binary64 with correct reading and printing),
      [JsInteger] (exact sums below 2^53), [JsMath] (rounding, minima, fixed digits and
      comparators), [JsMap] (maps and sets in insertion order), [JsExpr] (expressions),
      [Json] (values, property lists, [JSON.parse] and [JSON.stringify] of strings) and
      [JsonText] (printing and reading of whole values, with [JsonUnits]) model what the source uses of
      JavaScript.  [Machine] has the runs of components that react
      to events (the tab, the request controller, the ratio page, the dialogs) and the rules to prove
      their invariants.  This file has the shared list lemmas, the stable sort, the
      de-duplication and the tactics.

    ** What is shown

    - Sign-in ([AuthFacts]): an invariant of every reachable tab, and what an unchecked
      answer of the second factor does to the store; an overtaken refresh is
      inert; a sign-out sticks while a refresh is under way; a refresh is bounded in steps
      and requests; every branch of a token rotation; delivery of session events and no
      echo; one retry per request; headers never carry a token known to be expired; a GET
      is only shared within a session; what a rejected lock does.
    - Billing ([BillingRoundTrip]): rules and combined expressions read back as they were
      written; the conditions the editor can write and not read.  The expression
      generated for a table of tiers charges the tier the table means ([TierFacts]).
    - Route tables ([AdvancedCustomFacts]): the validator decides a declarative
      specification and blames the first bad route; normalising is idempotent; what the
      editor offers is valid.
    - Status rules ([StatusRules]): normal form, meaning, idempotence and errors.
    - Playground ([PlaygroundFacts], [StreamFacts]): reasoning tags, assembly of a
      stream, loading, editing and payloads; order of callbacks, silence of superseded
      requests, inert closing.
    - Conversation ([ChatFacts], [ChatBatching]): a replaced, stopped or abandoned request
      changes nothing any more; a generation that is shown can end and leaves no pending
      message; batches of chunks that are deltas show what the chunks would, and what is
      lost of others; what stopping loses.
    - Storage ([StorageFacts]): a finished conversation within the limits is loaded as it
      was saved, what is loaded is bounded whatever was stored, and the page opens with
      the settings that were saved.
    - Channel form ([ChannelFormFacts], [ChannelFormRoundTrip], [ChannelGuards]): settings
      written are read back, unknown ones are kept, sensitive ones are withheld, an
      accepted form is sent without an exception; the delayed update refines a simple
      description; the warnings on redirected codes are exact.
    - Parameter overrides: saved rules open with what their modes use, their values as
      JSON reads and prints them, and save as the same text ([ParamOverrideFacts],
      [ParamValidator]); the validator decides the requirements of
      the modes; every state of the dialog has rules with ids of their own and one is
      selected, dropping a rule only moves it, and the conditions of a pruning rule cannot
      be edited ([ParamEditorFacts]); what the drafts of single modes lose, and stored
      values that change their type or crash the dialog ([ParamDrafts]).
    - Navigation: what the header form saves is what the guards, the header and the form
      itself read ([NavFacts]); the switches of the sidebar form decide the entries of the
      sidebar and the guard of the playground, and where stored texts make the readers disagree
      ([SidebarFacts]); the card of a user only hides, and hides what it says; at most one
      entry is highlighted; a heading without entries ([SidebarLayers]).
    - Dashboard ([FlowFacts], [FlowConservation], [FlowFilters]): nodes and links carry
      the totals of their rows, what enters a node leaves it, limits bound the stages,
      masking hides, the filter menu is exact.
    - Work timeline ([DifficultyFacts]): the hash is FNV-1a, estimates are bounded, what
      is shown is what a direct definition says in whatever order the items arrive.
    - Channels ([ModelMapping], [ChannelFacts]): stored lists, repairs of a mapping,
      categories, tag rows, key lists, masked keys.
    - Prices of upstreams ([RatioSyncFacts]): bulk selection is sequential, a selected
      source shows as selected, no reachable state mixes a price with ratios, what is
      written and what a removal takes.
    - Model prices ([PricingFacts]): the ratios of the panel follow its prices, the table
      shows what was written and nothing else changes, an unchanged save of a model without
      leftovers is the identity, saving brings the options on the server to the form; a
      fixed price that hides token prices.
    - Redirects ([RedirectFacts]): a former address moves in one step, unless its tab is a
      name that objects inherit; what the redirect
      after a sign-in does not check.
    - Permissions: the matrix of the editor.

    Some theorems state behaviour the authors will not have meant, such as text lost from
    a repetitive stream; they are stated as the code behaves.

    ** Modelling choices

    Exceptions are values ([outcome], [option]); the time, random identifiers, responses
    and events are arguments.  Interleaving is explicit: between two events a handler
    runs to its next await, as in the browser.  The functions of the browser that are not
    in the repository are parameters: the URL parser in [AdvancedCustom], URL objects in
    [Redirects], [localeCompare], [toLowerCase] and the number format where they are used;
    so are the checks of the schema library, as the class [Zod] with their documented
    behaviour, and the storage in [PlaygroundStorage], the text an engine gives to a
    built-in function in [Redirects], and the colour scheme of the chart library in
    [DashboardFlow].  The queue in which React runs state updates
    is explicit in [ChatHandler], and whether an update runs at once or at the next render
    is an argument.  Objects are lists of properties or finite maps; the names every
    object inherits are left out, but for the tabs of former addresses.  The nodes and
    links that [flow.ts] updates in place are values in maps by their key, which is how
    every reference to them is obtained.

    Loops without structural recursion have fuel that the length of their input bounds:
    the reasoning loop advances by at least the fifteen units of the two tags, the
    unwrapping of parentheses removes two units a turn, the JSON reader and the star of
    the regular expression matcher consume a unit a turn, the expression reader has ten
    turns per unit of text; the theorems on them are equations for every input they cover,
    so the fuel is shown to be enough there.

    ** Not modelled, and what comes next

    The rendering of React components, translations, calls of the server's interface,
    generated code and the Go server are not modelled, nor are the specifications handed
    to the chart library.  Next: the series of the work timeline
    ([usage-logs/components/acu-work-timeline-model.ts], [acu-channel-health-model.ts]). *)

From Stdlib Require Export ZArith NArith Lia ZifyN ZifyNat ZifyBool Bool Sorted.
From stdpp Require Export base list option numbers sets.

(** ** Automation shared by the components *)

(** [bsplit] turns boolean connectives in hypotheses and goal into
    propositional ones. *)
Ltac bsplit :=
  repeat match goal with
  | H : _ && _ = true |- _ => apply andb_true_iff in H as [? ?]
  | H : _ || _ = false |- _ => apply orb_false_iff in H as [? ?]
  | H : negb _ = true |- _ => apply negb_true_iff in H
  | H : negb _ = false |- _ => apply negb_false_iff in H
  | |- _ && _ = true => apply andb_true_iff; split
  | |- _ || _ = false => apply orb_false_iff; split
  | |- negb _ = true => apply negb_true_iff
  | |- negb _ = false => apply negb_false_iff
  end.

(** [cases] destructs every [match] or [if] scrutinee that blocks the goal or a
    hypothesis, keeping the equation. *)
Ltac cases :=
  repeat match goal with
  | |- context [match ?x with _ => _ end] => destruct x eqn:?; simplify_eq
  | H : context [match ?x with _ => _ end] |- _ =>
      destruct x eqn:?; simplify_eq
  end.

(** [decided] proves a closed decidable proposition by evaluating its decision. *)
Ltac decided := apply (bool_decide_unpack _); vm_compute; exact I.

Create HintDb acu.

(** ** Lists *)

Section lists.
Context {A B : Type}.
Implicit Types (l : list A) (p : A -> bool).

(** [Array.prototype.find]. *)
Fixpoint find_first (p : A -> bool) (l : list A) : option A :=
  match l with
  | [] => None
  | x :: t => if p x then Some x else find_first p t
  end.

(** [Array.prototype.findIndex]; [None] stands for -1. *)
Fixpoint find_index (p : A -> bool) (l : list A) : option nat :=
  match l with
  | [] => None
  | x :: t => if p x then Some 0 else S <$> find_index p t
  end.

(** Longest prefix of elements satisfying [p], and the rest. *)
Fixpoint span (p : A -> bool) (l : list A) : list A * list A :=
  match l with
  | [] => ([], [])
  | x :: t => if p x then let '(a, b) := span p t in (x :: a, b) else ([], l)
  end.

Lemma find_first_Some p l x :
  find_first p l = Some x -> p x = true /\ x ∈ l.
Proof.
  induction l as [|y l IH]; simpl; [done|].
  destruct (p y) eqn:E; intros H.
  - simplify_eq. split; [done|left].
  - destruct (IH H). split; [done|by right].
Qed.

Lemma find_first_None p l :
  find_first p l = None <-> forall x, x ∈ l -> p x = false.
Proof.
  induction l as [|y l IH]; simpl.
  - split; [|done]. intros _ x Hx. by apply elem_of_nil in Hx.
  - destruct (p y) eqn:E.
    + split; [done|]. intros H. specialize (H y ltac:(left)). congruence.
    + rewrite IH. split.
      * intros H x Hx. apply elem_of_cons in Hx as [-> | Hx]; auto.
      * intros H x Hx. apply H. by right.
Qed.

Lemma find_index_Some p l i :
  find_index p l = Some i ->
  exists x, l !! i = Some x /\ p x = true /\
            forall j y, j < i -> l !! j = Some y -> p y = false.
Proof.
  revert i. induction l as [|y l IH]; simpl; [done|]. intros i.
  destruct (p y) eqn:E.
  - intros [= <-]. exists y. repeat split; auto. intros; lia.
  - destruct (find_index p l) as [k|] eqn:F; simpl; [|done].
    intros [= <-]. destruct (IH k eq_refl) as (x & ? & ? & Hlt).
    exists x. repeat split; auto. intros [|j] z Hj Hz; simpl in *.
    + by simplify_eq.
    + eapply Hlt; [|done]. lia.
Qed.

Lemma find_index_None p l :
  find_index p l = None <-> forall x, x ∈ l -> p x = false.
Proof.
  induction l as [|y l IH]; simpl.
  - split; [|done]. intros _ x Hx. by apply elem_of_nil in Hx.
  - destruct (p y) eqn:E.
    + split; [done|]. intros H. specialize (H y ltac:(left)). congruence.
    + rewrite fmap_None, IH. split.
      * intros H x Hx. apply elem_of_cons in Hx as [-> | Hx]; auto.
      * intros H x Hx. apply H. by right.
Qed.

Lemma span_app p l : let '(a, b) := span p l in l = a ++ b.
Proof.
  induction l as [|x l IH]; simpl; [done|].
  destruct (p x); [|done]. destruct (span p l). simpl. by f_equal.
Qed.

Lemma span_exact p a b :
  Forall (fun x => p x = true) a ->
  match b with [] => True | x :: _ => p x = false end ->
  span p (a ++ b) = (a, b).
Proof.
  intros Ha Hb. induction Ha as [|x a Hx _ IH]; simpl.
  - destruct b as [|x b]; simpl; [done|]. by rewrite Hb.
  - by rewrite Hx, IH.
Qed.

Lemma forallb_Forall' p l : forallb p l = true <-> Forall (fun x => p x = true) l.
Proof.
  induction l as [|x l IH]; simpl; [done|].
  rewrite andb_true_iff, IH. split.
  - intros []. by constructor.
  - intros H. by inversion H.
Qed.

Lemma existsb_elem p l : existsb p l = true <-> exists x, x ∈ l /\ p x = true.
Proof.
  rewrite existsb_exists. split; intros (x & ? & ?); exists x;
    by rewrite list_elem_of_In in *.
Qed.

Lemma existsb_none p l : existsb p l = false <-> forall x, x ∈ l -> p x = false.
Proof.
  rewrite <- not_true_iff_false, existsb_elem. split.
  - intros H x Hx. apply not_true_is_false. eauto.
  - intros H (x & Hx & Hp). rewrite (H x Hx) in Hp. done.
Qed.

End lists.

(** The first separator splits a list in one way. *)
Lemma app_sep_inj {A} (c : A) (a b x y : list A) :
  c ∉ a -> c ∉ b -> a ++ c :: x = b ++ c :: y -> a = b /\ x = y.
Proof.
  revert b. induction a as [|d a IH]; intros [|e b] Ha Hb H; simplify_eq/=; try done.
  - by destruct Hb; left.
  - by destruct Ha; left.
  - destruct (IH b) as [-> ->]; [set_solver..|done|done].
Qed.

Lemma elem_of_rev {A} (l : list A) x : x ∈ rev l <-> x ∈ l.
Proof. rewrite !list_elem_of_In. symmetry. apply in_rev. Qed.

(** So does the last one. *)
Lemma app_last_sep_inj {A} (c : A) (a b x y : list A) :
  c ∉ x -> c ∉ y -> a ++ c :: x = b ++ c :: y -> a = b /\ x = y.
Proof.
  intros Hx Hy H. apply (f_equal (@rev A)) in H. rewrite !rev_app_distr in H. cbn [rev] in H.
  rewrite <- !app_assoc in H. apply app_sep_inj in H as [H1 H2]; [|by rewrite elem_of_rev..].
  by rewrite <- (rev_involutive a), <- (rev_involutive b), <- (rev_involutive x), <- (rev_involutive y), H1, H2.
Qed.

Lemma StronglySorted_app_2 {A} (R : A -> A -> Prop) (l1 l2 : list A) :
  StronglySorted R l1 -> StronglySorted R l2 ->
  Forall (fun x => Forall (R x) l2) l1 -> StronglySorted R (l1 ++ l2).
Proof.
  induction 1 as [|x l1 Hs IH Hf]; simpl; intros H2 Hc; [done|].
  inversion Hc; subst. constructor; [by apply IH|]. by apply Forall_app.
Qed.

Lemma StronglySorted_rev {A} (R : A -> A -> Prop) (l : list A) :
  StronglySorted R l -> StronglySorted (fun a b => R b a) (rev l).
Proof.
  induction 1 as [|x l Hs IH Hf]; simpl; [constructor|].
  apply StronglySorted_app_2; [done|by repeat constructor|].
  apply Forall_rev. eapply Forall_impl; [exact Hf|]. intros y Hy. by repeat constructor.
Qed.

(** ** Filtering

    [Array.prototype.filter] with a boolean predicate is [List.filter]. *)

Abbreviation bfilter := List.filter.

Lemma elem_of_bfilter {A} (p : A -> bool) (l : list A) x :
  x ∈ bfilter p l <-> x ∈ l /\ p x = true.
Proof. rewrite !list_elem_of_In. apply filter_In. Qed.

Lemma elem_of_lmap {A B} (f : A -> B) (l : list A) y :
  y ∈ map f l <-> exists x, x ∈ l /\ y = f x.
Proof. rewrite list_elem_of_In, in_map_iff. setoid_rewrite list_elem_of_In. naive_solver. Qed.

Lemma bfilter_sublist {A} (p : A -> bool) (l : list A) : bfilter p l `sublist_of` l.
Proof. induction l as [|x l IH]; simpl; [done|]. destruct (p x); by constructor. Qed.

Lemma bfilter_nil_iff {A} (p : A -> bool) (l : list A) :
  bfilter p l = [] <-> Forall (fun x => p x = false) l.
Proof.
  induction l as [|x l IH]; simpl; [done|]. destruct (p x) eqn:E.
  - split; [done|]. intros H. inversion H. congruence.
  - rewrite IH. split; [by constructor|]. intros H. by inversion H.
Qed.

Lemma bfilter_id {A} (p : A -> bool) (l : list A) :
  Forall (fun x => p x = true) l -> bfilter p l = l.
Proof. induction 1 as [|x l Hx _ IH]; simpl; [done|]. by rewrite Hx, IH. Qed.

Lemma bfilter_map_id {A} (p : A -> bool) (f : A -> A) (l : list A) :
  Forall (fun x => p x = true /\ f x = x) l -> bfilter p (map f l) = l.
Proof. induction 1 as [|x l [Hp Hf] _ IH]; simpl; [done|]. by rewrite Hf, Hp, IH. Qed.

Lemma omap_map_Some {A B} (f : A -> option B) (g : B -> A) (l : list B) :
  Forall (fun x => f (g x) = Some x) l -> omap f (map g l) = l.
Proof. induction 1 as [|x l Hx _ IH]; csimpl; [done|]. rewrite Hx. by f_equal. Qed.

(** ** Stable sorting

    [Array.prototype.sort] is stable and, for a comparator that is a total
    preorder, its result is determined: stable insertion sort computes it.  The
    comparator is given as "does not have to move before", i.e.
    [le a b = true] when [cmp a b <= 0]. *)
Section sort.
Context {A : Type} (le : A -> A -> bool).

Fixpoint sort_insert (x : A) (l : list A) : list A :=
  match l with
  | [] => [x]
  | y :: t => if le x y then x :: l else y :: sort_insert x t
  end.

Definition js_sort (l : list A) : list A := foldr sort_insert [] l.

Lemma sort_insert_perm x l : sort_insert x l ≡ₚ x :: l.
Proof.
  induction l as [|y l IH]; simpl; [done|].
  destruct (le x y); [done|]. rewrite IH. apply Permutation_swap.
Qed.

Lemma js_sort_perm l : js_sort l ≡ₚ l.
Proof.
  induction l as [|x l IH]; simpl; [done|].
  by rewrite sort_insert_perm, IH.
Qed.

Lemma elem_of_js_sort x l : x ∈ js_sort l <-> x ∈ l.
Proof. by rewrite js_sort_perm. Qed.

Hypothesis le_total : forall a b, le a b = true \/ le b a = true.
Hypothesis le_trans : forall a b c, le a b = true -> le b c = true -> le a c = true.

Lemma sort_insert_sorted x l :
  StronglySorted (fun a b => le a b = true) l ->
  StronglySorted (fun a b => le a b = true) (sort_insert x l).
Proof.
  induction 1 as [|y l Hs IH Hf]; simpl; [by repeat constructor|].
  destruct (le x y) eqn:E.
  - constructor; [by constructor|]. constructor; [done|].
    eapply Forall_impl; [exact Hf|]. eauto.
  - constructor; [done|]. rewrite sort_insert_perm. constructor; [|done].
    destruct (le_total x y); congruence.
Qed.

Lemma js_sort_sorted l : StronglySorted (fun a b => le a b = true) (js_sort l).
Proof.
  induction l as [|x l IH]; simpl; [constructor|]. by apply sort_insert_sorted.
Qed.

Lemma js_sort_id l :
  StronglySorted (fun a b => le a b = true) l -> js_sort l = l.
Proof.
  induction 1 as [|x l Hs IH Hf]; simpl; [done|]. rewrite IH.
  destruct l as [|y l]; simpl; [done|]. by rewrite (Forall_inv Hf).
Qed.
End sort.

(** The same when the comparator is a total order on the elements of the list only: the
    result does not depend on the order of the input. *)
Section sort_on.
Context {A : Type} (le : A -> A -> bool) (P : A -> Prop).
Hypothesis le_total : forall a b, P a -> P b -> le a b = true \/ le b a = true.
Hypothesis le_trans : forall a b c, P a -> P b -> P c -> le a b = true -> le b c = true -> le a c = true.
Hypothesis le_antisym : forall a b, P a -> P b -> le a b = true -> le b a = true -> a = b.

Lemma js_sort_sorted_on l : Forall P l -> StronglySorted (fun a b => le a b = true) (js_sort le l).
Proof.
  induction 1 as [|x l Hx Hl IH]; simpl; [constructor|].
  assert (Forall P (js_sort le l)) as Hp by (by rewrite js_sort_perm).
  revert IH Hp. generalize (js_sort le l). intros s Hs. clear Hl.
  induction Hs as [|y s Hs IH Hf]; intros Hp; simpl; [by repeat constructor|].
  inversion Hp as [|? ? Hy Hp']; subst. destruct (le x y) eqn:E.
  - constructor; [by constructor|]. constructor; [done|]. rewrite Forall_forall in *. intros z Hz. apply (le_trans x y z); auto.
  - constructor; [auto|]. rewrite sort_insert_perm. constructor; [|done]. destruct (le_total x y); congruence.
Qed.

Lemma sorted_perm_eq l l' : Forall P l ->
  StronglySorted (fun a b => le a b = true) l -> StronglySorted (fun a b => le a b = true) l' -> l ≡ₚ l' -> l = l'.
Proof.
  intros Hp Hs. revert Hp l'. induction Hs as [|x l Hs IH Hf]; intros Hp l' Hs' Hperm.
  - by apply Permutation_nil_l in Hperm as ->.
  - destruct l' as [|y l']; [by apply Permutation_nil_r in Hperm|]. inversion Hp as [|? ? Hx Hp']; subst.
    inversion Hs' as [|? ? Hs1 Hf1]; subst.
    assert (x = y) as ->.
    { assert (x ∈ y :: l') as Hin by (rewrite <- Hperm; left). assert (y ∈ x :: l) as Hin' by (rewrite Hperm; left).
      apply elem_of_cons in Hin as [-> | Hin]; [done|]. apply elem_of_cons in Hin' as [-> | Hin']; [done|].
      rewrite Forall_forall in Hf, Hf1, Hp'. apply le_antisym; auto. }
    f_equal. apply IH; [done|done|]. by apply (inj (cons y)) in Hperm.
Qed.

Lemma js_sort_perm_eq l l' : Forall P l -> l ≡ₚ l' -> js_sort le l = js_sort le l'.
Proof.
  intros Hp Hperm. apply sorted_perm_eq.
  - by rewrite js_sort_perm.
  - by apply js_sort_sorted_on.
  - apply js_sort_sorted_on. by rewrite <- Hperm.
  - by rewrite !js_sort_perm.
Qed.
End sort_on.

(** ** De-duplication

    [Array.from(new Set(l))]: the first occurrence of each element is kept, in
    order. *)
Section dedup.
Context {A : Type} `{EqDecision A}.

Fixpoint dedup_from (seen l : list A) : list A :=
  match l with
  | [] => []
  | x :: t =>
      if bool_decide (x ∈ seen) then dedup_from seen t
      else x :: dedup_from (seen ++ [x]) t
  end.

Definition dedup (l : list A) : list A := dedup_from [] l.

Lemma elem_of_dedup_from seen l x :
  x ∈ dedup_from seen l <-> x ∈ l /\ x ∉ seen.
Proof.
  revert seen. induction l as [|y l IH]; intros seen; simpl; [set_solver|].
  case_bool_decide; rewrite ?elem_of_cons, IH; [set_solver|].
  rewrite elem_of_app, list_elem_of_singleton.
  destruct (decide (x = y)); set_solver.
Qed.

Lemma elem_of_dedup l x : x ∈ dedup l <-> x ∈ l.
Proof. unfold dedup. rewrite elem_of_dedup_from. set_solver. Qed.

Lemma NoDup_dedup_from seen l : NoDup (dedup_from seen l).
Proof.
  revert seen. induction l as [|y l IH]; intros seen; simpl; [constructor|].
  case_bool_decide; [done|]. constructor; [|done].
  rewrite elem_of_dedup_from. set_solver.
Qed.

Lemma NoDup_dedup l : NoDup (dedup l).
Proof. apply NoDup_dedup_from. Qed.

Lemma dedup_from_fixed seen l :
  NoDup l -> (forall x, x ∈ l -> x ∉ seen) -> dedup_from seen l = l.
Proof.
  intros Hnd. revert seen. induction Hnd as [|x l Hx _ IH]; intros seen Hs; simpl.
  - done.
  - rewrite bool_decide_false by (apply Hs; left). f_equal. apply IH.
    intros y Hy. rewrite elem_of_app, list_elem_of_singleton.
    intros [? | ->]; [|done]. eapply Hs; [by right|done].
Qed.

Lemma dedup_fixed l : NoDup l -> dedup l = l.
Proof. intros. apply dedup_from_fixed; set_solver. Qed.

Lemma dedup_idem l : dedup (dedup l) = dedup l.
Proof. apply dedup_fixed, NoDup_dedup. Qed.

Lemma dedup_from_app seen a b :
  dedup_from seen (a ++ b) = dedup_from seen a ++ dedup_from (seen ++ dedup_from seen a) b.
Proof.
  revert seen. induction a as [|x a IH]; intros seen; simpl; [by rewrite app_nil_r|].
  case_bool_decide; [apply IH|]. simpl. rewrite IH, <- app_assoc. done.
Qed.

Lemma dedup_from_filter seen l :
  NoDup l -> dedup_from seen l = bfilter (fun x => negb (bool_decide (x ∈ seen))) l.
Proof.
  intros Hnd. revert seen. induction Hnd as [|x l Hx Hnd IH]; intros seen; simpl; [done|].
  case_bool_decide; simpl; [apply IH|]. f_equal. rewrite IH.
  apply List.filter_ext_in. intros y Hy%list_elem_of_In. f_equal. apply bool_decide_ext.
  rewrite elem_of_app, list_elem_of_singleton. split; [|by left]. intros [? | ->]; done.
Qed.

End dedup.
