(* ===== verification/Machine.v ===== *)
(** * Event machines

    Components that react to events (the browser tab, the request controller) are
    machines: states that can be initial, and a partial step on an event, [None] when
    the event cannot happen in that state.  The file has their runs, as a relation for
    proofs and as a function for evaluation, and the proof rules on them. *)

From S2P Require Import Prelude.

Record Machine (S E : Type) := {
  initial : S -> Prop;
  next : E -> S -> option S }.
Arguments initial {S E} _ _.
Arguments next {S E} _ _ _.

Section machine.
Context {S E : Type} (M : Machine S E).

Inductive runs : S -> list E -> S -> Prop :=
  | runs_nil s : runs s [] s
  | runs_cons s e s1 es s2 : next M e s = Some s1 -> runs s1 es s2 -> runs s (e :: es) s2.

Definition reaches (s : S) : Prop := exists s0 es, initial M s0 /\ runs s0 es s.

Fixpoint exec (es : list E) (s : S) : option S :=
  match es with
  | [] => Some s
  | e :: es' => s1 ← next M e s; exec es' s1
  end.

Lemma exec_runs es s s' : exec es s = Some s' <-> runs s es s'.
Proof.
  split.
  - revert s. induction es as [|e es IH]; intros s H; simpl in H; [injection H as ->; constructor|].
    apply bind_Some in H as (s1 & H1 & H2). econstructor; eauto.
  - induction 1 as [|s e s1 es s2 H _ IH]; simpl; [done|]. by rewrite H.
Qed.

(** A run is determined by its events. *)
Lemma runs_functional s es s1 s2 : runs s es s1 -> runs s es s2 -> s1 = s2.
Proof. rewrite <- !exec_runs. congruence. Qed.

(** The rule for invariants. *)
Lemma runs_invariant (I : S -> Prop) s es s' :
  (forall e s s', next M e s = Some s' -> I s -> I s') -> runs s es s' -> I s -> I s'.
Proof. intros HI. induction 1; eauto. Qed.

Lemma reaches_invariant (I : S -> Prop) s :
  (forall s0, initial M s0 -> I s0) -> (forall e s s', next M e s = Some s' -> I s -> I s') ->
  reaches s -> I s.
Proof. intros H0 HI (s0 & es & Hi & Hr). eapply runs_invariant; eauto. Qed.

(** The rule for what every step preserves between its two states. *)
Lemma runs_preorder (R : S -> S -> Prop) `{!PreOrder R} s es s' :
  (forall e s s', next M e s = Some s' -> R s s') -> runs s es s' -> R s s'.
Proof.
  intros HR. induction 1 as [|s e s1 es s2 H _ IH]; [reflexivity|]. transitivity s1; eauto.
Qed.
End machine.
