(* ===== verification/JsString.v ===== *)
(** * JavaScript strings

    A JavaScript string is a sequence of 16-bit code units; here a [list N].
    The file defines the [String.prototype] methods the client calls ([trim],
    [split], [join], [includes], [startsWith], [indexOf], [slice], ...), decimal
    numerals, and their lemmas.  Positions are [nat]. *)

From Stdlib Require Import Ascii String.
From S2P Require Import Prelude.
Export StringSyntax.

Abbreviation jstr := (list N).

(** An ASCII literal as a JavaScript string. *)
Definition js (s : string) : jstr := map N_of_ascii (list_ascii_of_string s).

(** The same, with each back quote standing for a double quote (U+0022). *)
Definition jsq (s : string) : jstr :=
  map (fun c => if N.eqb c 96 then 34%N else c) (js s).

Arguments js _%_string_scope.
Arguments jsq _%_string_scope.

Definition jeqb (a b : jstr) : bool := bool_decide (a = b).
Infix "=s" := jeqb (at level 70).

(** The [WhiteSpace] and [LineTerminator] code points stripped by [trim] and
    matched by [\s]. *)
Definition is_ws (c : N) : bool :=
  ((9 <=? c) && (c <=? 13) || (c =? 32) || (c =? 160) || (c =? 5760) ||
   (8192 <=? c) && (c <=? 8202) || (c =? 8232) || (c =? 8233) || (c =? 8239) ||
   (c =? 8287) || (c =? 12288) || (c =? 65279))%N.

Definition is_digit (c : N) : bool := ((48 <=? c) && (c <=? 57))%N.

(** Truthiness of a string: non-empty. *)
Definition truthy (s : jstr) : bool := match s with [] => false | _ => true end.

(** [a || b] on strings. *)
Definition str_or (a b : jstr) : jstr := if truthy a then a else b.

(** [toLowerCase] on the code units of ASCII. *)
Definition lower_unit (c : N) : N := (if (65 <=? c) && (c <=? 90) then c + 32 else c)%N.
Definition ascii_lower (s : jstr) : jstr := map lower_unit s.

Definition trim_start (s : jstr) : jstr := snd (span is_ws s).
Definition trim_end (s : jstr) : jstr := rev (trim_start (rev s)).
Definition trim (s : jstr) : jstr := trim_end (trim_start s).

Fixpoint starts_with (p s : jstr) : bool :=
  match p, s with
  | [], _ => true
  | _, [] => false
  | a :: p', b :: s' => N.eqb a b && starts_with p' s'
  end.

Definition ends_with (p s : jstr) : bool := starts_with (rev p) (rev s).

Fixpoint index_of_from (pos : nat) (p s : jstr) : option nat :=
  if starts_with p s then Some pos
  else match s with
       | [] => None
       | _ :: t => index_of_from (S pos) p t
       end.

(** [s.indexOf(p)]; [None] stands for -1. *)
Definition index_of (p s : jstr) : option nat := index_of_from 0 p s.

(** [s.indexOf(p, from)]. *)
Definition index_of_at (p s : jstr) (from : nat) : option nat :=
  index_of_from from p (drop from s).

Definition includes (p s : jstr) : bool :=
  match index_of p s with Some _ => true | None => false end.

(** [s.slice(a, b)] for [0 <= a], [0 <= b]. *)
Definition slice (a b : nat) (s : jstr) : jstr := take (b - a) (drop a s).
(** [s.slice(a)] for [0 <= a]. *)
Definition slice_from (a : nat) (s : jstr) : jstr := drop a s.
(** [s.slice(-n)] for [0 < n]. *)
Definition slice_last (n : nat) (s : jstr) : jstr := drop (length s - n) s.

(** [s.split(c)] for a one-unit separator. *)
Fixpoint split_on (c : N) (s : jstr) : list jstr :=
  match s with
  | [] => [[]]
  | x :: t =>
      if N.eqb x c then [] :: split_on c t
      else match split_on c t with
           | [] => [[x]]
           | h :: r => (x :: h) :: r
           end
  end.

Fixpoint join (sep : jstr) (l : list jstr) : jstr :=
  match l with
  | [] => []
  | [x] => x
  | x :: t => x ++ sep ++ join sep t
  end.

(** [s.replace(/c/g, d)] on single units. *)
Definition replace_unit (p : N -> bool) (d : jstr) (s : jstr) : jstr :=
  concat (map (fun c => if p c then d else [c]) s).

(** ** Decimal numerals *)

Definition digit_val (c : N) : N := (c - 48)%N.

(** Value of a string of digits ([Number.parseInt(s, 10)] on [/^\d+$/]). *)
Definition dec_val (s : jstr) : N :=
  fold_left (fun acc c => (acc * 10 + digit_val c)%N) s 0%N.

Fixpoint show_N_fuel (fuel : nat) (n : N) (acc : jstr) : jstr :=
  match fuel with
  | O => acc
  | S f =>
      let acc' := (48 + n mod 10)%N :: acc in
      if (n <? 10)%N then acc' else show_N_fuel f (n / 10)%N acc'
  end.

(** [String(n)] for a non-negative integer below 10^21; [N.size_nat n + 1]
    rounds suffice since each divides by ten. *)
Definition show_N (n : N) : jstr := show_N_fuel (S (N.size_nat n)) n [].

Definition show_nat (n : nat) : jstr := show_N (N.of_nat n).

Definition show_Z (z : Z) : jstr :=
  match z with
  | Zneg p => 45%N :: show_N (Npos p)
  | _ => show_N (Z.to_N z)
  end.

(** ** Equality *)

Lemma jeqb_eq a b : jeqb a b = true <-> a = b.
Proof. apply bool_decide_eq_true. Qed.

Lemma jeqb_neq a b : jeqb a b = false <-> a <> b.
Proof. apply bool_decide_eq_false. Qed.

Lemma jeqb_refl a : jeqb a a = true.
Proof. by apply jeqb_eq. Qed.

Lemma truthy_spec s : truthy s = true <-> s <> [].
Proof. by destruct s. Qed.

Lemma truthy_false s : truthy s = false <-> s = [].
Proof. by destruct s. Qed.

(** ** Trimming *)

(** A string [trim] leaves alone: no white space at either end. *)
Definition trimmed (s : jstr) : Prop :=
  match s with [] => True | c :: _ => is_ws c = false end /\
  match rev s with [] => True | c :: _ => is_ws c = false end.

Lemma trim_start_head s :
  match trim_start s with [] => True | c :: _ => is_ws c = false end.
Proof.
  unfold trim_start. induction s as [|c s IH]; simpl; [done|].
  destruct (is_ws c) eqn:E; [|done]. by destruct (span is_ws s).
Qed.

Lemma trim_start_id s :
  match s with [] => True | c :: _ => is_ws c = false end -> trim_start s = s.
Proof. destruct s as [|c s]; [done|]. unfold trim_start. simpl. by intros ->. Qed.

Lemma trim_start_suffix s : exists w, s = w ++ trim_start s /\ Forall (fun c => is_ws c = true) w.
Proof.
  unfold trim_start. induction s as [|c s (w & Hw & Hf)]; simpl.
  - by exists [].
  - destruct (is_ws c) eqn:E; [|by exists []].
    destruct (span is_ws s) as [a b] eqn:F; simpl in *.
    exists (c :: w). split; [by rewrite Hw|by constructor].
Qed.

Lemma trim_end_prefix s :
  exists w, s = trim_end s ++ w /\ Forall (fun c => is_ws c = true) w.
Proof.
  destruct (trim_start_suffix (rev s)) as (w & Hw & Hf). exists (rev w). split.
  - unfold trim_end. rewrite <- rev_app_distr, <- Hw. by rewrite rev_involutive.
  - by apply Forall_rev.
Qed.

Lemma trim_trimmed s : trimmed (trim s).
Proof.
  unfold trim. split.
  - destruct (trim_end_prefix (trim_start s)) as (w & Hw & _).
    pose proof (trim_start_head s) as H. rewrite Hw in H.
    by destruct (trim_end (trim_start s)).
  - unfold trim_end. rewrite rev_involutive. apply trim_start_head.
Qed.

Lemma trim_id s : trimmed s -> trim s = s.
Proof.
  intros [H1 H2]. unfold trim. rewrite trim_start_id by done.
  unfold trim_end. rewrite trim_start_id by done. apply rev_involutive.
Qed.

(** White space at the end is dropped. *)
Lemma trim_snoc s c : is_ws c = true -> trim (s ++ [c]) = trim s.
Proof.
  intros Hc. unfold trim. assert (trim_start (s ++ [c]) = match trim_start s with [] => [] | u => u ++ [c] end) as ->.
  { unfold trim_start. induction s as [|x s IH]; simpl; [by rewrite Hc|]. destruct (is_ws x); [|done].
    destruct (span is_ws (s ++ [c])), (span is_ws s). exact IH. }
  destruct (trim_start s) as [|x u]; [done|]. unfold trim_end. rewrite rev_app_distr. f_equal. cbn [rev app].
  unfold trim_start at 1. cbn [span]. rewrite Hc. by destruct (span is_ws (rev u ++ [x])) eqn:E; unfold trim_start; rewrite E.
Qed.

Lemma trim_idem s : trim (trim s) = trim s.
Proof. apply trim_id, trim_trimmed. Qed.

Lemma trim_nil : trim [] = [].
Proof. done. Qed.

(** [trim] removes a prefix and a suffix of white space, nothing else. *)
Lemma trim_split s :
  exists a b, s = a ++ trim s ++ b /\
    Forall (fun c => is_ws c = true) a /\ Forall (fun c => is_ws c = true) b.
Proof.
  destruct (trim_start_suffix s) as (a & Ha & Hfa).
  destruct (trim_end_prefix (trim_start s)) as (b & Hb & Hfb).
  exists a, b. split; [|done]. rewrite Ha at 1. by rewrite Hb at 1.
Qed.

Lemma trim_nonws s c : c ∈ s -> is_ws c = false -> trim s <> [].
Proof.
  intros Hc Hw E. destruct (trim_split s) as (a & b & Hs & Ha & Hb). rewrite E in Hs. cbn [app] in Hs.
  rewrite Hs in Hc. apply elem_of_app in Hc. rewrite Forall_forall in Ha, Hb.
  destruct Hc as [Hc | Hc]; [apply Ha in Hc | apply Hb in Hc]; congruence.
Qed.

Lemma trim_length s : length (trim s) <= length s.
Proof.
  destruct (trim_split s) as (a & b & Hs & _ & _). rewrite Hs at 2.
  rewrite !length_app. lia.
Qed.

Lemma trimmed_ends s x y t :
  s = x :: t -> last s = Some y -> is_ws x = false -> is_ws y = false -> trimmed s.
Proof.
  intros -> Hl Hx Hy. split; [done|]. apply last_Some in Hl as [l ->].
  by rewrite rev_app_distr.
Qed.

(** ** Searching *)

Lemma starts_with_spec p s : starts_with p s = true <-> exists t, s = p ++ t.
Proof.
  revert s. induction p as [|a p IH]; intros s; simpl.
  - split; [eauto|done].
  - destruct s as [|b s].
    + split; [done|]. by intros [t ?].
    + rewrite andb_true_iff, N.eqb_eq, IH. split.
      * intros [-> [t ->]]. by exists t.
      * intros [t [= -> ->]]. eauto.
Qed.

Lemma starts_with_app p s : starts_with p (p ++ s) = true.
Proof. apply starts_with_spec. eauto. Qed.

Lemma starts_with_false_head p a s b t :
  p = a :: s -> a <> b -> starts_with p (b :: t) = false.
Proof. intros -> Hne. simpl. by rewrite (proj2 (N.eqb_neq _ _) Hne). Qed.

Lemma starts_with_sound p s n :
  starts_with p s = true -> s = p ++ drop (length p) s /\ (n = length p -> take n s = p).
Proof.
  intros [t ->]%starts_with_spec. rewrite drop_app_length. split; [done|].
  intros ->. apply take_app_length.
Qed.

Lemma index_of_from_shift p s k :
  index_of_from k p s = (fun i => k + i) <$> index_of_from 0 p s.
Proof.
  revert k. induction s as [|x s IH]; intros k; simpl.
  - destruct (starts_with p []); simpl; [f_equal; lia|done].
  - destruct (starts_with p (x :: s)); simpl; [f_equal; lia|].
    rewrite (IH (S k)), (IH 1). destruct (index_of_from 0 p s); simpl; [f_equal; lia|done].
Qed.

(** The first occurrence: [s] splits at it, and no earlier split works. *)
Lemma index_of_Some p s i :
  index_of p s = Some i ->
  s = take i s ++ p ++ drop (i + length p) s /\ i + length p <= length s /\
  forall j, j < i -> starts_with p (drop j s) = false.
Proof.
  unfold index_of. revert i. induction s as [|x s IH]; intros i; simpl.
  - destruct (starts_with p []) eqn:E; [|done]. intros [= <-].
    destruct p; [|done]. simpl. repeat split; [lia|]. intros; lia.
  - destruct (starts_with p (x :: s)) eqn:E.
    + intros [= <-]. simpl. apply starts_with_spec in E as [t Ht].
      rewrite Ht, drop_app_length. repeat split; [|intros; lia].
      change (S (length s)) with (length (x :: s)). rewrite Ht, length_app. lia.
    + rewrite index_of_from_shift. destruct (index_of_from 0 p s) as [k|] eqn:F; [|done].
      simpl. intros [= <-]. destruct (IH k eq_refl) as (Hs & Hl & Hj). simpl.
      split; [by f_equal|]. split; [lia|].
      intros [|j] Hlt; simpl; [done|]. apply Hj. lia.
Qed.

Lemma index_of_None p s :
  index_of p s = None <-> forall j, j <= length s -> starts_with p (drop j s) = false.
Proof.
  unfold index_of. induction s as [|x s IH]; simpl.
  - destruct (starts_with p []) eqn:E; split; try done.
    + intros H. specialize (H 0 ltac:(lia)). simpl in H. congruence.
    + intros _ j _. by rewrite drop_nil.
  - destruct (starts_with p (x :: s)) eqn:E.
    + split; [done|]. intros H. specialize (H 0 ltac:(lia)). simpl in H. congruence.
    + rewrite index_of_from_shift, fmap_None, IH. split.
      * intros H [|j] Hj; [done|]. apply H. lia.
      * intros H j Hj. apply (H (S j)). lia.
Qed.

Lemma includes_spec p s : includes p s = true <-> exists a b, s = a ++ p ++ b.
Proof.
  unfold includes. destruct (index_of p s) as [i|] eqn:E.
  - split; [|done]. intros _. apply index_of_Some in E as (H & _). eauto.
  - split; [done|]. intros (a & b & ->). rewrite index_of_None in E.
    specialize (E (length a)). rewrite drop_app_length, starts_with_app in E.
    rewrite length_app in E. discriminate E. lia.
Qed.

(** A pattern with a unit that the string lacks does not occur. *)
Lemma includes_missing p s c : c ∈ p -> c ∉ s -> includes p s = false.
Proof.
  intros Hp Hs. apply not_true_is_false. intros (a & b & ->)%includes_spec.
  apply Hs. rewrite !elem_of_app. auto.
Qed.

(** ** Splitting and joining *)

Lemma split_on_not_nil c s : split_on c s <> [].
Proof.
  destruct s as [|x s]; simpl; [done|]. destruct (N.eqb x c); [done|].
  by destruct (split_on c s).
Qed.

Lemma split_on_none c s : c ∉ s -> split_on c s = [s].
Proof.
  induction s as [|x s IH]; simpl; [done|]. intros H.
  apply not_elem_of_cons in H as [Hx H].
  rewrite (proj2 (N.eqb_neq x c)) by done. by rewrite IH.
Qed.

Lemma split_on_app c a s : c ∉ a -> split_on c (a ++ c :: s) = a :: split_on c s.
Proof.
  induction a as [|x a IH]; simpl; intros H.
  - by rewrite N.eqb_refl.
  - apply not_elem_of_cons in H as [Hx H].
    rewrite (proj2 (N.eqb_neq x c)) by done. by rewrite IH.
Qed.

Lemma split_join c l :
  l <> [] -> Forall (fun s => c ∉ s) l -> split_on c (join [c] l) = l.
Proof.
  intros Hne Hf. induction Hf as [|s l Hs Hf IH]; [done|].
  destruct l as [|t l]; simpl.
  - by apply split_on_none.
  - rewrite split_on_app by done. f_equal. by apply IH.
Qed.

Lemma split_on_no_sep c s : Forall (fun p => c ∉ p) (split_on c s).
Proof.
  induction s as [|x s IH]; simpl; [by repeat constructor; apply not_elem_of_nil|].
  destruct (N.eqb_spec x c).
  - constructor; [apply not_elem_of_nil|done].
  - destruct (split_on c s) as [|h r]; simpl.
    + repeat constructor. apply not_elem_of_cons. split; [done|apply not_elem_of_nil].
    + inversion IH; subst. constructor; [|done]. by apply not_elem_of_cons.
Qed.

Lemma join_split c s : join [c] (split_on c s) = s.
Proof.
  induction s as [|x s IH]; simpl; [done|].
  pose proof (split_on_not_nil c s) as Hne. destruct (N.eqb_spec x c) as [-> | Hx].
  - destruct (split_on c s) as [|h r]; [done|]. simpl in *. by rewrite IH.
  - destruct (split_on c s) as [|h r]; [done|]. destruct r; simpl in *; by rewrite IH.
Qed.

Lemma join_cons sep x t : t <> [] -> join sep (x :: t) = x ++ sep ++ join sep t.
Proof. by destruct t. Qed.

Lemma join_app sep l1 l2 :
  l1 <> [] -> l2 <> [] -> join sep (l1 ++ l2) = join sep l1 ++ sep ++ join sep l2.
Proof.
  intros H1 H2. induction l1 as [|x l1 IH]; [done|]. destruct l1 as [|y l1].
  - change ([x] ++ l2) with (x :: l2). by rewrite join_cons.
  - rewrite (join_cons sep x (y :: l1)) by done.
    change ((x :: y :: l1) ++ l2) with (x :: ((y :: l1) ++ l2)).
    rewrite join_cons, IH by done. by rewrite <- !app_assoc.
Qed.

Lemma join_nil_inv sep l :
  join sep l = [] -> Forall (fun s => s <> []) l -> l = [].
Proof.
  destruct l as [|x [|y l]]; simpl; [done|..]; intros H Hf; inversion Hf; subst.
  - done.
  - by destruct x.
Qed.

(** ** Numerals *)

Lemma show_N_fuel_app f n acc : show_N_fuel f n acc = show_N_fuel f n [] ++ acc.
Proof.
  revert n acc. induction f as [|f IH]; intros n acc; simpl; [done|].
  destruct (n <? 10)%N; [done|].
  rewrite IH, (IH _ [(48 + n `mod` 10)%N]). by rewrite <- app_assoc.
Qed.

Lemma dec_val_app a b :
  dec_val (a ++ b) = fold_left (fun acc c => (acc * 10 + digit_val c)%N) b (dec_val a).
Proof. unfold dec_val. by rewrite fold_left_app. Qed.

Lemma show_N_fuel_val f n :
  (n < 2 ^ N.of_nat f)%N -> dec_val (show_N_fuel f n []) = n.
Proof.
  revert n. induction f as [|f IH]; intros n Hn.
  - simpl in *. unfold dec_val. simpl. lia.
  - simpl. destruct (N.ltb_spec n 10).
    + unfold dec_val, digit_val. simpl. rewrite N.mod_small by done. lia.
    + rewrite show_N_fuel_app, dec_val_app, IH.
      * simpl. unfold digit_val. clear IH Hn. rewrite (N.add_comm 48), N.add_sub. rewrite N.mul_comm. symmetry. apply N.Div0.div_mod.
      * rewrite Nat2N.inj_succ, N.pow_succ_r' in Hn.
        apply N.Div0.div_lt_upper_bound. lia.
Qed.

Lemma N_size_nat_bound n : (n < 2 ^ N.of_nat (S (N.size_nat n)))%N.
Proof.
  destruct n as [|p]; [done|]. simpl N.size_nat.
  rewrite Nat2N.inj_succ. pose proof (Pos.size_nat_monotone p p).
  assert (Npos p < 2 ^ N.of_nat (Pos.size_nat p))%N.
  { clear. induction p as [p IH|p IH|]; simpl Pos.size_nat.
    - rewrite Nat2N.inj_succ, N.pow_succ_r'. lia.
    - rewrite Nat2N.inj_succ, N.pow_succ_r'. lia.
    - done. }
  rewrite N.pow_succ_r'. lia.
Qed.

(** Printing then reading a numeral gives the number back. *)
Lemma dec_val_show_N n : dec_val (show_N n) = n.
Proof. apply show_N_fuel_val, N_size_nat_bound. Qed.

Lemma show_N_fuel_digits f n acc :
  Forall (fun c => is_digit c = true) acc ->
  Forall (fun c => is_digit c = true) (show_N_fuel f n acc).
Proof.
  revert n acc. induction f as [|f IH]; intros n acc Ha; simpl; [done|].
  assert (is_digit (48 + n `mod` 10)%N = true).
  { unfold is_digit. pose proof (N.mod_lt n 10 ltac:(done)). bsplit; apply N.leb_le; lia. }
  destruct (n <? 10)%N; [by constructor|]. apply IH. by constructor.
Qed.

Lemma show_N_digits n : Forall (fun c => is_digit c = true) (show_N n).
Proof. apply show_N_fuel_digits. constructor. Qed.

Lemma show_N_not_nil n : show_N n <> [].
Proof.
  unfold show_N. simpl. destruct (n <? 10)%N; [done|].
  rewrite show_N_fuel_app. by destruct (show_N_fuel _ _ []).
Qed.

Lemma show_N_inj a b : show_N a = show_N b -> a = b.
Proof. intros H. by rewrite <- (dec_val_show_N a), H, dec_val_show_N. Qed.

Lemma digit_not_ws c : is_digit c = true -> is_ws c = false.
Proof.
  unfold is_digit, is_ws. intros. bsplit; rewrite ?N.leb_le in *;
  repeat (apply orb_false_iff; split); rewrite ?andb_false_iff, ?N.leb_gt, ?N.eqb_neq; lia.
Qed.

(** A unit that does not occur in a closed text, by evaluation. *)
Lemma closed_missing x w : existsb (N.eqb x) w = false -> x ∉ w.
Proof.
  rewrite existsb_none. intros H Hin. specialize (H x Hin). by rewrite N.eqb_refl in H.
Qed.

(** ** Comparison by code units

    One concrete [localeCompare], for examples. *)
Fixpoint unit_compare (a b : jstr) : Z :=
  match a, b with
  | [], [] => 0
  | [], _ => -1
  | _, [] => 1
  | x :: a', y :: b' => if (x <? y)%N then (-1)%Z else if (y <? x)%N then 1 else unit_compare a' b'
  end.

Lemma unit_compare_swap a b : unit_compare b a = (- unit_compare a b)%Z.
Proof.
  revert b. induction a as [|x a IH]; intros [|y b]; try done. simpl.
  destruct (N.ltb_spec x y), (N.ltb_spec y x); try lia. apply IH.
Qed.

Lemma unit_compare_zero a b : unit_compare a b = 0%Z -> a = b.
Proof.
  revert b. induction a as [|x a IH]; intros [|y b]; try done. simpl.
  destruct (N.ltb_spec x y), (N.ltb_spec y x); try lia; try done. intros E%IH. f_equal; [lia|done].
Qed.

Lemma unit_compare_trans a b c : (unit_compare a b <= 0 -> unit_compare b c <= 0 -> unit_compare a c <= 0)%Z.
Proof.
  revert b c. induction a as [|x a IH]; intros [|y b] [|z c]; simpl; try lia.
  destruct (N.ltb_spec x y), (N.ltb_spec y x), (N.ltb_spec y z), (N.ltb_spec z y), (N.ltb_spec x z), (N.ltb_spec z x); try lia.
  apply IH.
Qed.
