(* ===== verification/StatusRules.v ===== *)
(** * HTTP status code rules (web/src/lib/http-status-code-rules.ts)

    Administrators write the status codes that disable or retry a channel as
    comma separated codes and ranges.  [parseHttpStatusCodeRules] validates the
    text, merges the ranges and prints them back in normal form.

    [Number.parseInt] of a digit string is its value as an [N]: a numeral above
    2^53 would be rounded by JavaScript, but such a value is outside [100, 599]
    with or without rounding, so the result of [parseToken] is the same. *)

From S2P Require Import Prelude JsString.

Record StatusCodeRange := { start : N; end_ : N }.

Record ParsedHttpStatusCodeRules := {
  ok : bool;
  ranges : list StatusCodeRange;
  tokens : list jstr;
  normalized : jstr;
  invalidTokens : list jstr;
}.

(** [/^\d+$/.test(s)] *)
Definition isNumber (s : jstr) : bool := truthy s && forallb is_digit s.

Definition isValidCode (code : N) : bool := ((100 <=? code) && (code <=? 599))%N.

Definition parseToken (token : jstr) : option StatusCodeRange :=
  let cleaned := replace_unit is_ws [] (trim token) in
  if negb (truthy cleaned) then None
  else if includes (js "-") cleaned then
    (* [const [a, b] = cleaned.split('-')] ignores further parts *)
    match split_on 45 cleaned with
    | a :: b :: _ =>
        if negb (isNumber a) || negb (isNumber b) then None
        else
          let s := dec_val a in
          let e := dec_val b in
          if negb (isValidCode s) || negb (isValidCode e) || (e <? s)%N then None
          else Some {| start := s; end_ := e |}
    | _ => None
    end
  else if negb (isNumber cleaned) then None
  else
    let code := dec_val cleaned in
    if negb (isValidCode code) then None
    else Some {| start := code; end_ := code |}.

(** The comparator of [mergeRanges], as "not after". *)
Definition range_le (a b : StatusCodeRange) : bool :=
  if N.eqb (start a) (start b) then (end_ a <=? end_ b)%N
  else (start a <? start b)%N.

(** One step of the [reduce]; the accumulator is [merged] reversed, so that its
    last element, which the code mutates in place, is the head. *)
Definition merge_step (merged : list StatusCodeRange) (current : StatusCodeRange)
  : list StatusCodeRange :=
  match merged with
  | [] => [current]
  | last :: rest =>
      if (end_ last + 1 <? start current)%N then current :: merged
      else {| start := start last; end_ := N.max (end_ last) (end_ current) |} :: rest
  end.

Definition mergeRanges (rs : list StatusCodeRange) : list StatusCodeRange :=
  rev (fold_left merge_step (js_sort range_le rs) []).

Definition range_token (r : StatusCodeRange) : jstr :=
  if N.eqb (start r) (end_ r) then show_N (start r)
  else show_N (start r) ++ js "-" ++ show_N (end_ r).

Definition is_invalid (seg : jstr) : bool :=
  match parseToken seg with None => true | Some _ => false end.

Definition segments_of (raw : jstr) : list jstr :=
  bfilter truthy (map trim (split_on 44 (replace_unit (N.eqb 65292) (js ",") raw))).

(** [input] is the string [(input ?? '').toString()]; [None] is a nullish input. *)
Definition parseHttpStatusCodeRules (input : option jstr)
  : ParsedHttpStatusCodeRules :=
  let raw := trim (default [] input) in
  if (length raw =? 0)%nat then
    {| ok := true; ranges := []; tokens := []; normalized := []; invalidTokens := [] |}
  else
    let segments := segments_of raw in
    let parsed := omap parseToken segments in
    let invalid := bfilter is_invalid segments in
    if (0 <? length invalid)%nat then
      {| ok := false; ranges := []; tokens := []; normalized := raw;
         invalidTokens := invalid |}
    else
      let merged := mergeRanges parsed in
      let toks := map range_token merged in
      {| ok := true; ranges := merged; tokens := toks;
         normalized := join (js ",") toks; invalidTokens := [] |}.

(** ** Specification *)

(** A status code is selected by a range. *)
Definition in_range (n : N) (r : StatusCodeRange) : Prop :=
  (start r <= n /\ n <= end_ r)%N.

Definition valid_range (r : StatusCodeRange) : Prop :=
  (100 <= start r /\ start r <= end_ r /\ end_ r <= 599)%N.

(** Normal form: sorted, and separated by at least one unselected code. *)
Definition separated (a b : StatusCodeRange) : Prop := (end_ a + 1 < start b)%N.

(** ** [parseToken] *)

Lemma parseToken_valid tok r : parseToken tok = Some r -> valid_range r.
Proof.
  unfold parseToken, valid_range, isValidCode. intros H. cases; simpl; lia.
Qed.

(** ** [mergeRanges] *)

Lemma range_le_total a b : range_le a b = true \/ range_le b a = true.
Proof. unfold range_le. destruct (N.eqb_spec (start a) (start b)), (N.eqb_spec (start b) (start a)); lia. Qed.

Lemma range_le_trans a b c :
  range_le a b = true -> range_le b c = true -> range_le a c = true.
Proof. unfold range_le. intros. cases; lia. Qed.

Lemma range_le_start a b : range_le a b = true -> (start a <= start b)%N.
Proof. unfold range_le. intros. cases; lia. Qed.

(** Loop invariant of the [reduce], on the reversed accumulator: it is in normal
    form, every remaining range starts no earlier than the last merged one, and
    the accumulator selects the codes of the ranges consumed so far. *)
Definition merge_inv (acc : list StatusCodeRange) : Prop :=
  StronglySorted (fun b a => separated a b) acc /\ Forall valid_range acc.

Lemma merge_step_inv acc r :
  merge_inv acc -> valid_range r ->
  match acc with [] => True | l :: _ => (start l <= start r)%N end ->
  merge_inv (merge_step acc r) /\
  match merge_step acc r with [] => True | l :: _ => (start l <= start r)%N end /\
  (forall n, (exists x, x ∈ merge_step acc r /\ in_range n x) <->
             in_range n r \/ exists x, x ∈ acc /\ in_range n x).
Proof.
  intros [Hs Hv] Hr Hle. unfold merge_step. destruct acc as [|l rest].
  { split; [split; [apply SSorted_cons; [apply SSorted_nil|done]|by constructor]|]. split; [done|]. intros n. split.
    - intros (x & Hx & ?). apply list_elem_of_singleton in Hx as ->. by left.
    - intros [?|(x & Hx & _)]; [|by apply elem_of_nil in Hx].
      exists r. by rewrite list_elem_of_singleton. }
  apply StronglySorted_inv in Hs as [Hs Hf]. inversion Hv as [|? ? Hl Hvr]; subst.
  destruct (N.ltb_spec (end_ l + 1) (start r)).
  - split; [split; [|by constructor]|split; [done|]].
    + constructor; [by constructor|]. constructor; [done|].
      eapply Forall_impl; [exact Hf|]. unfold separated, valid_range in *. intros; lia.
    + intros n. split.
      * intros (x & Hx & ?). apply elem_of_cons in Hx as [-> | Hx]; eauto.
      * intros [?|(x & Hx & ?)]; eexists; (split; [|done]); [left|by right].
  - unfold valid_range, in_range in *.
    split; [split|split]; simpl; [|constructor; [unfold valid_range; simpl; lia|done]|lia|].
    + constructor; [done|]. eapply Forall_impl; [exact Hf|]. done.
    + intros n. split.
      * intros (x & Hx & Hi). apply elem_of_cons in Hx as [-> | Hx]; simpl in *.
        -- destruct (N.le_gt_cases n (end_ l)); [|left; lia].
           right. exists l. split; [left|lia].
        -- right. exists x. split; [by right|done].
      * intros [?|(x & Hx & Hi)]; [eexists; split; [left|simpl; lia]|].
        apply elem_of_cons in Hx as [-> | Hx]; [eexists; split; [left|simpl; lia]|].
        exists x. split; [by right|done].
Qed.

Lemma merge_fold_inv rs acc :
  StronglySorted (fun a b => range_le a b = true) rs -> Forall valid_range rs ->
  merge_inv acc ->
  match acc with [] => True | l :: _ => Forall (fun r => start l <= start r)%N rs end ->
  merge_inv (fold_left merge_step rs acc) /\
  (forall n, (exists x, x ∈ fold_left merge_step rs acc /\ in_range n x) <->
             (exists x, x ∈ rs /\ in_range n x) \/ exists x, x ∈ acc /\ in_range n x).
Proof.
  revert acc. induction rs as [|r rs IH]; intros acc Hs Hv Hi Hle; simpl.
  { split; [done|]. intros n. split; [by right|].
    intros [(x & Hx & _)|?]; [by apply elem_of_nil in Hx|done]. }
  apply StronglySorted_inv in Hs as [Hs Hf]. inversion Hv as [|? ? Hr Hvs]; subst.
  destruct (merge_step_inv acc r Hi Hr) as (Hi' & Hhd & Hcov).
  { destruct acc; [done|]. by inversion Hle. }
  destruct (IH (merge_step acc r)) as [Hi'' Hcov']; [done..| |].
  { destruct (merge_step acc r) as [|l t]; [done|].
    eapply Forall_impl; [exact Hf|]. intros x Hx%range_le_start. simpl in *. lia. }
  split; [done|]. intros n. rewrite Hcov', Hcov. split.
  - intros [(x & Hx & ?)|[?|?]]; [left; exists x; split; [by right|done]
                                 |left; exists r; split; [left|done]|by right].
  - intros [(x & Hx & ?)|?]; [|by right; right].
    apply elem_of_cons in Hx as [-> | Hx]; [by right; left|left; eauto].
Qed.

Lemma mergeRanges_spec rs :
  Forall valid_range rs ->
  StronglySorted separated (mergeRanges rs) /\ Forall valid_range (mergeRanges rs) /\
  forall n, (exists x, x ∈ mergeRanges rs /\ in_range n x) <->
            (exists x, x ∈ rs /\ in_range n x).
Proof.
  intros Hv. destruct (merge_fold_inv (js_sort range_le rs) []) as [[Hs Hv'] Hcov].
  - apply js_sort_sorted; [apply range_le_total|apply range_le_trans].
  - by rewrite js_sort_perm.
  - split; [apply SSorted_nil|done].
  - done.
  - unfold mergeRanges. split; [|split].
    + apply (StronglySorted_rev _ _ Hs).
    + by apply Forall_rev.
    + intros n. setoid_rewrite elem_of_rev. rewrite Hcov.
      setoid_rewrite elem_of_js_sort. split; [|by left].
      intros [?|(x & Hx & _)]; [done|by apply elem_of_nil in Hx].
Qed.

(** A list already in normal form is left alone. *)
Lemma merge_fold_fixed rs acc :
  StronglySorted separated rs ->
  match acc with [] => True | l :: _ => Forall (separated l) rs end ->
  fold_left merge_step rs acc = rev rs ++ acc.
Proof.
  revert acc. induction rs as [|r rs IH]; intros acc Hs Ha; simpl; [done|].
  apply StronglySorted_inv in Hs as [Hs Hf].
  assert (merge_step acc r = r :: acc) as ->.
  { destruct acc as [|l acc]; [done|]. simpl. inversion Ha as [|? ? Hl]; subst.
    unfold separated in Hl. by rewrite (proj2 (N.ltb_lt _ _) Hl). }
  rewrite IH by done. by rewrite <- app_assoc.
Qed.

Lemma separated_sorted rs :
  StronglySorted separated rs -> Forall valid_range rs ->
  StronglySorted (fun a b => range_le a b = true) rs.
Proof.
  induction 1 as [|r rs Hs IH Hf]; intros Hv; [constructor|].
  inversion Hv as [|? ? Hr Hvs]; subst. constructor; [auto|].
  eapply Forall_impl; [exact Hf|]. unfold separated, range_le, valid_range in *.
  intros x Hx. destruct (N.eqb_spec (start r) (start x)); lia.
Qed.

Lemma mergeRanges_fixed rs :
  StronglySorted separated rs -> Forall valid_range rs -> mergeRanges rs = rs.
Proof.
  intros Hs Hv. unfold mergeRanges. rewrite js_sort_id by by apply separated_sorted.
  rewrite merge_fold_fixed by done. by rewrite app_nil_r, rev_involutive.
Qed.

(** ** Printing and reading back *)

Lemma digits_no_unit s c :
  Forall (fun d => is_digit d = true) s -> is_digit c = false -> c ∉ s.
Proof. rewrite Forall_forall. intros H Hc Hin. specialize (H c Hin). congruence. Qed.

Lemma replace_unit_none p d s :
  Forall (fun c => p c = false) s -> replace_unit p d s = s.
Proof.
  unfold replace_unit. induction 1 as [|c s Hc _ IH]; simpl; [done|].
  by rewrite Hc, IH.
Qed.

Lemma no_ws_trimmed s : Forall (fun c => is_ws c = false) s -> trimmed s.
Proof.
  intros H. split.
  - by destruct H.
  - apply Forall_rev in H. by destruct H.
Qed.

Lemma show_N_no_ws n : Forall (fun c => is_ws c = false) (show_N n).
Proof. eapply Forall_impl; [apply show_N_digits|]. apply digit_not_ws. Qed.

Lemma isNumber_show_N n : isNumber (show_N n) = true.
Proof.
  unfold isNumber. bsplit.
  - apply truthy_spec, show_N_not_nil.
  - apply forallb_Forall', show_N_digits.
Qed.

Lemma range_token_no_ws r : Forall (fun c => is_ws c = false) (range_token r).
Proof.
  unfold range_token. destruct (_ =? _)%N; [apply show_N_no_ws|].
  rewrite !Forall_app. repeat split; try apply show_N_no_ws. by repeat constructor.
Qed.

Lemma parseToken_clean s :
  Forall (fun c => is_ws c = false) s -> replace_unit is_ws [] (trim s) = s.
Proof. intros H. rewrite trim_id by by apply no_ws_trimmed. by apply replace_unit_none. Qed.

Lemma valid_codes r : valid_range r -> isValidCode (start r) = true /\ isValidCode (end_ r) = true.
Proof. unfold valid_range, isValidCode. lia. Qed.

Lemma parseToken_range_token r : valid_range r -> parseToken (range_token r) = Some r.
Proof.
  intros Hv. destruct (valid_codes r Hv) as [Vs Ve]. unfold parseToken.
  rewrite parseToken_clean by apply range_token_no_ws. unfold range_token.
  destruct (N.eqb_spec (start r) (end_ r)) as [E|E].
  - rewrite (proj2 (truthy_spec _) (show_N_not_nil _)). simpl negb. cbv iota.
    rewrite (includes_missing _ _ 45%N) by (left || by apply digits_no_unit, eq_refl; apply show_N_digits).
    rewrite isNumber_show_N, dec_val_show_N, Vs. simpl. f_equal. destruct r; simpl in *. by subst.
  - assert (truthy (show_N (start r) ++ js "-" ++ show_N (end_ r)) = true) as ->.
    { apply truthy_spec. pose proof (show_N_not_nil (start r)). by destruct (show_N (start r)). }
    simpl negb. cbv iota. rewrite (proj2 (includes_spec _ _)) by eauto.
    change (js "-" ++ show_N (end_ r)) with (45%N :: show_N (end_ r)).
    rewrite split_on_app, split_on_none by (by apply digits_no_unit, eq_refl; apply show_N_digits).
    rewrite !isNumber_show_N, !dec_val_show_N, Vs, Ve. simpl.
    destruct Hv as (? & ? & ?). rewrite (proj2 (N.ltb_ge _ _)) by done. by destruct r.
Qed.

Lemma range_token_segment r :
  truthy (range_token r) = true /\ trim (range_token r) = range_token r /\
  44%N ∉ range_token r /\ Forall (fun c => N.eqb 65292 c = false) (range_token r).
Proof.
  assert (Forall (fun c => is_digit c = true \/ c = 45%N) (range_token r)) as H.
  { unfold range_token. pose proof (show_N_digits (start r)). pose proof (show_N_digits (end_ r)).
    destruct (_ =? _)%N; rewrite ?Forall_app; repeat split; repeat constructor; auto;
      eapply Forall_impl; eauto; simpl; auto. }
  repeat split.
  - apply truthy_spec. unfold range_token. pose proof (show_N_not_nil (start r)).
    destruct (_ =? _)%N; [done|]. by destruct (show_N (start r)).
  - apply trim_id, no_ws_trimmed, range_token_no_ws.
  - rewrite Forall_forall in H. intros Hin. by destruct (H _ Hin).
  - eapply Forall_impl; [exact H|]. intros c [Hc | ->]; [|done].
    apply N.eqb_neq. intros <-. done.
Qed.

Lemma join_segments rs :
  rs <> [] -> segments_of (join (js ",") (map range_token rs)) = map range_token rs.
Proof.
  intros Hne. unfold segments_of. rewrite replace_unit_none.
  - rewrite split_join.
    + apply bfilter_map_id, Forall_map, Forall_true. intros r. simpl.
      destruct (range_token_segment r) as (? & ? & _). done.
    + by destruct rs.
    + apply Forall_map, Forall_true. intros r. apply range_token_segment.
  - clear Hne. induction rs as [|r rs IH]; simpl; [done|].
    destruct (range_token_segment r) as (_ & _ & _ & Hr). destruct rs as [|r' rs]; [done|].
    simpl in *. apply Forall_app. split; [done|]. by constructor.
Qed.

Lemma join_tokens_trimmed rs :
  trimmed (join (js ",") (map range_token rs)).
Proof.
  apply no_ws_trimmed. induction rs as [|r rs IH]; simpl; [done|].
  pose proof (range_token_no_ws r). destruct rs; [done|]. simpl in *.
  apply Forall_app. split; [done|]. by constructor.
Qed.

Lemma omap_valid segs : Forall valid_range (omap parseToken segs).
Proof.
  apply Forall_forall. intros r Hr. apply list_elem_of_omap in Hr as (s & _ & Hs).
  by eapply parseToken_valid.
Qed.

Lemma parse_ok_shape input :
  ok (parseHttpStatusCodeRules input) = true ->
  exists rs, parseHttpStatusCodeRules input =
    {| ok := true; ranges := rs; tokens := map range_token rs;
       normalized := join (js ",") (map range_token rs); invalidTokens := [] |} /\
    StronglySorted separated rs /\ Forall valid_range rs.
Proof.
  unfold parseHttpStatusCodeRules. intros Hok. cases.
  - exists []. repeat split; constructor.
  - eexists. split; [reflexivity|].
    destruct (mergeRanges_spec (omap parseToken (segments_of (trim (default [] input))))
              (omap_valid _)) as (? & ? & _). done.
Qed.

(** ** Theorems *)

(** The ranges of a successful parse are in normal form: sorted, each inside
    [100, 599], and any two separated by at least one code in neither. *)
Theorem status_ranges_normal (input : option jstr) :
  let r := parseHttpStatusCodeRules input in
  StronglySorted separated (ranges r) /\ Forall valid_range (ranges r).
Proof.
  unfold parseHttpStatusCodeRules. cases; simpl; try by split; constructor.
  destruct (mergeRanges_spec (omap parseToken (segments_of (trim (default [] input))))
              (omap_valid _)) as (? & ? & _). done.
Qed.

(** C34. Merging keeps the meaning: when the text parses, a status code is selected
    by the resulting ranges exactly when some comma separated segment selects it. *)
Theorem status_ranges_cover (text : jstr) (n : N) :
  ok (parseHttpStatusCodeRules (Some text)) = true ->
  (exists r, r ∈ ranges (parseHttpStatusCodeRules (Some text)) /\ in_range n r) <->
  (exists seg r, seg ∈ segments_of (trim text) /\ parseToken seg = Some r /\ in_range n r).
Proof.
  unfold parseHttpStatusCodeRules. simpl default. intros Hok. cases.
  - apply Nat.eqb_eq, nil_length_inv in Heqb. rewrite Heqb. split.
    + intros (r & Hr & _). by apply elem_of_nil in Hr.
    + intros (seg & r & Hs & _). by apply elem_of_nil in Hs.
  - destruct (mergeRanges_spec (omap parseToken (segments_of (trim text))) (omap_valid _))
      as (_ & _ & Hcov). rewrite Hcov. split.
    + intros (r & (seg & ? & ?)%list_elem_of_omap & ?). eauto.
    + intros (seg & r & ? & ? & ?). exists r. split; [|done].
      apply list_elem_of_omap. eauto.
Qed.

(** Normalisation is idempotent: parsing the normalized text of a successful
    parse succeeds with the same ranges, tokens and normalized text. *)
Theorem status_normalized_fixpoint (input : option jstr) :
  ok (parseHttpStatusCodeRules input) = true ->
  parseHttpStatusCodeRules (Some (normalized (parseHttpStatusCodeRules input))) =
  parseHttpStatusCodeRules input.
Proof.
  set (r := parseHttpStatusCodeRules input). intros Hok.
  destruct (parse_ok_shape input Hok) as (rs & Hr & Hs & Hv). fold r in Hr.
  rewrite Hr. simpl. unfold parseHttpStatusCodeRules. simpl default.
  rewrite trim_id by apply join_tokens_trimmed. destruct rs as [|x rs]; [done|].
  destruct (length (join (js ",") (map range_token (x :: rs))) =? 0)%nat eqn:E.
  { apply Nat.eqb_eq, nil_length_inv, join_nil_inv in E; [done|].
    apply Forall_map, Forall_true. intros y. apply truthy_spec, range_token_segment. }
  rewrite join_segments by done. rewrite (proj2 (bfilter_nil_iff _ _)).
  - simpl length. cbv iota. rewrite omap_map_Some, mergeRanges_fixed by
      (done || by eapply Forall_impl; [exact Hv|]; apply parseToken_range_token). done.
  - apply Forall_map. eapply Forall_impl; [exact Hv|]. intros y Hy. simpl.
    unfold is_invalid. by rewrite parseToken_range_token.
Qed.

(** The error path: a parse fails exactly when some segment is not a code or a
    range of codes; it then reports those segments, selects nothing and returns the
    trimmed text unchanged for the form to show. *)
Theorem status_parse_error (text : jstr) :
  let r := parseHttpStatusCodeRules (Some text) in
  (ok r = false <-> exists seg, seg ∈ segments_of (trim text) /\ parseToken seg = None) /\
  (forall seg, seg ∈ invalidTokens r <->
     seg ∈ segments_of (trim text) /\ parseToken seg = None) /\
  (ok r = false -> ranges r = [] /\ tokens r = [] /\ normalized r = trim text).
Proof.
  assert (forall seg, seg ∈ bfilter is_invalid (segments_of (trim text)) <->
     seg ∈ segments_of (trim text) /\ parseToken seg = None) as Hin.
  { intros seg. rewrite elem_of_bfilter. unfold is_invalid.
    destruct (parseToken seg); naive_solver. }
  unfold parseHttpStatusCodeRules. simpl default.
  destruct (length (trim text) =? 0)%nat eqn:E; simpl.
  { apply Nat.eqb_eq, nil_length_inv in E. rewrite E in *.
    split; [split; [done|]|split; [|done]].
    - intros (seg & Hs & _). by apply elem_of_nil in Hs.
    - intros seg. apply Hin. }
  destruct (bfilter is_invalid (segments_of (trim text))) as [|s l] eqn:F; simpl.
  - split; [split; [done|]|split; [|done]].
    + intros (seg & Hs). apply Hin in Hs. by apply elem_of_nil in Hs.
    + intros seg. rewrite <- Hin. done.
  - split; [|done]. split; [|done]. intros _. exists s. apply Hin. left.
Qed.

(** A token with more than two dash separated parts is accepted and its tail
    ignored: [400-499-x] reads as the range 400-499. *)
Theorem status_extra_dash_ignored (a b rest : jstr) :
  isNumber a = true -> isNumber b = true ->
  isValidCode (dec_val a) = true -> isValidCode (dec_val b) = true ->
  (dec_val a <= dec_val b)%N -> Forall (fun c => is_ws c = false) rest ->
  parseToken (a ++ js "-" ++ b ++ js "-" ++ rest) =
  Some {| start := dec_val a; end_ := dec_val b |}.
Proof.
  intros Ha Hb Va Vb Hle Hr.
  assert (forall s, isNumber s = true -> Forall (fun c => is_digit c = true) s /\ s <> []) as Hnum.
  { unfold isNumber. intros s H. bsplit. by rewrite <- forallb_Forall', <- truthy_spec. }
  destruct (Hnum a Ha) as [Da Na], (Hnum b Hb) as [Db Nb]. unfold parseToken.
  assert (forall s, Forall (fun c => is_digit c = true) s -> Forall (fun c => is_ws c = false) s) as Hws.
  { intros s Hs. eapply Forall_impl; [exact Hs|]. apply digit_not_ws. }
  rewrite parseToken_clean.
  2:{ rewrite !Forall_app. repeat split; auto; by repeat constructor. }
  assert (truthy (a ++ js "-" ++ b ++ js "-" ++ rest) = true) as -> by by destruct a.
  simpl negb. cbv iota. rewrite (proj2 (includes_spec _ _)) by eauto.
  change (a ++ js "-" ++ b ++ js "-" ++ rest) with (a ++ 45%N :: (b ++ 45%N :: rest)).
  rewrite !split_on_app by by apply digits_no_unit.
  rewrite Ha, Hb, Va, Vb. simpl. by rewrite (proj2 (N.ltb_ge _ _)).
Qed.

(** ** Evaluated examples *)

Example rules_example :
  normalized (parseHttpStatusCodeRules (Some (js " 503, 500-502 ,429,401-403 "))) =
  js "401-403,429,500-503".
Proof. vm_compute. reflexivity. Qed.

Example rules_invalid :
  invalidTokens (parseHttpStatusCodeRules (Some (js "404, 4xx, 700"))) =
  [js "4xx"; js "700"].
Proof. vm_compute. reflexivity. Qed.

(** ** Witnesses *)

Lemma status_ranges_cover_witness :
  ok (parseHttpStatusCodeRules (Some (js "500-502,503"))) = true /\
  exists r, r ∈ ranges (parseHttpStatusCodeRules (Some (js "500-502,503"))) /\ in_range 503 r.
Proof.
  split; [vm_compute; reflexivity|].
  apply (status_ranges_cover (js "500-502,503") 503); [vm_compute; reflexivity|].
  exists (js "503"), {| start := 503; end_ := 503 |}.
  split; [|split; [vm_compute; reflexivity|unfold in_range; simpl; lia]].
  vm_compute. right. left.
Defined.

Lemma status_normalized_fixpoint_witness :
  ok (parseHttpStatusCodeRules (Some (js "503,500-502"))) = true /\
  parseHttpStatusCodeRules (Some (js "500-503")) =
  parseHttpStatusCodeRules (Some (js "503,500-502")).
Proof.
  split; [vm_compute; reflexivity|].
  apply (status_normalized_fixpoint (Some (js "503,500-502"))). vm_compute. reflexivity.
Defined.

Lemma status_extra_dash_ignored_witness :
  parseToken (js "400" ++ js "-" ++ js "499" ++ js "-" ++ js "x") =
  Some {| start := 400; end_ := 499 |}.
Proof.
  apply (status_extra_dash_ignored (js "400") (js "499") (js "x"));
    first [vm_compute; reflexivity | vm_compute; discriminate | repeat constructor].
Defined.
