(* ===== verification/JsRegex.v ===== *)
(** * JavaScript regular expressions

    A backtracking matcher for the fragment of ECMAScript regular expressions the
    client uses: code unit classes, sequence, ordered alternation, greedy star,
    capture groups, back references, [^], [$] (of the text and of a line) and [\b].  The matcher is written
    in the continuation style of the language specification, so that priorities
    and captures are those of JavaScript.  No pattern of this development has a
    capture group under a star, so captures need no reset between iterations, and
    no star body matches the empty string without being rejected by the progress
    check below. *)

From S2P Require Import Prelude JsString.

Inductive regex :=
  | REmpty
  | RSet (p : N -> bool)
  | RSeq (a b : regex)
  | RAlt (a b : regex)
  | RStar (r : regex)
  | RGroup (i : nat) (r : regex)
  | RBack (i : nat)
  | RStart
  | REnd
  | RWordB
  | RLineStart
  | RLineEnd.

(** A matcher state: the text before the position (reversed), the text after it,
    and the captures made so far, latest first. *)
Record mstate := MState { pre : jstr; post : jstr; caps : list (nat * jstr) }.

Fixpoint cap_get (i : nat) (c : list (nat * jstr)) : option jstr :=
  match c with
  | [] => None
  | (j, s) :: t => if Nat.eqb i j then Some s else cap_get i t
  end.

(** [m[i]] for a group known to have taken part in the match. *)
Definition cap (i : nat) (s : mstate) : jstr := default [] (cap_get i (caps s)).

Definition advance (n : nat) (s : mstate) : mstate :=
  MState (rev (take n (post s)) ++ pre s) (drop n (post s)) (caps s).

(** [\w] *)
Definition is_word (c : N) : bool :=
  (is_digit c || (65 <=? c) && (c <=? 90) || (97 <=? c) && (c <=? 122) || (c =? 95))%N.

Definition head_word (s : jstr) : bool :=
  match s with [] => false | c :: _ => is_word c end.

(** [^] and [$] with the [m] flag: the text ends here, or a line terminator is next. *)
Definition line_terminator (c : N) : bool :=
  ((c =? 10) || (c =? 13) || (c =? 8232) || (c =? 8233))%N.

Definition line_edge (s : jstr) : bool :=
  match s with [] => true | c :: _ => line_terminator c end.

Fixpoint m (r : regex) (k : mstate -> option mstate) (s : mstate) {struct r}
  : option mstate :=
  match r with
  | REmpty => k s
  | RSet p =>
      match post s with
      | c :: t => if p c then k (MState (c :: pre s) t (caps s)) else None
      | [] => None
      end
  | RSeq a b => m a (m b k) s
  | RAlt a b => match m a k s with Some x => Some x | None => m b k s end
  | RStar a =>
      (fix loop (n : nat) (s : mstate) {struct n} : option mstate :=
         match n with
         | O => k s
         | S n' =>
             match m a (fun s' => if (length (post s') <? length (post s))%nat
                                  then loop n' s' else None) s with
             | Some x => Some x
             | None => k s
             end
         end) (length (post s)) s
  | RGroup i a =>
      m a (fun s' =>
             k (MState (pre s') (post s')
                  ((i, take (length (post s) - length (post s')) (post s)) :: caps s'))) s
  | RBack i =>
      let w := default [] (cap_get i (caps s)) in
      if starts_with w (post s) then k (advance (length w) s) else None
  | RStart => match pre s with [] => k s | _ => None end
  | REnd => match post s with [] => k s | _ => None end
  | RWordB => if xorb (head_word (pre s)) (head_word (post s)) then k s else None
  | RLineStart => if line_edge (pre s) then k s else None
  | RLineEnd => if line_edge (post s) then k s else None
  end.

(** Search for the first match at or after a position; returns the state at which
    the match starts and the one at which it ends. *)
Fixpoint search_from (r : regex) (before after : jstr) : option (mstate * mstate) :=
  let s0 := MState before after [] in
  match m r Some s0 with
  | Some s1 => Some (s0, s1)
  | None =>
      match after with
      | [] => None
      | c :: t => search_from r (c :: before) t
      end
  end.

(** [s.match(r)] for a pattern without the [g] flag. *)
Definition match_re (r : regex) (s : jstr) : option mstate :=
  snd <$> search_from r [] s.

(** [r.test(s)] *)
Definition test_re (r : regex) (s : jstr) : bool :=
  match search_from r [] s with Some _ => true | None => false end.

(** The successive results of [re.exec(s)] for a pattern with the [g] flag, until
    it returns [null].  Each match of the patterns used is non-empty, so
    [length s + 1] rounds suffice; an empty match would make the JavaScript loop
    diverge and here ends the list. *)
Fixpoint exec_all (fuel : nat) (r : regex) (before after : jstr) : list mstate :=
  match fuel with
  | O => []
  | S f =>
      match search_from r before after with
      | None => []
      | Some (_, s1) =>
          if (length (post s1) <? length after)%nat
          then s1 :: exec_all f r (pre s1) (post s1)
          else []
      end
  end.

Definition matches (r : regex) (s : jstr) : list mstate :=
  exec_all (S (length s)) r [] s.

(** ** Building patterns *)

Definition RChar (c : N) : regex := RSet (N.eqb c).

Fixpoint RLit (w : jstr) : regex :=
  match w with
  | [] => REmpty
  | c :: t => RSeq (RChar c) (RLit t)
  end.

Fixpoint RSeqs (l : list regex) : regex :=
  match l with
  | [] => REmpty
  | [r] => r
  | r :: t => RSeq r (RSeqs t)
  end.

Fixpoint RAlts (l : list regex) : regex :=
  match l with
  | [] => RSet (fun _ => false)
  | [r] => r
  | r :: t => RAlt r (RAlts t)
  end.

Definition RPlus (r : regex) : regex := RSeq r (RStar r).
Definition ROpt (r : regex) : regex := RAlt r REmpty.

(** Classes: [\d], [\s], [\s\S], [.] without and with the [s] flag. *)
Definition c_digit : N -> bool := is_digit.
Definition c_space : N -> bool := is_ws.
Definition c_any : N -> bool := fun _ => true.
Definition c_dot : N -> bool :=
  fun c => negb ((c =? 10) || (c =? 13) || (c =? 8232) || (c =? 8233))%N.
(** [[^x]] *)
Definition c_not (x : N) : N -> bool := fun c => negb (N.eqb x c).
(** [[\d.eE+-]] and [[\d.eE+]] *)
Definition c_num : N -> bool :=
  fun c => (is_digit c || (c =? 46) || (c =? 101) || (c =? 69) || (c =? 43) || (c =? 45))%N.
Definition c_num_nominus : N -> bool :=
  fun c => (is_digit c || (c =? 46) || (c =? 101) || (c =? 69) || (c =? 43))%N.

(** ** Equations of the matcher *)

Lemma m_RLit w k s :
  m (RLit w) k s = if starts_with w (post s) then k (advance (length w) s) else None.
Proof.
  revert s. induction w as [|c w IH]; intros [b a cs]; simpl.
  - done.
  - destruct a as [|x a]; simpl; [done|]. destruct (c =? x)%N; simpl; [|done].
    rewrite IH. simpl. destruct (starts_with w a); [|done].
    unfold advance. simpl. by rewrite <- app_assoc.
Qed.

Lemma m_RLit_app w b t cs k :
  m (RLit w) k (MState b (w ++ t) cs) = k (MState (rev w ++ b) t cs).
Proof.
  rewrite m_RLit. simpl. rewrite starts_with_app. unfold advance. simpl.
  by rewrite take_app_length, drop_app_length.
Qed.

Lemma m_RLit_fail w k s : starts_with w (post s) = false -> m (RLit w) k s = None.
Proof. intros H. by rewrite m_RLit, H. Qed.

Lemma m_RSeqs_cons r l k s :
  l <> [] -> m (RSeqs (r :: l)) k s = m r (m (RSeqs l) k) s.
Proof. by destruct l. Qed.

Lemma m_RSeqs_one r k s : m (RSeqs [r]) k s = m r k s.
Proof. done. Qed.

Lemma m_RGroup i r k s :
  m (RGroup i r) k s =
  m r (fun s' => k (MState (pre s') (post s')
         ((i, take (length (post s) - length (post s')) (post s)) :: caps s'))) s.
Proof. done. Qed.

(** The loop of a star, with explicit fuel. *)
Fixpoint star_loop (a : regex) (k : mstate -> option mstate) (n : nat) (s : mstate)
  : option mstate :=
  match n with
  | O => k s
  | S n' =>
      match m a (fun s' => if (length (post s') <? length (post s))%nat
                           then star_loop a k n' s' else None) s with
      | Some x => Some x
      | None => k s
      end
  end.

(** The matcher only uses its continuation pointwise. *)
Lemma m_ext r k1 k2 s : (forall s', k1 s' = k2 s') -> m r k1 s = m r k2 s.
Proof.
  revert k1 k2 s.
  induction r as [|p|a IHa b IHb|a IHa b IHb|r IHr|i r IHr|i| | | | |];
    intros k1 k2 s Hk; simpl; auto.
  - destruct (post s) as [|c t]; [done|]. by destruct (p c).
  - by rewrite (IHa k1 k2), (IHb k1 k2).
  - generalize (length (post s)) as n. intros n. revert s.
    induction n as [|n IHn]; intros s; [apply Hk|].
    rewrite Hk. match goal with
    | |- match m r ?f s with _ => _ end = match m r ?g s with _ => _ end =>
        rewrite (IHr f g s); [done|]
    end. intros s'. simpl. destruct (_ <? _)%nat; [apply IHn|done].
  - destruct (starts_with _ _); [apply Hk|done].
  - destruct (pre s); [apply Hk|done].
  - destruct (post s); [apply Hk|done].
  - destruct (xorb _ _); [apply Hk|done].
  - destruct (line_edge _); [apply Hk|done].
  - destruct (line_edge _); [apply Hk|done].
Qed.

Lemma m_RStar a k s : m (RStar a) k s = star_loop a k (length (post s)) s.
Proof.
  simpl. generalize (length (post s)) as n. intros n. revert s.
  induction n as [|n IH]; intros s; [done|]. simpl.
  erewrite m_ext; [done|]. intros s'. simpl. destruct (_ <? _)%nat; [apply IH|done].
Qed.

(** ** Greedy repetition of a class *)

Definition not_head (p : N -> bool) (t : jstr) : Prop :=
  match t with [] => True | c :: _ => p c = false end.

Lemma star_loop_set p k n b w t cs :
  length w <= n -> Forall (fun c => p c = true) w -> not_head p t ->
  forall x, k (MState (rev w ++ b) t cs) = Some x ->
  star_loop (RSet p) k n (MState b (w ++ t) cs) = Some x.
Proof.
  revert n b. induction w as [|c w IH]; intros n b Hn Hw Ht x Hk; simpl in *.
  - destruct n; simpl; [done|]. destruct t as [|c t]; simpl in *; [done|]. by rewrite Ht.
  - destruct n as [|n]; [lia|]. inversion Hw as [|? ? Hc Hw']; subst. simpl. rewrite Hc.
    rewrite (proj2 (Nat.ltb_lt _ _)) by (simpl; lia).
    rewrite (IH n (c :: b)) with (x := x); [done|lia|done|done|].
    rewrite <- Hk. by rewrite <- app_assoc.
Qed.

(** Maximal munch succeeds when the continuation does. *)
Lemma m_star_set p k b w t cs x :
  Forall (fun c => p c = true) w -> not_head p t ->
  k (MState (rev w ++ b) t cs) = Some x ->
  m (RStar (RSet p)) k (MState b (w ++ t) cs) = Some x.
Proof.
  intros. rewrite m_RStar. apply star_loop_set; auto. simpl. rewrite length_app. lia.
Qed.

(** A continuation that cannot start with a unit of the class: maximal munch is
    the only possibility. *)
Definition rejects (p : N -> bool) (k : mstate -> option mstate) : Prop :=
  forall b c t cs, p c = true -> k (MState b (c :: t) cs) = None.

Lemma m_star_set_munch p k b w t cs :
  Forall (fun c => p c = true) w -> not_head p t -> rejects p k ->
  m (RStar (RSet p)) k (MState b (w ++ t) cs) = k (MState (rev w ++ b) t cs).
Proof.
  intros Hw Ht Hrej. rewrite m_RStar. simpl.
  assert (length w <= length (w ++ t)) as Hn by (rewrite length_app; lia).
  revert Hn. generalize (length (w ++ t)) as n. revert b.
  induction Hw as [|c w Hc Hw IH]; intros b n Hn; simpl in *.
  - destruct n; simpl; [done|]. destruct t as [|c t]; simpl in *; [done|]. by rewrite Ht.
  - destruct n as [|n]; [lia|]. simpl. rewrite Hc, (Hrej b c) by done.
    rewrite (proj2 (Nat.ltb_lt _ _)) by (simpl; lia).
    rewrite IH by lia. rewrite <- app_assoc. simpl. by destruct (k _).
Qed.

Lemma m_plus_set_munch p k b w t cs :
  w <> [] -> Forall (fun c => p c = true) w -> not_head p t -> rejects p k ->
  m (RPlus (RSet p)) k (MState b (w ++ t) cs) = k (MState (rev w ++ b) t cs).
Proof.
  intros Hne Hw Ht Hrej. destruct w as [|c w]; [done|].
  inversion Hw as [|? ? Hc Hw']; subst. unfold RPlus. simpl m at 1. cbn [post app]. rewrite Hc.
  change (m (RStar (RSet p)) k (MState (c :: b) (w ++ t) cs) = k (MState (rev (c :: w) ++ b) t cs)).
  rewrite m_star_set_munch by done. simpl. by rewrite <- app_assoc.
Qed.

Lemma m_plus_set p k b w t cs x :
  w <> [] -> Forall (fun c => p c = true) w -> not_head p t ->
  k (MState (rev w ++ b) t cs) = Some x ->
  m (RPlus (RSet p)) k (MState b (w ++ t) cs) = Some x.
Proof.
  intros Hne Hw Ht Hk. destruct w as [|c w]; [done|].
  inversion Hw as [|? ? Hc Hw']; subst. unfold RPlus. simpl m at 1. cbn [post app]. rewrite Hc.
  change (m (RStar (RSet p)) k (MState (c :: b) (w ++ t) cs) = Some x).
  apply m_star_set; auto. rewrite <- Hk. simpl. by rewrite <- app_assoc.
Qed.

Lemma m_plus_set_fail p k s : not_head p (post s) -> m (RPlus (RSet p)) k s = None.
Proof.
  unfold RPlus. destruct s as [b [|c t] cs]; simpl; [done|]. by intros ->.
Qed.

(** ** Captures of a group around a repetition *)

Lemma m_group_plus_munch i p k b w t cs :
  w <> [] -> Forall (fun c => p c = true) w -> not_head p t -> rejects p k ->
  m (RGroup i (RPlus (RSet p))) k (MState b (w ++ t) cs) =
  k (MState (rev w ++ b) t ((i, w) :: cs)).
Proof.
  intros Hne Hw Ht Hrej. rewrite m_RGroup.
  rewrite m_plus_set_munch; [|done..|].
  - cbn [pre post caps]. by rewrite length_app, Nat.add_sub, take_app_length.
  - intros b' c t' cs' Hc. cbn [pre post caps]. by apply Hrej.
Qed.

Lemma m_group_plus i p k b w t cs x :
  w <> [] -> Forall (fun c => p c = true) w -> not_head p t ->
  k (MState (rev w ++ b) t ((i, w) :: cs)) = Some x ->
  m (RGroup i (RPlus (RSet p))) k (MState b (w ++ t) cs) = Some x.
Proof.
  intros Hne Hw Ht Hk. rewrite m_RGroup. apply m_plus_set; auto.
  cbn [pre post caps]. by rewrite length_app, Nat.add_sub, take_app_length.
Qed.

Lemma rejects_lit p w k :
  match w with [] => False | c :: _ => p c = false end -> rejects p (m (RLit w) k).
Proof.
  intros Hw b c t cs Hc. apply m_RLit_fail. destruct w as [|d w]; [done|].
  simpl. destruct (N.eqb_spec d c); [congruence|done].
Qed.

Lemma rejects_seqs_lit p w l k :
  match w with [] => False | c :: _ => p c = false end ->
  rejects p (m (RSeqs (RLit w :: l)) k).
Proof.
  intros Hw. destruct l as [|r l]; [by apply rejects_lit|].
  intros b c t cs Hc. rewrite m_RSeqs_cons by done. by apply (rejects_lit p w (m (RSeqs (r :: l)) k) Hw).
Qed.

Lemma rejects_end p k : rejects p (m REnd k).
Proof. by intros b c t cs Hc. Qed.

(** ** Anchored patterns *)

Lemma search_start_later r b c t :
  search_from (RSeq RStart r) (c :: b) t = None.
Proof. revert b c. induction t as [|x t IH]; intros b c; simpl; [done|]. apply IH. Qed.

(** A pattern that begins with [^] only matches at the start. *)
Lemma match_anchored r s :
  match_re (RSeq RStart r) s = m r Some (MState [] s []).
Proof.
  unfold match_re. destruct s as [|c t]; simpl.
  - by destruct (m r Some _).
  - destruct (m r Some _); [done|]. by rewrite search_start_later.
Qed.

Lemma test_anchored r s :
  test_re (RSeq RStart r) s =
  match m r Some (MState [] s []) with Some _ => true | None => false end.
Proof.
  rewrite <- match_anchored. unfold test_re, match_re.
  by destruct (search_from _ _ _).
Qed.

(** ** Stepping through a sequence *)

Lemma m_RSeq a b k s : m (RSeq a b) k s = m a (m b k) s.
Proof. done. Qed.

Lemma m_RLit_end w b cs k : m (RLit w) k (MState b w cs) = k (MState (rev w ++ b) [] cs).
Proof. rewrite <- (app_nil_r w) at 2. apply m_RLit_app. Qed.

Lemma rejects_seq_lit p w r k :
  match w with [] => False | c :: _ => p c = false end -> rejects p (m (RSeq (RLit w) r) k).
Proof. intros H b c t cs Hc. rewrite m_RSeq. by apply (rejects_lit p w (m r k) H). Qed.

Lemma m_group_plus_end i p k b w cs :
  w <> [] -> Forall (fun c => p c = true) w -> rejects p k ->
  m (RGroup i (RPlus (RSet p))) k (MState b w cs) = k (MState (rev w ++ b) [] ((i, w) :: cs)).
Proof.
  intros. rewrite <- (app_nil_r w) at 1. by rewrite m_group_plus_munch.
Qed.

Lemma m_REnd k b cs : m REnd k (MState b [] cs) = k (MState b [] cs).
Proof. done. Qed.

Lemma m_alts_lits_fail ws k s :
  forallb (fun w => negb (starts_with w (post s))) ws = true ->
  m (RAlts (map RLit ws)) k s = None.
Proof.
  induction ws as [|w ws IH]; simpl; intros H.
  - by destruct (post s).
  - apply andb_true_iff in H as [Hw Hws]. apply negb_true_iff in Hw.
    destruct ws as [|w' ws]; simpl in *; [by apply m_RLit_fail|].
    rewrite m_RLit_fail by done. by apply IH.
Qed.

Lemma m_group_lit i w k b t cs :
  m (RGroup i (RLit w)) k (MState b (w ++ t) cs) = k (MState (rev w ++ b) t ((i, w) :: cs)).
Proof.
  rewrite m_RGroup, m_RLit_app. cbn [pre post caps].
  by rewrite length_app, Nat.add_sub, take_app_length.
Qed.

(** A group of literal alternatives, none a prefix of the text but [w]. *)
Lemma m_group_alts i ws1 w ws2 k b t cs :
  forallb (fun v => negb (starts_with v (w ++ t))) (ws1 ++ ws2) = true ->
  m (RGroup i (RAlts (map RLit (ws1 ++ w :: ws2)))) k (MState b (w ++ t) cs) =
  k (MState (rev w ++ b) t ((i, w) :: cs)).
Proof.
  intros H. rewrite m_RGroup.
  match goal with |- m _ ?f _ = _ => set (k' := f) end.
  transitivity (k' (MState (rev w ++ b) t cs)).
  - induction ws1 as [|v ws1 IH]; simpl app in *.
    + assert (m (RAlts (map RLit ws2)) k' (MState b (w ++ t) cs) = None) as Hn
        by by apply m_alts_lits_fail.
      destruct ws2 as [|v ws2]; simpl map in *; [apply m_RLit_app|].
      simpl RAlts. cbn [m]. rewrite m_RLit_app. destruct (k' _); [done|]. apply Hn.
    + simpl in H. apply andb_true_iff in H as [Hv H]. apply negb_true_iff in Hv.
      assert (exists v' l, map RLit (ws1 ++ w :: ws2) = v' :: l) as (v' & l & El).
      { destruct ws1; simpl; eauto. }
      simpl map. cbn [RAlts]. rewrite El in *. cbn [m]. rewrite m_RLit_fail by done.
      by apply IH.
  - unfold k'. cbn [pre post caps]. by rewrite length_app, Nat.add_sub, take_app_length.
Qed.

(** ** The last possible split *)

(** Greedy repetition of a class that covers the whole rest of the text: the
    longest prefix after which the continuation succeeds. *)
Lemma m_star_set_last p k b w t cs x :
  Forall (fun c => p c = true) (w ++ t) ->
  k (MState (rev w ++ b) t cs) = Some x ->
  (forall u v, t = u ++ v -> u <> [] -> k (MState (rev u ++ rev w ++ b) v cs) = None) ->
  m (RStar (RSet p)) k (MState b (w ++ t) cs) = Some x.
Proof.
  intros Hp Hk Hlast. rewrite m_RStar. cbn [post].
  assert (length (w ++ t) <= length (w ++ t)) as Hn by lia. revert Hn.
  generalize (length (w ++ t)) at 2 3 as n. revert b Hk Hlast.
  induction w as [|c w IH]; intros b Hk Hlast n Hn; simpl in *.
  - assert (star_loop (RSet p) k n (MState b t cs) = k (MState b t cs)) as ->; [|done].
    clear Hk. assert (forall t' b', Forall (fun c => p c = true) t' ->
       (forall u v, t' = u ++ v -> u <> [] -> k (MState (rev u ++ b') v cs) = None) ->
       forall n, length t' <= n -> star_loop (RSet p) k n (MState b' t' cs) = k (MState b' t' cs)) as Hgen.
    { clear. intros t'. induction t' as [|c t' IH]; intros b' Hp Hnone n Hn.
      - by destruct n.
      - destruct n as [|n]; [simpl in Hn; lia|]. cbn [star_loop m post pre caps].
        inversion Hp as [|? ? Hc Hp']; subst. rewrite Hc.
        rewrite (proj2 (Nat.ltb_lt _ _)) by (simpl; lia).
        rewrite (IH (c :: b')); [|done| |simpl in Hn; lia].
        + specialize (Hnone [c] t' eq_refl ltac:(done)). simpl in Hnone. by rewrite Hnone.
        + intros u v -> Hu. specialize (Hnone (c :: u) v eq_refl). simpl in Hnone.
          rewrite <- app_assoc in Hnone. by apply Hnone. }
    apply Hgen; [done| |lia]. intros u v Hu Hne. by apply Hlast.
  - destruct n as [|n]; [lia|]. cbn [star_loop m post pre caps].
    inversion Hp as [|? ? Hc Hp']; subst. rewrite Hc.
    rewrite (proj2 (Nat.ltb_lt _ _)) by (simpl; lia).
    rewrite (IH Hp' (c :: b)); [done| | |lia].
    + rewrite <- app_assoc in Hk. done.
    + intros u v Hu Hne. specialize (Hlast u v Hu Hne). by rewrite <- app_assoc in Hlast.
Qed.

Lemma m_group_plus_last i p k b w t cs x :
  w <> [] -> Forall (fun c => p c = true) (w ++ t) ->
  k (MState (rev w ++ b) t ((i, w) :: cs)) = Some x ->
  (forall u v c, t = u ++ v -> u <> [] -> k (MState (rev u ++ rev w ++ b) v c) = None) ->
  m (RGroup i (RPlus (RSet p))) k (MState b (w ++ t) cs) = Some x.
Proof.
  intros Hne Hp Hk Hlast. rewrite m_RGroup. unfold RPlus. rewrite m_RSeq.
  destruct w as [|c w]; [done|]. inversion Hp as [|? ? Hc Hp']; subst.
  cbn [m post app pre caps]. rewrite Hc.
  change (m (RStar (RSet p)) (fun s' => k (MState (pre s') (post s')
    ((i, take (length (c :: w ++ t) - length (post s')) (c :: w ++ t)) :: caps s')))
    (MState (c :: b) (w ++ t) cs) = Some x).
  apply m_star_set_last; [done| |].
  - cbn [pre post caps]. change (c :: w ++ t) with ((c :: w) ++ t).
    rewrite length_app, Nat.add_sub, take_app_length. rewrite <- Hk. simpl.
    by rewrite <- app_assoc.
  - intros u v Hu Hne'. cbn [pre post caps].
    specialize (Hlast u v ((i, take (length (c :: w ++ t) - length v) (c :: w ++ t)) :: cs) Hu Hne').
    simpl in Hlast. rewrite <- app_assoc in Hlast. exact Hlast.
Qed.

(** Greedy repetition of a class or another pattern that cannot start at [t]. *)
Lemma m_star_alt q r k b v t cs x :
  Forall (fun c => q c = true) v -> not_head q t ->
  (forall k' b' cs', m r k' (MState b' t cs') = None) ->
  k (MState (rev v ++ b) t cs) = Some x ->
  m (RStar (RAlt (RSet q) r)) k (MState b (v ++ t) cs) = Some x.
Proof.
  intros Hv Ht Hr Hk. rewrite m_RStar. cbn [post].
  assert (length v <= length (v ++ t)) as Hn by (rewrite length_app; lia).
  revert Hn. generalize (length (v ++ t)) as n. revert b Hk.
  induction Hv as [|c v Hc Hv IH]; intros b Hk n Hn; simpl app.
  - destruct n as [|n]; [done|]. cbn [star_loop].
    assert (forall k', m (RAlt (RSet q) r) k' (MState b t cs) = None) as Hnone.
    { intros k'. cbn [m post]. destruct t as [|c t]; [apply Hr|]. simpl in Ht. rewrite Ht.
      apply Hr. }
    by rewrite Hnone.
  - destruct n as [|n]; [simpl in Hn; lia|]. cbn [star_loop m post pre caps]. rewrite Hc.
    rewrite (proj2 (Nat.ltb_lt _ _)) by (simpl; lia).
    rewrite IH; [done| |simpl in Hn; lia]. simpl in Hk. by rewrite <- app_assoc in Hk.
Qed.

Lemma m_RBack_app i w k b t cs :
  cap_get i cs = Some w ->
  m (RBack i) k (MState b (w ++ t) cs) = k (MState (rev w ++ b) t cs).
Proof.
  intros Hc. cbn [m caps]. rewrite Hc. cbn [default post].
  change (default [] (Some w)) with w. rewrite starts_with_app. unfold advance. cbn [pre post caps].
  by rewrite take_app_length, drop_app_length.
Qed.
