(* ===== verification/JsNumber.v ===== *)
(** * JavaScript numbers

    A JavaScript number is an IEEE 754 binary64 value; here a [spec_float] of the
    Standard Library with 53 bits of precision, whose operations round to nearest
    even.  The file adds the conversions the client relies on: decimal literals to
    numbers with correct rounding, [Number(string)], and [String(number)] with the
    shortest digits that read back as the same number. *)

From Stdlib Require Import SpecFloat.
From S2P Require Import Prelude JsString.

Definition number := spec_float.

#[export] Instance number_eq_dec : EqDecision number.
Proof. unfold number. solve_decision. Defined.

Definition f_prec : Z := 53.
Definition f_emax : Z := 1024.

Definition num_of_Z (z : Z) : number := binary_normalize f_prec f_emax z 0 false.
Definition n_add : number -> number -> number := SFadd f_prec f_emax.
Definition n_sub : number -> number -> number := SFsub f_prec f_emax.
Definition n_mul : number -> number -> number := SFmul f_prec f_emax.
Definition n_div : number -> number -> number := SFdiv f_prec f_emax.

(** [a === b], [a < b], [a <= b]: false when an operand is [NaN]. *)
Definition n_eqb : number -> number -> bool := SFeqb.
Definition n_ltb : number -> number -> bool := SFltb.
Definition n_leb : number -> number -> bool := SFleb.

Definition n_nan : number := S754_nan.
Definition n_zero : number := S754_zero false.

Definition n_isNaN (x : number) : bool :=
  match x with S754_nan => true | _ => false end.
(** [Number.isFinite] *)
Definition n_isFinite (x : number) : bool :=
  match x with S754_zero _ | S754_finite _ _ _ => true | _ => false end.

(** Truthiness: neither zero nor [NaN]. *)
Definition n_truthy (x : number) : bool :=
  match x with S754_zero _ | S754_nan => false | _ => true end.

(** [a || b] on numbers. *)
Definition n_or (a b : number) : number := if n_truthy a then a else b.

(** Same value, bit for bit up to the representation of [NaN]. *)
Definition n_same (x y : number) : bool :=
  match x, y with
  | S754_zero a, S754_zero b => Bool.eqb a b
  | S754_infinity a, S754_infinity b => Bool.eqb a b
  | S754_nan, S754_nan => true
  | S754_finite a m1 e1, S754_finite b m2 e2 => Bool.eqb a b && Pos.eqb m1 m2 && Z.eqb e1 e2
  | _, _ => false
  end.

(** ** Reading decimals *)

(** [Number.isInteger(x)] and [x > 0] *)
Definition n_isInteger (x : number) : bool :=
  match x with
  | S754_zero _ => true
  | S754_finite _ m e => (0 <=? e)%Z || (Z.pos m mod 2 ^ (- e) =? 0)%Z
  | _ => false
  end.

Definition n_positive (x : number) : bool := n_ltb n_zero x.

Definition n_opp (neg : bool) (x : number) : number := if neg then SFopp x else x.

(** The number nearest to [mant * 10^e10].  Outside the tested exponents the value
    is above the largest finite number or below half the least one. *)
Definition dec_to_num (mant : N) (e10 : Z) : number :=
  match mant with
  | N0 => n_zero
  | Npos p =>
      let mag := (Z.of_nat (length (show_N mant)) + e10)%Z in
      if (400 <? mag)%Z then S754_infinity false
      else if (mag <? -400)%Z then n_zero
      else if (0 <=? e10)%Z then num_of_Z (Zpos p * 10 ^ e10)
      else match (10 ^ (- e10))%Z with
           | Zpos q => n_div (S754_finite false p 0) (S754_finite false q 0)
           | _ => n_nan
           end
  end.

Definition read_digits (s : jstr) : jstr * jstr := span is_digit s.

(** [ExponentPart]: [e] or [E], a sign, at least one digit.  [None] when the text
    does not start with one. *)
Definition read_exponent (s : jstr) : option (Z * jstr) :=
  match s with
  | c :: t =>
      if ((c =? 101) || (c =? 69))%N then
        let '(sg, t1) :=
          match t with
          | d :: t' => if (d =? 43)%N then (false, t') else
                       if (d =? 45)%N then (true, t') else (false, t)
          | [] => (false, t)
          end in
        let '(ds, rest) := read_digits t1 in
        if truthy ds
        then let v := Z.of_N (dec_val ds) in Some (if sg then (- v)%Z else v, rest)
        else None
      else None
  | [] => None
  end.

(** An unsigned decimal literal: digits, an optional fraction, an optional
    exponent, at least one digit before the exponent. *)
Definition read_decimal (s : jstr) : option (number * jstr) :=
  let '(ip, s1) := read_digits s in
  let '(fp, s2) :=
    match s1 with
    | c :: t => if (c =? 46)%N then read_digits t else ([], s1)
    | [] => ([], s1)
    end in
  if truthy (ip ++ fp) then
    let mant := dec_val (ip ++ fp) in
    let scale := (- Z.of_nat (length fp))%Z in
    match read_exponent s2 with
    | Some (e, rest) => Some (dec_to_num mant (scale + e), rest)
    | None => Some (dec_to_num mant scale, s2)
    end
  else None.

Definition hex_val (c : N) : option N :=
  (if is_digit c then Some (c - 48)
   else if (97 <=? c) && (c <=? 102) then Some (c - 87)
   else if (65 <=? c) && (c <=? 70) then Some (c - 55)
   else None)%N.

Definition radix_val (radix : N) (s : jstr) : option N :=
  fold_left (fun acc c =>
    match acc, hex_val c with
    | Some a, Some d => if (d <? radix)%N then Some (a * radix + d)%N else None
    | _, _ => None
    end) s (if truthy s then Some 0%N else None).

(** [Number(s)] *)
Definition num_of_string (s : jstr) : number :=
  let t := trim s in
  let radix_num r := match radix_val r (drop 2 t) with
                     | Some v => num_of_Z (Z.of_N v) | None => n_nan end in
  if negb (truthy t) then n_zero
  else if starts_with (js "0x") t || starts_with (js "0X") t then radix_num 16%N
  else if starts_with (js "0o") t || starts_with (js "0O") t then radix_num 8%N
  else if starts_with (js "0b") t || starts_with (js "0B") t then radix_num 2%N
  else
    let '(neg, u) :=
      match t with
      | c :: r => if (c =? 45)%N then (true, r) else if (c =? 43)%N then (false, r) else (false, t)
      | [] => (false, t)
      end in
    if u =s js "Infinity" then S754_infinity neg
    else match read_decimal u with
         | Some (x, []) => n_opp neg x
         | _ => n_nan
         end.

(** ** Printing *)

Definition num_fraction (mant : positive) (e : Z) : Z * Z :=
  if (0 <=? e)%Z then ((Zpos mant * 2 ^ e)%Z, 1%Z) else (Zpos mant, (2 ^ (- e))%Z).

Definition dec_len (z : Z) : Z := Z.of_nat (length (show_N (Z.to_N z))).

(** The [n] with [10^(n-1) <= num/den < 10^n]. *)
Definition dec_exponent (num den : Z) : Z :=
  let d := (dec_len num - dec_len den)%Z in
  let below := if (0 <=? d)%Z then (num <? den * 10 ^ d)%Z
               else (num * 10 ^ (- d) <? den)%Z in
  if below then d else (d + 1)%Z.

(** Try [k] digits, [k + 1] digits, ... until one reads back as [x]: the digits
    nearest to the value first, then their neighbour.  17 digits always do. *)
Fixpoint shortest (fuel : nat) (x : number) (num den n k : Z) : Z * Z :=
  let p := (k - n)%Z in
  let '(a, b) := if (0 <=? p)%Z then ((num * 10 ^ p)%Z, den) else (num, (den * 10 ^ (- p))%Z) in
  let lo := (a / b)%Z in
  let near := if (b <? 2 * (a mod b))%Z then (lo + 1)%Z
              else if ((b =? 2 * (a mod b)) && Z.odd lo)%Z then (lo + 1)%Z else lo in
  let far := if (near =? lo)%Z then (lo + 1)%Z else lo in
  let good s := n_same (dec_to_num (Z.to_N s) (n - k)) x in
  if good near then (near, k)
  else if good far then (far, k)
  else match fuel with O => (near, k) | S f => shortest f x num den n (k + 1) end.

Definition zeros (z : Z) : jstr := repeat 48%N (Z.to_nat z).

(** [Number::toString] for a positive finite number, from its digits [ds] (without
    trailing zeros) and decimal exponent [n]. *)
Definition layout_digits (ds : jstr) (n : Z) : jstr :=
  let k := Z.of_nat (length ds) in
  if ((k <=? n) && (n <=? 21))%Z then ds ++ zeros (n - k)
  else if ((0 <? n) && (n <=? 21))%Z then
    take (Z.to_nat n) ds ++ js "." ++ drop (Z.to_nat n) ds
  else if ((-6 <? n) && (n <=? 0))%Z then js "0." ++ zeros (- n) ++ ds
  else
    let e := (n - 1)%Z in
    let es := (if (0 <? e)%Z then js "+" else js "-") ++ show_Z (Z.abs e) in
    match ds with
    | [d] => [d] ++ js "e" ++ es
    | d :: rest => [d] ++ js "." ++ rest ++ js "e" ++ es
    | [] => []
    end.

Definition show_positive (x : number) (mant : positive) (e : Z) : jstr :=
  let '(num, den) := num_fraction mant e in
  let n := dec_exponent num den in
  let '(s, k) := shortest 17 x num den n 1 in
  if (s =? 10 ^ k)%Z then layout_digits (js "1") (n + 1)
  else layout_digits (show_N (Z.to_N s)) n.

(** [String(x)] *)
Definition show_num (x : number) : jstr :=
  match x with
  | S754_nan => js "NaN"
  | S754_infinity s => (if s then js "-" else []) ++ js "Infinity"
  | S754_zero _ => js "0"
  | S754_finite s mant e =>
      (if s then js "-" else []) ++ show_positive (S754_finite false mant e) mant e
  end.

(** ** Agreement with JavaScript on known values *)

Definition dec (s : jstr) : number := num_of_string s.

Example show_tenth : show_num (n_add (dec (js "0.1")) (dec (js "0.2"))) = js "0.30000000000000004".
Proof. vm_compute. reflexivity. Qed.

Example show_known :
  map (fun s => show_num (dec s))
    [js "1e21"; js "123456789012345680000"; js "5e-324"; js "1.7976931348623157e308";
     js "0.000001"; js "1e-7"; js "-2.50"; js "  0x1F "; js "9007199254740993"; js "1e309"; js "1e"]
  = [js "1e+21"; js "123456789012345680000"; js "5e-324"; js "1.7976931348623157e+308";
     js "0.000001"; js "1e-7"; js "-2.5"; js "31"; js "9007199254740992"; js "Infinity"; js "NaN"].
Proof. vm_compute. reflexivity. Qed.

Example show_boundary : (* asymmetric rounding interval at a power of two *)
  show_num (dec (js "5.684341886080802e-14")) = js "5.684341886080802e-14".
Proof. vm_compute. reflexivity. Qed.
