(* ===== verification/JsInteger.v ===== *)
(** * Integers as JavaScript numbers

    Within 2^53 integers are binary64 numbers and adding and subtracting them is exact:
    [add_exact], [sub_exact].  The lemmas follow the operations of [SpecFloat] on
    mantissas shifted by powers of two. *)

From Stdlib Require Import SpecFloat.
From S2P Require Import Prelude JsString JsNumber.

Open Scope Z_scope.

(** ** Shifted mantissas *)

Definition shl (p : positive) (n : nat) : positive := Nat.iter n xO p.

Definition digits (p : positive) : Z := Z.pos (digits2_pos p).

Lemma shl_shl p n m : shl (shl p n) m = shl p (n + m).
Proof. unfold shl. induction m as [|m IH]; [by rewrite Nat.add_0_r|]. rewrite Nat.add_succ_r. simpl. by rewrite IH. Qed.

Lemma shl_value p n : Z.pos (shl p n) = Z.pos p * 2 ^ Z.of_nat n.
Proof.
  induction n as [|n IH]; [simpl; lia|]. rewrite Nat2Z.inj_succ, Z.pow_succ_r by lia.
  change (shl p (S n)) with (xO (shl p n)). rewrite Pos2Z.inj_xO, IH. lia.
Qed.

Lemma shl_inj_value p q n : Z.pos q = Z.pos p * 2 ^ Z.of_nat n -> q = shl p n.
Proof. rewrite <- shl_value. congruence. Qed.

Lemma digits_shl p n : digits (shl p n) = digits p + Z.of_nat n.
Proof.
  unfold digits. induction n as [|n IH]; [simpl; lia|]. change (shl p (S n)) with (xO (shl p n)).
  cbn [digits2_pos]. rewrite Pos2Z.inj_succ, IH. lia.
Qed.

Lemma digits_pos p : 1 <= digits p.
Proof. unfold digits. lia. Qed.

Lemma digits_bounds p : 2 ^ (digits p - 1) <= Z.pos p < 2 ^ digits p.
Proof.
  unfold digits. induction p as [p IH|p IH|]; [| |done]; cbn [digits2_pos]; rewrite Pos2Z.inj_succ;
    replace (Z.succ (Z.pos (digits2_pos p)) - 1) with (Z.succ (Z.pos (digits2_pos p) - 1)) by lia;
    rewrite !Z.pow_succ_r by lia; lia.
Qed.

Lemma digits_le p n : 0 <= n -> Z.pos p < 2 ^ n -> digits p <= n.
Proof.
  intros Hn Hp. pose proof (digits_bounds p) as [Hl _]. pose proof (digits_pos p).
  assert (2 ^ (digits p - 1) < 2 ^ n) as H1 by lia. apply Z.pow_lt_mono_r_iff in H1; lia.
Qed.

Lemma iter_shl p d : Pos.iter xO p d = shl p (Pos.to_nat d).
Proof. by rewrite Pos2Nat.inj_iter. Qed.

Lemma iter_pos_nat {A} (f : A -> A) n x : SpecFloat.iter_pos f n x = Nat.iter (Pos.to_nat n) f x.
Proof.
  transitivity (Pos.iter f x n); [|by rewrite Pos2Nat.inj_iter].
  revert x. induction n as [n IH|n IH|]; intros x; cbn [SpecFloat.iter_pos]; [| |done].
  - rewrite !IH. rewrite <- Pos.iter_add, Pos.add_diag, <- Pos.iter_succ_r. done.
  - rewrite !IH. by rewrite <- Pos.iter_add, Pos.add_diag.
Qed.

Lemma shr_shl p k n :
  (n <= k)%nat ->
  Nat.iter n shr_1 {| shr_m := Z.pos (shl p k); shr_r := false; shr_s := false |} =
  {| shr_m := Z.pos (shl p (k - n)); shr_r := false; shr_s := false |}.
Proof.
  induction n as [|n IH]; intros Hn; [by rewrite Nat.sub_0_r|].
  set (x := {| shr_m := Z.pos (shl p k); shr_r := false; shr_s := false |}) in *.
  change (Nat.iter (S n) shr_1 x) with (shr_1 (Nat.iter n shr_1 x)). rewrite IH by lia.
  replace (k - n)%nat with (S (k - S n)) by lia. done.
Qed.

(** ** Normalising an exact value *)

Lemma fexp_of d : 1 <= d <= 53 -> fexp f_prec f_emax d = d - 53.
Proof. intros H. unfold fexp, emin, f_prec, f_emax. lia. Qed.

(** The number [p] as it is stored: 53 bits of mantissa. *)
Definition stored (s : bool) (p : positive) : number :=
  S754_finite s (shl p (Z.to_nat (53 - digits p))) (digits p - 53).

Lemma shr_done p s :
  digits p <= 53 ->
  let q := shl p (Z.to_nat (53 - digits p)) in
  shr_fexp f_prec f_emax (Z.pos q) (digits p - 53) loc_Exact =
  ({| shr_m := Z.pos q; shr_r := false; shr_s := s && false |}, digits p - 53).
Proof.
  intros Hd q. pose proof (digits_pos p). unfold shr_fexp. cbn [Zdigits2].
  change (Z.pos (digits2_pos q)) with (digits q). unfold q. rewrite digits_shl, Z2Nat.id by lia.
  replace (digits p + (53 - digits p) + (digits p - 53)) with (digits p) by lia. rewrite fexp_of by lia.
  rewrite Z.sub_diag. by rewrite andb_false_r.
Qed.

Lemma round_aux_exact s p k :
  digits p <= 53 -> 53 <= digits p + Z.of_nat k ->
  binary_round_aux f_prec f_emax s (Z.pos (shl p k)) (- Z.of_nat k) loc_Exact = stored s p.
Proof.
  intros Hd Hk. pose proof (digits_pos p). unfold binary_round_aux.
  assert (shr_fexp f_prec f_emax (Z.pos (shl p k)) (- Z.of_nat k) loc_Exact =
    ({| shr_m := Z.pos (shl p (Z.to_nat (53 - digits p))); shr_r := false; shr_s := false |}, digits p - 53)) as ->.
  { unfold shr_fexp. cbn [Zdigits2]. change (Z.pos (digits2_pos (shl p k))) with (digits (shl p k)).
    rewrite digits_shl. replace (digits p + Z.of_nat k + - Z.of_nat k) with (digits p) by lia. rewrite fexp_of by lia.
    cbn [shr_record_of_loc]. destruct (digits p - 53 - - Z.of_nat k) as [|n|n] eqn:E; [| |lia]; cbn [shr].
    - f_equal; [|lia]. repeat f_equal. lia.
    - rewrite iter_pos_nat, shr_shl by lia. f_equal; [|lia]. repeat f_equal. lia. }
  cbn [shr_m loc_of_shr_record round_nearest_even].
  rewrite (shr_done p true) by done. cbn [shr_m]. unfold stored, f_emax, f_prec.
  rewrite (proj2 (Z.leb_le _ _)) by lia. done.
Qed.

Lemma round_exact s p k :
  digits p <= 53 -> binary_round f_prec f_emax s (shl p k) (- Z.of_nat k) = stored s p.
Proof.
  intros Hd. pose proof (digits_pos p). unfold binary_round. change (Z.pos (digits2_pos (shl p k))) with (digits (shl p k)).
  rewrite digits_shl. replace (digits p + Z.of_nat k + - Z.of_nat k) with (digits p) by lia. rewrite fexp_of by lia.
  unfold shl_align. destruct (digits p - 53 - - Z.of_nat k) as [|n|n] eqn:E.
  - apply round_aux_exact; lia.
  - apply round_aux_exact; lia.
  - rewrite iter_shl, shl_shl. replace (digits p - 53) with (- Z.of_nat (k + Pos.to_nat n)) by lia.
    apply round_aux_exact; lia.
Qed.

Definition safe (z : Z) : Prop := Z.abs z < 2 ^ 53.

Lemma num_of_pos p : digits p <= 53 -> num_of_Z (Z.pos p) = stored false p.
Proof. apply (round_exact false p 0). Qed.

Lemma num_of_neg p : digits p <= 53 -> num_of_Z (Z.neg p) = stored true p.
Proof. apply (round_exact true p 0). Qed.

Lemma safe_digits p : Z.pos p < 2 ^ 53 -> digits p <= 53.
Proof. intros. apply digits_le; lia. Qed.

Lemma normalize_exact w k sz :
  safe w -> w <> 0 -> binary_normalize f_prec f_emax (w * 2 ^ Z.of_nat k) (- Z.of_nat k) sz = num_of_Z w.
Proof.
  unfold safe. intros Hs Hw. destruct w as [|p|p]; [done| |].
  - rewrite num_of_pos by (apply safe_digits; lia). rewrite <- shl_value. apply round_exact, safe_digits. lia.
  - rewrite num_of_neg by (apply safe_digits; lia). rewrite <- !Pos2Z.opp_pos, Z.mul_opp_l, <- shl_value.
    apply round_exact, safe_digits. lia.
Qed.

(** Aligning a stored number to a smaller exponent. *)
Lemma align_stored p (ez : Z) :
  digits p <= 53 -> ez <= digits p - 53 ->
  Z.pos (fst (shl_align (shl p (Z.to_nat (53 - digits p))) (digits p - 53) ez)) = Z.pos p * 2 ^ (- ez).
Proof.
  intros Hd He. unfold shl_align. destruct (ez - (digits p - 53)) as [|n|n] eqn:E; [| lia |]; cbn [fst].
  - rewrite shl_value. do 2 f_equal. lia.
  - rewrite iter_shl, shl_shl, shl_value. do 2 f_equal. lia.
Qed.

Lemma cond_opp_value s p : cond_Zopp s (Z.pos p) = if s then Z.neg p else Z.pos p.
Proof. by destruct s. Qed.

(** A safe integer that is not zero, as a sign and a mantissa. *)
Lemma safe_stored z : safe z -> z <> 0 ->
  exists s p, num_of_Z z = stored s p /\ digits p <= 53 /\ z = cond_Zopp s (Z.pos p).
Proof.
  unfold safe. intros Hs Hz. destruct z as [|p|p]; [done| |].
  - exists false, p. split; [apply num_of_pos|]; split_and?; try done; apply safe_digits; lia.
  - exists true, p. split; [apply num_of_neg|]; split_and?; try done; apply safe_digits; lia.
Qed.

Lemma add_exact a b : safe a -> safe b -> safe (a + b) -> n_add (num_of_Z a) (num_of_Z b) = num_of_Z (a + b).
Proof.
  intros Ha Hb Hab. destruct (decide (a = 0)) as [-> | Na].
  { destruct (decide (b = 0)) as [-> | Nb]; [done|]. destruct (safe_stored b Hb Nb) as (s & p & E & _). simpl. by rewrite E. }
  destruct (decide (b = 0)) as [-> | Nb].
  { destruct (safe_stored a Ha Na) as (s & p & E & _). rewrite Z.add_0_r. simpl. by rewrite E. }
  destruct (safe_stored a Ha Na) as (sa & pa & Ea & Da & Va). destruct (safe_stored b Hb Nb) as (sb & pb & Eb & Db & Vb).
  rewrite Ea, Eb. unfold n_add, stored. cbn [SFadd]. set (ez := Z.min _ _).
  pose proof (digits_pos pa). pose proof (digits_pos pb).
  rewrite (align_stored pa ez), (align_stored pb ez) by lia.
  assert (cond_Zopp sa (Z.pos pa * 2 ^ (- ez)) + cond_Zopp sb (Z.pos pb * 2 ^ (- ez)) =
    (a + b) * 2 ^ Z.of_nat (Z.to_nat (- ez))) as ->.
  { rewrite Z2Nat.id by lia. rewrite Va, Vb. unfold cond_Zopp. destruct sa, sb; lia. }
  assert (ez = - Z.of_nat (Z.to_nat (- ez))) as Hez by lia. rewrite Hez at 2.
  destruct (decide (a + b = 0)) as [-> | Hn]; [done|]. by apply normalize_exact.
Qed.

Lemma sub_exact a b : safe a -> safe b -> safe (a - b) -> n_sub (num_of_Z a) (num_of_Z b) = num_of_Z (a - b).
Proof.
  intros Ha Hb Hab. destruct (decide (a = 0)) as [-> | Na].
  { destruct (decide (b = 0)) as [-> | Nb]; [done|].
    destruct b as [|p|p]; [done| |]; unfold safe in Hb.
    - change (0 - Z.pos p) with (Z.neg p). by rewrite num_of_pos, num_of_neg by (apply safe_digits; lia).
    - change (0 - Z.neg p) with (Z.pos p). by rewrite num_of_pos, num_of_neg by (apply safe_digits; lia). }
  destruct (decide (b = 0)) as [-> | Nb].
  { destruct (safe_stored a Ha Na) as (s & p & E & _). rewrite Z.sub_0_r. simpl. by rewrite E. }
  destruct (safe_stored a Ha Na) as (sa & pa & Ea & Da & Va). destruct (safe_stored b Hb Nb) as (sb & pb & Eb & Db & Vb).
  rewrite Ea, Eb. unfold n_sub, stored. cbn [SFsub]. set (ez := Z.min _ _).
  pose proof (digits_pos pa). pose proof (digits_pos pb).
  rewrite (align_stored pa ez), (align_stored pb ez) by lia.
  assert (cond_Zopp sa (Z.pos pa * 2 ^ (- ez)) - cond_Zopp sb (Z.pos pb * 2 ^ (- ez)) =
    (a - b) * 2 ^ Z.of_nat (Z.to_nat (- ez))) as ->.
  { rewrite Z2Nat.id by lia. rewrite Va, Vb. unfold cond_Zopp. destruct sa, sb; lia. }
  assert (ez = - Z.of_nat (Z.to_nat (- ez))) as Hez by lia. rewrite Hez at 2.
  destruct (decide (a - b = 0)) as [-> | Hn]; [done|]. by apply normalize_exact.
Qed.

(** ** An integer is never [NaN] *)

Lemma shr_1_nonneg x : 0 <= shr_m x -> 0 <= shr_m (shr_1 x).
Proof. destruct x as [m r s]. unfold shr_1. simpl. destruct m as [|[p|p|]|p]; simpl; lia. Qed.

Lemma shr_nonneg x e n : 0 <= shr_m x -> 0 <= shr_m (fst (shr x e n)).
Proof.
  intros H. destruct n as [|n|n]; cbn [shr fst]; [done| |done]. rewrite iter_pos_nat.
  induction (Pos.to_nat n) as [|k IH]; [done|]. by apply shr_1_nonneg.
Qed.

Lemma round_aux_not_nan s m e : 0 <= m -> n_isNaN (binary_round_aux f_prec f_emax s m e loc_Exact) = false.
Proof.
  intros Hm. unfold binary_round_aux, shr_fexp.
  pose proof (shr_nonneg (shr_record_of_loc m loc_Exact) e (fexp f_prec f_emax (Zdigits2 m + e) - e) Hm) as H1.
  destruct (shr (shr_record_of_loc m loc_Exact) e _) as [x e1]. cbn [fst] in H1.
  set (m2 := round_nearest_even _ _). assert (0 <= m2) as H2.
  { unfold m2, round_nearest_even. destruct (loc_of_shr_record x) as [|[]]; try lia. destruct (Z.even _); lia. }
  pose proof (shr_nonneg (shr_record_of_loc m2 loc_Exact) e1 (fexp f_prec f_emax (Zdigits2 m2 + e1) - e1) H2) as H3.
  destruct (shr (shr_record_of_loc m2 loc_Exact) e1 _) as [y e2]. cbn [fst] in H3.
  destruct (shr_m y); [done| |lia]. by destruct (e2 <=? _).
Qed.

Lemma num_not_nan z : n_isNaN (num_of_Z z) = false.
Proof.
  unfold num_of_Z, binary_normalize. destruct z as [|p|p]; [done| |]; unfold binary_round;
    destruct (shl_align p 0 _) as [mz ez]; apply round_aux_not_nan; lia.
Qed.
