(* ===== verification/JsMath.v ===== *)
(** * Math and number formatting

    [Math.floor], [Math.ceil], [Math.round], [Math.max], [Math.min], [toFixed], and the comparisons of
    a sort whose comparator is a chain [a || b || c]. *)

From Stdlib Require Import SpecFloat.
From S2P Require Import Prelude JsString JsNumber JsInteger.

#[local] Open Scope Z_scope.

(** The largest integer not above [(-1)^s * m * 2^e + half / 2]. *)
Definition floor_plus (half : Z) (s : bool) (m : positive) (e : Z) : Z :=
  let v := if s then Z.neg m else Z.pos m in
  if 0 <=? e then v * 2 ^ e + half / 2
  else (2 * v + half * 2 ^ (- e)) / (2 * 2 ^ (- e)).

(** A whole number that keeps the sign of a result that is zero. *)
Definition whole (s : bool) (z : Z) : number := if z =? 0 then S754_zero s else num_of_Z z.

(** [Math.floor(x)] *)
Definition n_floor (x : number) : number :=
  match x with
  | S754_finite s m e => if 0 <=? e then x else whole s (floor_plus 0 s m e)
  | _ => x
  end.

(** [Math.ceil(x)] *)
Definition n_ceil (x : number) : number := n_opp true (n_floor (n_opp true x)).

(** [Math.round(x)]: the nearest integer, halves up. *)
Definition n_round (x : number) : number :=
  match x with
  | S754_finite s m e => if 0 <=? e then x else whole s (floor_plus 1 s m e)
  | _ => x
  end.

(** [Math.max(x, y)] and [Math.min(x, y)]: [NaN] if either is, and zeros are ordered by
    their sign. *)
Definition n_max (x y : number) : number :=
  match x, y with
  | S754_nan, _ | _, S754_nan => S754_nan
  | S754_zero false, S754_zero _ => x
  | S754_zero true, S754_zero _ => y
  | _, _ => if n_ltb x y then y else x
  end.

Definition n_min (x y : number) : number :=
  match x, y with
  | S754_nan, _ | _, S754_nan => S754_nan
  | S754_zero true, S754_zero _ => x
  | S754_zero false, S754_zero _ => y
  | _, _ => if n_ltb y x then y else x
  end.

(** The integer value of a number that is an integer. *)
Definition int_value (x : number) : Z :=
  match x with S754_finite s m e => floor_plus 0 s m e | _ => 0 end.

(** ** [x.toFixed(d)] *)

Fixpoint zeros (n : nat) : jstr := match n with O => [] | S k => 48%N :: zeros k end.

(** [n] with [d] digits after the point. *)
Definition with_point (d : nat) (n : Z) : jstr :=
  let s := show_N (Z.to_N n) in
  let s := zeros (S d - length s) ++ s in
  match d with
  | O => s
  | _ => take (length s - d) s ++ js "." ++ drop (length s - d) s
  end.

Definition fixed_positive (d : nat) (m : positive) (e : Z) : jstr :=
  let n :=
    if 0 <=? e then Z.pos m * 2 ^ e * 10 ^ Z.of_nat d
    else (2 * Z.pos m * 10 ^ Z.of_nat d + 2 ^ (- e)) / (2 * 2 ^ (- e)) in
  with_point d n.

Definition to_fixed (d : nat) (x : number) : jstr :=
  match x with
  | S754_zero _ => with_point d 0
  | S754_finite s m e =>
      if n_leb (num_of_Z (10 ^ 21)) (S754_finite false m e) then show_num x
      else (if s then js "-" else []) ++ fixed_positive d m e
  | _ => show_num x
  end.

(** ** [Number.parseFloat] *)

(** The longest prefix that is a number, after spaces. *)
Definition parse_float (s : jstr) : number :=
  let t := trim_start s in
  let '(neg, u) :=
    match t with
    | c :: r => if (c =? 45)%N then (true, r) else if (c =? 43)%N then (false, r) else (false, t)
    | [] => (false, t)
    end in
  if starts_with (js "Infinity") u then S754_infinity neg
  else match read_decimal u with Some (x, _) => n_opp neg x | None => n_nan end.

(** [Math.abs(x)] *)
Definition n_abs (x : number) : number := SFabs x.

(** [Number.EPSILON] *)
Definition n_epsilon : number := n_div (num_of_Z 1) (num_of_Z (2 ^ 52)).

(** ** Comparators

    A comparator [d1 || d2 || ...] answers the first difference that is neither zero nor
    [NaN]; [then_by] is one link, for numbers, and [then_by_locale] for the result of
    [localeCompare].  The value is whether the first argument may stay before the second. *)
Definition then_by (d : number) (rest : bool) : bool := if n_truthy d then negb (n_ltb n_zero d) else rest.
Definition then_by_locale (d : Z) (rest : bool) : bool := if d =? 0 then rest else d <=? 0.

(** ** Agreement with JavaScript on known values *)

Example math_known :
  map (fun s => let x := num_of_string s in (show_num (n_floor x), show_num (n_round x), to_fixed 2 x))
    [js "2.5"; js "-2.5"; js "1.005"; js "0.34"; js "1e21"; js "-0.4"; js "7"; js "0.125"; js "123.456"] =
  [(js "2", js "3", js "2.50"); (js "-3", js "-2", js "-2.50"); (js "1", js "1", js "1.00");
   (js "0", js "0", js "0.34"); (js "1e+21", js "1e+21", js "1e+21"); (js "-1", js "0", js "-0.40");
   (js "7", js "7", js "7.00"); (js "0", js "0", js "0.13"); (js "123", js "123", js "123.46")].
Proof. vm_compute. reflexivity. Qed.

Example ceil_known :
  map (fun s => show_num (n_ceil (num_of_string s))) [js "2.001"; js "-2.5"; js "7"; js "0"; js "0.2"; js "2.5"] =
  [js "3"; js "-2"; js "7"; js "0"; js "1"; js "3"].
Proof. vm_compute. reflexivity. Qed.

Example parse_float_known :
  map (fun s => show_num (parse_float s)) [js " 1.50abc"; js "-.5e1x"; js "1e"; js "."; js "Infinityx"; js "0x1F"] =
  [js "1.5"; js "-5"; js "1"; js "NaN"; js "Infinity"; js "0"].
Proof. vm_compute. reflexivity. Qed.

(** ** Integers *)

Lemma int_of_Z z : safe z -> int_value (num_of_Z z) = z.
Proof.
  intros Hs. destruct (decide (z = 0)) as [-> | Hz]; [done|]. destruct (safe_stored z Hs Hz) as (s & p & -> & Hd & ->).
  pose proof (digits_pos p). unfold int_value, stored, floor_plus.
  assert (Z.pos (shl p (Z.to_nat (53 - digits p))) = Z.pos p * 2 ^ (53 - digits p)) as Hm
    by (rewrite shl_value, Z2Nat.id by lia; done).
  assert (forall q, (if s then Z.neg q else Z.pos q) = cond_Zopp s (Z.pos q)) as Hq by (intros; by destruct s).
  rewrite Hq, Hm. destruct (0 <=? digits p - 53) eqn:E.
  - replace (digits p) with 53 by lia. simpl. rewrite !Z.mul_1_r. destruct s; simpl; lia.
  - replace (- (digits p - 53)) with (53 - digits p) by lia. set (w := 2 ^ (53 - digits p)).
    assert (0 < w) by (apply Z.pow_pos_nonneg; lia).
    replace (2 * cond_Zopp s (Z.pos p * w) + 0 * w) with (cond_Zopp s (Z.pos p) * (2 * w)) by (destruct s; simpl; lia).
    by rewrite Z.div_mul by lia.
Qed.

Lemma num_of_Z_inj a b : safe a -> safe b -> num_of_Z a = num_of_Z b -> a = b.
Proof. intros Ha Hb E. by rewrite <- (int_of_Z a Ha), <- (int_of_Z b Hb), E. Qed.

(** Comparing two integers, and the sign of a difference. *)
Lemma eqb_exact a b : safe a -> safe b -> n_eqb (num_of_Z a) (num_of_Z b) = (a =? b).
Proof.
  intros Ha Hb. apply eq_true_iff_eq. rewrite Z.eqb_eq. split.
  - intros H. apply num_of_Z_inj; [done..|]. destruct (decide (a = 0)) as [-> | Na], (decide (b = 0)) as [-> | Nb]; [done|..].
    + destruct (safe_stored b Hb Nb) as (s & p & E & _). rewrite E in H. by destruct s.
    + destruct (safe_stored a Ha Na) as (s & p & E & _). rewrite E in H. by destruct s.
    + destruct (safe_stored a Ha Na) as (s & p & E & _). destruct (safe_stored b Hb Nb) as (s' & p' & E' & _). rewrite E, E' in *.
      unfold n_eqb, SFeqb, stored, SFcompare in *. destruct s, s'; try done;
      destruct (digits p - 53 ?= digits p' - 53) eqn:Ed; try done; apply Z.compare_eq in Ed;
      destruct (Pos.compare_cont Eq _ _) eqn:Em; try done; apply Pos.compare_eq in Em; by rewrite Ed, Em.
  - intros ->. destruct (decide (b = 0)) as [-> | Nb]; [done|]. destruct (safe_stored b Hb Nb) as (s & p & -> & _).
    unfold n_eqb, SFeqb, stored, SFcompare. rewrite Z.compare_refl. set (m := shl _ _).
    assert (Pos.compare_cont Eq m m = Eq) as -> by apply Pos.compare_refl. by destruct s.
Qed.

Lemma truthy_exact d : safe d -> n_truthy (num_of_Z d) = negb (d =? 0).
Proof.
  intros Hd. destruct (decide (d = 0)) as [-> | Nd]; [done|]. destruct (safe_stored d Hd Nd) as (s & p & -> & _).
  rewrite (proj2 (Z.eqb_neq d 0)) by done. done.
Qed.

Lemma positive_exact d : safe d -> n_ltb n_zero (num_of_Z d) = (0 <? d).
Proof.
  intros Hd. destruct (decide (d = 0)) as [-> | Nd]; [done|]. destruct (safe_stored d Hd Nd) as (s & p & -> & _ & ->).
  by destruct s.
Qed.
