(* ===== verification/Json.v ===== *)
(** * JavaScript values and JSON

    The dynamically typed values that reach the client from responses, storage and
    text fields ([unknown] in the source), [JSON.parse] and the string case of
    [JSON.stringify].  An object is the list of its own properties in
    [Object.keys] order: integer keys ascending, then the others in insertion
    order. *)

From S2P Require Import Prelude JsString JsNumber.

Inductive jsval :=
  | VUndef
  | VNull
  | VBool (b : bool)
  | VNum (x : number)
  | VStr (s : jstr)
  | VArr (l : list jsval)
  | VObj (o : list (jstr * jsval)).

(** ** Property access *)

Fixpoint prop_get {A} (k : jstr) (o : list (jstr * A)) : option A :=
  match o with
  | [] => None
  | (k', v) :: t => if k =s k' then Some v else prop_get k t
  end.

(** [v?.k] for a property that is not inherited; arrays and strings have none of
    the names used here. *)
Definition get (k : jstr) (v : jsval) : jsval :=
  match v with VObj o => default VUndef (prop_get k o) | _ => VUndef end.

(** An array index key: a canonical decimal below 2^32 - 1. *)
Definition index_key (k : jstr) : option N :=
  if truthy k && forallb is_digit k && (k =s show_N (dec_val k)) && (dec_val k <? 4294967295)%N
  then Some (dec_val k) else None.

Fixpoint prop_replace {A} (k : jstr) (v : A) (o : list (jstr * A)) : list (jstr * A) :=
  match o with
  | [] => []
  | (k', v') :: t => if k =s k' then (k', v) :: t else (k', v') :: prop_replace k v t
  end.

(** Insert an integer key before the first key that is not a smaller one. *)
Fixpoint prop_insert_index {A} (n : N) (k : jstr) (v : A) (o : list (jstr * A)) : list (jstr * A) :=
  match o with
  | [] => [(k, v)]
  | (k', v') :: t =>
      match index_key k' with
      | Some n' => if (n' <? n)%N then (k', v') :: prop_insert_index n k v t else (k, v) :: o
      | None => (k, v) :: o
      end
  end.

(** [o[k] = v] *)
Definition prop_set {A} (k : jstr) (v : A) (o : list (jstr * A)) : list (jstr * A) :=
  match prop_get k o with
  | Some _ => prop_replace k v o
  | None =>
      match index_key k with
      | Some n => prop_insert_index n k v o
      | None => o ++ [(k, v)]
      end
  end.

(** [delete o[k]] *)
Definition prop_delete {A} (k : jstr) (o : list (jstr * A)) : list (jstr * A) :=
  bfilter (fun p => negb (k =s fst p)) o.

(** ** Conversions *)

Definition v_truthy (v : jsval) : bool :=
  match v with
  | VUndef | VNull => false
  | VBool b => b
  | VNum x => n_truthy x
  | VStr s => truthy s
  | VArr _ | VObj _ => true
  end.

(** [typeof v === 'object'] holds of [null], arrays and objects. *)
Definition is_record (v : jsval) : bool :=
  match v with VArr _ | VObj _ => true | _ => false end.

(** [String(v)]; an array joins its elements, with the nullish ones empty. *)
Fixpoint to_string (v : jsval) : jstr :=
  match v with
  | VUndef => js "undefined"
  | VNull => js "null"
  | VBool true => js "true"
  | VBool false => js "false"
  | VNum x => show_num x
  | VStr s => s
  | VArr l =>
      join (js ",")
        (map (fun x => match x with VUndef | VNull => [] | _ => to_string x end) l)
  | VObj _ => js "[object Object]"
  end.

(** [Number(v)] *)
Definition to_number (v : jsval) : number :=
  match v with
  | VUndef => n_nan
  | VNull => n_zero
  | VBool b => if b then num_of_Z 1 else n_zero
  | VNum x => x
  | VStr _ | VArr _ | VObj _ => num_of_string (to_string v)
  end.

(** ** JSON.stringify on strings *)

Definition hex_digit (n : N) : N := (if n <? 10 then 48 + n else 87 + n)%N.

Definition u_escape (c : N) : jstr :=
  js "\u" ++ [hex_digit (c / 4096 mod 16); hex_digit (c / 256 mod 16);
              hex_digit (c / 16 mod 16); hex_digit (c mod 16)]%N.

Definition is_high (c : N) : bool := ((55296 <=? c) && (c <=? 56319))%N.
Definition is_low (c : N) : bool := ((56320 <=? c) && (c <=? 57343))%N.

Definition quote_unit (c : N) : jstr :=
  (if c =? 8 then js "\b" else if c =? 9 then js "\t" else if c =? 10 then js "\n"
   else if c =? 12 then js "\f" else if c =? 13 then js "\r"
   else if c =? 34 then [92; 34] else if c =? 92 then js "\\"
   else if c <? 32 then u_escape c else [c])%N.

(** A surrogate pair is copied; an unpaired surrogate is escaped. *)
Fixpoint quote_body (s : jstr) : jstr :=
  match s with
  | [] => []
  | c :: t =>
      if is_high c then
        match t with
        | d :: t' => if is_low d then c :: d :: quote_body t' else u_escape c ++ quote_body t
        | [] => u_escape c
        end
      else if is_low c then u_escape c ++ quote_body t
      else quote_unit c ++ quote_body t
  end.

Definition stringify_string (s : jstr) : jstr := [34%N] ++ quote_body s ++ [34%N].

(** ** JSON.parse *)

Definition is_json_ws (c : N) : bool := ((c =? 32) || (c =? 9) || (c =? 10) || (c =? 13))%N.
Definition skip_ws (s : jstr) : jstr := snd (span is_json_ws s).

Definition hex4 (s : jstr) : option (N * jstr) :=
  match s with
  | a :: b :: c :: d :: t =>
      match hex_val a, hex_val b, hex_val c, hex_val d with
      | Some a', Some b', Some c', Some d' =>
          Some ((a' * 4096 + b' * 256 + c' * 16 + d')%N, t)
      | _, _, _, _ => None
      end
  | _ => None
  end.

Definition simple_escape (e : N) : option N :=
  (if e =? 34 then Some 34 else if e =? 92 then Some 92 else if e =? 47 then Some 47
   else if e =? 98 then Some 8 else if e =? 102 then Some 12 else if e =? 110 then Some 10
   else if e =? 114 then Some 13 else if e =? 116 then Some 9 else None)%N.

(** The rest of a string literal after its opening quote. *)
Fixpoint parse_string_body (fuel : nat) (s : jstr) : option (jstr * jstr) :=
  match fuel with
  | O => None
  | S f =>
      let add c r := '(w, rest) ← parse_string_body f r; Some (c :: w, rest) in
      match s with
      | [] => None
      | c :: t =>
          if (c =? 34)%N then Some ([], t)
          else if (c =? 92)%N then
            match t with
            | [] => None
            | e :: t' =>
                if (e =? 117)%N then '(v, r) ← hex4 t'; add v r
                else v ← simple_escape e; add v t'
            end
          else if (c <? 32)%N then None
          else add c t
      end
  end.

Definition parse_string (s : jstr) : option (jstr * jstr) :=
  match s with
  | c :: t => if (c =? 34)%N then parse_string_body (length s) t else None
  | [] => None
  end.

(** A JSON number: no leading zero, digits after the point. *)
Definition parse_number (s : jstr) : option (number * jstr) :=
  let '(neg, u) := match s with
                   | c :: r => if (c =? 45)%N then (true, r) else (false, s)
                   | [] => (false, s)
                   end in
  let '(ip, s1) := read_digits u in
  let ip_ok := match ip with [] => false | [_] => true | c :: _ => negb (c =? 48)%N end in
  let frac_ok := match s1 with
                 | c :: t => if (c =? 46)%N then truthy (fst (read_digits t)) else true
                 | [] => true
                 end in
  if ip_ok && frac_ok
  then '(x, rest) ← read_decimal u;
       (* "1e" is an error, not the number 1 followed by text *)
       match rest with
       | c :: _ => if ((c =? 101) || (c =? 69))%N then None else Some (n_opp neg x, rest)
       | [] => Some (n_opp neg x, rest)
       end
  else None.

Definition parse_keyword (s : jstr) : option (jsval * jstr) :=
  if starts_with (js "true") s then Some (VBool true, drop 4 s)
  else if starts_with (js "false") s then Some (VBool false, drop 5 s)
  else if starts_with (js "null") s then Some (VNull, drop 4 s)
  else None.

(** Values, array tails and member lists, mutually recursive on the fuel; every
    call consumes a unit, so the length of the text bounds the depth. *)
Fixpoint parse_value (fuel : nat) (s0 : jstr) : option (jsval * jstr) :=
  match fuel with
  | O => None
  | S f =>
      let elements := fix elements (g : nat) (s : jstr) : option (list jsval * jstr) :=
        match g with
        | O => None
        | S g' =>
            '(v, r) ← parse_value f s;
            match skip_ws r with
            | c :: t =>
                if (c =? 44)%N then '(vs, r') ← elements g' t; Some (v :: vs, r')
                else if (c =? 93)%N then Some ([v], t) else None
            | [] => None
            end
        end in
      let members := fix members (g : nat) (s : jstr) (acc : list (jstr * jsval))
          : option (list (jstr * jsval) * jstr) :=
        match g with
        | O => None
        | S g' =>
            '(k, r) ← parse_string (skip_ws s);
            match skip_ws r with
            | c :: t =>
                if (c =? 58)%N then
                  '(v, r') ← parse_value f t;
                  let acc' := prop_set k v acc in
                  match skip_ws r' with
                  | d :: t' =>
                      if (d =? 44)%N then members g' t' acc'
                      else if (d =? 125)%N then Some (acc', t') else None
                  | [] => None
                  end
                else None
            | [] => None
            end
        end in
      let s := skip_ws s0 in
      match s with
      | [] => None
      | c :: t =>
          if (c =? 34)%N then '(w, r) ← parse_string s; Some (VStr w, r)
          else if (c =? 91)%N then
            match skip_ws t with
            | d :: t' => if (d =? 93)%N then Some (VArr [], t')
                         else '(vs, r) ← elements f t; Some (VArr vs, r)
            | [] => None
            end
          else if (c =? 123)%N then
            match skip_ws t with
            | d :: t' => if (d =? 125)%N then Some (VObj [], t')
                         else '(ms, r) ← members f t []; Some (VObj ms, r)
            | [] => None
            end
          else if is_digit c || (c =? 45)%N then '(x, r) ← parse_number s; Some (VNum x, r)
          else parse_keyword s
      end
  end.

(** [JSON.parse(s)]; [None] is the [SyntaxError]. *)
Definition json_parse (s : jstr) : option jsval :=
  '(v, r) ← parse_value (S (length s)) s;
  match skip_ws r with [] => Some v | _ => None end.

(** ** Round trip of string literals *)

(** Well-formed JavaScript strings: 16-bit code units. *)
Definition units (s : jstr) : Prop := Forall (fun c => (c < 65536)%N) s.

Lemma hex_val_digit n : (n < 16)%N -> hex_val (hex_digit n) = Some n.
Proof.
  intros H. assert (n ∈ map N.of_nat (seq 0 16)) as Hin.
  { apply list_elem_of_In, in_map_iff. exists (N.to_nat n). rewrite in_seq. lia. }
  revert n H Hin. assert (forall l, Forall (fun n => hex_val (hex_digit n) = Some n) l ->
    forall n, n ∈ l -> hex_val (hex_digit n) = Some n) as Hl.
  { intros l. by rewrite Forall_forall. }
  intros n _. apply Hl. repeat constructor.
Qed.

Lemma hex4_escape c t :
  (c < 65536)%N ->
  hex4 ([hex_digit (c / 4096 mod 16); hex_digit (c / 256 mod 16);
         hex_digit (c / 16 mod 16); hex_digit (c mod 16)]%N ++ t) = Some (c, t).
Proof.
  intros Hc. simpl. rewrite !hex_val_digit by (apply N.mod_lt; done).
  do 2 f_equal. lia.
Qed.

Lemma parse_body_escape f c t w r :
  (c < 65536)%N -> parse_string_body f t = Some (w, r) ->
  parse_string_body (S f) (u_escape c ++ t) = Some (c :: w, r).
Proof.
  intros Hc Ht.
  change (u_escape c ++ t) with
    (92%N :: 117%N :: ([hex_digit (c / 4096 mod 16); hex_digit (c / 256 mod 16);
         hex_digit (c / 16 mod 16); hex_digit (c mod 16)]%N ++ t)).
  cbn [parse_string_body N.eqb Pos.eqb]. rewrite hex4_escape by done. cbn. by rewrite Ht.
Qed.

Lemma parse_body_plain f c t w r :
  c <> 34%N -> c <> 92%N -> (32 <= c)%N -> parse_string_body f t = Some (w, r) ->
  parse_string_body (S f) (c :: t) = Some (c :: w, r).
Proof.
  intros H1 H2 H3 Ht. cbn [parse_string_body].
  rewrite (proj2 (N.eqb_neq _ _) H1), (proj2 (N.eqb_neq _ _) H2), (proj2 (N.ltb_ge _ _) H3).
  cbn. by rewrite Ht.
Qed.

Lemma parse_body_unit f c t w r :
  (c < 65536)%N -> parse_string_body f t = Some (w, r) ->
  parse_string_body (S f) (quote_unit c ++ t) = Some (c :: w, r).
Proof.
  intros Hc Ht. unfold quote_unit.
  repeat match goal with
  | |- context [if (c =? ?v)%N then _ else _] =>
      destruct (N.eqb_spec c v) as [-> | ?]; [cbn; by rewrite Ht|]
  end.
  destruct (N.ltb_spec c 32); [by apply parse_body_escape|]. by apply parse_body_plain.
Qed.

Lemma surrogate_plain c : is_high c = true \/ is_low c = true -> c <> 34%N /\ c <> 92%N /\ (32 <= c)%N.
Proof. unfold is_high, is_low. lia. Qed.

(** Fuel one above the length of the string (not of its quoted form) suffices. *)
Lemma parse_quote_body s f t :
  units s -> length s < f ->
  parse_string_body f (quote_body s ++ 34%N :: t) = Some (s, t).
Proof.
  remember (length s) as n eqn:En. revert s En f.
  induction n as [n IH] using lt_wf_ind. intros s -> f Hu Hf.
  destruct f as [|f]; [lia|]. destruct s as [|c s]; [done|].
  inversion Hu as [|? ? Hc Hs]; subst. cbn [quote_body length] in *.
  assert (parse_string_body f (quote_body s ++ 34%N :: t) = Some (s, t)) as Hrec.
  { apply (IH (length s)); [simpl; lia|done..|lia]. }
  destruct (is_high c) eqn:Eh.
  - destruct s as [|d s'].
    + by apply parse_body_escape.
    + destruct (is_low d) eqn:El; [|rewrite <- app_assoc; by apply parse_body_escape].
      destruct f as [|f]; [simpl in Hf; lia|]. inversion Hs; subst.
      destruct (surrogate_plain c) as (? & ? & ?); [by left|].
      destruct (surrogate_plain d) as (? & ? & ?); [by right|].
      simpl app. apply parse_body_plain; [done..|]. apply parse_body_plain; [done..|].
      apply (IH (length s')); [simpl; lia|done..|simpl in Hf; lia].
  - destruct (is_low c) eqn:El; rewrite <- app_assoc.
    + by apply parse_body_escape.
    + by apply parse_body_unit.
Qed.

Lemma quote_body_length s : length s <= length (quote_body s).
Proof.
  remember (length s) as n eqn:En. revert s En.
  induction n as [n IH] using lt_wf_ind. intros s ->.
  destruct s as [|c s]; [simpl; lia|]. cbn [quote_body].
  assert (length s <= length (quote_body s)) by (apply (IH (length s)); [simpl; lia|done]).
  assert (1 <= length (quote_unit c)).
  { unfold quote_unit. cases; simpl; lia. }
  destruct (is_high c).
  - destruct s as [|d s']; [simpl; lia|]. destruct (is_low d).
    + assert (length s' <= length (quote_body s')) by (apply (IH (length s')); [simpl; lia|done]).
      simpl. lia.
    + rewrite length_app. simpl length at 2. simpl in *. lia.
  - destruct (is_low c); rewrite length_app; simpl in *; lia.
Qed.

Lemma parse_string_quote s t :
  units s -> parse_string (stringify_string s ++ t) = Some (s, t).
Proof.
  intros Hu. unfold stringify_string, parse_string. rewrite <- !app_assoc.
  cbn [app N.eqb Pos.eqb].
  apply parse_quote_body; [done|]. cbn [length]. rewrite length_app. cbn [length].
  pose proof (quote_body_length s). lia.
Qed.

(** [JSON.parse(JSON.stringify(s)) === s] for strings. *)
Lemma json_parse_stringify s :
  units s -> json_parse (stringify_string s) = Some (VStr s).
Proof.
  intros Hu. pose proof (parse_string_quote s [] Hu) as H. rewrite app_nil_r in H.
  unfold json_parse. cbn [parse_value].
  assert (skip_ws (stringify_string s) = stringify_string s) as -> by done.
  rewrite H. done.
Qed.

(** ** Examples *)

Example json_parse_example :
  json_parse (jsq " { `a` : [1, 2.5e1, true, null], `2` : `x\ty`, `1`: {}, `a`: -0 } ") =
  Some (VObj [(js "1", VObj []); (js "2", VStr [120; 9; 121]%N);
              (js "a", VNum (dec (js "-0")))]).
Proof. vm_compute. reflexivity. Qed.

Example json_parse_rejects :
  map json_parse [js "01"; js "1."; js "[1,]"; js "{a:1}"; js "tru"; js "1 2"; jsq "`a"; js "-"]
  = repeat None 8.
Proof. vm_compute. reflexivity. Qed.

(** ** Property lists *)

Lemma prop_get_replace {A} k k' (v : A) o :
  prop_get k' (prop_replace k v o) =
  if k =s k' then (fun _ => v) <$> prop_get k o else prop_get k' o.
Proof.
  unfold jeqb. induction o as [|[k2 v2] o IH]; simpl; [by case_bool_decide|].
  unfold jeqb. destruct (decide (k = k2)) as [-> | Hne].
  - rewrite (bool_decide_true (k2 = k2)) by done. simpl. unfold jeqb.
    destruct (decide (k2 = k')) as [-> | ?]; [by rewrite !bool_decide_true|].
    by rewrite !bool_decide_false.
  - rewrite (bool_decide_false (k = k2)) by done. simpl. unfold jeqb. rewrite IH.
    destruct (decide (k' = k2)) as [-> | ?]; [|by rewrite bool_decide_false].
    by rewrite bool_decide_true, bool_decide_false.
Qed.

Lemma prop_get_insert_index {A} n k k' (v : A) o :
  prop_get k o = None ->
  prop_get k' (prop_insert_index n k v o) = if k' =s k then Some v else prop_get k' o.
Proof.
  induction o as [|[k2 v2] o IH]; simpl; [done|].
  destruct (k =s k2) eqn:E; [done|]. intros H.
  assert (forall b : bool, prop_get k' ((k, v) :: (k2, v2) :: o) =
    if k' =s k then Some v else if k' =s k2 then Some v2 else prop_get k' o) as Hhd by done.
  destruct (index_key k2) as [n'|]; [|apply (Hhd true)].
  destruct (n' <? n)%N; [|apply (Hhd true)]. simpl. rewrite IH by done.
  destruct (k' =s k2) eqn:E2; [|done]. destruct (k' =s k) eqn:E3; [|done].
  apply jeqb_eq in E2, E3. subst. by rewrite jeqb_refl in E.
Qed.

Lemma prop_get_app_None {A} k k' (v : A) o :
  prop_get k o = None -> prop_get k' (o ++ [(k, v)]) = if k' =s k then Some v else prop_get k' o.
Proof.
  induction o as [|[k2 v2] o IH]; simpl; [done|]. destruct (k =s k2) eqn:E; [done|].
  intros H. rewrite IH by done. destruct (k' =s k2) eqn:E2; [|done].
  destruct (k' =s k) eqn:E3; [|done]. apply jeqb_eq in E2, E3. subst. by rewrite jeqb_refl in E.
Qed.

(** Reading after a write. *)
Lemma prop_get_set {A} k k' (v : A) o :
  prop_get k' (prop_set k v o) = if k' =s k then Some v else prop_get k' o.
Proof.
  unfold prop_set. destruct (prop_get k o) as [u|] eqn:E.
  - rewrite prop_get_replace, E. simpl. unfold jeqb. by repeat case_bool_decide; subst.
  - destruct (index_key k); [by apply prop_get_insert_index|by apply prop_get_app_None].
Qed.

Lemma prop_get_delete {A} k k' (o : list (jstr * A)) :
  prop_get k' (prop_delete k o) = if k' =s k then None else prop_get k' o.
Proof.
  unfold prop_delete. induction o as [|[k2 v2] o IH]; simpl; [by destruct (k' =s k)|].
  unfold jeqb in *. destruct (decide (k = k2)) as [-> | Hne].
  - rewrite (bool_decide_true (k2 = k2)) by done. simpl. rewrite IH. by case_bool_decide.
  - rewrite (bool_decide_false (k = k2)) by done. simpl. unfold jeqb. rewrite IH.
    destruct (decide (k' = k2)) as [-> | ?]; [|by rewrite (bool_decide_false (k' = k2))].
    by rewrite bool_decide_true, bool_decide_false.
Qed.

Lemma prop_get_in {A} k (o : list (jstr * A)) v : prop_get k o = Some v -> (k, v) ∈ o.
Proof.
  induction o as [|[k' v'] o IH]; simpl; [done|]. destruct (k =s k') eqn:E; [|intros H; right; auto].
  apply jeqb_eq in E as ->. intros [= ->]. left.
Qed.

Lemma prop_get_None_iff {A} k (o : list (jstr * A)) : prop_get k o = None <-> k ∉ map fst o.
Proof.
  induction o as [|[k2 v2] o IH]; simpl.
  - split; [|done]. intros _. apply not_elem_of_nil.
  - unfold jeqb. rewrite not_elem_of_cons. case_bool_decide.
    + split; [done|]. intros [? _]. done.
    + rewrite IH. split; [done|]. by intros [_ ?].
Qed.

#[export] Hint Rewrite @prop_get_set @prop_get_delete jeqb_refl : acu.
