(* ===== verification/JsonText.v ===== *)
(** * JSON.stringify

    The text of a value, and the round trip through [JSON.parse]. *)

From S2P Require Import Prelude JsString JsNumber Json.

(** The texts of the elements or members between brackets.  [gap n] is the white space
    before an element at depth [n]. *)
Definition enclose (gap : nat -> jstr) (lvl : nat) (op cl : jstr) (ws : list jstr) : jstr :=
  match ws with
  | [] => op ++ cl
  | _ => op ++ gap (S lvl) ++ join (js "," ++ gap (S lvl)) ws ++ gap lvl ++ cl
  end.

(** The text of a value; [None] is [undefined].  An array writes [null] for a value that
    has no text, an object leaves the property out, and a number that is not finite
    becomes [null]. *)
Fixpoint render (gap : nat -> jstr) (colon : jstr) (lvl : nat) (v : jsval) : option jstr :=
  match v with
  | VUndef => None
  | VNull => Some (js "null")
  | VBool true => Some (js "true")
  | VBool false => Some (js "false")
  | VNum x => Some (if n_isFinite x then show_num x else js "null")
  | VStr s => Some (stringify_string s)
  | VArr l =>
      Some (enclose gap lvl (js "[") (js "]")
        (map (fun x => default (js "null") (render gap colon (S lvl) x)) l))
  | VObj o =>
      Some (enclose gap lvl (js "{") (js "}")
        (omap (fun '(k, x) =>
           w ← render gap colon (S lvl) x; Some (stringify_string k ++ js ":" ++ colon ++ w)) o))
  end.

(** [JSON.stringify(v)] *)
Definition stringify : jsval -> option jstr := render (fun _ => []) [] 0.

(** [JSON.stringify(v, null, 2)] *)
Definition stringify_pretty : jsval -> option jstr :=
  render (fun n => 10%N :: repeat 32%N (2 * n)) [32%N] 0.

(** ** Values that survive *)

(** The text of the number reads back as the number. *)
Definition reads_back (x : number) : bool :=
  n_isFinite x && match parse_number (show_num x) with Some (y, []) => n_same x y | _ => false end.

Definition unit_string (s : jstr) : bool := forallb (fun c => c <? 65536)%N s.

(** The properties are in the order of [Object.keys], each once: setting [k] after
    [prior] adds it at the end. *)
Definition appends (prior : list jstr) (k : jstr) : bool :=
  negb (bool_decide (k ∈ prior)) &&
  match index_key k with
  | None => true
  | Some n => forallb (fun k' => match index_key k' with Some n' => (n' <? n)%N | None => false end) prior
  end.

Fixpoint ordered_keys (prior ks : list jstr) : bool :=
  match ks with
  | [] => true
  | k :: t => appends prior k && ordered_keys (prior ++ [k]) t
  end.

(** Data as JSON has it: no [undefined], strings of 16-bit units, numbers that read back. *)
Fixpoint plain_value (v : jsval) : bool :=
  match v with
  | VUndef => false
  | VNull | VBool _ => true
  | VNum x => reads_back x
  | VStr s => unit_string s
  | VArr l => forallb plain_value l
  | VObj o =>
      ordered_keys [] (map fst o) && forallb (fun '(k, x) => unit_string k && plain_value x) o
  end.

(** ** Induction on values *)

Section jsval_ind.
Variable P : jsval -> Prop.
Hypothesis P_undef : P VUndef.
Hypothesis P_null : P VNull.
Hypothesis P_bool : forall b, P (VBool b).
Hypothesis P_num : forall x, P (VNum x).
Hypothesis P_str : forall s, P (VStr s).
Hypothesis P_arr : forall l, Forall P l -> P (VArr l).
Hypothesis P_obj : forall o, Forall (fun p => P (snd p)) o -> P (VObj o).

Fixpoint jsval_nested_ind (v : jsval) : P v :=
  match v with
  | VUndef => P_undef
  | VNull => P_null
  | VBool b => P_bool b
  | VNum x => P_num x
  | VStr s => P_str s
  | VArr l =>
      P_arr l ((fix go l := match l return Forall P l with
                            | [] => Forall_nil_2 P
                            | x :: t => Forall_cons_2 P x t (jsval_nested_ind x) (go t)
                            end) l)
  | VObj o =>
      P_obj o ((fix go o := match o return Forall (fun p => P (snd p)) o with
                            | [] => Forall_nil_2 _
                            | (k, x) :: t => Forall_cons_2 _ (k, x) t (jsval_nested_ind x) (go t)
                            end) o)
  end.
End jsval_ind.

(** ** The loops of the parser *)

Section loops.
Variable pv : jstr -> option (jsval * jstr).

Fixpoint elements_of (g : nat) (s : jstr) : option (list jsval * jstr) :=
  match g with
  | O => None
  | S g' =>
      '(v, r) ← pv s;
      match skip_ws r with
      | c :: t =>
          if (c =? 44)%N then '(vs, r') ← elements_of g' t; Some (v :: vs, r')
          else if (c =? 93)%N then Some ([v], t) else None
      | [] => None
      end
  end.

Fixpoint members_of (g : nat) (s : jstr) (acc : list (jstr * jsval))
  : option (list (jstr * jsval) * jstr) :=
  match g with
  | O => None
  | S g' =>
      '(k, r) ← parse_string (skip_ws s);
      match skip_ws r with
      | c :: t =>
          if (c =? 58)%N then
            '(v, r') ← pv t;
            let acc' := prop_set k v acc in
            match skip_ws r' with
            | d :: t' =>
                if (d =? 44)%N then members_of g' t' acc'
                else if (d =? 125)%N then Some (acc', t') else None
            | [] => None
            end
          else None
      | [] => None
      end
  end.
End loops.

Lemma parse_value_S f s0 :
  parse_value (S f) s0 =
  let s := skip_ws s0 in
  match s with
  | [] => None
  | c :: t =>
      if (c =? 34)%N then '(w, r) ← parse_string s; Some (VStr w, r)
      else if (c =? 91)%N then
        match skip_ws t with
        | d :: t' => if (d =? 93)%N then Some (VArr [], t')
                     else '(vs, r) ← elements_of (parse_value f) f t; Some (VArr vs, r)
        | [] => None
        end
      else if (c =? 123)%N then
        match skip_ws t with
        | d :: t' => if (d =? 125)%N then Some (VObj [], t')
                     else '(ms, r) ← members_of (parse_value f) f t []; Some (VObj ms, r)
        | [] => None
        end
      else if is_digit c || (c =? 45)%N then '(x, r) ← parse_number s; Some (VNum x, r)
      else parse_keyword s
  end.
Proof. reflexivity. Qed.

(** ** Numbers followed by other text *)

Definition number_end (rest : jstr) : Prop :=
  match rest with
  | [] => True
  | c :: _ => is_digit c = false /\ (c =? 46)%N = false /\ ((c =? 101) || (c =? 69))%N = false
  end.

Lemma span_app_end p (s rest : jstr) :
  match rest with [] => True | c :: _ => p c = false end ->
  span p (s ++ rest) = (fst (span p s), snd (span p s) ++ rest).
Proof.
  intros Hr. induction s as [|c s IH]; simpl.
  - destruct rest as [|c t]; simpl; [done|]. by rewrite Hr.
  - destruct (p c); [|done]. rewrite IH. by destruct (span p s).
Qed.

Lemma read_digits_app s rest :
  number_end rest -> read_digits (s ++ rest) = (fst (read_digits s), snd (read_digits s) ++ rest).
Proof. intros Hr. apply span_app_end. destruct rest; [done|]. apply Hr. Qed.

Lemma read_exponent_app s rest :
  number_end rest ->
  read_exponent (s ++ rest) = match read_exponent s with Some (e, r) => Some (e, r ++ rest) | None => None end \/
  read_exponent s = None /\ s <> [].
Proof.
  intros Hr. destruct s as [|c s]; simpl.
  { left. unfold read_exponent. destruct rest as [|c t]; [done|]. destruct Hr as (_ & _ & ->). done. }
  destruct ((c =? 101) || (c =? 69))%N; [|by left].
  destruct s as [|d s]; simpl.
  - right. done.
  - left. destruct (d =? 43)%N; [|destruct (d =? 45)%N].
    + rewrite read_digits_app by done. destruct (read_digits s) as [ds r]. simpl. by destruct (truthy ds).
    + rewrite read_digits_app by done. destruct (read_digits s) as [ds r]. simpl. by destruct (truthy ds).
    + change (d :: s ++ rest) with ((d :: s) ++ rest). rewrite read_digits_app by done. destruct (read_digits (d :: s)) as [ds r]. simpl. by destruct (truthy ds).
Qed.

Lemma read_decimal_app u x rest :
  number_end rest -> read_decimal u = Some (x, []) -> read_decimal (u ++ rest) = Some (x, rest).
Proof.
  intros Hr. unfold read_decimal. rewrite read_digits_app by done.
  destruct (read_digits u) as [ip s1]. cbn [fst snd].
  destruct s1 as [|c t]; cbn [app].
  - destruct (truthy (ip ++ [])) eqn:Et; [|done]. cbn [read_exponent]. intros [= <-].
    assert ((match rest with
      | [] => ([], rest)
      | c :: t => if (c =? 46)%N then read_digits t else ([], rest) end) = ([], rest)) as ->.
    { destruct rest as [|c t]; [done|]. destruct Hr as (_ & -> & _). done. }
    rewrite Et. assert (read_exponent rest = None) as ->; [|done].
    destruct rest as [|c t]; [done|]. simpl. destruct Hr as (_ & _ & ->). done.
  - destruct (c =? 46)%N eqn:Ec.
    + rewrite read_digits_app by done. destruct (read_digits t) as [fp s2]. cbn [fst snd].
      destruct (truthy (ip ++ fp)); [|done].
      destruct (read_exponent_app s2 rest Hr) as [-> | [-> Hne]]; [|by intros [= _ ->]].
      destruct (read_exponent s2) as [[e r]|]; [intros [= <- ->]|intros [= <- ->]]; done.
    + destruct (truthy (ip ++ [])); [|done]. change (c :: t ++ rest) with ((c :: t) ++ rest).
      destruct (read_exponent_app (c :: t) rest Hr) as [-> | [-> Hne]]; [|by intros [= _ ->]].
      destruct (read_exponent (c :: t)) as [[e r]|]; [intros [= <- ->]; done|done].
Qed.

Lemma parse_number_app s x rest :
  number_end rest -> parse_number s = Some (x, []) -> parse_number (s ++ rest) = Some (x, rest).
Proof.
  intros Hr. unfold parse_number.
  assert (s <> [] -> (match s ++ rest with
      | c :: r => if (c =? 45)%N then (true, r) else (false, s ++ rest) | [] => (false, s ++ rest) end) =
    let '(neg, u) := match s with
      | c :: r => if (c =? 45)%N then (true, r) else (false, s) | [] => (false, s) end in (neg, u ++ rest)) as Hn.
  { destruct s as [|c s]; [done|]. intros _. simpl. by destruct (c =? 45)%N. }
  destruct (decide (s = [])) as [-> | Hs]; [done|]. rewrite Hn by done.
  destruct (match s with c :: r => if (c =? 45)%N then (true, r) else (false, s) | [] => (false, s) end) as [neg u].
  rewrite read_digits_app by done. destruct (read_digits u) as [ip s1] eqn:Eu. cbn [fst snd].
  set (ip_ok := match ip with [] => false | [_] => true | c :: _ => negb (c =? 48)%N end).
  assert ((match s1 ++ rest with
      | c :: t => if (c =? 46)%N then truthy (fst (read_digits t)) else true | [] => true end) =
    (match s1 with c :: t => if (c =? 46)%N then truthy (fst (read_digits t)) else true | [] => true end)) as ->.
  { destruct s1 as [|c t]; simpl.
    - destruct rest as [|c t]; [done|]. destruct Hr as (_ & -> & _). done.
    - destruct (c =? 46)%N; [|done]. by rewrite read_digits_app. }
  destruct (ip_ok && _); [|done]. intros H. apply bind_Some in H as ([y r] & Hd & H).
  destruct r as [|c r]; [|destruct (_ || _); [done|]; by injection H].
  injection H as <-. rewrite (read_decimal_app u y rest Hr Hd). cbn.
  destruct rest as [|c t]; [done|]. destruct Hr as (_ & _ & ->). done.
Qed.

(** ** The round trip *)

Lemma n_same_eq x y : n_same x y = true -> x = y.
Proof.
  destruct x as [[]|[]| |s1 m1 e1], y as [[]|[]| |s2 m2 e2]; simpl; try done.
  rewrite !andb_true_iff. intros [[->%eqb_prop ->%Pos.eqb_eq] ->%Z.eqb_eq]. done.
Qed.

Lemma unit_string_units s : unit_string s = true -> units s.
Proof.
  unfold unit_string, units. rewrite forallb_Forall'. intros H. eapply Forall_impl; [exact H|].
  simpl. intros c. apply N.ltb_lt.
Qed.

Lemma unit_string_app a b : unit_string (a ++ b) = unit_string a && unit_string b.
Proof. apply forallb_app. Qed.

Lemma unit_string_trim s : unit_string s = true -> unit_string (trim s) = true.
Proof.
  destruct (trim_split s) as (a & b & E & _ & _). rewrite E at 1. rewrite !unit_string_app, !andb_true_iff. tauto.
Qed.

Lemma appends_set {A} (acc : list (jstr * A)) k v :
  appends (map fst acc) k = true -> prop_set k v acc = acc ++ [(k, v)].
Proof.
  unfold appends. rewrite andb_true_iff, negb_true_iff, bool_decide_eq_false. intros [Hn Hi].
  unfold prop_set. rewrite (proj2 (prop_get_None_iff k acc) Hn). destruct (index_key k) as [n|]; [|done].
  clear Hn. induction acc as [|[k' v'] acc IH]; [done|]. simpl in *.
  destruct (index_key k') as [n'|]; [|done]. apply andb_true_iff in Hi as [-> Hi]. by rewrite IH.
Qed.

Lemma ordered_fold (acc o : list (jstr * jsval)) :
  ordered_keys (map fst acc) (map fst o) = true ->
  foldl (fun a p => prop_set (fst p) (snd p) a) acc o = acc ++ o.
Proof.
  revert acc. induction o as [|[k v] o IH]; intros acc H; simpl in *; [by rewrite app_nil_r|].
  apply andb_true_iff in H as [Ha Ho]. rewrite appends_set by done. rewrite IH, <- app_assoc; [done|].
  by rewrite map_app.
Qed.

Lemma parse_number_head s p : parse_number s = Some p ->
  exists c t, s = c :: t /\ is_digit c || (c =? 45)%N = true.
Proof.
  destruct s as [|c t]; [done|]. unfold parse_number. intros H. exists c, t. split; [done|].
  destruct (c =? 45)%N; [by rewrite orb_true_r|]. rewrite orb_false_r. destruct (is_digit c) eqn:Ed; [done|].
  unfold read_digits in H. simpl in H. by rewrite Ed in H.
Qed.

(** The first unit of a text: not white space, not a closing bracket. *)
Definition opening (w : jstr) : Prop :=
  match w with [] => False | c :: _ => is_json_ws c = false /\ (c =? 93)%N = false end.

Lemma number_opening x : reads_back x = true -> n_isFinite x = true /\ opening (show_num x).
Proof.
  unfold reads_back. rewrite andb_true_iff. intros [Hf Hp]. split; [done|].
  destruct (parse_number (show_num x)) as [p|] eqn:E; [|done].
  destruct (parse_number_head _ _ E) as (c & t & -> & Hc). simpl. unfold is_json_ws, is_digit in *. lia.
Qed.

Lemma skip_opening w rest : opening w -> skip_ws (w ++ rest) = w ++ rest.
Proof. destruct w as [|c w]; [done|]. intros [H _]. unfold skip_ws. simpl. by rewrite H. Qed.

(** White space *)
Definition blank (s : jstr) : Prop := Forall (fun c => is_json_ws c = true) s.

Lemma skip_blank s x : blank s -> skip_ws (s ++ x) = skip_ws x.
Proof.
  unfold skip_ws. induction 1 as [|c s Hc _ IH]; [done|]. simpl. rewrite Hc.
  destruct (span is_json_ws (s ++ x)), (span is_json_ws x). done.
Qed.

Lemma number_end_blank s x : blank s -> number_end x -> number_end (s ++ x).
Proof. intros [|c t Hc _] H; [done|]. simpl. unfold is_json_ws, is_digit in *. lia. Qed.

Lemma parse_value_blank f s x : blank s -> parse_value f (s ++ x) = parse_value f x.
Proof. intros Hs. destruct f as [|f]; [done|]. rewrite !parse_value_S. by rewrite (skip_blank s x Hs). Qed.

Definition reads (pv : jstr -> option (jsval * jstr)) (v : jsval) (w : jstr) : Prop :=
  forall rest, number_end rest -> pv (w ++ rest) = Some (v, rest).

Section loop_texts.
Variable pv : jstr -> option (jsval * jstr).
Variables (s e colon : jstr).
Hypothesis (Hs : blank s) (He : blank e) (Hcolon : blank colon).
Hypothesis pv_blank : forall w x, blank w -> pv (w ++ x) = pv x.

Lemma elements_text l ws g rest :
  Forall2 (reads pv) l ws -> l <> [] -> length l <= g ->
  elements_of pv g (s ++ join (js "," ++ s) ws ++ e ++ 93%N :: rest) = Some (l, rest).
Proof.
  intros H. revert g. induction H as [|v w l ws Hv Hl IH]; intros g Hne Hg; [done|].
  destruct g as [|g]; [simpl in Hg; lia|]. destruct Hl as [|v' w' l ws Hv' Hl].
  - cbn [join elements_of]. rewrite pv_blank, Hv by first [done | by apply number_end_blank]. cbn [mbind option_bind].
    by rewrite skip_blank.
  - rewrite join_cons by done. rewrite <- !app_assoc. cbn [elements_of]. rewrite pv_blank, Hv by done.
    cbn [mbind option_bind]. set (more := s ++ _).
    change (skip_ws (js "," ++ more)) with (44%N :: more). cbn [N.eqb Pos.eqb].
    unfold more. rewrite IH; [done|done|simpl in *; lia].
Qed.

Definition member_text (p : jstr * jstr) : jstr := stringify_string (fst p) ++ js ":" ++ colon ++ snd p.

Lemma members_text o ws g rest acc :
  Forall2 (fun p w => units (fst p) /\ fst w = fst p /\ reads pv (snd p) (snd w)) o ws ->
  o <> [] -> length o <= g ->
  members_of pv g (s ++ join (js "," ++ s) (map member_text ws) ++ e ++ 125%N :: rest) acc =
  Some (foldl (fun a p => prop_set (fst p) (snd p) a) acc o, rest).
Proof.
  intros H. revert g acc. induction H as [|[k v] [k' w] o ws (Hu & Hk & Hv) Ho IH]; intros g acc Hne Hg; [done|].
  simpl in Hk, Hu, Hv. subst k'. destruct g as [|g]; [simpl in Hg; lia|].
  assert (forall x, skip_ws (s ++ member_text (k, w) ++ x) = stringify_string k ++ 58%N :: colon ++ w ++ x) as Hm.
  { intros x. rewrite skip_blank by done. unfold member_text. cbn [fst snd]. by rewrite <- !app_assoc. }
  destruct Ho as [|p' [k' w'] o ws Hv' Ho].
  - cbn [map join members_of]. rewrite Hm, parse_string_quote by done. cbn [mbind option_bind].
    change (skip_ws (58%N :: ?x)) with (58%N :: x). cbn [N.eqb Pos.eqb].
    rewrite pv_blank, Hv by first [done | by apply number_end_blank]. cbn [mbind option_bind]. by rewrite skip_blank.
  - cbn [map]. rewrite join_cons by done. rewrite <- !app_assoc. cbn [members_of].
    rewrite Hm, parse_string_quote by done. cbn [mbind option_bind]. set (more := s ++ _).
    change (skip_ws (58%N :: ?x)) with (58%N :: x). cbn [N.eqb Pos.eqb]. rewrite pv_blank, Hv by done. cbn [mbind option_bind].
    change (skip_ws (js "," ++ more)) with (44%N :: more). cbn [N.eqb Pos.eqb].
    cbn [foldl fst snd]. unfold more. apply IH; [done|simpl in *; lia].
Qed.
End loop_texts.

Lemma join_length sep (ws : list jstr) w : w ∈ ws -> length w <= length (join sep ws).
Proof.
  induction ws as [|x ws IH]; intros Hw; [by apply elem_of_nil in Hw|].
  destruct ws as [|y ws].
  - apply list_elem_of_singleton in Hw as ->. simpl. lia.
  - rewrite join_cons by done. rewrite !length_app. apply elem_of_cons in Hw as [-> | Hw]; [lia|].
    specialize (IH Hw). lia.
Qed.

Lemma join_count sep (ws : list jstr) :
  Forall (fun w => w <> []) ws -> length ws <= length (join sep ws).
Proof.
  induction 1 as [|x ws Hx Hws IH]; [done|]. destruct x as [|c x]; [done|].
  destruct ws as [|y ws]; [simpl; lia|]. rewrite join_cons by done. rewrite !length_app. simpl in *. lia.
Qed.

(** The text of an object starts with a brace. *)
Lemma object_opens gap colon lvl o w :
  render gap colon lvl (VObj o) = Some w -> exists u, w = 123%N :: u.
Proof. cbn [render]. intros [= <-]. unfold enclose. destruct (omap _ o); by eexists. Qed.

(** ... and ends with one, so that [trim] leaves it alone. *)
Lemma object_trimmed gap colon lvl o w : render gap colon lvl (VObj o) = Some w -> trimmed w.
Proof.
  intros H. destruct (object_opens _ _ _ _ _ H) as [u ->]. cbn [render] in H. apply (inj Some) in H.
  apply (trimmed_ends _ 123%N 125%N u); [done| |done|done]. rewrite <- H. unfold enclose.
  destruct (omap _ o); [done|]. rewrite !app_assoc. apply last_snoc.
Qed.

Section texts.
Variable gap : nat -> jstr.
Variable colon : jstr.
Hypothesis gap_blank : forall n, blank (gap n).
Hypothesis colon_blank : blank colon.

Lemma render_plain lvl v : plain_value v = true -> exists w, render gap colon lvl v = Some w.
Proof. destruct v as [| |[]| | | |]; simpl; eauto. done. Qed.

Definition text_at (lvl : nat) (v : jsval) : jstr := default [] (render gap colon lvl v).

Lemma text_at_plain lvl v : plain_value v = true -> render gap colon lvl v = Some (text_at lvl v).
Proof. intros [w Hw]%(render_plain lvl). unfold text_at. by rewrite Hw. Qed.

Lemma text_opening lvl v : plain_value v = true -> opening (text_at lvl v).
Proof.
  unfold text_at. destruct v as [| |[]|x|s|l|o]; cbn [plain_value render default from_option id]; intros Hp; try done.
  - destruct (number_opening x Hp) as [-> Ho]. exact Ho.
  - by destruct (map _ l).
  - by destruct (omap _ o).
Qed.

Lemma array_text lvl l :
  Forall (fun x => plain_value x = true) l ->
  text_at lvl (VArr l) = enclose gap lvl (js "[") (js "]") (map (text_at (S lvl)) l).
Proof.
  intros H. unfold text_at at 1. cbn [render default from_option id]. f_equal.
  induction H as [|x l Hx _ IH]; [done|]. cbn [map]. rewrite (text_at_plain (S lvl) x Hx). cbn. by f_equal.
Qed.

Definition member_texts (lvl : nat) (o : list (jstr * jsval)) : list jstr :=
  map (member_text colon) (map (fun p => (fst p, text_at (S lvl) (snd p))) o).

Lemma object_text lvl o :
  Forall (fun p => plain_value (snd p) = true) o ->
  text_at lvl (VObj o) = enclose gap lvl (js "{") (js "}") (member_texts lvl o).
Proof.
  intros H. unfold text_at at 1. cbn [render default from_option id]. f_equal.
  induction H as [|[k x] o Hx _ IH]; [done|]. csimpl. simpl in Hx. rewrite (text_at_plain (S lvl) x Hx).
  cbn [mbind option_bind]. unfold member_texts. cbn [map fst snd]. unfold member_text at 1. cbn [fst snd]. f_equal. exact IH.
Qed.

Lemma enclose_length lvl op cl ws :
  length (join (js "," ++ gap (S lvl)) ws) + length op + length cl <= length (enclose gap lvl op cl ws).
Proof. destruct ws; unfold enclose; rewrite !length_app; [simpl|]; lia. Qed.

(** What follows an opening bracket that encloses something. *)
Lemma skip_enclosed lvl (ws : list jstr) x :
  Forall opening ws -> ws <> [] ->
  exists d u, skip_ws (gap (S lvl) ++ join (js "," ++ gap (S lvl)) ws ++ x) = d :: u /\ (d =? 93)%N = false /\
    head (concat ws) = Some d.
Proof.
  intros Ho Hne. destruct ws as [|w ws]; [done|]. inversion_clear Ho as [|? ? Hw Hws].
  rewrite skip_blank by done. destruct w as [|d w]; [done|]. destruct Hw as [Hd Hb].
  exists d. assert (exists u, join (js "," ++ gap (S lvl)) ((d :: w) :: ws) = d :: u) as [u ->].
  { destruct ws; [by eexists|]. rewrite join_cons by done. by eexists. }
  exists (u ++ x). split; [|done]. cbn [app]. unfold skip_ws. simpl. by rewrite Hd.
Qed.

Lemma array_reads f lvl l :
  Forall (fun x => plain_value x = true) l ->
  Forall (fun x => reads (parse_value f) x (text_at (S lvl) x)) l ->
  length l <= f -> reads (parse_value (S f)) (VArr l) (text_at lvl (VArr l)).
Proof.
  intros Hp Hl Hf rest Hr. rewrite array_text by done. rewrite parse_value_S.
  destruct l as [|x l]; [done|]. cbn [map enclose].
  set (ws := text_at (S lvl) x :: map (text_at (S lvl)) l).
  destruct (skip_enclosed lvl ws (gap lvl ++ 93%N :: rest)) as (d & u & Eu & Ed & _); [|done|].
  { change ws with (map (text_at (S lvl)) (x :: l)). rewrite Forall_map. eapply Forall_impl; [exact Hp|]. intros y. apply text_opening. }
  rewrite <- !app_assoc. set (body := gap (S lvl) ++ _) in *.
  change (skip_ws (js "[" ++ body)) with (91%N :: body). cbv zeta. cbn [N.eqb Pos.eqb].
  change (js "]" ++ rest) with (93%N :: rest) in *. rewrite Eu, Ed.
  unfold body. rewrite (elements_text _ _ _ (gap_blank (S lvl)) (gap_blank lvl) (parse_value_blank f) (x :: l)); [done| |done|done].
  change ws with (map (text_at (S lvl)) (x :: l)). clear -Hl. induction Hl; by constructor.
Qed.

Lemma object_reads f lvl o :
  ordered_keys [] (map fst o) = true -> Forall (fun p => unit_string (fst p) = true) o ->
  Forall (fun p => plain_value (snd p) = true) o ->
  Forall (fun p => reads (parse_value f) (snd p) (text_at (S lvl) (snd p))) o ->
  length o <= f -> reads (parse_value (S f)) (VObj o) (text_at lvl (VObj o)).
Proof.
  intros Hk Hu Hp Hl Hf rest Hr. rewrite object_text by done. rewrite parse_value_S.
  destruct o as [|q o]; [done|]. unfold member_texts. cbn [map enclose].
  set (tx := fun p : jstr * jsval => (fst p, text_at (S lvl) (snd p))).
  set (ws := member_text colon (tx q) :: map (member_text colon) (map tx o)).
  destruct (skip_enclosed lvl ws (gap lvl ++ 125%N :: rest)) as (d & u & Eu & _ & Hd); [|done|].
  { change ws with (map (member_text colon) (map tx (q :: o))). rewrite Forall_map. by apply Forall_true. }
  injection Hd as <-.
  rewrite <- !app_assoc. set (body := gap (S lvl) ++ _) in *.
  change (skip_ws (js "{" ++ body)) with (123%N :: body). cbv zeta. cbn [N.eqb Pos.eqb].
  change (js "}" ++ rest) with (125%N :: rest) in *. rewrite Eu. cbn [N.eqb Pos.eqb].
  unfold body. change ws with (map (member_text colon) (map tx (q :: o))).
  rewrite (members_text _ _ _ _ (gap_blank (S lvl)) (gap_blank lvl) colon_blank (parse_value_blank f) (q :: o)); [| |done|done].
  - by rewrite ordered_fold.
  - clear -Hu Hl. induction Hl as [|p o2 H1 H2 IH]; [constructor|]. inversion_clear Hu as [|? ? Hp Ho].
    cbn [map]. constructor; [|by apply IH]. split; [by apply unit_string_units|done].
Qed.

Lemma number_reads f x : reads_back x = true -> reads (parse_value (S f)) (VNum x) (show_num x).
Proof.
  unfold reads_back. intros [Hfin Hp]%andb_true_iff rest Hr. rewrite parse_value_S. cbv zeta.
  destruct (parse_number (show_num x)) as [[y [|]]|] eqn:E; try done. apply n_same_eq in Hp as <-.
  destruct (parse_number_head _ _ E) as (c & u & Eu & Hc).
  pose proof (parse_number_app _ _ rest Hr E) as Hn. rewrite Eu in *. cbn [app] in *.
  assert (is_json_ws c = false /\ (c =? 34)%N = false /\ (c =? 91)%N = false /\ (c =? 123)%N = false) as (W & E1 & E2 & E3).
  { unfold is_json_ws, is_digit in *. lia. }
  unfold skip_ws. cbn [span]. rewrite W. cbn [snd]. by rewrite E1, E2, E3, Hc, Hn.
Qed.

Lemma parse_text v :
  plain_value v = true -> forall lvl f, length (text_at lvl v) < f -> reads (parse_value f) v (text_at lvl v).
Proof.
  induction v as [| |b|x|s|l IH|o IH] using jsval_nested_ind; intros Hp lvl f Hf; (destruct f as [|f]; [lia|]).
  - done.
  - done.
  - by destruct b.
  - unfold text_at. cbn [render default from_option id]. destruct (number_opening x Hp) as [-> _]. by apply number_reads.
  - intros rest Hr. rewrite parse_value_S. unfold text_at. cbn [render default from_option id].
    change (skip_ws (stringify_string s ++ rest)) with (stringify_string s ++ rest). cbv zeta.
    rewrite parse_string_quote by (by apply unit_string_units). done.
  - cbn [plain_value] in Hp. rewrite forallb_Forall' in Hp. rewrite array_text in Hf by done.
    pose proof (enclose_length lvl (js "[") (js "]") (map (text_at (S lvl)) l)) as Hle. change (length (js "[")) with 1 in Hle. change (length (js "]")) with 1 in Hle.
    apply array_reads; [done| |].
    + rewrite Forall_forall in *. intros x Hx. apply IH; [done|by apply Hp|].
      pose proof (join_length (js "," ++ gap (S lvl)) _ _ (proj2 (elem_of_lmap (text_at (S lvl)) l _) (ex_intro _ x (conj Hx eq_refl)))). lia.
    + pose proof (join_count (js "," ++ gap (S lvl)) (map (text_at (S lvl)) l)) as Hj. rewrite length_map in Hj.
      assert (Forall (fun w => w <> []) (map (text_at (S lvl)) l)) as Hw.
      { rewrite Forall_map. eapply Forall_impl; [exact Hp|]. intros x Hx. simpl. pose proof (text_opening (S lvl) x Hx). by destruct (text_at _ x). }
      specialize (Hj Hw). lia.
  - cbn [plain_value] in Hp. apply andb_true_iff in Hp as [Hk Hp]. rewrite forallb_Forall' in Hp.
    assert (Forall (fun p => unit_string (fst p) = true) o /\ Forall (fun p => plain_value (snd p) = true) o) as [Hu Hv].
    { split; (eapply Forall_impl; [exact Hp|]); intros [k x]; simpl; rewrite andb_true_iff; tauto. }
    rewrite object_text in Hf by done.
    pose proof (enclose_length lvl (js "{") (js "}") (member_texts lvl o)) as Hle. change (length (js "{")) with 1 in Hle. change (length (js "}")) with 1 in Hle.
    apply object_reads; [done..| |].
    + rewrite Forall_forall in *. intros p Hin. apply IH; [done|by apply Hv|].
      assert (length (member_text colon (fst p, text_at (S lvl) (snd p))) <= length (join (js "," ++ gap (S lvl)) (member_texts lvl o))) as Hj.
      { apply join_length. unfold member_texts. rewrite map_map. apply elem_of_lmap. by exists p. }
      unfold member_text in Hj. rewrite !length_app in Hj. cbn [fst snd] in Hj. lia.
    + pose proof (join_count (js "," ++ gap (S lvl)) (member_texts lvl o)) as Hj. unfold member_texts in Hj. rewrite !length_map in Hj.
      fold (member_texts lvl o) in Hj.
      assert (Forall (fun w => w <> []) (member_texts lvl o)) as Hw by (unfold member_texts; rewrite Forall_map; by apply Forall_true).
      specialize (Hj Hw). lia.
Qed.

Lemma render_roundtrip v :
  plain_value v = true -> exists w, render gap colon 0 v = Some w /\ json_parse w = Some v.
Proof.
  intros Hp. exists (text_at 0 v). split; [by apply text_at_plain|]. unfold json_parse.
  pose proof (parse_text v Hp 0 (S (length (text_at 0 v)))) as H. specialize (H ltac:(lia) [] I). rewrite app_nil_r in H.
  rewrite H. done.
Qed.
End texts.

Definition text_of (v : jsval) : jstr := default [] (stringify v).

Lemma text_of_plain v : plain_value v = true -> stringify v = Some (text_of v).
Proof. apply text_at_plain. Qed.

(** [JSON.parse(JSON.stringify(v))] is [v]. *)
Lemma json_roundtrip v : plain_value v = true -> exists w, stringify v = Some w /\ json_parse w = Some v.
Proof. apply render_roundtrip; [constructor|constructor]. Qed.

(** ... and so is [JSON.parse(JSON.stringify(v, null, 2))]. *)
Lemma json_pretty_roundtrip v :
  plain_value v = true -> exists w, stringify_pretty v = Some w /\ json_parse w = Some v.
Proof.
  apply render_roundtrip; [|by repeat constructor]. intros n. constructor; [done|]. apply Forall_forall.
  intros c Hc. apply list_elem_of_In, repeat_spec in Hc as ->. done.
Qed.

(** ** Objects that survive JSON *)

Lemma ordered_keys_app prior ks ks' :
  ordered_keys prior (ks ++ ks') = ordered_keys prior ks && ordered_keys (prior ++ ks) ks'.
Proof.
  revert prior. induction ks as [|k ks IH]; intros prior; simpl; [by rewrite app_nil_r|].
  rewrite IH, <- andb_assoc, <- app_assoc. done.
Qed.

Lemma appends_sublist prior prior' k : prior' ⊆ prior -> appends prior k = true -> appends prior' k = true.
Proof.
  intros Hs. unfold appends. rewrite !andb_true_iff, !negb_true_iff, !bool_decide_eq_false.
  intros [Hn Hi]. split; [by eauto|]. destruct (index_key k); [|done].
  rewrite !forallb_Forall', !Forall_forall in *. eauto.
Qed.

Lemma ordered_keys_filter p prior prior' ks :
  prior' ⊆ prior -> ordered_keys prior ks = true -> ordered_keys prior' (bfilter p ks) = true.
Proof.
  revert prior prior'. induction ks as [|k ks IH]; intros prior prior' Hs; simpl; [done|].
  rewrite andb_true_iff. intros [Ha Ho]. destruct (p k); simpl.
  - rewrite andb_true_iff. split; [by eapply appends_sublist|]. eapply IH; [|exact Ho]. set_solver.
  - eapply IH; [|exact Ho]. set_solver.
Qed.

Definition plain_pair (p : jstr * jsval) : bool := unit_string (fst p) && plain_value (snd p).

Lemma plain_object o :
  plain_value (VObj o) = true <-> ordered_keys [] (map fst o) = true /\ Forall (fun p => plain_pair p = true) o.
Proof.
  cbn [plain_value]. rewrite andb_true_iff, forallb_Forall'. split; intros [H1 H2]; (split; [done|]);
    (eapply Forall_impl; [exact H2|]); by intros [k v].
Qed.

Lemma map_fst_replace {A} k (v : A) o : map fst (prop_replace k v o) = map fst o.
Proof. induction o as [|[k' v'] o IH]; simpl; [done|]. destruct (k =s k'); simpl; by f_equal. Qed.

(** Keys in their order: each is new, and an index comes after smaller indices only. *)
Definition key_before (a b : jstr) : Prop :=
  a <> b /\ match index_key b with
            | None => True
            | Some n => match index_key a with Some n' => (n' < n)%N | None => False end
            end.

Lemma appends_before prior k : appends prior k = true <-> Forall (fun a => key_before a k) prior.
Proof.
  unfold appends, key_before. rewrite andb_true_iff, negb_true_iff, bool_decide_eq_false, Forall_forall.
  destruct (index_key k) as [n|].
  - rewrite forallb_Forall', Forall_forall. split.
    + intros [Hn Hi] a Ha. split; [by intros ->|]. specialize (Hi a Ha). destruct (index_key a); [lia|done].
    + intros H. split; [by intros [? _]%H|]. intros a [_ Ha]%H. destruct (index_key a); [lia|done].
  - split; [intros [Hn _] a Ha; split; [by intros ->|done]|]. intros H. split; [by intros [? _]%H|done].
Qed.

Lemma ordered_sorted prior ks :
  ordered_keys prior ks = true <-> StronglySorted key_before ks /\ Forall (fun k => Forall (fun a => key_before a k) prior) ks.
Proof.
  revert prior. induction ks as [|k ks IH]; intros prior; simpl; [split; [repeat constructor|done]|].
  rewrite andb_true_iff, appends_before, IH. split.
  - intros (Hk & Hs & Hf). split.
    + constructor; [done|]. eapply Forall_impl; [exact Hf|]. intros b Hb. apply Forall_app in Hb as [_ Hb]. by inversion Hb.
    + constructor; [done|]. eapply Forall_impl; [exact Hf|]. intros b Hb. by apply Forall_app in Hb as [? _].
  - intros [Hs Hf]. inversion Hs as [|? ? Hs' Hb]; subst. inversion Hf as [|? ? Hk Hf']; subst. split; [done|]. split; [done|].
    rewrite Forall_forall in *. intros b Hbin. apply Forall_app. split; [by apply Hf'|]. repeat constructor; by apply Hb.
Qed.

Lemma insert_index_keys {A} n k (v : A) o b :
  b ∈ map fst (prop_insert_index n k v o) -> b = k \/ b ∈ map fst o.
Proof.
  induction o as [|[k' v'] o IH]; simpl; [rewrite list_elem_of_singleton; by left|].
  destruct (index_key k') as [n'|]; [destruct (n' <? n)%N|]; simpl; rewrite !elem_of_cons; [|tauto..]. intros [? | H]; [tauto|].
  apply IH in H. tauto.
Qed.

Lemma insert_index_sorted {A} n k (v : A) o :
  index_key k = Some n -> k ∉ map fst o -> StronglySorted key_before (map fst o) ->
  StronglySorted key_before (map fst (prop_insert_index n k v o)).
Proof.
  intros Hn. induction o as [|[k' v'] o IH]; simpl; [repeat constructor|].
  rewrite not_elem_of_cons. intros [Hne Hk] Hs. inversion Hs as [|? ? Hs' Hb]; subst.
  assert (forall m, index_key k' = Some m -> (n < m)%N -> Forall (key_before k) (k' :: map fst o)) as Hlater.
  { intros m Hm Hlt. constructor; [split; [done|rewrite Hm, Hn; lia]|]. rewrite Forall_forall in *. intros b Hin. destruct (Hb b Hin) as [_ Hkb].
    split; [by intros ->|]. destruct (index_key b) as [q|]; [|done]. rewrite Hm in Hkb. rewrite Hn. lia. }
  destruct (index_key k') as [n'|] eqn:E.
  - destruct (N.ltb_spec n' n) as [Hlt | Hge]; simpl.
    + constructor; [by apply IH|]. rewrite Forall_forall in *. intros b [-> | Hin]%insert_index_keys; [|by apply Hb].
      split; [done|]. by rewrite Hn, E.
    + constructor; [done|]. apply (Hlater n' eq_refl). assert (n' <> n); [|lia]. intros ->. apply Hne.
      unfold index_key in Hn, E. destruct (truthy k && _ && _ && _) eqn:E1 in Hn; [|done]. destruct (truthy k' && _ && _ && _) eqn:E2 in E; [|done].
      injection Hn as Hn. injection E as E. bsplit. rewrite jeqb_eq in *. congruence.
  - cbn [map fst]. constructor; [done|]. constructor; [split; [done|]; by rewrite E|]. rewrite Forall_forall in *. intros b Hin. destruct (Hb b Hin) as [_ Hkb].
    split; [by intros ->|]. destruct (index_key b); [by rewrite E in Hkb|done].
Qed.

Lemma forall_insert_index {A} (P : jstr * A -> Prop) n k v o :
  Forall P o -> P (k, v) -> Forall P (prop_insert_index n k v o).
Proof.
  intros Ho Hp. induction Ho as [|[k' v'] o H Ho IH]; simpl; [by repeat constructor|].
  destruct (index_key k') as [n'|]; [destruct (n' <? n)%N|]; repeat constructor; done.
Qed.

Lemma plain_set k v o :
  plain_value (VObj o) = true -> unit_string k = true -> plain_value v = true ->
  plain_value (VObj (prop_set k v o)) = true.
Proof.
  intros [Hk Hp]%plain_object Hu Hv. apply plain_object. unfold prop_set.
  assert (plain_pair (k, v) = true) as Hkv by (unfold plain_pair; simpl; by rewrite Hu, Hv).
  destruct (prop_get k o) as [u|] eqn:E; [|destruct (index_key k) as [n|] eqn:Hi].
  - split; [by rewrite map_fst_replace|]. clear -Hp Hkv. induction Hp as [|[k' v'] o H Ho IH]; [constructor|].
    simpl. destruct (k =s k') eqn:Ek; constructor; [|done|done|done]. by apply jeqb_eq in Ek as ->.
  - apply prop_get_None_iff in E. rewrite ordered_sorted in *. split; [|by apply forall_insert_index].
    split; [apply insert_index_sorted; tauto|]. apply Forall_forall. by constructor.
  - split.
    + rewrite map_app, ordered_keys_app, Hk. simpl. rewrite andb_true_r. unfold appends. rewrite Hi, andb_true_r.
      apply negb_true_iff, bool_decide_eq_false. by apply prop_get_None_iff.
    + apply Forall_app. split; [done|]. by constructor.
Qed.

Lemma plain_delete k o : plain_value (VObj o) = true -> plain_value (VObj (prop_delete k o)) = true.
Proof.
  intros [Hk Hp]%plain_object. apply plain_object. unfold prop_delete. split.
  - assert (map fst (bfilter (fun p => negb (k =s fst p)) o) = bfilter (fun k' => negb (k =s k')) (map fst o)) as ->.
    { clear. induction o as [|[k' v'] o IH]; [done|]. simpl. destruct (k =s k'); simpl; by rewrite IH. }
    by eapply ordered_keys_filter.
  - apply Forall_forall. intros p [Hin _]%elem_of_bfilter. rewrite Forall_forall in Hp. by apply Hp.
Qed.

Lemma plain_texts l : Forall (fun s => unit_string s = true) l -> plain_value (VArr (map VStr l)) = true.
Proof. cbn [plain_value]. rewrite forallb_Forall', Forall_map. done. Qed.

Example json_roundtrip_example :
  stringify (VObj [(js "1", VArr [VNull; VBool true; VUndef]); (js "a", VUndef); (js "b", VStr [34%N; 10%N])]) =
  Some (jsq "{`1`:[null,true,null],`b`:`\" ++ [34%N; 92%N; 110%N; 34%N; 125%N]).
Proof. vm_compute. reflexivity. Qed.

Example json_pretty_example :
  stringify_pretty (VObj [(js "a", VArr [VNull; VObj []]); (js "b", VArr [])]) =
  Some (jsq "{" ++ [10%N] ++ jsq "  `a`: [" ++ [10%N] ++ js "    null," ++ [10%N] ++ js "    {}" ++ [10%N] ++
        js "  ]," ++ [10%N] ++ jsq "  `b`: []" ++ [10%N] ++ js "}").
Proof. vm_compute. reflexivity. Qed.
