(* ===== verification/JsonUnits.v ===== *)
(** * Units of parsed values

    A text of 16-bit units is parsed to a value whose strings and keys are of 16-bit
    units: what a setting was read from JSON can be written again. *)

From S2P Require Import Prelude JsString JsNumber Json JsonText.

(** The strings and keys of a value are of 16-bit units. *)
Fixpoint unit_value (v : jsval) : bool :=
  match v with
  | VStr s => unit_string s
  | VArr l => forallb unit_value l
  | VObj o => forallb (fun '(k, x) => unit_string k && unit_value x) o
  | _ => true
  end.

Definition unit_pair (p : jstr * jsval) : bool := unit_string (fst p) && unit_value (snd p).

Lemma unit_object o : unit_value (VObj o) = true <-> Forall (fun p => unit_pair p = true) o.
Proof.
  cbn [unit_value]. rewrite forallb_Forall'. split; intros H; (eapply Forall_impl; [exact H|]); by intros [k v].
Qed.

Lemma unit_string_cons c s : unit_string (c :: s) = true <-> (c < 65536)%N /\ unit_string s = true.
Proof. unfold unit_string. cbn [forallb]. rewrite andb_true_iff, N.ltb_lt. done. Qed.

Lemma unit_string_drop n s : unit_string s = true -> unit_string (drop n s) = true.
Proof. rewrite <- (take_drop n s) at 1. rewrite unit_string_app, andb_true_iff. tauto. Qed.

Lemma unit_string_span p s : unit_string s = true -> unit_string (snd (span p s)) = true.
Proof.
  intros H. induction s as [|c s IH]; [done|]. cbn [span]. destruct (p c); [|done]. destruct (span p s) eqn:E.
  apply unit_string_cons in H as [_ H]. by apply IH.
Qed.

Lemma unit_skip_ws s : unit_string s = true -> unit_string (skip_ws s) = true.
Proof. apply unit_string_span. Qed.

Lemma unit_digits s ds r : read_digits s = (ds, r) -> unit_string s = true -> unit_string r = true.
Proof. unfold read_digits. intros E H. pose proof (unit_string_span is_digit s H) as Hr. by rewrite E in Hr. Qed.

Lemma unit_exponent s e r : read_exponent s = Some (e, r) -> unit_string s = true -> unit_string r = true.
Proof.
  unfold read_exponent. intros E H. destruct s as [|c s]; [done|]. apply unit_string_cons in H as [_ H].
  destruct (_ || _); [|done].
  assert (forall d, unit_string (drop d s) = true) as Hd by (intros d; by apply unit_string_drop).
  destruct s as [|d s]; [by cbn in E|]. pose proof (Hd 1%nat) as Hs. cbn in Hs.
  destruct (d =? 43)%N; [|destruct (d =? 45)%N]; destruct (read_digits _) as [ds r'] eqn:Er;
    (destruct (truthy ds); [|done]); injection E as <- <-; by eapply unit_digits.
Qed.

Lemma unit_decimal s x r : read_decimal s = Some (x, r) -> unit_string s = true -> unit_string r = true.
Proof.
  unfold read_decimal. intros E H. destruct (read_digits s) as [ip s1] eqn:E1.
  pose proof (unit_digits _ _ _ E1 H) as H1.
  destruct (match s1 with [] => _ | _ => _ end) as [fp s2] eqn:E2.
  assert (unit_string s2 = true) as H2.
  { destruct s1 as [|c s1]; [by injection E2 as <- <-|]. destruct (c =? 46)%N; [|by injection E2 as <- <-].
    apply unit_string_cons in H1 as [_ H1]. by eapply unit_digits. }
  destruct (truthy _); [|done]. destruct (read_exponent s2) as [[e r']|] eqn:E3; injection E as _ <-; [|done].
  by eapply unit_exponent.
Qed.

Lemma unit_number s x r : parse_number s = Some (x, r) -> unit_string s = true -> unit_string r = true.
Proof.
  unfold parse_number. intros E H. destruct (match s with [] => _ | _ => _ end) as [neg u] eqn:Eu.
  assert (unit_string u = true) as Hu.
  { destruct s as [|c s]; [by injection Eu as <- <-|]. destruct (c =? 45)%N; [|by injection Eu as <- <-].
    injection Eu as <- <-. by apply unit_string_cons in H as [_ H]. }
  destruct (read_digits u). destruct (_ && _); [|done].
  destruct (read_decimal u) as [[y rest]|] eqn:Ed; [|done]. cbn [mbind option_bind] in E.
  pose proof (unit_decimal _ _ _ Ed Hu). destruct rest as [|c rest]; [by injection E as _ <-|].
  destruct (_ || _); [done|]. by injection E as _ <-.
Qed.

Lemma hex_small c v : hex_val c = Some v -> (v < 16)%N.
Proof.
  unfold hex_val, is_digit. intros H. repeat (case_match; [bsplit; injection H as <-; lia|]). done.
Qed.

Lemma unit_hex4 s v r : hex4 s = Some (v, r) -> unit_string s = true -> (v < 65536)%N /\ unit_string r = true.
Proof.
  unfold hex4. intros E H. destruct s as [|a [|b [|c [|d s]]]]; [done..|].
  destruct (hex_val a) eqn:Ea; [|done]. destruct (hex_val b) eqn:Eb; [|done]. destruct (hex_val c) eqn:Ec; [|done].
  destruct (hex_val d) eqn:Ed; [|done]. apply hex_small in Ea, Eb, Ec, Ed. injection E as <- <-.
  rewrite !unit_string_cons in H. split; [lia|]. tauto.
Qed.

Lemma unit_body f s w r :
  parse_string_body f s = Some (w, r) -> unit_string s = true -> unit_string w = true /\ unit_string r = true.
Proof.
  revert s w r. induction f as [|f IH]; intros s w r; [done|]. cbn [parse_string_body].
  assert (forall c t, ('(w, rest) ← parse_string_body f t; Some (c :: w, rest)) = Some (w, r) ->
    (c < 65536)%N -> unit_string t = true -> unit_string w = true /\ unit_string r = true) as Hadd.
  { intros c t E Hc Ht. destruct (parse_string_body f t) as [[w' r']|] eqn:E'; [|done]. injection E as <- <-.
    rewrite unit_string_cons. destruct (IH _ _ _ E' Ht). tauto. }
  destruct s as [|c t]; [done|]. rewrite unit_string_cons. intros E [Hc Ht].
  destruct (c =? 34)%N; [by injection E as <- <-|]. destruct (c =? 92)%N.
  - destruct t as [|e t]; [done|]. apply unit_string_cons in Ht as [_ Ht]. destruct (e =? 117)%N.
    + destruct (hex4 t) as [[v r']|] eqn:E4; [|done]. destruct (unit_hex4 _ _ _ E4 Ht). by eapply Hadd.
    + destruct (simple_escape e) as [v|] eqn:Ee; [|done]. eapply Hadd; [exact E| |done].
      unfold simple_escape in Ee. clear E. repeat case_match; simplify_eq; lia.
  - destruct (c <? 32)%N; [done|]. by eapply Hadd.
Qed.

Lemma unit_parse_string s w r :
  parse_string s = Some (w, r) -> unit_string s = true -> unit_string w = true /\ unit_string r = true.
Proof.
  unfold parse_string. destruct s as [|c s]; [done|]. destruct (c =? 34)%N; [|done].
  intros E [_ H]%unit_string_cons. by eapply unit_body.
Qed.

Lemma forall_prop_set {A} (P : jstr * A -> Prop) k v o : P (k, v) -> Forall P o -> Forall P (prop_set k v o).
Proof.
  intros Hp Ho. unfold prop_set. destruct (prop_get k o); [|destruct (index_key k)].
  - induction Ho as [|[k' v'] o H Ho IH]; [constructor|]. cbn [prop_replace].
    destruct (k =s k') eqn:E; constructor; [|done|done|done]. by apply jeqb_eq in E as ->.
  - by apply forall_insert_index.
  - apply Forall_app. by repeat constructor.
Qed.

Section loops.
Variable pv : jstr -> option (jsval * jstr).
Hypothesis pv_units : forall s v r, pv s = Some (v, r) -> unit_string s = true -> unit_value v = true /\ unit_string r = true.

Lemma unit_elements g s vs r :
  elements_of pv g s = Some (vs, r) -> unit_string s = true -> forallb unit_value vs = true /\ unit_string r = true.
Proof.
  revert s vs r. induction g as [|g IH]; intros s vs r; [done|]. cbn [elements_of]. intros E H.
  destruct (pv s) as [[v r1]|] eqn:Ev; [|done]. cbn [mbind option_bind] in E.
  destruct (pv_units _ _ _ Ev H) as [Hv H1]. apply unit_skip_ws in H1. destruct (skip_ws r1) as [|c t]; [done|].
  apply unit_string_cons in H1 as [_ H1]. destruct (c =? 44)%N.
  - destruct (elements_of pv g t) as [[vs' r']|] eqn:Es; [|done]. injection E as <- <-.
    destruct (IH _ _ _ Es H1) as [Hvs Hr]. cbn [forallb]. by rewrite Hv, Hvs.
  - destruct (c =? 93)%N; [|done]. injection E as <- <-. cbn [forallb]. by rewrite Hv.
Qed.

Lemma unit_members g s acc ms r :
  members_of pv g s acc = Some (ms, r) -> unit_string s = true -> Forall (fun p => unit_pair p = true) acc ->
  Forall (fun p => unit_pair p = true) ms /\ unit_string r = true.
Proof.
  revert s acc ms r. induction g as [|g IH]; intros s acc ms r; [done|]. cbn [members_of]. intros E H Ha.
  destruct (parse_string (skip_ws s)) as [[k r1]|] eqn:Ek; [|done]. cbn [mbind option_bind] in E.
  destruct (unit_parse_string _ _ _ Ek (unit_skip_ws _ H)) as [Hk H1]. apply unit_skip_ws in H1.
  destruct (skip_ws r1) as [|c t]; [done|]. apply unit_string_cons in H1 as [_ H1]. destruct (c =? 58)%N; [|done].
  destruct (pv t) as [[v r2]|] eqn:Ev; [|done]. cbn [mbind option_bind] in E. destruct (pv_units _ _ _ Ev H1) as [Hv H2]. apply unit_skip_ws in H2.
  destruct (skip_ws r2) as [|d t']; [done|]. apply unit_string_cons in H2 as [_ H2].
  assert (Forall (fun p => unit_pair p = true) (prop_set k v acc)) as Ha'.
  { apply forall_prop_set; [|done]. unfold unit_pair. cbn [fst snd]. by rewrite Hk, Hv. }
  destruct (d =? 44)%N; [by eapply IH|]. destruct (d =? 125)%N; [|done]. by injection E as <- <-.
Qed.
End loops.

Lemma unit_parse_value f s v r :
  parse_value f s = Some (v, r) -> unit_string s = true -> unit_value v = true /\ unit_string r = true.
Proof.
  revert s v r. induction f as [|f IH]; intros s v r; [done|]. rewrite parse_value_S. cbn zeta.
  intros E H. apply unit_skip_ws in H. destruct (skip_ws s) as [|c t]; [done|].
  pose proof H as [_ Ht]%unit_string_cons. destruct (c =? 34)%N; [|destruct (c =? 91)%N; [|destruct (c =? 123)%N]].
  - destruct (parse_string (c :: t)) as [[w r']|] eqn:Es; [|done]. injection E as <- <-. by eapply unit_parse_string.
  - pose proof (unit_skip_ws _ Ht) as Hs. destruct (skip_ws t) as [|d t']; [done|]. apply unit_string_cons in Hs as [_ Hs].
    destruct (d =? 93)%N; [by injection E as <- <-|].
    destruct (elements_of _ f t) as [[vs r']|] eqn:Es; [|done]. injection E as <- <-. by eapply unit_elements.
  - pose proof (unit_skip_ws _ Ht) as Hs. destruct (skip_ws t) as [|d t']; [done|]. apply unit_string_cons in Hs as [_ Hs].
    destruct (d =? 125)%N; [by injection E as <- <-|].
    destruct (members_of _ f t []) as [[ms r']|] eqn:Es; [|done]. injection E as <- <-. rewrite unit_object.
    eapply unit_members; [exact IH|exact Es|done|constructor].
  - destruct (is_digit c || _).
    + destruct (parse_number (c :: t)) as [[x r']|] eqn:En; [|done]. injection E as <- <-. split; [done|]. by eapply unit_number.
    + unfold parse_keyword in E. repeat case_match; simplify_eq; (split; [done|]); by apply unit_string_drop.
Qed.

(** What was parsed from 16-bit units consists of 16-bit units. *)
Lemma unit_json_parse s v : json_parse s = Some v -> unit_string s = true -> unit_value v = true.
Proof.
  unfold json_parse. destruct (parse_value _ s) as [[v' r]|] eqn:E; [|done]. cbn [mbind option_bind].
  destruct (skip_ws r); [|done]. intros [= ->] H. by apply (unit_parse_value _ _ _ _ E H).
Qed.

(** ** Objects with values of one kind *)

Section props.
Context {A B : Type} (f : A -> B).

Lemma prop_get_fmap k (o : list (jstr * A)) : prop_get k (prod_map id f <$> o) = f <$> prop_get k o.
Proof. induction o as [|[k' v] o IH]; [done|]. cbn. by destruct (k =s k'). Qed.

Lemma keys_fmap (o : list (jstr * A)) : map fst (prod_map id f <$> o) = map fst o.
Proof. induction o as [|[k' v] o IH]; [done|]. cbn. by f_equal. Qed.

(** Writing a property and converting the values commute. *)
Lemma fmap_prop_set k v (o : list (jstr * A)) :
  prod_map id f <$> prop_set k v o = prop_set k (f v) (prod_map id f <$> o).
Proof.
  unfold prop_set. rewrite prop_get_fmap. destruct (prop_get k o); cbn [fmap option_fmap option_map].
  - induction o as [|[k' v'] o IH]; [done|]. cbn. destruct (k =s k'); cbn; [done|]. f_equal. exact IH.
  - destruct (index_key k) as [n|]; [|by rewrite fmap_app].
    induction o as [|[k' v'] o IH]; [done|]. cbn. destruct (index_key k') as [n'|]; [|done].
    destruct (n' <? n)%N; [|done]. cbn. f_equal. exact IH.
Qed.
End props.

(** The object after [o[k] = v] for every pair. *)
Definition put_all {A} (l o : list (jstr * A)) : list (jstr * A) := foldl (fun o p => prop_set (fst p) (snd p) o) o l.

Lemma put_all_get {A} k (l o : list (jstr * A)) :
  NoDup (map fst l) -> prop_get k (put_all l o) = match prop_get k l with Some v => Some v | None => prop_get k o end.
Proof.
  unfold put_all. revert o. induction l as [|[k' v] l IH]; intros o Hn; [done|]. inversion Hn as [|? ? Hk Hn']; subst.
  cbn [foldl fst snd]. rewrite IH, prop_get_set by done. cbn [prop_get].
  destruct (k =s k') eqn:E; [|done]. apply jeqb_eq in E as ->.
  replace (prop_get k' l) with (@None A); [done|]. symmetry. by apply prop_get_None_iff.
Qed.

Lemma ordered_nodup prior ks : ordered_keys prior ks = true -> NoDup ks.
Proof.
  intros [H _]%ordered_sorted. induction H as [|k ks H IH Hk]; [constructor|]. constructor; [|done].
  intros Hin. rewrite Forall_forall in Hk. by destruct (Hk k Hin).
Qed.
