(* ===== verification/JsMap.v ===== *)
(** * Map and Set

    A [Map] is the list of its entries in the order of insertion: [set] on a key that is
    there changes its value in place, on a new key it appends.  The usual way to total
    rows by a key, [get(k) ?? init], add, [set], is [tally]; [tally_get] and
    [tally_keys] say what it computes. *)

From S2P Require Import Prelude.

Section jsmap.
Context {K V : Type} `{EqDecision K}.
Implicit Types (k : K) (v : V) (m : list (K * V)).

Fixpoint m_get k m : option V :=
  match m with
  | [] => None
  | (k', v) :: t => if bool_decide (k = k') then Some v else m_get k t
  end.

Fixpoint m_set k v m : list (K * V) :=
  match m with
  | [] => [(k, v)]
  | (k', v') :: t => if bool_decide (k = k') then (k', v) :: t else (k', v') :: m_set k v t
  end.

Definition m_has k m : bool := match m_get k m with Some _ => true | None => false end.

Lemma m_get_set k k' v m : m_get k (m_set k' v m) = if bool_decide (k = k') then Some v else m_get k m.
Proof.
  induction m as [|[k2 v2] m IH]; simpl; [done|].
  destruct (bool_decide (k' = k2)) eqn:E; simpl.
  - apply bool_decide_eq_true in E as <-. by case_bool_decide.
  - rewrite IH. repeat case_bool_decide; subst; try done.
Qed.

Lemma m_set_keys k v m : map fst (m_set k v m) = if m_has k m then map fst m else map fst m ++ [k].
Proof.
  unfold m_has. induction m as [|[k' v'] m IH]; simpl; [done|].
  case_bool_decide; simpl; [done|]. rewrite IH. by destruct (m_get k m).
Qed.

Lemma m_get_keys k m : is_Some (m_get k m) <-> k ∈ map fst m.
Proof.
  induction m as [|[k' v'] m IH]; simpl; [split; [by intros []|by intros ?%elem_of_nil]|].
  rewrite elem_of_cons. case_bool_decide as E; [split; eauto|]. rewrite IH. naive_solver.
Qed.

Lemma m_get_elem k v m : NoDup (map fst m) -> (k, v) ∈ m <-> m_get k m = Some v.
Proof.
  induction m as [|[k' v'] m IH]; simpl; [by rewrite elem_of_nil|]. rewrite NoDup_cons, elem_of_cons.
  intros [Hk Hnd]. specialize (IH Hnd). case_bool_decide as E.
  - subst. split; [|intros [= ->]; by left]. intros [[= ->] | H]; [done|]. exfalso. apply Hk.
    rewrite elem_of_lmap. by exists (k', v).
  - rewrite IH. naive_solver.
Qed.

Lemma m_values_get m : NoDup (map fst m) -> forall v, v ∈ map snd m <-> exists k, m_get k m = Some v.
Proof.
  intros Hnd v. rewrite elem_of_lmap. split.
  - intros ([k v'] & H & ->). exists k. by apply m_get_elem.
  - intros [k H]. exists (k, v). split; [by apply m_get_elem|done].
Qed.
End jsmap.

(** ** Totals by key *)
Section tally.
Context {A K V : Type} `{EqDecision K}.
Variables (key : A -> K) (init : A -> V) (add : V -> A -> V).

(** [const current = m.get(key(a)) ?? init(a); add(current, a); m.set(key(a), current)] *)
Definition tally_step (m : list (K * V)) (a : A) : list (K * V) :=
  m_set (key a) (add (default (init a) (m_get (key a) m)) a) m.

Definition tally (l : list A) : list (K * V) := fold_left tally_step l [].

Definition with_key (k : K) (l : list A) : list A := bfilter (fun a => bool_decide (key a = k)) l.

(** The value of a key: everything with that key added, in order. *)
Definition total (l : list A) : option V :=
  match l with [] => None | a :: _ => Some (fold_left add l (init a)) end.

Lemma tally_snoc l a : tally (l ++ [a]) = tally_step (tally l) a.
Proof. unfold tally. by rewrite fold_left_app. Qed.

Lemma with_key_snoc k l a : with_key k (l ++ [a]) = with_key k l ++ (if bool_decide (key a = k) then [a] else []).
Proof. unfold with_key. rewrite List.filter_app. simpl. by case_bool_decide. Qed.

Lemma total_snoc l a : total (l ++ [a]) = Some (add (default (init a) (total l)) a).
Proof. destruct l as [|b l]; [done|]. simpl. by rewrite fold_left_app. Qed.

Lemma tally_get k l : m_get k (tally l) = total (with_key k l).
Proof.
  induction l as [|a l IH] using rev_ind; [done|]. rewrite tally_snoc, with_key_snoc. unfold tally_step.
  rewrite m_get_set. repeat case_bool_decide; subst; try done.
  - by rewrite total_snoc, IH.
  - by rewrite app_nil_r.
Qed.

Lemma tally_keys l : map fst (tally l) = dedup (map key l).
Proof.
  induction l as [|a l IH] using rev_ind; [done|]. rewrite tally_snoc, map_app. unfold tally_step. rewrite m_set_keys.
  unfold dedup. rewrite dedup_from_app. fold (dedup (map key l)). simpl. rewrite <- IH.
  unfold m_has. destruct (m_get (key a) (tally l)) eqn:E.
  - rewrite bool_decide_true by (apply m_get_keys; eauto). by rewrite app_nil_r.
  - rewrite bool_decide_false; [done|]. intros H%m_get_keys. rewrite E in H. by destruct H.
Qed.

Lemma tally_nodup l : NoDup (map fst (tally l)).
Proof. rewrite tally_keys. apply NoDup_dedup. Qed.

Lemma tally_elem k v l : (k, v) ∈ tally l <-> total (with_key k l) = Some v.
Proof. rewrite m_get_elem by apply tally_nodup. by rewrite tally_get. Qed.
End tally.

(** Grouping does not lose or repeat anything. *)
Lemma groups_perm {A K} `{EqDecision K} (key : A -> K) ks l :
  NoDup ks -> Forall (fun a => key a ∈ ks) l -> concat (map (fun k => with_key key k l) ks) ≡ₚ l.
Proof.
  intros Hnd. induction l as [|a l IH]; intros Hf.
  - clear. by induction ks.
  - inversion Hf as [|? ? Ha Hl]; subst. rewrite <- (IH Hl). clear IH Hl Hf.
    apply elem_of_Permutation in Ha as [ks' Hp]. assert (key a ∉ ks') as Hn.
    { rewrite Hp in Hnd. by apply NoDup_cons in Hnd as [? _]. }
    rewrite !Hp. cbn [map concat].
    assert (with_key key (key a) (a :: l) = a :: with_key key (key a) l) as ->.
    { unfold with_key. simpl. by rewrite bool_decide_true. }
    assert (map (fun k => with_key key k (a :: l)) ks' = map (fun k => with_key key k l) ks') as ->; [|done].
    apply map_ext_in. intros k Hk%list_elem_of_In. unfold with_key. simpl. rewrite bool_decide_false; [done|]. intros E. by subst.
Qed.
