(* ===== verification/JsExpr.v ===== *)
(** * JavaScript expressions

    The price estimator runs a billing expression as JavaScript ([new Function]).  This
    file has the fragment of the expression syntax that billing expressions use: number
    and plain string literals, names, calls, sign, products, sums, comparisons,
    conjunctions and conditionals, with the language's precedence and associativity,
    and its evaluation on binary64 numbers.  Text outside the fragment has no parse
    ([None]) and nothing is said about it. *)

From Stdlib Require Import SpecFloat.
From S2P Require Import Prelude JsString JsNumber Json.

Inductive binop := OAdd | OSub | OMul | ODiv | OLt | OLe | OGt | OGe | OAnd.

Inductive expr :=
  | ENum (x : number)
  | EText (s : jstr)
  | EVar (name : jstr)
  | ENeg (e : expr)
  | EBin (op : binop) (a b : expr)
  | ECond (c a b : expr)
  | ECall (fn : jstr) (args : list expr).

(** ** Reading *)

Definition is_letter (c : N) : bool :=
  (((97 <=? c) && (c <=? 122)) || ((65 <=? c) && (c <=? 90)) || (c =? 95))%N.
Definition is_name_unit (c : N) : bool := is_letter c || is_digit c.

Definition skip (s : jstr) : jstr := snd (span is_ws s).

(** What is being read: an expression at a level of precedence, the rest of a sequence of
    operators after its left operand, or the arguments of a call. *)
Inductive level :=
  | LCond | LAnd | LAndRest (e : expr) | LRel | LRelRest (e : expr) | LAdd | LAddRest (e : expr)
  | LMul | LMulRest (e : expr) | LUnary | LArgs (fn : jstr) (args : list expr).

(** A string literal without escapes or line breaks, after its quote. *)
Definition plain_text_unit (c : N) : bool :=
  negb ((c =? 34) || (c =? 92) || (c =? 10) || (c =? 13))%N.

Definition read_text (s : jstr) : option (jstr * jstr) :=
  match span plain_text_unit s with
  | (w, c :: t) => if (c =? 34)%N then Some (w, t) else None
  | (_, []) => None
  end.

(** A comparison operator. *)
Definition read_rel (s : jstr) : option (binop * jstr) :=
  match s with
  | c :: t =>
      let eq := match t with d :: u => if (d =? 61)%N then Some u else None | [] => None end in
      if (c =? 60)%N then
        Some (match eq with Some u => (OLe, u) | None => (OLt, t) end)
      else if (c =? 62)%N then
        Some (match eq with Some u => (OGe, u) | None => (OGt, t) end)
      else None
  | [] => None
  end.

(** [++], [--] and a digit after a leading zero are something else. *)
Definition next_is (p : N -> bool) (t : jstr) : bool := match t with d :: _ => p d | [] => false end.

Fixpoint parse (fuel : nat) (l : level) (s : jstr) : option (expr * jstr) :=
  match fuel with
  | O => None
  | S f =>
      match l with
      | LCond =>
          '(c, r) ← parse f LAnd s;
          match skip r with
          | q :: t =>
              if (q =? 63)%N then
                '(a, r1) ← parse f LCond t;
                match skip r1 with
                | d :: t1 => if (d =? 58)%N then '(b, r2) ← parse f LCond t1; Some (ECond c a b, r2)
                             else None
                | [] => None
                end
              else Some (c, r)
          | [] => Some (c, r)
          end
      | LAnd => '(a, r) ← parse f LRel s; parse f (LAndRest a) r
      | LAndRest a =>
          if starts_with (js "&&") (skip s)
          then '(b, r) ← parse f LRel (drop 2 (skip s)); parse f (LAndRest (EBin OAnd a b)) r
          else Some (a, s)
      | LRel => '(a, r) ← parse f LAdd s; parse f (LRelRest a) r
      | LRelRest a =>
          match read_rel (skip s) with
          | Some (op, t) => '(b, r) ← parse f LAdd t; parse f (LRelRest (EBin op a b)) r
          | None => Some (a, s)
          end
      | LAdd => '(a, r) ← parse f LMul s; parse f (LAddRest a) r
      | LAddRest a =>
          match skip s with
          | c :: t =>
              if ((c =? 43)%N || (c =? 45)%N) && next_is (N.eqb c) t then None
              else if (c =? 43)%N then '(b, r) ← parse f LMul t; parse f (LAddRest (EBin OAdd a b)) r
              else if (c =? 45)%N then '(b, r) ← parse f LMul t; parse f (LAddRest (EBin OSub a b)) r
              else Some (a, s)
          | [] => Some (a, s)
          end
      | LMul => '(a, r) ← parse f LUnary s; parse f (LMulRest a) r
      | LMulRest a =>
          match skip s with
          | c :: t =>
              if (c =? 42)%N then '(b, r) ← parse f LUnary t; parse f (LMulRest (EBin OMul a b)) r
              else if (c =? 47)%N then '(b, r) ← parse f LUnary t; parse f (LMulRest (EBin ODiv a b)) r
              else Some (a, s)
          | [] => Some (a, s)
          end
      | LUnary =>
          match skip s with
          | [] => None
          | c :: t =>
              if (c =? 45)%N then
                if next_is (N.eqb 45) t then None else '(e, r) ← parse f LUnary t; Some (ENeg e, r)
              else if (c =? 40)%N then
                '(e, r) ← parse f LCond t;
                match skip r with d :: u => if (d =? 41)%N then Some (e, u) else None | [] => None end
              else if (c =? 34)%N then '(w, r) ← read_text t; Some (EText w, r)
              else if (c =? 48)%N && next_is is_digit t then None
              else if is_digit c || (c =? 46)%N then '(x, r) ← read_decimal (c :: t); Some (ENum x, r)
              else if is_letter c then
                let '(name, r) := span is_name_unit (c :: t) in
                match skip r with
                | d :: u => if (d =? 40)%N then parse f (LArgs name []) u else Some (EVar name, r)
                | [] => Some (EVar name, r)
                end
              else None
          end
      | LArgs fn args =>
          '(e, r) ← parse f LCond s;
          match skip r with
          | d :: u =>
              if (d =? 44)%N then parse f (LArgs fn (args ++ [e])) u
              else if (d =? 41)%N then Some (ECall fn (args ++ [e]), u) else None
          | [] => None
          end
      end
  end.

(** Every level is entered at most once before a unit is read, so ten calls a unit are
    enough. *)
Definition parse_expr (s : jstr) : option expr :=
  '(e, r) ← parse (10 * length s + 10) LCond s;
  match skip r with [] => Some e | _ => None end.

(** ** Evaluation *)

Definition n_neg (x : number) : number := SFopp x.

(** [a + b]: text when either side is text. *)
Definition js_add (a b : jsval) : jsval :=
  match a, b with
  | VStr _, _ | _, VStr _ => VStr (to_string a ++ to_string b)
  | _, _ => VNum (n_add (to_number a) (to_number b))
  end.

(** Comparisons of numbers; of two texts, by code units, they do not occur. *)
Definition js_rel (op : number -> number -> bool) (a b : jsval) : option jsval :=
  match a, b with
  | VStr _, VStr _ => None
  | _, _ => Some (VBool (op (to_number a) (to_number b)))
  end.

Definition js_binop (op : binop) (a b : jsval) : option jsval :=
  match op with
  | OAdd => Some (js_add a b)
  | OSub => Some (VNum (n_sub (to_number a) (to_number b)))
  | OMul => Some (VNum (n_mul (to_number a) (to_number b)))
  | ODiv => Some (VNum (n_div (to_number a) (to_number b)))
  | OLt => js_rel n_ltb a b
  | OLe => js_rel n_leb a b
  | OGt => js_rel (fun x y => n_ltb y x) a b
  | OGe => js_rel (fun x y => n_leb y x) a b
  | OAnd => Some (if v_truthy a then b else a)
  end.

Section eval.
(** The names in scope, and the functions, which may change a state. *)
Context {S : Type}.
Variable vars : jstr -> option jsval.
Variable call : jstr -> list jsval -> S -> option (jsval * S).

(** Operands and arguments from left to right; [&&] and [?:] skip what is not needed. *)
Fixpoint eval (e : expr) (st : S) : option (jsval * S) :=
  match e with
  | ENum x => Some (VNum x, st)
  | EText s => Some (VStr s, st)
  | EVar name => v ← vars name; Some (v, st)
  | ENeg a => '(v, st1) ← eval a st; Some (VNum (n_neg (to_number v)), st1)
  | EBin OAnd a b =>
      '(v, st1) ← eval a st;
      if v_truthy v then eval b st1 else Some (v, st1)
  | EBin op a b =>
      '(v, st1) ← eval a st; '(w, st2) ← eval b st1; x ← js_binop op v w; Some (x, st2)
  | ECond c a b =>
      '(v, st1) ← eval c st;
      if v_truthy v then eval a st1 else eval b st1
  | ECall fn args =>
      '(vs, st1) ← (fix go (l : list expr) (st : S) : option (list jsval * S) :=
                      match l with
                      | [] => Some ([], st)
                      | x :: t => '(v, st1) ← eval x st; '(vs, st2) ← go t st1; Some (v :: vs, st2)
                      end) args st;
      call fn vs st1
  end.
End eval.

(** ** More fuel does not change a parse *)

Lemma parse_mono f l s x : parse f l s = Some x -> forall f', f <= f' -> parse f' l s = Some x.
Proof.
  revert l s x. induction f as [|f IH]; intros l s x H f' Hf; [done|].
  destruct f' as [|f']; [lia|]. apply le_S_n in Hf.
  assert (forall l s x, parse f l s = Some x -> parse f' l s = Some x) as Hm by eauto.
  clear IH. simpl in *. destruct l;
  repeat first
    [ assumption
    | match type of H with
      | (mbind _ (parse f ?l0 ?s0)) = Some _ =>
          let E := fresh in destruct (parse f l0 s0) as [[? ?]|] eqn:E; [|done]; rewrite (Hm _ _ _ E); cbn [mbind option_bind] in *
      | parse f _ _ = Some _ => by apply Hm
      | context [match skip ?r with _ => _ end] => destruct (skip r) as [|? ?]; [try done|]
      | context [match read_rel ?r with _ => _ end] => destruct (read_rel r) as [[? ?]|]
      | context [let '(_, _) := span ?p ?r in _] => destruct (span p r)
      | context [if ?b then _ else _] => destruct b; try done
      end ].
Qed.

(** ** One step of each level *)

Section steps.
Variables (f : nat) (s : jstr).

Lemma parse_cond : parse (S f) LCond s =
  '(c, r) ← parse f LAnd s;
  match skip r with
  | q :: t =>
      if (q =? 63)%N then
        '(a, r1) ← parse f LCond t;
        match skip r1 with
        | d :: t1 => if (d =? 58)%N then '(b, r2) ← parse f LCond t1; Some (ECond c a b, r2) else None
        | [] => None
        end
      else Some (c, r)
  | [] => Some (c, r)
  end.
Proof. reflexivity. Qed.

Lemma parse_and : parse (S f) LAnd s = '(a, r) ← parse f LRel s; parse f (LAndRest a) r.
Proof. reflexivity. Qed.

Lemma parse_and_rest a : parse (S f) (LAndRest a) s =
  if starts_with (js "&&") (skip s)
  then '(b, r) ← parse f LRel (drop 2 (skip s)); parse f (LAndRest (EBin OAnd a b)) r
  else Some (a, s).
Proof. reflexivity. Qed.

Lemma parse_rel : parse (S f) LRel s = '(a, r) ← parse f LAdd s; parse f (LRelRest a) r.
Proof. reflexivity. Qed.

Lemma parse_rel_rest a : parse (S f) (LRelRest a) s =
  match read_rel (skip s) with
  | Some (op, t) => '(b, r) ← parse f LAdd t; parse f (LRelRest (EBin op a b)) r
  | None => Some (a, s)
  end.
Proof. reflexivity. Qed.

Lemma parse_add : parse (S f) LAdd s = '(a, r) ← parse f LMul s; parse f (LAddRest a) r.
Proof. reflexivity. Qed.

Lemma parse_plus a t : skip s = 43%N :: t -> next_is (N.eqb 43) t = false ->
  parse (S f) (LAddRest a) s = '(b, r) ← parse f LMul t; parse f (LAddRest (EBin OAdd a b)) r.
Proof. intros E H. cbn [parse]. rewrite E. cbn [N.eqb Pos.eqb orb andb]. by rewrite H. Qed.

Lemma parse_mul : parse (S f) LMul s = '(a, r) ← parse f LUnary s; parse f (LMulRest a) r.
Proof. reflexivity. Qed.

Lemma parse_times a t : skip s = 42%N :: t ->
  parse (S f) (LMulRest a) s = '(b, r) ← parse f LUnary t; parse f (LMulRest (EBin OMul a b)) r.
Proof. intros E. cbn [parse]. by rewrite E. Qed.

Lemma parse_args fn args : parse (S f) (LArgs fn args) s =
  '(e, r) ← parse f LCond s;
  match skip r with
  | d :: u =>
      if (d =? 44)%N then parse f (LArgs fn (args ++ [e])) u
      else if (d =? 41)%N then Some (ECall fn (args ++ [e]), u) else None
  | [] => None
  end.
Proof. reflexivity. Qed.
End steps.
