(* ===== verification/BillingExpr.v ===== *)
(** * Billing expressions (web/src/features/pricing/lib/billing-expr.ts)

    The pricing pages and the pricing editor read and write the server's billing
    expressions: tiered prices, optionally multiplied by request rules such as
    [(header(`x`) == `y` ? 2 : 1)].  This file holds the definitions, a direct
    transcription of the module: every regular expression is a [regex] run by the
    matcher of [JsRegex]. *)

From S2P Require Import Prelude JsString JsRegex JsNumber Json.

(** A call that returns, or throws a JavaScript exception. *)
Inductive outcome (A : Type) := Ret (a : A) | Throw.
Arguments Ret {A} a.
Arguments Throw {A}.

Definition obind {A B} (f : A -> outcome B) (x : outcome A) : outcome B :=
  match x with Ret a => f a | Throw => Throw end.

(** ** Variable registry *)

Inductive Side := SideInput | SideOutput | SideCondition.

Record BillingVar := {
  bv_key : jstr;
  bv_field : option jstr;
  bv_tierField : option jstr;
  bv_label : jstr;
  bv_shortLabel : jstr;
  bv_side : Side;
  bv_isBase : bool;
  bv_isConditionOnly : bool;
  bv_group : option jstr;
}.

Definition price_var (key field tierField label short : jstr) (side : Side)
    (base : bool) (group : option jstr) : BillingVar :=
  {| bv_key := key; bv_field := Some field; bv_tierField := Some tierField;
     bv_label := label; bv_shortLabel := short; bv_side := side;
     bv_isBase := base; bv_isConditionOnly := false; bv_group := group |}.

Definition BILLING_VARS : list BillingVar :=
  [ price_var (js "p") (js "inputPrice") (js "input_unit_cost")
      (js "Input price") (js "Input") SideInput true None;
    price_var (js "c") (js "outputPrice") (js "output_unit_cost")
      (js "Completion price") (js "Output") SideOutput true None;
    {| bv_key := js "len"; bv_field := None; bv_tierField := None;
       bv_label := js "Input length"; bv_shortLabel := js "Length";
       bv_side := SideCondition; bv_isBase := false; bv_isConditionOnly := true;
       bv_group := None |};
    price_var (js "cr") (js "cacheReadPrice") (js "cache_read_unit_cost")
      (js "Cache read price") (js "Cache Read") SideInput false (Some (js "cache"));
    price_var (js "cc") (js "cacheCreatePrice") (js "cache_create_unit_cost")
      (js "Cache create price") (js "Cache Write") SideInput false (Some (js "cache"));
    price_var (js "cc1h") (js "cacheCreate1hPrice") (js "cache_create_1h_unit_cost")
      (js "Cache create (1h) price") (js "Cache Write (1h)") SideInput false (Some (js "cache"));
    price_var (js "img") (js "imagePrice") (js "image_unit_cost")
      (js "Image input price") (js "Image In") SideInput false (Some (js "media"));
    price_var (js "img_o") (js "imageOutputPrice") (js "image_output_unit_cost")
      (js "Image output price") (js "Image Out") SideOutput false (Some (js "media"));
    price_var (js "ai") (js "audioInputPrice") (js "audio_input_unit_cost")
      (js "Audio input price") (js "Audio In") SideInput false (Some (js "media"));
    price_var (js "ao") (js "audioOutputPrice") (js "audio_output_unit_cost")
      (js "Audio output price") (js "Audio Out") SideOutput false (Some (js "media")) ].

Definition BILLING_PRICING_VARS : list BillingVar :=
  bfilter (fun v => negb (bv_isConditionOnly v)) BILLING_VARS.

Definition BILLING_CONDITION_VARS : list jstr :=
  map bv_key (bfilter (fun v => bv_isBase v || bv_isConditionOnly v) BILLING_VARS).

Definition BILLING_VAR_KEY_TO_FIELD : list (jstr * jstr) :=
  map (fun v => (bv_key v, default [] (bv_field v))) BILLING_PRICING_VARS.

Definition BILLING_EXTRA_VARS : list BillingVar :=
  bfilter (fun v => negb (bv_isBase v) && negb (bv_isConditionOnly v)) BILLING_VARS.

(** [{ field, exprVar }] *)
Definition BILLING_CACHE_VAR_MAP : list (jstr * jstr) :=
  map (fun v => (default [] (bv_tierField v), bv_key v)) BILLING_EXTRA_VARS.

(** [\b(p|c|cr|...)\s*\*\s*([\d.eE+-]+)] *)
Definition BILLING_VAR_REGEX : regex :=
  RSeqs [RWordB;
         RGroup 1 (RAlts (map (fun v => RLit (bv_key v)) BILLING_PRICING_VARS));
         RStar (RSet c_space); RLit (js "*"); RStar (RSet c_space);
         RGroup 2 (RPlus (RSet c_num))].

(** ** Request rule constants *)

Definition SOURCE_PARAM : jstr := js "param".
Definition SOURCE_HEADER : jstr := js "header".
Definition SOURCE_TIME : jstr := js "time".
Definition MATCH_EQ : jstr := js "eq".
Definition MATCH_CONTAINS : jstr := js "contains".
Definition MATCH_GT : jstr := js "gt".
Definition MATCH_GTE : jstr := js "gte".
Definition MATCH_LT : jstr := js "lt".
Definition MATCH_LTE : jstr := js "lte".
Definition MATCH_EXISTS : jstr := js "exists".
Definition MATCH_RANGE : jstr := js "range".

Definition TIME_FUNCS : list jstr :=
  [js "hour"; js "minute"; js "weekday"; js "month"; js "day"].

(** [/^-?(?:\d+\.?\d*|\.\d+)(?:[eE][+-]?\d+)?$/] *)
Definition NUMERIC_LITERAL_REGEX : regex :=
  RSeq RStart
    (RSeqs [ROpt (RLit (js "-"));
            RAlt (RSeqs [RPlus (RSet c_digit); ROpt (RLit (js ".")); RStar (RSet c_digit)])
                 (RSeqs [RLit (js "."); RPlus (RSet c_digit)]);
            ROpt (RSeqs [RSet (fun c => (c =? 101) || (c =? 69))%N;
                         ROpt (RSet (fun c => (c =? 43) || (c =? 45))%N);
                         RPlus (RSet c_digit)]);
            REnd]).

Inductive PHSource := SParam | SHeader.

Record ParamHeaderCondition := {
  ph_source : PHSource; ph_path : jstr; ph_mode : jstr; ph_value : jstr }.

Record TimeCondition := {
  tc_timeFunc : jstr; tc_timezone : jstr; tc_mode : jstr; tc_value : jstr;
  tc_rangeStart : jstr; tc_rangeEnd : jstr }.

Inductive RequestCondition :=
  | CTime (c : TimeCondition)
  | CParamHeader (c : ParamHeaderCondition).

Record RequestRuleGroup := {
  rg_conditions : list RequestCondition; rg_multiplier : jstr }.

Record TierCondition := { tcond_var : jstr; tcond_op : jstr; tcond_value : number }.

Record ParsedTier := {
  pt_label : jstr; pt_conditions : list TierCondition;
  pt_prices : list (jstr * number) }.

(** ** Tier parser *)

(** [{ version, body }] *)
Definition stripExprVersion (exprStr : jstr) : number * jstr :=
  if negb (truthy exprStr) then (num_of_Z 1, [])
  else
    match match_re (RSeq RStart (RSeqs [RLit (js "v"); RGroup 1 (RPlus (RSet c_digit));
                                        RLit (js ":"); RGroup 2 (RStar (RSet c_any)); REnd]))
                   exprStr with
    | Some m => (num_of_string (cap 1 m), cap 2 m)
    | None => (num_of_Z 1, exprStr)
    end.

(** The first coefficient of each variable; [coeffs[v] || 0] in field order. *)
Definition parseTierBody (bodyStr : jstr) : list (jstr * number) :=
  let coeffs :=
    fold_left (fun acc m =>
        match prop_get (cap 1 m) acc with
        | Some _ => acc
        | None => prop_set (cap 1 m) (num_of_string (cap 2 m)) acc
        end) (matches BILLING_VAR_REGEX bodyStr) [] in
  map (fun '(varName, field) => (field, n_or (default n_nan (prop_get varName coeffs)) n_zero))
      BILLING_VAR_KEY_TO_FIELD.

Definition cond_var_re : regex := RAlts [RLit (js "p"); RLit (js "c"); RLit (js "len")].
Definition cond_op_re : regex :=
  RAlts [RLit (js "<"); RLit (js "<="); RLit (js ">"); RLit (js ">=")].

(** One comparison, [(?:p|c|len)\s*(?:<|<=|>|>=)\s*[\d.eE+]+] *)
Definition cond_atom_re : regex :=
  RSeqs [cond_var_re; RStar (RSet c_space); cond_op_re; RStar (RSet c_space);
         RPlus (RSet c_num_nominus)].

Definition and_sep_re : regex :=
  RSeqs [RStar (RSet c_space); RLit (js "&&"); RStar (RSet c_space)].

Definition condGroup : regex :=
  RGroup 1 (RSeq cond_atom_re (RStar (RSeq and_sep_re cond_atom_re))).

Definition tierRe : regex :=
  RSeqs [ROpt (RSeqs [condGroup; RStar (RSet c_space); RLit (js "?"); RStar (RSet c_space)]);
         RLit (jsq "tier(`"); RGroup 2 (RStar (RSet (c_not 34))); RLit (jsq "`,");
         RStar (RSet c_space); RGroup 3 (RPlus (RSet (c_not 41))); RLit (js ")")].

(** [s.split(re)] for a pattern without captures that never matches empty. *)
Fixpoint split_re (fuel : nat) (r : regex) (before after : jstr) : list jstr :=
  match fuel with
  | O => [after]
  | S f =>
      match search_from r before after with
      | Some (s0, s1) =>
          take (length after - length (post s0)) after :: split_re f r (pre s1) (post s1)
      | None => [after]
      end
  end.

Definition split_and (s : jstr) : list jstr := split_re (length s) and_sep_re [] s.

Definition parse_tier_condition (cp : jstr) : option TierCondition :=
  match match_re (RSeq RStart (RSeqs [RGroup 1 cond_var_re; RStar (RSet c_space);
                                      RGroup 2 cond_op_re; RStar (RSet c_space);
                                      RGroup 3 (RPlus (RSet c_num_nominus)); REnd]))
                 (trim cp) with
  | Some cm => Some {| tcond_var := cap 1 cm; tcond_op := cap 2 cm;
                       tcond_value := num_of_string (cap 3 cm) |}
  | None => None
  end.

Definition parse_tier_match (m : mstate) : ParsedTier :=
  let condStr := cap 1 m in
  {| pt_label := cap 2 m;
     pt_conditions := if truthy condStr then omap parse_tier_condition (split_and condStr) else [];
     pt_prices := parseTierBody (cap 3 m) |}.

Definition parseTiersFromExpr (exprStr : jstr) : list ParsedTier :=
  if negb (truthy exprStr) then []
  else map parse_tier_match (matches tierRe (snd (stripExprVersion exprStr))).

(** ** Request rule parser *)

(** The loop of [splitTopLevelMultiply] and [splitTopLevelAnd]: [cur] is the part
    being read, reversed; [skip] counts the units of a separator still to pass. *)
Fixpoint split_top_loop (sep : jstr) (skip : nat) (depth : Z) (cur : jstr) (s : jstr)
  : list jstr :=
  match s with
  | [] => [trim (rev cur)]
  | c :: t =>
      match skip with
      | S k => split_top_loop sep k depth cur t
      | O =>
          let depth1 := if (c =? 40)%N then (depth + 1)%Z else depth in
          let depth2 := if (c =? 41)%N then (depth1 - 1)%Z else depth1 in
          if (depth2 =? 0)%Z && starts_with sep s
          then trim (rev cur) :: split_top_loop sep (length sep - 1) depth2 [] t
          else split_top_loop sep 0 depth2 (c :: cur) t
      end
  end.

Definition splitTopLevelMultiply (expr : jstr) : list jstr :=
  bfilter truthy (split_top_loop (js " * ") 0 0 [] expr).

Definition splitTopLevelAnd (expr : jstr) : list jstr :=
  bfilter truthy (split_top_loop (js " && ") 0 0 [] expr).

(** [VNull] is the [null] result. *)
Definition parseExprLiteral (raw : jstr) : jsval :=
  let text := trim raw in
  if (text =s js "true") || (text =s js "false") then VStr text
  else if test_re NUMERIC_LITERAL_REGEX text then VStr text
  else default VNull (json_parse text).

(** [(hour|minute|weekday|month|day)\(`([^`]+)`\)] as groups 1 and 2. *)
Definition time_fn_re : list regex :=
  [RGroup 1 (RAlts (map RLit TIME_FUNCS)); RLit (jsq "(`");
   RGroup 2 (RPlus (RSet (c_not 34)))].

(** [>= ([\d.eE+-]+) \|\| \1\(`\2`\) < ([\d.eE+-]+)] *)
Definition time_range_tail : list regex :=
  [RLit (jsq "`) >= "); RGroup 3 (RPlus (RSet c_num)); RLit (js " || ");
   RBack 1; RLit (jsq "(`"); RBack 2; RLit (jsq "`) < "); RGroup 4 (RPlus (RSet c_num))].

Definition time_range_re : regex :=
  RSeq RStart (RSeqs (time_fn_re ++ time_range_tail ++ [REnd])).

Definition time_range_paren_re : regex :=
  RSeq RStart (RSeqs ([RLit (js "(")] ++ time_fn_re ++ time_range_tail ++ [RLit (js ")"); REnd])).

Definition time_op_re : regex := RAlts [RLit (js "=="); RLit (js ">="); RLit (js "<")].

Definition time_cmp_re : regex :=
  RSeq RStart (RSeqs (time_fn_re ++ [RLit (jsq "`) "); RGroup 3 time_op_re; RLit (js " ");
                                     RGroup 4 (RPlus (RSet c_num)); REnd])).

Definition time_range_condition (m : mstate) : RequestCondition :=
  CTime {| tc_timeFunc := cap 1 m; tc_timezone := cap 2 m; tc_mode := MATCH_RANGE;
           tc_value := []; tc_rangeStart := cap 3 m; tc_rangeEnd := cap 4 m |}.

Definition time_op_mode (op : jstr) : jstr :=
  if op =s js "==" then MATCH_EQ
  else if op =s js ">=" then MATCH_GTE
  else if op =s js "<" then MATCH_LT else MATCH_EQ.

Definition tryParseTimeCondition (expr : jstr) : option RequestCondition :=
  match match_re time_range_re expr with
  | Some m => Some (time_range_condition m)
  | None =>
      match match_re time_range_paren_re expr with
      | Some m => Some (time_range_condition m)
      | None =>
          match match_re time_cmp_re expr with
          | Some m =>
              Some (CTime {| tc_timeFunc := cap 1 m; tc_timezone := cap 2 m;
                             tc_mode := time_op_mode (cap 3 m); tc_value := cap 4 m;
                             tc_rangeStart := []; tc_rangeEnd := [] |})
          | None => None
          end
      end
  end.

Definition ph_condition (source : PHSource) (path mode value : jstr) : RequestCondition :=
  CParamHeader {| ph_source := source; ph_path := path; ph_mode := mode; ph_value := value |}.

Definition path_re (i : nat) : regex := RGroup i (RPlus (RSet (c_not 34))).

(** [`(?:[^`\\]|\\.)*`] *)
Definition string_literal_re : regex :=
  RSeqs [RLit [34%N];
         RStar (RAlt (RSet (fun c => negb ((c =? 34) || (c =? 92)))%N)
                     (RSeq (RLit [92%N]) (RSet c_dot)));
         RLit [34%N]].

Definition header_exists_re : regex :=
  RSeq RStart (RSeqs [RLit (jsq "header(`"); path_re 1; RLit (jsq "`) != ``"); REnd]).

Definition param_exists_re : regex :=
  RSeq RStart (RSeqs [RLit (jsq "param(`"); path_re 1; RLit (jsq "`) != nil"); REnd]).

Definition header_contains_re : regex :=
  RSeq RStart (RSeqs [RLit (jsq "has(header(`"); path_re 1; RLit (jsq "`), ");
                      RGroup 2 string_literal_re; RLit (js ")"); REnd]).

Definition param_contains_re : regex :=
  RSeq RStart (RSeqs [RLit (jsq "param(`"); path_re 1; RLit (jsq "`) != nil && has(param(`");
                      path_re 2; RLit (jsq "`), "); RGroup 3 string_literal_re;
                      RLit (js ")"); REnd]).

Definition param_op_re : regex :=
  RAlts [RLit (js ">"); RLit (js ">="); RLit (js "<"); RLit (js "<=")].

Definition param_cmp_re : regex :=
  RSeq RStart (RSeqs [RLit (jsq "param(`"); path_re 1; RLit (jsq "`) != nil && param(`");
                      path_re 2; RLit (jsq "`) "); RGroup 3 param_op_re; RLit (js " ");
                      RGroup 4 (RPlus (RSet c_num)); REnd]).

Definition eq_re : regex :=
  RSeq RStart (RSeqs [RGroup 1 (RAlts [RLit (js "param"); RLit (js "header")]);
                      RLit (jsq "(`"); path_re 2; RLit (jsq "`) == ");
                      RGroup 3 (RPlus (RSet c_dot)); REnd]).

Definition param_op_mode (op : jstr) : jstr :=
  if op =s js ">" then MATCH_GT
  else if op =s js ">=" then MATCH_GTE
  else if op =s js "<" then MATCH_LT else MATCH_LTE.

(** [JSON.parse(m[i]) as string]: the literal is quoted text, so the value is a
    string when the call returns. *)
Definition parse_quoted (lit : jstr) : outcome jstr :=
  match json_parse lit with
  | Some v => Ret (to_string v)
  | None => Throw
  end.

(** [null] is [Ret None]; the two uncaught [JSON.parse] calls may throw. *)
Definition tryParseRequestCondition (expr : jstr) : outcome (option RequestCondition) :=
  match tryParseTimeCondition expr with
  | Some tc => Ret (Some tc)
  | None =>
  match match_re header_exists_re expr with
  | Some m => Ret (Some (ph_condition SHeader (cap 1 m) MATCH_EXISTS []))
  | None =>
  match match_re param_exists_re expr with
  | Some m => Ret (Some (ph_condition SParam (cap 1 m) MATCH_EXISTS []))
  | None =>
  match match_re header_contains_re expr with
  | Some m => obind (fun v => Ret (Some (ph_condition SHeader (cap 1 m) MATCH_CONTAINS v)))
                    (parse_quoted (cap 2 m))
  | None =>
  match (m ← match_re param_contains_re expr; if cap 1 m =s cap 2 m then Some m else None) with
  | Some m => obind (fun v => Ret (Some (ph_condition SParam (cap 1 m) MATCH_CONTAINS v)))
                    (parse_quoted (cap 3 m))
  | None =>
  match (m ← match_re param_cmp_re expr; if cap 1 m =s cap 2 m then Some m else None) with
  | Some m => Ret (Some (ph_condition SParam (cap 1 m) (param_op_mode (cap 3 m)) (cap 4 m)))
  | None =>
  match match_re eq_re expr with
  | Some m =>
      match parseExprLiteral (cap 3 m) with
      | VNull => Ret None
      | parsedValue =>
          Ret (Some (ph_condition (if cap 1 m =s js "param" then SParam else SHeader)
                       (cap 2 m) MATCH_EQ (to_string parsedValue)))
      end
  | None => Ret None
  end end end end end end end.

(** [/^\((.+) \? ([\d.eE+-]+) : 1\)$/s] *)
Definition group_factor_re : regex :=
  RSeq RStart (RSeqs [RLit (js "("); RGroup 1 (RPlus (RSet c_any)); RLit (js " ? ");
                      RGroup 2 (RPlus (RSet c_num)); RLit (js " : 1)"); REnd]).

(** The [for] loop over the parts; the accumulator is in order. *)
Fixpoint parse_conditions (parts : list jstr) : outcome (option (list RequestCondition)) :=
  match parts with
  | [] => Ret (Some [])
  | ap :: rest =>
      obind (fun cond =>
        match cond with
        | None => Ret None
        | Some c => obind (fun cs => Ret ((fun l => c :: l) <$> cs)) (parse_conditions rest)
        end) (tryParseRequestCondition (trim ap))
  end.

Definition tryParseRuleGroupFactor (part : jstr) : outcome (option RequestRuleGroup) :=
  match match_re group_factor_re part with
  | None => Ret None
  | Some m =>
      obind (fun conds =>
        match conds with
        | None | Some [] => Ret None
        | Some conditions =>
            Ret (Some {| rg_conditions := conditions; rg_multiplier := cap 2 m |})
        end) (parse_conditions (splitTopLevelAnd (cap 1 m)))
  end.

Fixpoint parse_groups (parts : list jstr) : outcome (option (list RequestRuleGroup)) :=
  match parts with
  | [] => Ret (Some [])
  | part :: rest =>
      obind (fun group =>
        match group with
        | None => Ret None
        | Some g => obind (fun gs => Ret ((fun l => g :: l) <$> gs)) (parse_groups rest)
        end) (tryParseRuleGroupFactor part)
  end.

Definition tryParseRequestRuleExpr (expr : jstr) : outcome (option (list RequestRuleGroup)) :=
  let trimmed := trim expr in
  if negb (truthy trimmed) then Ret (Some [])
  else parse_groups (splitTopLevelMultiply trimmed).

(** ** Combining and splitting *)

(** The loop of [hasFullOuterParens]: fails on reaching depth 0 before the last
    unit, otherwise returns whether the final depth is 0. *)
Fixpoint outer_parens_loop (depth : Z) (s : jstr) : bool :=
  match s with
  | [] => (depth =? 0)%Z
  | c :: t =>
      let depth1 := if (c =? 40)%N then (depth + 1)%Z else depth in
      let depth2 := if (c =? 41)%N then (depth1 - 1)%Z else depth1 in
      if (depth2 =? 0)%Z && truthy t then false else outer_parens_loop depth2 t
  end.

Definition hasFullOuterParens (expr : jstr) : bool :=
  if negb (starts_with (js "(") expr) || negb (ends_with (js ")") expr) then false
  else outer_parens_loop 0 expr.

(** The [while] loop; each round drops two units, so the length bounds it. *)
Fixpoint unwrap_loop (fuel : nat) (current : jstr) : jstr :=
  match fuel with
  | O => current
  | S f =>
      if hasFullOuterParens current
      then unwrap_loop f (trim (slice 1 (length current - 1) current))
      else current
  end.

Definition unwrapOuterParens (expr : jstr) : jstr :=
  let current := trim expr in unwrap_loop (length current) current.

(** Is the part a request rule? [None] when parsing it throws. *)
Definition is_rule_part (part : jstr) : outcome bool :=
  obind (fun parsed => match parsed with
                       | Some (_ :: _) => Ret true
                       | _ => Ret false
                       end) (tryParseRequestRuleExpr part).

(** The [forEach]: [(ruleParts, baseParts)]. *)
Fixpoint partition_parts (parts : list jstr) : outcome (list jstr * list jstr) :=
  match parts with
  | [] => Ret ([], [])
  | part :: rest =>
      obind (fun isRule =>
        obind (fun '(rules, bases) =>
          Ret (if isRule : bool then (part :: rules, bases) else (rules, part :: bases)))
          (partition_parts rest)) (is_rule_part part)
  end.

(** [{ billingExpr, requestRuleExpr }] *)
Definition splitBillingExprAndRequestRules (expr : jstr) : outcome (jstr * jstr) :=
  let trimmed := trim expr in
  if negb (truthy trimmed) then Ret ([], [])
  else
    let parts := splitTopLevelMultiply trimmed in
    if (length parts <=? 1)%nat then Ret (trimmed, [])
    else
      obind (fun '(ruleParts, baseParts) =>
        match ruleParts, baseParts with
        | _ :: _, [base] => Ret (unwrapOuterParens base, join (js " * ") ruleParts)
        | _, _ => Ret (trimmed, [])
        end) (partition_parts parts).

Definition combineBillingExpr (baseExpr requestRuleExpr : jstr) : jstr :=
  let base := trim baseExpr in
  let rules := trim requestRuleExpr in
  if negb (truthy base) then []
  else if negb (truthy rules) then base
  else js "(" ++ base ++ js ") * " ++ rules.

(** ** Editor: empty constructors *)

Definition createEmptyCondition : ParamHeaderCondition :=
  {| ph_source := SParam; ph_path := []; ph_mode := MATCH_EQ; ph_value := [] |}.

Definition createEmptyTimeCondition : TimeCondition :=
  {| tc_timeFunc := js "hour"; tc_timezone := js "Asia/Shanghai"; tc_mode := MATCH_GTE;
     tc_value := []; tc_rangeStart := []; tc_rangeEnd := [] |}.

Definition createEmptyRuleGroup : RequestRuleGroup :=
  {| rg_conditions := [CParamHeader createEmptyCondition]; rg_multiplier := [] |}.

Definition createEmptyTimeRuleGroup : RequestRuleGroup :=
  {| rg_conditions := [CTime createEmptyTimeCondition]; rg_multiplier := [] |}.

(** ** Editor: match options, as [(value, labelKey)] *)

Definition getRequestRuleMatchOptions (source : jstr) : list (jstr * jstr) :=
  if source =s SOURCE_TIME then
    [(MATCH_EQ, js "Equals"); (MATCH_GTE, js "Greater than or equal");
     (MATCH_LT, js "Less than"); (MATCH_RANGE, js "Overnight range")]
  else
    let base := [(MATCH_EQ, js "Equals"); (MATCH_CONTAINS, js "Contains");
                 (MATCH_EXISTS, js "Exists")] in
    if source =s SOURCE_HEADER then base
    else base ++
      [(MATCH_GT, js "Greater than"); (MATCH_GTE, js "Greater than or equal");
       (MATCH_LT, js "Less than"); (MATCH_LTE, js "Less than or equal")].

(** ** Editor: normalising one condition *)

Definition isTimeFunc (value : jstr) : bool := existsb (jeqb value) TIME_FUNCS.

(** A [Partial<RequestCondition>]: any field may be missing. *)
Record PartialCondition := {
  pc_source : option jstr; pc_path : option jstr; pc_mode : option jstr;
  pc_value : option jstr; pc_timeFunc : option jstr; pc_timezone : option jstr;
  pc_rangeStart : option jstr; pc_rangeEnd : option jstr }.

Definition empty_partial : PartialCondition :=
  {| pc_source := None; pc_path := None; pc_mode := None; pc_value := None;
     pc_timeFunc := None; pc_timezone := None; pc_rangeStart := None; pc_rangeEnd := None |}.

Definition source_name (s : PHSource) : jstr :=
  match s with SParam => SOURCE_PARAM | SHeader => SOURCE_HEADER end.

(** A full condition seen as a partial one. *)
Definition to_partial (cond : RequestCondition) : PartialCondition :=
  match cond with
  | CTime c =>
      {| pc_source := Some SOURCE_TIME; pc_path := None; pc_mode := Some (tc_mode c);
         pc_value := Some (tc_value c); pc_timeFunc := Some (tc_timeFunc c);
         pc_timezone := Some (tc_timezone c); pc_rangeStart := Some (tc_rangeStart c);
         pc_rangeEnd := Some (tc_rangeEnd c) |}
  | CParamHeader c =>
      {| pc_source := Some (source_name (ph_source c)); pc_path := Some (ph_path c);
         pc_mode := Some (ph_mode c); pc_value := Some (ph_value c); pc_timeFunc := None;
         pc_timezone := None; pc_rangeStart := None; pc_rangeEnd := None |}
  end.

(** [options.some((item) => item.value === mode) ? mode : fallback] *)
Definition pick_mode (options : list (jstr * jstr)) (mode : option jstr) (fallback : jstr) : jstr :=
  match mode with
  | Some md => if existsb (fun item => fst item =s md) options then md else fallback
  | None => fallback
  end.

Definition normalize_time (cond : PartialCondition) : TimeCondition :=
  {| tc_timeFunc := match pc_timeFunc cond with
                    | Some f => if isTimeFunc f then f else js "hour"
                    | None => js "hour"
                    end;
     tc_timezone := str_or (default [] (pc_timezone cond)) (js "Asia/Shanghai");
     tc_mode := pick_mode (getRequestRuleMatchOptions SOURCE_TIME) (pc_mode cond) MATCH_GTE;
     tc_value := default [] (pc_value cond);
     tc_rangeStart := default [] (pc_rangeStart cond);
     tc_rangeEnd := default [] (pc_rangeEnd cond) |}.

Definition normalize_param_header (source : PHSource) (cond : PartialCondition)
  : ParamHeaderCondition :=
  {| ph_source := source;
     ph_path := default [] (pc_path cond);
     ph_mode := pick_mode (getRequestRuleMatchOptions (source_name source)) (pc_mode cond) MATCH_EQ;
     ph_value := default [] (pc_value cond) |}.

Definition normalizeCondition (cond0 : option PartialCondition) : RequestCondition :=
  let cond := default empty_partial cond0 in
  match pc_source cond with
  | Some s =>
      if s =s js "time" then CTime (normalize_time cond)
      else if s =s js "header" then CParamHeader (normalize_param_header SHeader cond)
      else CParamHeader (normalize_param_header SParam cond)
  | None => CParamHeader (normalize_param_header SParam cond)
  end.

(** ** Editor: building expressions *)

Definition is_numeric_literal (s : jstr) : bool := test_re NUMERIC_LITERAL_REGEX s.

Definition buildExprLiteral (mode value : jstr) : jstr :=
  let text := trim value in
  if mode =s MATCH_CONTAINS then stringify_string text
  else if (text =s js "true") || (text =s js "false") then text
  else if is_numeric_literal text then text
  else stringify_string text.

Definition time_op (mode : jstr) : jstr :=
  if mode =s MATCH_EQ then js "==" else if mode =s MATCH_GTE then js ">="
  else if mode =s MATCH_LT then js "<" else js "==".

Definition buildTimeConditionExpr (cond : TimeCondition) : jstr :=
  match normalizeCondition (Some (to_partial (CTime cond))) with
  | CTime normalized =>
      let fn := tc_timeFunc normalized ++ js "(" ++ stringify_string (tc_timezone normalized) ++ js ")" in
      if tc_mode normalized =s MATCH_RANGE then
        let s := trim (tc_rangeStart normalized) in
        let e := trim (tc_rangeEnd normalized) in
        if negb (is_numeric_literal s) || negb (is_numeric_literal e) then []
        else fn ++ js " >= " ++ s ++ js " || " ++ fn ++ js " < " ++ e
      else
        let v := trim (tc_value normalized) in
        if negb (is_numeric_literal v) then []
        else fn ++ js " " ++ time_op (tc_mode normalized) ++ js " " ++ v
  | CParamHeader _ => []
  end.

Definition param_op (mode : jstr) : jstr :=
  if mode =s MATCH_GT then js ">" else if mode =s MATCH_GTE then js ">="
  else if mode =s MATCH_LT then js "<" else js "<=".

(** The [param]/[header] case of [buildRequestConditionExpr]. *)
Definition build_param_header (normalized : ParamHeaderCondition) : jstr :=
  let path := trim (ph_path normalized) in
  if negb (truthy path) then []
  else
    let sourceExpr :=
      match ph_source normalized with
      | SHeader => js "header(" ++ stringify_string path ++ js ")"
      | SParam => js "param(" ++ stringify_string path ++ js ")"
      end in
    let mode := ph_mode normalized in
    if mode =s MATCH_EXISTS then
      match ph_source normalized with
      | SHeader => sourceExpr ++ jsq " != ``"
      | SParam => sourceExpr ++ js " != nil"
      end
    else if mode =s MATCH_CONTAINS then
      let lit := buildExprLiteral mode (ph_value normalized) in
      match ph_source normalized with
      | SHeader => js "has(" ++ sourceExpr ++ js ", " ++ lit ++ js ")"
      | SParam => sourceExpr ++ js " != nil && has(" ++ sourceExpr ++ js ", " ++ lit ++ js ")"
      end
    else if (mode =s MATCH_GT) || (mode =s MATCH_GTE) || (mode =s MATCH_LT) || (mode =s MATCH_LTE)
    then
      let numText := trim (ph_value normalized) in
      if negb (is_numeric_literal numText) then []
      else sourceExpr ++ js " != nil && " ++ sourceExpr ++ js " " ++ param_op mode ++ js " " ++ numText
    else sourceExpr ++ js " == " ++ buildExprLiteral mode (ph_value normalized).

Definition buildRequestConditionExpr (cond : RequestCondition) : jstr :=
  match cond with
  | CTime c => buildTimeConditionExpr c
  | CParamHeader _ =>
      match normalizeCondition (Some (to_partial cond)) with
      | CParamHeader normalized => build_param_header normalized
      | CTime _ => []
      end
  end.

Definition buildRuleGroupFactor (group : RequestRuleGroup) : jstr :=
  let multiplier := trim (rg_multiplier group) in
  if negb (is_numeric_literal multiplier) then []
  else
    match bfilter truthy (map buildRequestConditionExpr (rg_conditions group)) with
    | [] => []
    | condExprs =>
        let combined :=
          match condExprs with
          | [e] => e
          | _ => join (js " && ")
                   (map (fun e => if includes (js " || ") e then js "(" ++ e ++ js ")" else e)
                        condExprs)
          end in
        js "(" ++ combined ++ js " ? " ++ multiplier ++ js " : 1)"
    end.

Definition buildRequestRuleExpr (groups : list RequestRuleGroup) : jstr :=
  join (js " * ") (bfilter truthy (map buildRuleGroupFactor groups)).

(** ** Evaluated examples *)

Definition ex_header : RequestCondition := ph_condition SHeader (js "x-tier") MATCH_EQ (js "gold").
Definition ex_param_gt : RequestCondition := ph_condition SParam (js "size") MATCH_GT (js "10").
Definition ex_range : RequestCondition :=
  CTime {| tc_timeFunc := js "hour"; tc_timezone := js "UTC"; tc_mode := MATCH_RANGE;
           tc_value := []; tc_rangeStart := js "22"; tc_rangeEnd := js "6" |}.

Example build_example :
  buildRequestRuleExpr [{| rg_conditions := [ex_header; ex_range]; rg_multiplier := js "0.5" |}] =
  jsq "(header(`x-tier`) == `gold` && (hour(`UTC`) >= 22 || hour(`UTC`) < 6) ? 0.5 : 1)".
Proof. vm_compute. reflexivity. Qed.

Example parse_build_example :
  tryParseRequestRuleExpr
    (buildRequestRuleExpr [{| rg_conditions := [ex_header; ex_range]; rg_multiplier := js "0.5" |}]) =
  Ret (Some [{| rg_conditions := [ex_header; ex_range]; rg_multiplier := js "0.5" |}]).
Proof. vm_compute. reflexivity. Qed.

Example parse_tiers_example :
  map (fun t => (pt_label t, length (pt_conditions t), prop_get (js "cacheReadPrice") (pt_prices t)))
    (parseTiersFromExpr
       (jsq "v1:len <= 200000 && c<5 ? tier(`base`, p * 1.25 + c * 10 + cr * 0.125) : tier(`long`, p * 2.5 + c * 15)"))
  = [(js "base", 2, Some (dec (js "0.125"))); (js "long", 0, Some n_zero)].
Proof. vm_compute. reflexivity. Qed.
