(* ===== verification/BillingFacts.v ===== *)
(** * Facts about billing expressions

    Reading back what the pricing editor writes: the request rules built from a
    list of rule groups parse to the same groups, and a billing expression combined
    with its rules splits into the two again.  The file first develops the shared
    lemmas on plain strings, on the top-level splitter and on the regular
    expressions of [BillingExpr]. *)

From S2P Require Import Prelude JsString JsRegex JsNumber Json BillingExpr.

(** ** Plain text *)

(** A unit that needs no JSON escape and is not syntax of the rule language:
    no quote, back slash, parenthesis, bar, control unit, surrogate or line
    separator. *)
Definition plain_unit (c : N) : bool :=
  ((32 <=? c) && (c <? 55296) && negb (c =? 34) && negb (c =? 92) && negb (c =? 40) &&
   negb (c =? 41) && negb (c =? 124) && negb (c =? 8232) && negb (c =? 8233))%N.

Definition plain (s : jstr) : Prop := Forall (fun c => plain_unit c = true) s.

Lemma plain_quote_body s : plain s -> quote_body s = s.
Proof.
  induction 1 as [|c s Hc _ IH]; [done|]. cbn [quote_body]. unfold plain_unit in Hc.
  assert (is_high c = false) as -> by (unfold is_high; lia).
  assert (is_low c = false) as -> by (unfold is_low; lia).
  assert (quote_unit c = [c]) as ->.
  { unfold quote_unit.
    repeat match goal with
    | |- context [(c =? ?v)%N] => rewrite (proj2 (N.eqb_neq c v)) by lia
    end. by rewrite (proj2 (N.ltb_ge c 32)) by lia. }
  simpl. by f_equal.
Qed.

Lemma plain_stringify s : plain s -> stringify_string s = [34%N] ++ s ++ [34%N].
Proof. intros H. unfold stringify_string. by rewrite plain_quote_body. Qed.

Lemma plain_units s : plain s -> units s.
Proof. intros H. eapply Forall_impl; [exact H|]. unfold plain_unit. intros; lia. Qed.

Lemma plain_missing s c : plain s -> plain_unit c = false -> c ∉ s.
Proof.
  unfold plain. rewrite Forall_forall. intros H Hc Hin. specialize (H c Hin). congruence.
Qed.

Lemma plain_not_quote s : plain s -> Forall (fun c => c_not 34 c = true) s.
Proof.
  intros H. eapply Forall_impl; [exact H|]. unfold plain_unit, c_not. intros. lia.
Qed.

Lemma plain_dot s : plain s -> Forall (fun c => c_dot c = true) s.
Proof.
  intros H. eapply Forall_impl; [exact H|]. unfold plain_unit, c_dot. intros. lia.
Qed.

(** ** The text a pattern can consume *)

(** Every class of the pattern is included in [p], and it has no back reference. *)
Fixpoint over (p : N -> Prop) (r : regex) : Prop :=
  match r with
  | REmpty | RStart | REnd | RWordB | RLineStart | RLineEnd => True
  | RSet q => forall c, q c = true -> p c
  | RSeq a b | RAlt a b => over p a /\ over p b
  | RStar a | RGroup _ a => over p a
  | RBack _ => False
  end.

Lemma m_sound p r k s x :
  over p r -> m r k s = Some x ->
  exists s' w, k s' = Some x /\ post s = w ++ post s' /\ Forall p w.
Proof.
  revert k s x. induction r as [|q|a IHa b IHb|a IHa b IHb|a IHa|i a IHa|i| | | | |];
    intros k s x Ho Hm; cbn [over] in Ho.
  - exists s, []. auto.
  - simpl in Hm. destruct (post s) as [|c t] eqn:E; [done|]. destruct (q c) eqn:Eq; [|done].
    eexists _, [c]. split; [exact Hm|]. split; [done|]. auto.
  - destruct Ho as [Ha Hb]. destruct (IHa _ _ _ Ha Hm) as (s1 & w1 & H1 & E1 & F1).
    destruct (IHb _ _ _ Hb H1) as (s2 & w2 & H2 & E2 & F2).
    exists s2, (w1 ++ w2). rewrite E1, E2, <- app_assoc. rewrite Forall_app. auto.
  - destruct Ho as [Ha Hb]. simpl in Hm. destruct (m a k s) eqn:E; [simplify_eq; eauto|eauto].
  - rewrite m_RStar in Hm. revert Hm. generalize (length (post s)) as n. intros n.
    revert s. induction n as [|n IHn]; intros s' Hm; simpl in Hm; [by exists s', []|].
    destruct (m a _ s') as [y|] eqn:E; [|by exists s', []]. simplify_eq.
    destruct (IHa _ _ _ Ho E) as (s1 & w1 & H1 & E1 & F1). cbn beta in H1.
    destruct (_ <? _)%nat; [|done]. destruct (IHn _ H1) as (s2 & w2 & H2 & E2 & F2).
    exists s2, (w1 ++ w2). rewrite E1, E2, <- app_assoc. rewrite Forall_app. auto.
  - rewrite m_RGroup in Hm. destruct (IHa _ _ _ Ho Hm) as (s1 & w1 & H1 & E1 & F1).
    eexists _, w1. split; [exact H1|]. auto.
  - done.
  - simpl in Hm. destruct (pre s); [|done]. by exists s, [].
  - simpl in Hm. destruct (post s) eqn:E; [|done]. by exists s, [].
  - simpl in Hm. destruct (xorb _ _); [|done]. by exists s, [].
  - simpl in Hm. destruct (line_edge _); [|done]. by exists s, [].
  - simpl in Hm. destruct (line_edge _); [|done]. by exists s, [].
Qed.

(** Numeric literals are non-empty and made of the units of [[\d.eE+-]]. *)
Lemma numeric_units s :
  is_numeric_literal s = true -> s <> [] /\ Forall (fun c => c_num c = true) s.
Proof.
  intros H. split.
  { intros ->. by vm_compute in H. }
  unfold is_numeric_literal, NUMERIC_LITERAL_REGEX in H. rewrite test_anchored in H.
  set (L := [ROpt _; _; _; _]) in H. set (L' := [nth 0 L REmpty; nth 1 L REmpty; nth 2 L REmpty]).
  destruct (m (RSeqs L) Some (MState [] s [])) as [x|] eqn:E; [|done].
  change (m (RSeqs L') (m REnd Some) (MState [] s []) = Some x) in E.
  apply (m_sound (fun c => c_num c = true)) in E as (s' & w & Hk & Hs & Hw).
  - simpl in Hk. destruct (post s'); [|done]. simpl in Hs. rewrite Hs, app_nil_r. done.
  - unfold L', L, c_num, c_digit, RPlus, ROpt. cbn.
    unfold is_digit, RChar. repeat split; cbn; intros; lia.
Qed.

Lemma num_not_ws c : c_num c = true -> is_ws c = false.
Proof. unfold c_num, is_ws, is_digit. lia. Qed.

Lemma Forall_not_ws_trim s : Forall (fun c => is_ws c = false) s -> trim s = s.
Proof.
  intros H. apply trim_id. split; [by destruct H|]. apply Forall_rev in H. by destruct H.
Qed.

Lemma numeric_trim s : is_numeric_literal s = true -> trim s = s.
Proof.
  intros [_ H]%numeric_units. apply Forall_not_ws_trim.
  eapply Forall_impl; [exact H|]. apply num_not_ws.
Qed.

(** ** Parenthesis depth and the top-level splitter *)

Definition depth_after (d : Z) (c : N) : Z :=
  let d1 := if (c =? 40)%N then (d + 1)%Z else d in
  if (c =? 41)%N then (d1 - 1)%Z else d1.

(** Depth after reading [s] from depth [d]; [None] when it goes below zero. *)
Fixpoint pdepth (d : Z) (s : jstr) : option Z :=
  match s with
  | [] => Some d
  | c :: t => if (depth_after d c <? 0)%Z then None else pdepth (depth_after d c) t
  end.

(** [balanced s]: parentheses match and never close before they open. *)
Definition balanced (s : jstr) : Prop := pdepth 0 s = Some 0%Z.

(** Depth after reading [s] when [rest] follows; [None] when [sep] occurs at depth
    0 at a position of [s]. *)
Fixpoint top_scan (sep : jstr) (d : Z) (s rest : jstr) : option Z :=
  match s with
  | [] => Some d
  | c :: t =>
      if (depth_after d c =? 0)%Z && starts_with sep (c :: t ++ rest) then None
      else top_scan sep (depth_after d c) t rest
  end.

Lemma pdepth_app d a b : pdepth d (a ++ b) = (d' ← pdepth d a; pdepth d' b).
Proof.
  revert d. induction a as [|c a IH]; intros d; simpl; [done|].
  destruct (_ <? _)%Z; [done|]. apply IH.
Qed.

Lemma pdepth_shift d e s d' : (0 <= e)%Z -> pdepth d s = Some d' -> pdepth (d + e) s = Some (d' + e)%Z.
Proof.
  intros He. revert d. induction s as [|c s IH]; intros d; simpl; [by intros [= ->]|].
  assert (depth_after (d + e) c = depth_after d c + e)%Z as ->.
  { unfold depth_after. destruct (c =? 40)%N, (c =? 41)%N; lia. }
  destruct (Z.ltb_spec (depth_after d c) 0); [done|]. intros H'.
  rewrite (proj2 (Z.ltb_ge _ _)) by lia. by apply IH.
Qed.

Lemma pdepth_nonneg d s d' : (0 <= d)%Z -> pdepth d s = Some d' -> (0 <= d')%Z.
Proof.
  revert d. induction s as [|c s IH]; intros d Hd; simpl; [by intros [= <-]|].
  destruct (Z.ltb_spec (depth_after d c) 0); [done|]. apply IH. lia.
Qed.

Lemma balanced_app a b : balanced a -> balanced b -> balanced (a ++ b).
Proof. unfold balanced. intros Ha Hb. by rewrite pdepth_app, Ha. Qed.

Lemma balanced_join sep l : balanced sep -> Forall balanced l -> balanced (join sep l).
Proof.
  intros Hs. induction 1 as [|x l Hx Hl IH]; [done|]. destruct l as [|y l]; [done|].
  rewrite join_cons by done. by repeat apply balanced_app.
Qed.

Definition no_parens (s : jstr) : Prop := Forall (fun c => c <> 40%N /\ c <> 41%N) s.

Lemma depth_after_plain d c : c <> 40%N -> c <> 41%N -> depth_after d c = d.
Proof.
  intros H1 H2. unfold depth_after.
  by rewrite (proj2 (N.eqb_neq _ _) H1), (proj2 (N.eqb_neq _ _) H2).
Qed.

Lemma pdepth_no_parens d s : no_parens s -> (0 <= d)%Z -> pdepth d s = Some d.
Proof.
  intros H Hd. induction H as [|c s [H1 H2] _ IH]; simpl; [done|].
  rewrite depth_after_plain by done. by rewrite (proj2 (Z.ltb_ge _ _)).
Qed.

Lemma balanced_wrap s : balanced s -> balanced (js "(" ++ s ++ js ")").
Proof.
  unfold balanced. intros H.
  assert (pdepth 1 s = Some 1%Z) as Hs by (by apply (pdepth_shift 0 1 s 0)).
  change (pdepth 1 (s ++ js ")") = Some 0%Z). by rewrite pdepth_app, Hs.
Qed.

Lemma plain_no_parens s : plain s -> no_parens s.
Proof. intros H. eapply Forall_impl; [exact H|]. unfold plain_unit. intros. lia. Qed.

Lemma num_no_parens s : Forall (fun c => c_num c = true) s -> no_parens s.
Proof. intros H. eapply Forall_impl; [exact H|]. unfold c_num, is_digit. intros. lia. Qed.

Lemma top_scan_app sep d a b rest :
  top_scan sep d (a ++ b) rest = (d' ← top_scan sep d a (b ++ rest); top_scan sep d' b rest).
Proof.
  revert d. induction a as [|c a IH]; intros d; simpl; [done|].
  rewrite <- app_assoc. destruct (_ && _); [done|]. apply IH.
Qed.

(** Above depth 0 nothing splits. *)
Lemma top_scan_deep sep d e s rest d' :
  (0 < e)%Z -> (0 <= d)%Z -> pdepth d s = Some d' -> top_scan sep (d + e) s rest = Some (d' + e)%Z.
Proof.
  intros He. revert d. induction s as [|c s IH]; intros d Hd; simpl; [by intros [= ->]|].
  assert (depth_after (d + e) c = depth_after d c + e)%Z as ->.
  { unfold depth_after. destruct (c =? 40)%N, (c =? 41)%N; lia. }
  destruct (Z.ltb_spec (depth_after d c) 0); [done|]. intros H'.
  rewrite (proj2 (Z.eqb_neq _ _)) by lia. simpl. apply IH; [lia|done].
Qed.

(** Text without parentheses and without the separator, before a unit that is not
    part of the separator. *)
Lemma top_scan_flat sep s x rest :
  no_parens s -> x ∉ sep -> includes sep s = false -> top_scan sep 0 s (x :: rest) = Some 0%Z.
Proof.
  intros Hp Hx Hi. induction Hp as [|c s [H1 H2] Hp IH]; [done|]. cbn [top_scan].
  rewrite depth_after_plain by done. rewrite IH.
  - destruct (starts_with sep (c :: s ++ x :: rest)) eqn:E; [|done].
    exfalso. apply starts_with_spec in E as [t Ht].
    apply not_true_iff_false in Hi. apply Hi, includes_spec. exists [].
    assert (exists t', c :: s = sep ++ t') as [t' ->].
    { clear -Ht Hx. change (c :: s ++ x :: rest) with ((c :: s) ++ x :: rest) in Ht.
      revert Ht. generalize (c :: s) as u. intros u. revert sep Hx.
      induction u as [|a u IH]; intros [|b sep] Hx Ht; simpl in *; [eauto|..|eauto|].
      - simplify_eq. set_solver.
      - simplify_eq. destruct (IH sep) as [t' ->]; [set_solver|done|]. eauto. }
    by exists t'.
  - apply not_true_is_false. intros (a & b & ->)%includes_spec.
    apply not_true_iff_false in Hi. apply Hi, includes_spec. by exists (c :: a), b.
Qed.

Lemma split_top_skip sep k d cur s :
  k <= length s -> split_top_loop sep k d cur s = split_top_loop sep 0 d cur (drop k s).
Proof.
  revert k. induction s as [|c s IH]; intros [|k] Hk; simpl in *; [done|lia|done|]. apply IH. lia.
Qed.

Lemma split_top_segment sep d cur s rest d' :
  top_scan sep d s rest = Some d' ->
  split_top_loop sep 0 d cur (s ++ rest) = split_top_loop sep 0 d' (rev s ++ cur) rest.
Proof.
  revert d cur. induction s as [|c s IH]; intros d cur H; simpl in *; [by simplify_eq|].
  change (if (c =? 41)%N then _ else _) with (depth_after d c).
  destruct (_ && _) eqn:E; [done|]. rewrite IH by done. by rewrite <- app_assoc.
Qed.

Lemma split_top_sep sep cur rest :
  match sep with c :: _ => c <> 40%N /\ c <> 41%N | [] => False end ->
  split_top_loop sep 0 0 cur (sep ++ rest) = trim (rev cur) :: split_top_loop sep 0 0 [] rest.
Proof.
  destruct sep as [|c sep]; [done|]. intros [H1 H2].
  assert (starts_with (c :: sep) ((c :: sep) ++ rest) = true) as Hs by apply starts_with_app.
  simpl app in *. cbn [split_top_loop]. rewrite Hs.
  rewrite (proj2 (N.eqb_neq _ _) H1), (proj2 (N.eqb_neq _ _) H2). cbn [Z.eqb andb].
  f_equal. replace (length (c :: sep) - 1) with (length sep) by (simpl; lia).
  rewrite split_top_skip by (rewrite length_app; lia). by rewrite drop_app_length.
Qed.

(** A part the splitter keeps whole. *)
Definition top_part (sep e : jstr) : Prop :=
  trim e = e /\ e <> [] /\
  forall rest, rest = [] \/ (exists r, rest = sep ++ r) -> top_scan sep 0 e rest = Some 0%Z.

Lemma split_top_join sep l :
  match sep with c :: _ => c <> 40%N /\ c <> 41%N | [] => False end ->
  l <> [] -> Forall (top_part sep) l -> split_top_loop sep 0 0 [] (join sep l) = l.
Proof.
  intros Hsep Hne Hf. induction Hf as [|e l (Ht & He & Hscan) Hf IH]; [done|].
  destruct l as [|e' l].
  - change (join sep [e]) with e. rewrite <- (app_nil_r e) at 1.
    rewrite (split_top_segment sep 0 [] e [] 0) by (apply Hscan; by left).
    simpl. by rewrite app_nil_r, rev_involutive, Ht.
  - rewrite join_cons by done.
    rewrite (split_top_segment sep 0 [] e _ 0) by (apply Hscan; eauto).
    rewrite app_nil_r, split_top_sep by done. rewrite rev_involutive, Ht, IH by done. done.
Qed.

(** ** Reading single conditions *)

(** Steps through an anchored pattern along a text cut into the same chunks. *)
Ltac re_side :=
  first [ assumption | done | apply plain_not_quote; assumption
        | apply rejects_seq_lit; reflexivity | apply rejects_lit; reflexivity
        | apply rejects_end ].

Ltac re_go :=
  repeat first
    [ rewrite m_RSeq | rewrite m_REnd
    | rewrite m_RLit_app | rewrite m_RLit_end
    | rewrite m_RLit_fail by reflexivity
    | rewrite m_group_plus_munch by re_side
    | rewrite m_group_plus_end by re_side ].

Ltac re_start :=
  rewrite match_anchored; unfold time_fn_re, time_range_tail, path_re;
  cbn [RSeqs app].

(** No time pattern matches a text that starts neither with a time function nor
    with a parenthesis. *)
Lemma no_time_condition t :
  forallb (fun f => negb (starts_with f t)) TIME_FUNCS = true ->
  starts_with (js "(") t = false -> tryParseTimeCondition t = None.
Proof.
  intros Hf Hp. unfold tryParseTimeCondition.
  assert (forall l k, m (RSeqs (time_fn_re ++ l)) k (MState [] t []) = None) as Hfn.
  { intros l k. change (RSeqs (time_fn_re ++ l)) with
      (RSeq (RGroup 1 (RAlts (map RLit TIME_FUNCS)))
            (RSeqs ([RLit (jsq "(`"); RGroup 2 (RPlus (RSet (c_not 34)))] ++ l))).
    rewrite m_RSeq, m_RGroup. by apply m_alts_lits_fail. }
  unfold time_range_re, time_cmp_re, time_range_paren_re. rewrite !match_anchored, !Hfn.
  cbn [app RSeqs time_fn_re]. by rewrite m_RSeq, m_RLit_fail.
Qed.

(** [re_none] proves that an anchored pattern does not match. *)
Ltac re_none re := unfold re; re_start; re_go; reflexivity.

Lemma parse_header_exists p :
  plain p -> p <> [] ->
  tryParseRequestCondition (jsq "header(`" ++ p ++ jsq "`) != ``") =
  Ret (Some (ph_condition SHeader p MATCH_EXISTS [])).
Proof.
  intros Hp Hne. set (t := _ ++ p ++ _).
  assert (exists b, match_re header_exists_re t = Some (MState b [] [(1, p)])) as [b Hm].
  { unfold header_exists_re, t. re_start. re_go. eauto. }
  unfold tryParseRequestCondition. by rewrite no_time_condition, Hm.
Qed.

Lemma parse_param_exists p :
  plain p -> p <> [] ->
  tryParseRequestCondition (jsq "param(`" ++ p ++ jsq "`) != nil") =
  Ret (Some (ph_condition SParam p MATCH_EXISTS [])).
Proof.
  intros Hp Hne. set (t := _ ++ p ++ _).
  assert (match_re header_exists_re t = None) as H0 by re_none header_exists_re.
  assert (exists b, match_re param_exists_re t = Some (MState b [] [(1, p)])) as [b Hm].
  { unfold param_exists_re, t. re_start. re_go. eauto. }
  unfold tryParseRequestCondition. by rewrite no_time_condition, H0, Hm.
Qed.

(** The text of a string literal: a quote, units that are neither quote nor back
    slash, a quote. *)
Lemma string_literal_match i v k b t cs x :
  plain v ->
  k (MState (34%N :: rev v ++ 34%N :: b) t ((i, [34%N] ++ v ++ [34%N]) :: cs)) = Some x ->
  m (RGroup i string_literal_re) k (MState b (([34%N] ++ v ++ [34%N]) ++ t) cs) = Some x.
Proof.
  intros Hv Hk. rewrite m_RGroup. cbn [pre post caps].
  unfold string_literal_re. cbn [RSeqs]. rewrite m_RSeq.
  rewrite <- !app_assoc, m_RLit_app, m_RSeq.
  apply m_star_alt with (v := v) (t := [34%N] ++ t).
  - eapply Forall_impl; [exact Hv|]. unfold plain_unit. intros. lia.
  - done.
  - intros k' b' cs'. by rewrite m_RSeq, m_RLit_fail.
  - rewrite m_RLit_app. cbn [pre post caps rev app]. rewrite <- Hk.
    assert (take (length (34%N :: v ++ 34%N :: t) - length t) (34%N :: v ++ 34%N :: t) =
            34%N :: v ++ [34%N]) as ->; [|done].
    replace (34%N :: v ++ 34%N :: t) with ((34%N :: v ++ [34%N]) ++ t) by (simpl; by rewrite <- app_assoc).
    by rewrite length_app, Nat.add_sub, take_app_length.
Qed.

Lemma parse_quoted_plain v : plain v -> parse_quoted ([34%N] ++ v ++ [34%N]) = Ret v.
Proof.
  intros Hv. unfold parse_quoted. rewrite <- plain_stringify by done.
  rewrite json_parse_stringify by by apply plain_units. done.
Qed.

Lemma parse_header_contains p v :
  plain p -> p <> [] -> plain v ->
  tryParseRequestCondition
    (jsq "has(header(`" ++ p ++ jsq "`), " ++ ([34%N] ++ v ++ [34%N]) ++ js ")") =
  Ret (Some (ph_condition SHeader p MATCH_CONTAINS v)).
Proof.
  intros Hp Hne Hv. set (t := _ ++ p ++ _).
  assert (match_re header_exists_re t = None) as H0 by re_none header_exists_re.
  assert (match_re param_exists_re t = None) as H1 by re_none param_exists_re.
  assert (exists b, match_re header_contains_re t =
            Some (MState b [] [(2, [34%N] ++ v ++ [34%N]); (1, p)])) as [b Hm].
  { unfold header_contains_re, t. re_start. re_go. eexists.
    apply string_literal_match; [done|]. re_go. done. }
  unfold tryParseRequestCondition. rewrite no_time_condition, H0, H1, Hm by done.
  transitivity (obind (fun v' => Ret (Some (ph_condition SHeader p MATCH_CONTAINS v')))
                  (parse_quoted ([34%N] ++ v ++ [34%N]))); [done|].
  by rewrite parse_quoted_plain.
Qed.

(** ** Equality conditions *)

Lemma quoted_not_numeric t : is_numeric_literal (34%N :: t) = false.
Proof. unfold is_numeric_literal, NUMERIC_LITERAL_REGEX. rewrite test_anchored. reflexivity. Qed.

Lemma trim_quoted v : trim ([34%N] ++ v ++ [34%N]) = [34%N] ++ v ++ [34%N].
Proof.
  apply trim_id. split; [done|]. simpl. rewrite rev_app_distr. done.
Qed.

(** [parseExprLiteral] inverts [buildExprLiteral] on trimmed plain text. *)
Lemma literal_round v :
  plain v -> trim v = v -> to_string (parseExprLiteral (buildExprLiteral MATCH_EQ v)) = v /\
  parseExprLiteral (buildExprLiteral MATCH_EQ v) <> VNull.
Proof.
  intros Hp Ht. unfold buildExprLiteral. rewrite Ht. cbn [jeqb].
  change (MATCH_EQ =s MATCH_CONTAINS) with false. cbv iota.
  destruct ((v =s js "true") || (v =s js "false")) eqn:Eb.
  { unfold parseExprLiteral. rewrite Ht, Eb. done. }
  destruct (is_numeric_literal v) eqn:En.
  { unfold parseExprLiteral. rewrite Ht, Eb. unfold is_numeric_literal in En. by rewrite En. }
  rewrite plain_stringify by done. unfold parseExprLiteral. rewrite trim_quoted.
  pose proof (quoted_not_numeric (v ++ [34%N])) as Hn. unfold is_numeric_literal in Hn.
  simpl app in *. rewrite Hn. cbn [jeqb].
  assert (((34%N :: v ++ [34%N]) =s js "true") = false) as -> by (by apply jeqb_neq).
  assert (((34%N :: v ++ [34%N]) =s js "false") = false) as -> by (by apply jeqb_neq).
  simpl orb. cbv iota.
  change (34%N :: v ++ [34%N]) with ([34%N] ++ v ++ [34%N]). rewrite <- plain_stringify by done.
  rewrite json_parse_stringify by by apply plain_units. done.
Qed.

Lemma plain_num s : Forall (fun c => c_num c = true) s -> plain s.
Proof.
  intros H. eapply Forall_impl; [exact H|]. unfold c_num, plain_unit, is_digit. intros. lia.
Qed.

Lemma build_literal_shape v :
  plain v -> trim v = v ->
  buildExprLiteral MATCH_EQ v = v /\ v <> [] \/
  buildExprLiteral MATCH_EQ v = [34%N] ++ v ++ [34%N].
Proof.
  intros Hp Ht. unfold buildExprLiteral. rewrite Ht.
  change (MATCH_EQ =s MATCH_CONTAINS) with false. cbv iota.
  destruct ((v =s js "true") || (v =s js "false")) eqn:Eb.
  { left. split; [done|]. intros ->. done. }
  destruct (is_numeric_literal v) eqn:En.
  { left. split; [done|]. by apply numeric_units in En as [? _]. }
  right. by apply plain_stringify.
Qed.

Lemma build_literal_dot v :
  plain v -> trim v = v ->
  buildExprLiteral MATCH_EQ v <> [] /\ Forall (fun c => c_dot c = true) (buildExprLiteral MATCH_EQ v).
Proof.
  intros Hp Ht. destruct (build_literal_shape v Hp Ht) as [[-> ?] | ->].
  - split; [done|]. by apply plain_dot.
  - split; [done|]. rewrite !Forall_app. repeat split; try by repeat constructor. by apply plain_dot.
Qed.

Definition source_open (s : PHSource) : jstr :=
  match s with SParam => jsq "param(`" | SHeader => jsq "header(`" end.

Lemma eq_re_match src p lit :
  plain p -> p <> [] -> lit <> [] -> Forall (fun c => c_dot c = true) lit ->
  exists b, match_re eq_re (source_open src ++ p ++ jsq "`) == " ++ lit) =
            Some (MState b [] [(3, lit); (2, p); (1, source_name src)]).
Proof.
  intros Hp Hne Hl Hd. unfold eq_re. re_start.
  assert (source_open src = source_name src ++ jsq "(`") as -> by by destruct src.
  rewrite <- app_assoc, m_RSeq.
  change (RAlts [RLit (js "param"); RLit (js "header")]) with
    (RAlts (map RLit [SOURCE_PARAM; SOURCE_HEADER])).
  assert (exists ws1 ws2, [SOURCE_PARAM; SOURCE_HEADER] = ws1 ++ source_name src :: ws2 /\
    forall t, forallb (fun v => negb (starts_with v (source_name src ++ t))) (ws1 ++ ws2) = true)
    as (ws1 & ws2 & -> & Hw).
  { destruct src; [by exists [], [SOURCE_HEADER]|by exists [SOURCE_PARAM], []]. }
  rewrite m_group_alts by apply Hw. re_go. eauto.
Qed.

Lemma parse_eq src p v :
  plain p -> p <> [] -> plain v -> trim v = v ->
  tryParseRequestCondition (source_open src ++ p ++ jsq "`) == " ++ buildExprLiteral MATCH_EQ v) =
  Ret (Some (ph_condition src p MATCH_EQ v)).
Proof.
  intros Hp Hne Hv Ht. destruct (build_literal_dot v Hv Ht) as [Hl Hd].
  destruct (literal_round v Hv Ht) as [Hr Hnn].
  destruct (eq_re_match src p _ Hp Hne Hl Hd) as [b Hm].
  set (lit := buildExprLiteral MATCH_EQ v) in *. set (t := _ ++ p ++ _) in *.
  assert (tryParseTimeCondition t = None) as Hnt.
  { unfold t. apply no_time_condition; by destruct src. }
  assert (match_re header_exists_re t = None) as H0.
  { unfold t, source_open. destruct src; re_none header_exists_re. }
  assert (match_re param_exists_re t = None) as H1.
  { unfold t, source_open. destruct src; re_none param_exists_re. }
  assert (match_re header_contains_re t = None) as H2.
  { unfold t, source_open. destruct src; re_none header_contains_re. }
  assert (match_re param_contains_re t = None) as H3.
  { unfold t, source_open. destruct src; re_none param_contains_re. }
  assert (match_re param_cmp_re t = None) as H4.
  { unfold t, source_open. destruct src; re_none param_cmp_re. }
  unfold tryParseRequestCondition. rewrite Hnt, H0, H1, H2, H3, H4, Hm.
  transitivity (match parseExprLiteral lit with
    | VNull => Ret None
    | pv => Ret (Some (ph_condition (if source_name src =s js "param" then SParam else SHeader)
                         p MATCH_EQ (to_string pv)))
    end); [done|].
  destruct (parseExprLiteral lit); try done; rewrite Hr; by destruct src.
Qed.

(** ** Time conditions *)

Lemma time_func_alts f :
  isTimeFunc f = true ->
  exists ws1 ws2, TIME_FUNCS = ws1 ++ f :: ws2 /\
    (forall t, forallb (fun v => negb (starts_with v (f ++ t))) (ws1 ++ ws2) = true) /\
    (forall t, starts_with (js "(") (f ++ t) = false).
Proof.
  unfold isTimeFunc. rewrite existsb_elem. intros (f' & Hin & ->%jeqb_eq).
  unfold TIME_FUNCS in *.
  repeat (apply elem_of_cons in Hin as [-> | Hin]); [..|by apply elem_of_nil in Hin].
  - by exists [], [js "minute"; js "weekday"; js "month"; js "day"].
  - by exists [js "hour"], [js "weekday"; js "month"; js "day"].
  - by exists [js "hour"; js "minute"], [js "month"; js "day"].
  - by exists [js "hour"; js "minute"; js "weekday"], [js "day"].
  - by exists [js "hour"; js "minute"; js "weekday"; js "month"], [].
Qed.

Definition time_range_text (f tz s e : jstr) : jstr :=
  f ++ jsq "(`" ++ tz ++ jsq "`) >= " ++ s ++ js " || " ++ f ++ jsq "(`" ++ tz ++ jsq "`) < " ++ e.

Definition time_cmp_text (f tz op v : jstr) : jstr :=
  f ++ jsq "(`" ++ tz ++ jsq "`) " ++ op ++ js " " ++ v.

Definition time_cond (f tz mode v s e : jstr) : RequestCondition :=
  CTime {| tc_timeFunc := f; tc_timezone := tz; tc_mode := mode; tc_value := v;
           tc_rangeStart := s; tc_rangeEnd := e |}.

Section time.
Context (f tz : jstr) (Hf : isTimeFunc f = true) (Hz : plain tz) (Hzn : tz <> []).

Lemma time_fn_step k b t cs :
  m (RSeq (RGroup 1 (RAlts (map RLit TIME_FUNCS))) k) Some (MState b (f ++ t) cs) =
  m k Some (MState (rev f ++ b) t ((1, f) :: cs)).
Proof.
  destruct (time_func_alts f Hf) as (ws1 & ws2 & -> & Hw & _).
  rewrite m_RSeq. by rewrite m_group_alts by apply Hw.
Qed.

Lemma time_range_match s e :
  s <> [] -> Forall (fun c => c_num c = true) s -> e <> [] -> Forall (fun c => c_num c = true) e ->
  exists b, match_re time_range_re (time_range_text f tz s e) =
            Some (MState b [] [(4, e); (3, s); (2, tz); (1, f)]).
Proof.
  intros Hs Fs He Fe. unfold time_range_re, time_range_text. re_start.
  rewrite time_fn_step. re_go. rewrite m_RBack_app by done. re_go.
  rewrite m_RBack_app by done. re_go. eauto.
Qed.

Lemma time_range_paren_match s e :
  s <> [] -> Forall (fun c => c_num c = true) s -> e <> [] -> Forall (fun c => c_num c = true) e ->
  exists b, match_re time_range_paren_re (js "(" ++ time_range_text f tz s e ++ js ")") =
            Some (MState b [] [(4, e); (3, s); (2, tz); (1, f)]).
Proof.
  intros Hs Fs He Fe. unfold time_range_paren_re, time_range_text. re_start.
  rewrite m_RSeq, m_RLit_app. rewrite <- !app_assoc.
  rewrite time_fn_step. re_go. rewrite m_RBack_app by done. re_go.
  rewrite m_RBack_app by done. re_go. eauto.
Qed.

Lemma parse_time_range s e :
  is_numeric_literal s = true -> is_numeric_literal e = true ->
  tryParseRequestCondition (time_range_text f tz s e) =
    Ret (Some (time_cond f tz MATCH_RANGE [] s e)) /\
  tryParseRequestCondition (js "(" ++ time_range_text f tz s e ++ js ")") =
    Ret (Some (time_cond f tz MATCH_RANGE [] s e)).
Proof.
  intros [Hs Fs]%numeric_units [He Fe]%numeric_units.
  unfold tryParseRequestCondition, tryParseTimeCondition. split.
  - by destruct (time_range_match s e Hs Fs He Fe) as [b ->].
  - assert (match_re time_range_re (js "(" ++ time_range_text f tz s e ++ js ")") = None) as ->.
    { unfold time_range_re. re_start. rewrite m_RSeq, m_RGroup. by apply m_alts_lits_fail. }
    by destruct (time_range_paren_match s e Hs Fs He Fe) as [b ->].
Qed.

Lemma parse_time_cmp op mode v :
  (op, mode) ∈ [(js "==", MATCH_EQ); (js ">=", MATCH_GTE); (js "<", MATCH_LT)] ->
  is_numeric_literal v = true ->
  tryParseRequestCondition (time_cmp_text f tz op v) =
    Ret (Some (time_cond f tz mode v [] [])).
Proof.
  intros Hop [Hv Fv]%numeric_units. set (t := time_cmp_text f tz op v).
  assert (match_re time_range_re t = None) as H0.
  { unfold t, time_cmp_text. unfold time_range_re. re_start. rewrite time_fn_step.
    repeat (apply elem_of_cons in Hop as [[= -> ->] | Hop]); [..|by apply elem_of_nil in Hop];
      [re_go; done| |re_go; done].
    change (jsq "`) " ++ js ">=" ++ js " " ++ v) with (jsq "`) >= " ++ v). re_go. done. }
  assert (match_re time_range_paren_re t = None) as H1.
  { unfold t, time_cmp_text. unfold time_range_paren_re. re_start. rewrite m_RSeq.
    destruct (time_func_alts f Hf) as (? & ? & _ & _ & Hp). rewrite m_RLit_fail; [done|apply Hp]. }
  assert (exists b, match_re time_cmp_re t = Some (MState b [] [(4, v); (3, op); (2, tz); (1, f)]))
    as [b Hm].
  { unfold t, time_cmp_text, time_cmp_re. re_start. rewrite time_fn_step. re_go.
    unfold time_op_re. change (RAlts [RLit (js "=="); RLit (js ">="); RLit (js "<")]) with
      (RAlts (map RLit [js "=="; js ">="; js "<"])).
    assert (exists ws1 ws2, [js "=="; js ">="; js "<"] = ws1 ++ op :: ws2 /\
      forall u, forallb (fun w => negb (starts_with w (op ++ u))) (ws1 ++ ws2) = true)
      as (ws1 & ws2 & -> & Hw).
    { repeat (apply elem_of_cons in Hop as [[= -> ->] | Hop]); [..|by apply elem_of_nil in Hop].
      - by exists [], [js ">="; js "<"].
      - by exists [js "=="], [js "<"].
      - by exists [js "=="; js ">="], []. }
    rewrite m_group_alts by apply Hw. re_go. eauto. }
  unfold tryParseRequestCondition, tryParseTimeCondition. rewrite H0, H1, Hm.
  clear -Hop. repeat (apply elem_of_cons in Hop as [[= -> ->] | Hop]);
    [done|done|done|by apply elem_of_nil in Hop].
Qed.
End time.

(** ** Parts of a conjunction *)

Definition AND : jstr := js " && ".

(** Depth after [s]; [None] when an ampersand occurs at depth 0. *)
Fixpoint amp_scan (d : Z) (s : jstr) : option Z :=
  match s with
  | [] => Some d
  | c :: t => if (depth_after d c =? 0)%Z && (c =? 38)%N then None else amp_scan (depth_after d c) t
  end.

Lemma amp_scan_app d a b : amp_scan d (a ++ b) = (d' ← amp_scan d a; amp_scan d' b).
Proof.
  revert d. induction a as [|c a IH]; intros d; simpl; [done|]. destruct (_ && _); [done|]. apply IH.
Qed.

Lemma amp_scan_top d s rest d' :
  amp_scan d s = Some d' -> last s <> Some 32%N -> top_scan AND d s rest = Some d'.
Proof.
  revert d. induction s as [|c s IH]; intros d Hs Hl; [done|]. cbn [amp_scan top_scan] in *.
  destruct (_ && (c =? 38)%N) eqn:E; [done|].
  assert ((depth_after d c =? 0)%Z && starts_with AND (c :: s ++ rest) = false) as ->.
  { destruct (depth_after d c =? 0)%Z eqn:Ed; [|done]. cbn [andb] in *.
    destruct (decide (32%N = c)) as [<- | Hc].
    2:{ by apply (starts_with_false_head _ 32%N (js "&& ")). }
    destruct s as [|c' s]; [done|]. cbn [amp_scan] in Hs. apply Z.eqb_eq in Ed.
    destruct (N.eqb_spec c' 38) as [-> | Hc'].
    { rewrite depth_after_plain in Hs by done. rewrite Ed in Hs. done. }
    change AND with (32%N :: js "&& "). cbn [starts_with app]. rewrite N.eqb_refl. cbn [andb].
    by apply (starts_with_false_head _ 38%N (js "& ")). }
  apply IH; [done|]. destruct s as [|c' s]; [done|]. exact Hl.
Qed.

Lemma amp_scan_deep d s : no_parens s -> (0 < d)%Z -> amp_scan d s = Some d.
Proof.
  intros H Hd. induction H as [|c s [H1 H2] _ IH]; simpl; [done|].
  rewrite depth_after_plain by done. by rewrite (proj2 (Z.eqb_neq d 0)) by lia.
Qed.

Lemma amp_scan_none s : no_parens s -> 38%N ∉ s -> amp_scan 0 s = Some 0%Z.
Proof.
  intros H. induction H as [|c s [H1 H2] _ IH]; intros Hn; simpl; [done|].
  apply not_elem_of_cons in Hn as [Hc Hn]. rewrite depth_after_plain by done.
  destruct (N.eqb_spec c 38); [congruence|]. by apply IH.
Qed.

Lemma trim_ends a z :
  match a with c :: _ => is_ws c = false | [] => False end ->
  match rev z with c :: _ => is_ws c = false | [] => False end -> trim (a ++ z) = a ++ z.
Proof.
  intros Ha Hz. apply trim_id. split; [by destruct a|]. rewrite rev_app_distr.
  by destruct (rev z).
Qed.

Lemma last_not_ws e :
  trim e = e -> e <> [] -> last e <> Some 32%N.
Proof.
  intros Ht Hne Hl. destruct (trim_trimmed e) as [_ Hr]. rewrite Ht in Hr.
  apply last_Some in Hl as [l ->]. rewrite rev_app_distr in Hr. done.
Qed.

Lemma amp_top_part e : trim e = e -> e <> [] -> amp_scan 0 e = Some 0%Z -> top_part AND e.
Proof.
  intros Ht Hne Ha. split; [done|]. split; [done|]. intros rest _.
  apply amp_scan_top; [done|]. by apply last_not_ws.
Qed.

(** ** Conditions the editor can read back *)

Definition path_ok (p : jstr) : Prop := plain p /\ p <> [] /\ trim p = p.

Inductive canonical : RequestCondition -> Prop :=
  | can_exists src p :
      path_ok p -> canonical (ph_condition src p MATCH_EXISTS [])
  | can_contains p v :
      path_ok p -> plain v -> trim v = v -> canonical (ph_condition SHeader p MATCH_CONTAINS v)
  | can_eq src p v :
      path_ok p -> plain v -> trim v = v -> includes AND v = false ->
      canonical (ph_condition src p MATCH_EQ v)
  | can_time_cmp f tz mode v :
      isTimeFunc f = true -> plain tz -> tz <> [] ->
      mode ∈ [MATCH_EQ; MATCH_GTE; MATCH_LT] -> is_numeric_literal v = true ->
      canonical (time_cond f tz mode v [] [])
  | can_time_range f tz s e :
      isTimeFunc f = true -> plain tz -> tz <> [] ->
      is_numeric_literal s = true -> is_numeric_literal e = true ->
      canonical (time_cond f tz MATCH_RANGE [] s e).

Lemma build_ph src p mode v :
  path_ok p -> mode ∈ [MATCH_EXISTS; MATCH_CONTAINS; MATCH_EQ] ->
  buildRequestConditionExpr (ph_condition src p mode v) =
  build_param_header {| ph_source := src; ph_path := p; ph_mode := mode; ph_value := v |}.
Proof.
  intros (_ & _ & _) Hm.
  repeat (apply elem_of_cons in Hm as [-> | Hm]); [..|by apply elem_of_nil in Hm]; by destruct src.
Qed.

Lemma source_text src p :
  plain p ->
  match src with
  | SHeader => js "header(" ++ stringify_string p ++ js ")"
  | SParam => js "param(" ++ stringify_string p ++ js ")"
  end = source_open src ++ p ++ jsq "`)".
Proof. intros Hp. rewrite plain_stringify by done. destruct src; simpl; by rewrite <- app_assoc. Qed.

Lemma build_exists src p :
  path_ok p ->
  buildRequestConditionExpr (ph_condition src p MATCH_EXISTS []) =
  source_open src ++ p ++ match src with SHeader => jsq "`) != ``" | SParam => jsq "`) != nil" end.
Proof.
  intros Hp. rewrite build_ph by (done || by left). destruct Hp as (Hp & Hne & Ht).
  unfold build_param_header. cbn [ph_path ph_source ph_mode ph_value]. rewrite Ht, source_text by done.
  rewrite (proj2 (truthy_spec p)) by done. cbn [negb].
  change (MATCH_EXISTS =s MATCH_EXISTS) with true. cbv iota.
  destruct src; by rewrite <- !app_assoc.
Qed.

Lemma build_contains p v :
  path_ok p -> plain v -> trim v = v ->
  buildRequestConditionExpr (ph_condition SHeader p MATCH_CONTAINS v) =
  jsq "has(header(`" ++ p ++ jsq "`), " ++ ([34%N] ++ v ++ [34%N]) ++ js ")".
Proof.
  intros Hp Hv Htv. rewrite build_ph by (done || by right; left). destruct Hp as (Hp & Hne & Ht).
  unfold build_param_header. cbn [ph_path ph_source ph_mode ph_value].
  rewrite Ht, (source_text SHeader) by done.
  rewrite (proj2 (truthy_spec p)) by done. cbn [negb].
  change (MATCH_CONTAINS =s MATCH_EXISTS) with false.
  change (MATCH_CONTAINS =s MATCH_CONTAINS) with true. cbv iota.
  unfold buildExprLiteral. change (MATCH_CONTAINS =s MATCH_CONTAINS) with true. cbv iota.
  rewrite Htv, plain_stringify by done. by rewrite <- !app_assoc.
Qed.

Lemma build_eq src p v :
  path_ok p ->
  buildRequestConditionExpr (ph_condition src p MATCH_EQ v) =
  source_open src ++ p ++ jsq "`) == " ++ buildExprLiteral MATCH_EQ v.
Proof.
  intros Hp. rewrite build_ph by (done || by right; right; left). destruct Hp as (Hp & Hne & Ht).
  unfold build_param_header. cbn [ph_path ph_source ph_mode ph_value].
  rewrite Ht, source_text by done. rewrite (proj2 (truthy_spec p)) by done. cbn [negb].
  change (MATCH_EQ =s MATCH_EXISTS) with false. change (MATCH_EQ =s MATCH_CONTAINS) with false.
  change ((MATCH_EQ =s MATCH_GT) || (MATCH_EQ =s MATCH_GTE) || (MATCH_EQ =s MATCH_LT) ||
          (MATCH_EQ =s MATCH_LTE)) with false. cbv iota.
  destruct src; by rewrite <- !app_assoc.
Qed.

Lemma time_source tz f :
  plain tz -> f ++ js "(" ++ stringify_string tz ++ js ")" = f ++ jsq "(`" ++ tz ++ jsq "`)".
Proof. intros Hz. rewrite plain_stringify by done. by rewrite <- !app_assoc. Qed.

Lemma normalize_time_cond f tz mode v s e :
  isTimeFunc f = true -> tz <> [] ->
  mode ∈ [MATCH_EQ; MATCH_GTE; MATCH_LT; MATCH_RANGE] ->
  normalizeCondition (Some (to_partial (time_cond f tz mode v s e))) = time_cond f tz mode v s e.
Proof.
  intros Hf Hz Hm. unfold normalizeCondition, time_cond, to_partial, normalize_time.
  cbn [default pc_source pc_timeFunc pc_timezone pc_mode pc_value pc_rangeStart pc_rangeEnd
       tc_timeFunc tc_timezone tc_mode tc_value tc_rangeStart tc_rangeEnd from_option id].
  change (SOURCE_TIME =s js "time") with true. cbv iota. rewrite Hf.
  unfold str_or. rewrite (proj2 (truthy_spec tz)) by done. do 2 f_equal.
  repeat (apply elem_of_cons in Hm as [-> | Hm]); [reflexivity..|by apply elem_of_nil in Hm].
Qed.

Lemma build_time_cmp f tz mode v :
  isTimeFunc f = true -> plain tz -> tz <> [] -> mode ∈ [MATCH_EQ; MATCH_GTE; MATCH_LT] ->
  is_numeric_literal v = true ->
  buildRequestConditionExpr (time_cond f tz mode v [] []) = time_cmp_text f tz (time_op mode) v.
Proof.
  intros Hf Hz Hzn Hm Hv. cbn [buildRequestConditionExpr time_cond].
  unfold buildTimeConditionExpr.
  change (CTime _) with (time_cond f tz mode v [] []).
  assert (mode ∈ [MATCH_EQ; MATCH_GTE; MATCH_LT; MATCH_RANGE]) as Hm'
    by (rewrite !elem_of_cons in *; naive_solver).
  rewrite normalize_time_cond by done.
  cbn [time_cond tc_timeFunc tc_timezone tc_mode tc_value].
  rewrite time_source by done. rewrite (numeric_trim v), Hv by done. cbn [negb].
  assert ((mode =s MATCH_RANGE) = false) as ->.
  { repeat (apply elem_of_cons in Hm as [-> | Hm]); [reflexivity..|by apply elem_of_nil in Hm]. }
  unfold time_cmp_text. by rewrite <- !app_assoc.
Qed.

Lemma build_time_range f tz s e :
  isTimeFunc f = true -> plain tz -> tz <> [] ->
  is_numeric_literal s = true -> is_numeric_literal e = true ->
  buildRequestConditionExpr (time_cond f tz MATCH_RANGE [] s e) = time_range_text f tz s e.
Proof.
  intros Hf Hz Hzn Hs He. cbn [buildRequestConditionExpr time_cond].
  unfold buildTimeConditionExpr.
  change (CTime _) with (time_cond f tz MATCH_RANGE [] s e).
  rewrite normalize_time_cond by (try done; by repeat constructor).
  cbn [time_cond tc_timeFunc tc_timezone tc_mode tc_rangeStart tc_rangeEnd].
  rewrite time_source by done. rewrite (numeric_trim s), (numeric_trim e), Hs, He by done.
  change (MATCH_RANGE =s MATCH_RANGE) with true. cbn [negb orb]. cbv iota.
  unfold time_range_text. by rewrite <- !app_assoc.
Qed.

(** What the group parser needs of the text of one condition. *)
Definition good_text (c : RequestCondition) (e : jstr) : Prop :=
  tryParseRequestCondition e = Ret (Some c) /\ top_part AND e /\ balanced e.

(** Evaluates the scan of a closed chunk. *)
Ltac scan_closed :=
  match goal with
  | |- context [amp_scan ?d ?s] =>
      let r := eval vm_compute in (amp_scan d s) in
      lazymatch r with Some _ => change (amp_scan d s) with r end
  | |- context [pdepth ?d ?s] =>
      let r := eval vm_compute in (pdepth d s) in
      lazymatch r with Some _ => change (pdepth d s) with r end
  end; cbn [mbind option_bind].

Ltac scan := repeat first
  [ rewrite amp_scan_app | rewrite pdepth_app | scan_closed
  | (rewrite amp_scan_deep by (done || by apply plain_no_parens)); cbn [mbind option_bind]
  | (rewrite pdepth_no_parens by first [done | by apply plain_no_parens | by apply num_no_parens]);
    cbn [mbind option_bind] ].

Lemma num_no_amp s : Forall (fun c => c_num c = true) s -> 38%N ∉ s.
Proof. rewrite Forall_forall. intros H Hin. by specialize (H _ Hin). Qed.

Lemma good_exists src p :
  path_ok p ->
  good_text (ph_condition src p MATCH_EXISTS [])
    (source_open src ++ p ++ match src with SHeader => jsq "`) != ``" | SParam => jsq "`) != nil" end).
Proof.
  intros (Hp & Hne & Ht). split; [destruct src; [by apply parse_param_exists|by apply parse_header_exists]|].
  split.
  - apply amp_top_part.
    + rewrite app_assoc. apply trim_ends; by destruct src.
    + by destruct src.
    + destruct src; simpl source_open; scan;
        change (amp_scan 0 (jsq "param(`")) with (Some 1%Z);
        change (amp_scan 0 (jsq "header(`")) with (Some 1%Z); cbn [mbind option_bind]; scan; done.
  - unfold balanced. destruct src; simpl source_open; scan;
      change (pdepth 0 (jsq "param(`")) with (Some 1%Z);
      change (pdepth 0 (jsq "header(`")) with (Some 1%Z); cbn [mbind option_bind]; scan; done.
Qed.

(** Known depths of the opening chunks. *)
Lemma amp_open src : amp_scan 0 (source_open src) = Some 1%Z.
Proof. by destruct src. Qed.
Lemma pdepth_open src : pdepth 0 (source_open src) = Some 1%Z.
Proof. by destruct src. Qed.

Lemma good_contains p v :
  path_ok p -> plain v ->
  good_text (ph_condition SHeader p MATCH_CONTAINS v)
    (jsq "has(header(`" ++ p ++ jsq "`), " ++ ([34%N] ++ v ++ [34%N]) ++ js ")").
Proof.
  intros (Hp & Hne & Ht) Hv. split; [by apply parse_header_contains|]. split.
  - apply amp_top_part; [|done|].
    + rewrite !app_assoc. by apply trim_ends.
    + scan. change (amp_scan 0 (jsq "has(header(`")) with (Some 2%Z). cbn [mbind option_bind]. scan.
      change (amp_scan 2 (jsq "`), ")) with (Some 1%Z). cbn [mbind option_bind]. scan. done.
  - unfold balanced. scan. change (pdepth 0 (jsq "has(header(`")) with (Some 2%Z).
    cbn [mbind option_bind]. scan. change (pdepth 2 (jsq "`), ")) with (Some 1%Z).
    cbn [mbind option_bind]. scan. done.
Qed.

Lemma build_literal_cases v :
  plain v -> trim v = v ->
  buildExprLiteral MATCH_EQ v = v /\ v <> [] /\ Forall (fun c => is_ws c = false /\ c <> 38%N) v \/
  buildExprLiteral MATCH_EQ v = [34%N] ++ v ++ [34%N].
Proof.
  intros Hp Ht. unfold buildExprLiteral. rewrite Ht.
  change (MATCH_EQ =s MATCH_CONTAINS) with false. cbv iota.
  destruct ((v =s js "true") || (v =s js "false")) eqn:Eb.
  { left. split; [done|].
    apply orb_true_iff in Eb as [->%jeqb_eq | ->%jeqb_eq]; (split; [done|]); by repeat constructor. }
  destruct (is_numeric_literal v) eqn:En.
  { left. split; [done|]. apply numeric_units in En as [? Hn]. split; [done|].
    eapply Forall_impl; [exact Hn|]. intros c Hc. split; [by apply num_not_ws|]. by intros ->. }
  right. by apply plain_stringify.
Qed.

Lemma good_eq src p v :
  path_ok p -> plain v -> trim v = v -> includes AND v = false ->
  good_text (ph_condition src p MATCH_EQ v)
    (source_open src ++ p ++ jsq "`) == " ++ buildExprLiteral MATCH_EQ v).
Proof.
  intros (Hp & Hne & Ht) Hv Htv Hi. split; [by apply parse_eq|].
  destruct (build_literal_cases v Hv Htv) as [(-> & Hvn & Hc) | ->].
  - assert (38%N ∉ v) as Hamp.
    { rewrite Forall_forall in Hc. intros Hin. by destruct (Hc _ Hin). }
    split.
    + apply amp_top_part; [| by destruct src|].
      * rewrite !app_assoc. apply trim_ends; [by destruct src|].
        assert (Forall (fun c => is_ws c = false) (rev v)) as Hr.
        { apply Forall_rev. eapply Forall_impl; [exact Hc|]. by intros c []. }
        destruct (rev v) as [|c l] eqn:E; [|by inversion Hr].
        apply Hvn. by rewrite <- (rev_involutive v), E.
      * scan. rewrite amp_open. cbn [mbind option_bind]. scan.
        change (amp_scan 1 (jsq "`) == ")) with (Some 0%Z). cbn [mbind option_bind].
        by apply amp_scan_none; [apply plain_no_parens|].
    + unfold balanced. scan. rewrite pdepth_open. cbn [mbind option_bind]. scan.
      change (pdepth 1 (jsq "`) == ")) with (Some 0%Z). cbn [mbind option_bind]. by scan.
  - split.
    + split; [|split; [by destruct src|]].
      * rewrite !app_assoc. apply trim_ends; by destruct src.
      * intros rest _.
        replace (source_open src ++ p ++ jsq "`) == " ++ [34%N] ++ v ++ [34%N]) with
          ((source_open src ++ p ++ jsq "`) == `") ++ v ++ [34%N]) by (by rewrite <- !app_assoc).
        rewrite top_scan_app, (amp_scan_top 0 _ _ 0).
        -- cbn [mbind option_bind]. rewrite top_scan_app. change ([34%N] ++ rest) with (34%N :: rest).
           rewrite (top_scan_flat AND v 34%N rest); [done|by apply plain_no_parens| |done].
           vm_compute. intros Hin. repeat (apply elem_of_cons in Hin as [? | Hin]; [done|]).
           by apply elem_of_nil in Hin.
        -- scan. rewrite amp_open. cbn [mbind option_bind]. by scan.
        -- rewrite app_assoc, last_app. done.
    + unfold balanced. scan. rewrite pdepth_open. cbn [mbind option_bind]. scan.
      change (pdepth 1 (jsq "`) == ")) with (Some 0%Z). cbn [mbind option_bind].
      change (pdepth 0 [34%N]) with (Some 0%Z). cbn [mbind option_bind]. by scan.
Qed.

Lemma time_func_plain f : isTimeFunc f = true -> no_parens f /\ 38%N ∉ f /\ 124%N ∉ f /\
  match f with c :: _ => is_ws c = false | [] => False end.
Proof.
  unfold isTimeFunc. rewrite existsb_elem. intros (f' & Hin & ->%jeqb_eq). unfold TIME_FUNCS in Hin.
  assert (forall c w, forallb (fun x => negb (x =? c)%N) w = true -> c ∉ w) as Hnot.
  { intros c w. rewrite forallb_Forall', Forall_forall. intros H Hc. specialize (H c Hc).
    by rewrite N.eqb_refl in H. }
  repeat (apply elem_of_cons in Hin as [-> | Hin]);
    [..|by apply elem_of_nil in Hin]; (split; [by repeat constructor|]);
    repeat split; try by apply Hnot.
Qed.

Lemma rev_num_head v :
  v <> [] -> Forall (fun c => c_num c = true) v ->
  match rev v with c :: _ => is_ws c = false | [] => False end.
Proof.
  intros Hn Hf. apply Forall_rev in Hf. destruct (rev v) as [|c l] eqn:E.
  - apply Hn. by rewrite <- (rev_involutive v), E.
  - apply num_not_ws. by inversion Hf.
Qed.

Lemma amp_scan_balanced d s : (0 < d)%Z -> balanced s -> amp_scan d s = Some d.
Proof.
  intros Hd. assert (forall e e' s, (0 <= e)%Z -> pdepth e s = Some e' ->
    amp_scan (e + d) s = Some (e' + d)%Z) as Hgen.
  { clear s. intros e e' s. revert e. induction s as [|c s IH]; intros e He; simpl; [by intros [= ->]|].
    assert (depth_after (e + d) c = depth_after e c + d)%Z as ->.
    { unfold depth_after. destruct (c =? 40)%N, (c =? 41)%N; lia. }
    destruct (Z.ltb_spec (depth_after e c) 0); [done|]. intros Hs.
    rewrite (proj2 (Z.eqb_neq (depth_after e c + d) 0)) by lia. cbn [andb]. apply IH; [lia|done]. }
  intros Hb. by apply (Hgen 0%Z 0%Z s).
Qed.

Ltac scanr H := scan; rewrite H; cbn [mbind option_bind]; scan.

Section good_time.
Context (f tz : jstr) (Hf : isTimeFunc f = true) (Hz : plain tz) (Hzn : tz <> []).

Lemma amp_time_fn d : amp_scan 0 f = Some 0%Z /\ pdepth 0 f = Some 0%Z /\
  (d = 0%Z -> amp_scan d (jsq "(`") = Some 1%Z /\ pdepth d (jsq "(`") = Some 1%Z).
Proof.
  destruct (time_func_plain f Hf) as (Hn & Ha & _). split; [by apply amp_scan_none|].
  split; [by apply pdepth_no_parens|]. by intros ->.
Qed.

Lemma good_time_cmp mode v :
  mode ∈ [MATCH_EQ; MATCH_GTE; MATCH_LT] -> is_numeric_literal v = true ->
  good_text (time_cond f tz mode v [] []) (time_cmp_text f tz (time_op mode) v).
Proof.
  intros Hm Hv. destruct (numeric_units v Hv) as [Hvn Fv].
  destruct (amp_time_fn 0) as (Ea & Ep & Eo). destruct (Eo eq_refl) as [Ea1 Ep1].
  destruct (time_func_plain f Hf) as (_ & _ & _ & Hhd).
  assert ((time_op mode, mode) ∈ [(js "==", MATCH_EQ); (js ">=", MATCH_GTE); (js "<", MATCH_LT)]) as Hop.
  { repeat (apply elem_of_cons in Hm as [-> | Hm]);
      [by left|by right; left|by right; right; left|by apply elem_of_nil in Hm]. }
  split; [by apply parse_time_cmp|]. unfold time_cmp_text.
  assert (amp_scan 0 (time_op mode) = Some 0%Z /\ pdepth 0 (time_op mode) = Some 0%Z) as [Ho1 Ho2].
  { repeat (apply elem_of_cons in Hm as [-> | Hm]); [done..|by apply elem_of_nil in Hm]. }
  split.
  - apply amp_top_part; [|by destruct f|].
    + rewrite !app_assoc. apply trim_ends; [by destruct f|by apply rev_num_head].
    + scanr Ea. scanr Ho1. by apply amp_scan_none; [apply num_no_parens|apply num_no_amp].
  - unfold balanced. scanr Ep. scanr Ho2. done.
Qed.

Lemma good_time_range s e :
  is_numeric_literal s = true -> is_numeric_literal e = true ->
  good_text (time_cond f tz MATCH_RANGE [] s e) (time_range_text f tz s e) /\
  good_text (time_cond f tz MATCH_RANGE [] s e) (js "(" ++ time_range_text f tz s e ++ js ")").
Proof.
  intros Hs He. destruct (numeric_units s Hs) as [Hsn Fs], (numeric_units e He) as [Hen Fe].
  destruct (amp_time_fn 0) as (Ea & Ep & _).
  destruct (time_func_plain f Hf) as (_ & _ & _ & Hhd).
  destruct (parse_time_range f tz Hf Hz Hzn s e Hs He) as [P1 P2].
  assert (amp_scan 0 s = Some 0%Z) as As by by apply amp_scan_none; [apply num_no_parens|apply num_no_amp].
  assert (amp_scan 0 e = Some 0%Z) as Ae by by apply amp_scan_none; [apply num_no_parens|apply num_no_amp].
  assert (balanced (time_range_text f tz s e)) as Hb.
  { unfold balanced, time_range_text. scanr Ep. scanr Ep. done. }
  split; (split; [done|]); split; try done.
  - apply amp_top_part; unfold time_range_text; [|by destruct f|].
    + rewrite !app_assoc. apply trim_ends; [by destruct f|by apply rev_num_head].
    + scanr Ea. scanr As. scanr Ea. scanr Ae. done.
  - apply amp_top_part; [|done|].
    + rewrite app_assoc. by apply trim_ends.
    + assert (amp_scan 1 (time_range_text f tz s e) = Some 1%Z) as Hd.
      { apply amp_scan_balanced; [lia|done]. }
      scanr Hd. done.
  - by apply balanced_wrap.
Qed.
End good_time.

(** The editor's text of a canonical condition, parenthesised or not as
    [buildRuleGroupFactor] decides. *)
Definition wrap_or (e : jstr) : jstr :=
  if includes (js " || ") e then js "(" ++ e ++ js ")" else e.

Lemma no_bar_wrap e : 124%N ∉ e -> wrap_or e = e.
Proof.
  intros H. unfold wrap_or. rewrite (includes_missing _ _ 124%N); [done| |done].
  right. left.
Qed.

Lemma not_in_plain_app a b (x : N) : x ∉ a -> x ∉ b -> x ∉ a ++ b.
Proof. rewrite elem_of_app. tauto. Qed.

Ltac no_bar := repeat first
  [ apply not_in_plain_app | (apply plain_missing; [assumption|reflexivity])
  | (apply closed_missing; reflexivity) ].

Lemma canonical_built c :
  canonical c ->
  good_text c (buildRequestConditionExpr c) /\ good_text c (wrap_or (buildRequestConditionExpr c)).
Proof.
  destruct 1 as [src p Hp|p v Hp Hv Ht|src p v Hp Hv Ht Hi|f tz mode v Hf Hz Hzn Hm Hv|f tz s e Hf Hz Hzn Hs He].
  - rewrite build_exists by done. pose proof (good_exists src p Hp) as G.
    rewrite no_bar_wrap; [done|]. destruct Hp as (Hp & _ & _). destruct src; cbn [source_open]; no_bar.
  - rewrite build_contains by done. pose proof (good_contains p v Hp Hv) as G.
    rewrite no_bar_wrap; [done|]. destruct Hp as (Hp & _ & _). no_bar.
  - rewrite build_eq by done. pose proof (good_eq src p v Hp Hv Ht Hi) as G.
    rewrite no_bar_wrap; [done|]. destruct Hp as (Hp & _ & _).
    destruct (build_literal_shape v Hv Ht) as [[-> _] | ->]; destruct src; cbn [source_open]; no_bar.
  - rewrite build_time_cmp by done. pose proof (good_time_cmp f tz Hf Hz Hzn mode v Hm Hv) as G.
    rewrite no_bar_wrap; [done|]. unfold time_cmp_text.
    destruct (time_func_plain f Hf) as (_ & _ & Hbar & _).
    destruct (numeric_units v Hv) as [_ Fv]. apply plain_num in Fv.
    assert (124%N ∉ time_op mode) as Ho.
    { repeat (apply elem_of_cons in Hm as [-> | Hm]); [by apply closed_missing..|by apply elem_of_nil in Hm]. }
    repeat (apply not_in_plain_app; [try done; no_bar|]). no_bar.
  - rewrite build_time_range by done.
    destruct (good_time_range f tz Hf Hz Hzn s e Hs He) as [G1 G2]. split; [done|].
    unfold wrap_or. rewrite (proj2 (includes_spec _ _)); [done|].
    exists (f ++ jsq "(`" ++ tz ++ jsq "`) >= " ++ s). eexists.
    unfold time_range_text. by rewrite <- !app_assoc.
Qed.
