(* ===== verification/BillingRoundTrip.v ===== *)
(** * Request rules: round trips of the pricing editor

    Theorems about [tryParseRequestRuleExpr], [buildRequestRuleExpr],
    [combineBillingExpr] and [splitBillingExprAndRequestRules] of
    [features/pricing/lib/billing-expr.ts], on top of the condition lemmas of
    [BillingFacts]. *)

From S2P Require Import Prelude JsString JsRegex JsNumber Json BillingExpr BillingFacts.

(** ** One rule group *)

(** A group whose conditions and multiplier are in the form the editor keeps. *)
Definition canonical_group (g : RequestRuleGroup) : Prop :=
  rg_conditions g <> [] /\ Forall canonical (rg_conditions g) /\
  is_numeric_literal (rg_multiplier g) = true.

(** The text between the parenthesis and the question mark. *)
Definition group_text (cs : list RequestCondition) : jstr :=
  match cs with
  | [c] => buildRequestConditionExpr c
  | _ => join (js " && ") (map (fun c => wrap_or (buildRequestConditionExpr c)) cs)
  end.

Lemma canonical_truthy c : canonical c -> truthy (buildRequestConditionExpr c) = true.
Proof. intros [(_ & (_ & Hne & _) & _) _]%canonical_built. by apply truthy_spec. Qed.

Lemma build_group g :
  canonical_group g ->
  buildRuleGroupFactor g =
    js "(" ++ group_text (rg_conditions g) ++ js " ? " ++ rg_multiplier g ++ js " : 1)".
Proof.
  destruct g as [cs mult]. intros (Hne & Hcs & Hm). cbn [rg_conditions rg_multiplier] in *.
  unfold buildRuleGroupFactor. cbn [rg_conditions rg_multiplier].
  rewrite (numeric_trim mult) by done. rewrite Hm. cbn [negb].
  rewrite bfilter_id.
  - destruct cs as [|c [|c' cs]]; [done|done|].
    cbn [map]. unfold group_text, wrap_or. cbn [map]. by rewrite map_map.
  - apply Forall_map. eapply Forall_impl; [exact Hcs|]. apply canonical_truthy.
Qed.

(** The texts the conditions are read back from. *)
Definition cond_texts (cs : list RequestCondition) : list jstr :=
  match cs with
  | [c] => [buildRequestConditionExpr c]
  | _ => map (fun c => wrap_or (buildRequestConditionExpr c)) cs
  end.

Lemma group_text_join cs : group_text cs = join AND (cond_texts cs).
Proof. by destruct cs as [|c [|c' cs]]. Qed.

Lemma cond_texts_good cs :
  Forall canonical cs -> Forall2 good_text cs (cond_texts cs).
Proof.
  intros H. destruct cs as [|c [|c' cs]]; unfold cond_texts.
  - constructor.
  - inversion H. constructor; [by apply canonical_built|constructor].
  - apply Forall2_fmap_r, Forall_Forall2_diag. eapply Forall_impl; [exact H|].
    intros x Hx. by apply canonical_built.
Qed.

Lemma good_parts cs ts : Forall2 good_text cs ts -> Forall (top_part AND) ts /\ Forall balanced ts.
Proof.
  induction 1 as [|c t cs ts (_ & H1 & H2) _ [IH1 IH2]]; [done|]. by split; apply Forall_cons.
Qed.

Lemma parse_conditions_texts cs ts :
  Forall2 good_text cs ts -> parse_conditions ts = Ret (Some cs).
Proof.
  induction 1 as [|c t cs ts (Hp & (Ht & _) & _) _ IH]; [done|].
  cbn [parse_conditions]. rewrite Ht, Hp. cbn [obind]. by rewrite IH.
Qed.

Lemma split_and_texts ts :
  ts <> [] -> Forall (top_part AND) ts -> splitTopLevelAnd (join AND ts) = ts.
Proof.
  intros Hne Hf. unfold splitTopLevelAnd. change (js " && ") with AND.
  rewrite split_top_join by done. apply bfilter_id. eapply Forall_impl; [exact Hf|].
  intros t (_ & Hn & _). by apply truthy_spec.
Qed.

Lemma cond_texts_nonempty cs : cs <> [] -> cond_texts cs <> [].
Proof. by destruct cs as [|c [|c' cs]]. Qed.

(** The pattern of a group factor reads the condition text up to the last
    question mark, and the multiplier after it. *)
Lemma group_factor_match inner mult :
  inner <> [] -> is_numeric_literal mult = true ->
  exists x, match_re group_factor_re (js "(" ++ inner ++ js " ? " ++ mult ++ js " : 1)") = Some x /\
    cap 1 x = inner /\ cap 2 x = mult.
Proof.
  intros Hi Hm. destruct (numeric_units mult Hm) as [Hmn Fm].
  eexists. split; [|split].
  - unfold group_factor_re. rewrite match_anchored. cbn [RSeqs].
    rewrite m_RSeq, m_RLit_app, m_RSeq.
    apply m_group_plus_last; [done|by apply Forall_true| |].
    + rewrite m_RSeq, m_RLit_app, m_RSeq.
      rewrite m_group_plus_munch; [|done|done|done|by apply rejects_seq_lit].
      rewrite m_RSeq, m_RLit_end, m_REnd. reflexivity.
    + intros u v c Huv Hu. rewrite m_RSeq. apply m_RLit_fail. cbn [post].
      destruct (starts_with (js " ? ") v) eqn:E; [|done].
      apply starts_with_spec in E as [r ->].
      change (32%N :: 63%N :: 32%N :: mult ++ js " : 1)" = u ++ 32%N :: 63%N :: 32%N :: r) in Huv.
      destruct u as [|x [|y u]]; [done| |]; [by simpl in Huv; congruence|].
      apply (f_equal (drop 2)) in Huv. cbn [drop app] in Huv.
      assert (63%N ∉ js " " ++ mult ++ js " : 1)") as Hq.
      { apply not_in_plain_app; [by apply closed_missing|].
        apply not_in_plain_app; [|by apply closed_missing].
        rewrite Forall_forall in Fm. intros Hin. by specialize (Fm _ Hin). }
      destruct Hq. change (js " " ++ mult ++ js " : 1)") with (32%N :: mult ++ js " : 1)").
      rewrite Huv. apply elem_of_app. right. right. left.
  - reflexivity.
  - reflexivity.
Qed.

Lemma group_text_nonempty cs : cs <> [] -> Forall canonical cs -> group_text cs <> [].
Proof.
  intros Hne Hc. destruct cs as [|c cs]; [done|].
  assert (forall c, canonical c -> wrap_or (buildRequestConditionExpr c) <> []) as Hw.
  { intros x [_ (_ & (_ & Hn & _) & _)]%canonical_built. done. }
  inversion Hc as [|? ? Hx Hcs]; subst. destruct cs as [|c' cs].
  - simpl. apply truthy_spec. by apply canonical_truthy.
  - unfold group_text. cbn [map]. rewrite join_cons by done.
    intros H. apply app_eq_nil in H as [H _]. by apply (Hw c).
Qed.

Lemma group_text_balanced cs : Forall canonical cs -> balanced (group_text cs).
Proof.
  intros Hc. rewrite group_text_join. apply balanced_join; [done|].
  by apply (good_parts cs), cond_texts_good.
Qed.

(** The factor of a canonical group is read back. *)
Lemma parse_group g :
  canonical_group g -> tryParseRuleGroupFactor (buildRuleGroupFactor g) = Ret (Some g).
Proof.
  intros Hg. rewrite build_group by done. destruct Hg as (Hne & Hc & Hm).
  destruct (group_factor_match (group_text (rg_conditions g)) (rg_multiplier g)) as (x & Hx & H1 & H2);
    [by apply group_text_nonempty|done|].
  unfold tryParseRuleGroupFactor. rewrite Hx, H1, H2, group_text_join.
  pose proof (cond_texts_good _ Hc) as Hgood. destruct (good_parts _ _ Hgood) as [Hp _].
  rewrite split_and_texts by (done || by apply cond_texts_nonempty).
  rewrite (parse_conditions_texts (rg_conditions g)) by done. cbn [obind].
  destruct g as [[|c cs] mult]; done.
Qed.

(** A parenthesised balanced text is one top-level factor. *)
Lemma wrapped_part sep s :
  balanced s -> match sep with c :: _ => is_ws c = true | [] => False end ->
  top_part sep (js "(" ++ s ++ js ")").
Proof.
  intros Hb Hsep. split; [|split; [done|]].
  - rewrite app_assoc. by apply trim_ends.
  - intros rest _. destruct sep as [|w sep]; [done|].
    change (js "(" ++ s ++ js ")") with (js "(" ++ (s ++ js ")")).
    assert (top_scan (w :: sep) 0 (js "(") ((s ++ js ")") ++ rest) = Some 1%Z) as E by done.
    rewrite top_scan_app, E. cbn [mbind option_bind].
    rewrite top_scan_app, (top_scan_deep _ 0 1 s _ 0) by (done || lia).
    cbn [mbind option_bind].
    change ((if true && ((w =? 41)%N && starts_with sep rest) then None else Some 0%Z) = Some 0%Z).
    by destruct (N.eqb_spec w 41) as [-> |].
Qed.

Lemma factor_part inner mult :
  balanced inner -> is_numeric_literal mult = true ->
  top_part (js " * ") (js "(" ++ inner ++ js " ? " ++ mult ++ js " : 1)").
Proof.
  intros Hb Hm. replace (js "(" ++ inner ++ js " ? " ++ mult ++ js " : 1)")
    with (js "(" ++ (inner ++ js " ? " ++ mult ++ js " : 1") ++ js ")") by (by rewrite <- !app_assoc).
  apply wrapped_part; [|done]. apply balanced_app; [done|].
  destruct (numeric_units _ Hm) as [_ Fm].
  apply balanced_app; [done|]. apply balanced_app; [|done].
  by apply pdepth_no_parens; [apply num_no_parens|].
Qed.

Lemma group_part g : canonical_group g -> top_part (js " * ") (buildRuleGroupFactor g).
Proof.
  intros Hg. rewrite build_group by done. destruct Hg as (Hne & Hc & Hm).
  apply factor_part; [by apply group_text_balanced|done].
Qed.

Lemma build_rules gs :
  Forall canonical_group gs -> buildRequestRuleExpr gs = join (js " * ") (map buildRuleGroupFactor gs).
Proof.
  intros Hg. unfold buildRequestRuleExpr. rewrite bfilter_id; [done|].
  apply Forall_map. eapply Forall_impl; [exact Hg|].
  intros g (_ & Hn & _)%group_part. by apply truthy_spec.
Qed.

Lemma parse_groups_built gs :
  Forall canonical_group gs -> parse_groups (map buildRuleGroupFactor gs) = Ret (Some gs).
Proof.
  induction 1 as [|g gs Hg _ IH]; [done|]. cbn [map parse_groups].
  rewrite parse_group by done. cbn [obind]. by rewrite IH.
Qed.

Lemma trimmed_between a x z :
  trimmed a -> a <> [] -> trimmed z -> z <> [] -> trimmed (a ++ x ++ z).
Proof.
  intros [Ha _] Hna [_ Hz] Hnz. split; [by destruct a|].
  rewrite !rev_app_distr, <- app_assoc. destruct (rev z) eqn:E; [|done].
  destruct Hnz. by rewrite <- (rev_involutive z), E.
Qed.

Lemma parts_trim sep l : Forall (top_part sep) l -> trim (join sep l) = join sep l.
Proof.
  intros H. apply trim_id.
  enough (trimmed (join sep l) /\ (l <> [] -> join sep l <> [])) by tauto.
  induction H as [|e l (Ht & Hn & _) _ [IH1 IH2]]; [by split|].
  assert (trimmed e) as He by (rewrite <- Ht; apply trim_trimmed).
  destruct l as [|e' l]; [by split|]. rewrite join_cons by done. split.
  - apply trimmed_between; auto.
  - intros _ [? _]%app_eq_nil. done.
Qed.

Lemma rules_nonempty gs :
  Forall canonical_group gs -> gs <> [] -> buildRequestRuleExpr gs <> [].
Proof.
  intros Hg Hne. rewrite build_rules by done. intros H.
  apply join_nil_inv in H; [by destruct gs|]. apply Forall_map.
  eapply Forall_impl; [exact Hg|]. by intros g (_ & Hn & _)%group_part.
Qed.

Lemma group_parts gs :
  Forall canonical_group gs -> Forall (top_part (js " * ")) (map buildRuleGroupFactor gs).
Proof. intros Hg. apply Forall_map. eapply Forall_impl; [exact Hg|]. apply group_part. Qed.

Lemma split_multiply_parts l :
  l <> [] -> Forall (top_part (js " * ")) l -> splitTopLevelMultiply (join (js " * ") l) = l.
Proof.
  intros Hne Hf. unfold splitTopLevelMultiply. rewrite split_top_join by done.
  apply bfilter_id. eapply Forall_impl; [exact Hf|]. intros t (_ & Hn & _). by apply truthy_spec.
Qed.

Lemma rule_expr_parse gs :
  Forall canonical_group gs -> tryParseRequestRuleExpr (buildRequestRuleExpr gs) = Ret (Some gs).
Proof.
  intros Hg. destruct gs as [|g gs]; [done|].
  pose proof (rules_nonempty _ Hg ltac:(done)) as Hne.
  unfold tryParseRequestRuleExpr. pose proof (group_parts _ Hg) as Hp.
  rewrite build_rules in * by done. rewrite parts_trim by done.
  rewrite (proj2 (truthy_spec _) Hne). cbn [negb].
  rewrite split_multiply_parts by done. by apply parse_groups_built.
Qed.

(** ** Conditions the editor cannot read back *)

Definition cmp_modes : list jstr := [MATCH_GT; MATCH_GTE; MATCH_LT; MATCH_LTE].

Lemma build_param_cmp p mode v :
  path_ok p -> mode ∈ cmp_modes -> is_numeric_literal v = true ->
  buildRequestConditionExpr (ph_condition SParam p mode v) =
  (jsq "param(`" ++ p ++ jsq "`) != nil") ++ AND ++
  (jsq "param(`" ++ p ++ jsq "`) " ++ param_op mode ++ js " " ++ v).
Proof.
  intros (Hp & Hne & Ht) Hm Hv.
  assert (buildRequestConditionExpr (ph_condition SParam p mode v) =
          build_param_header {| ph_source := SParam; ph_path := p; ph_mode := mode; ph_value := v |}) as ->.
  { unfold cmp_modes in Hm.
    repeat (apply elem_of_cons in Hm as [-> | Hm]); [done..|by apply elem_of_nil in Hm]. }
  unfold build_param_header. cbn [ph_path ph_source ph_mode ph_value].
  rewrite Ht, (proj2 (truthy_spec p) Hne), (numeric_trim v), Hv by done. cbn [negb].
  rewrite plain_stringify by done.
  assert ((mode =s MATCH_EXISTS) = false /\ (mode =s MATCH_CONTAINS) = false /\
          ((mode =s MATCH_GT) || (mode =s MATCH_GTE) || (mode =s MATCH_LT) || (mode =s MATCH_LTE)) = true)
    as (-> & -> & ->).
  { unfold cmp_modes in Hm.
    repeat (apply elem_of_cons in Hm as [-> | Hm]); [done..|by apply elem_of_nil in Hm]. }
  cbv iota. by rewrite <- !app_assoc.
Qed.

(** The second half of a comparison is not a condition on its own. *)
Lemma parse_bare_cmp p mode v :
  path_ok p -> mode ∈ cmp_modes ->
  tryParseRequestCondition (jsq "param(`" ++ p ++ jsq "`) " ++ param_op mode ++ js " " ++ v) = Ret None.
Proof.
  intros (Hp & Hne & Ht) Hm.
  assert (exists op, param_op mode = op /\ op ∈ [js ">"; js ">="; js "<"; js "<="]) as (op & -> & Hop).
  { eexists. split; [done|]. unfold cmp_modes in Hm.
    repeat (apply elem_of_cons in Hm as [-> | Hm]); [..|by apply elem_of_nil in Hm];
      [left|right; left|right; right; left|right; right; right; left]. }
  unfold tryParseRequestCondition.
  repeat (apply elem_of_cons in Hop as [-> | Hop]); [..|by apply elem_of_nil in Hop];
    rewrite no_time_condition by done;
    repeat match goal with
    | |- context [match_re ?re ?t] =>
        assert (match_re re t = None) as -> by first
          [ re_none header_exists_re | re_none param_exists_re | re_none header_contains_re
          | re_none param_contains_re | re_none param_cmp_re
          | unfold eq_re; re_start; rewrite m_RSeq;
            change (RAlts [RLit (js "param"); RLit (js "header")]) with
              (RAlts (map RLit ([] ++ SOURCE_PARAM :: [SOURCE_HEADER])));
            change (jsq "param(`") with (SOURCE_PARAM ++ jsq "(`");
            rewrite <- app_assoc, m_group_alts by done; re_go; reflexivity ];
        cbn [mbind option_bind]
    end; done.
Qed.

Lemma part_exists p :
  path_ok p -> good_text (ph_condition SParam p MATCH_EXISTS []) (jsq "param(`" ++ p ++ jsq "`) != nil").
Proof. intros Hp. exact (good_exists SParam p Hp). Qed.

Lemma part_bare_cmp p mode v :
  path_ok p -> mode ∈ cmp_modes -> is_numeric_literal v = true ->
  top_part AND (jsq "param(`" ++ p ++ jsq "`) " ++ param_op mode ++ js " " ++ v) /\
  balanced (jsq "param(`" ++ p ++ jsq "`) " ++ param_op mode ++ js " " ++ v).
Proof.
  intros (Hp & Hne & Ht) Hm Hv. destruct (numeric_units v Hv) as [Hvn Fv].
  split; [apply amp_top_part; [|done|]|].
  - rewrite !app_assoc. apply trim_ends; [done|]. by apply rev_num_head.
  - assert (amp_scan 0 (param_op mode) = Some 0%Z) as Ho.
    { unfold cmp_modes in Hm.
      repeat (apply elem_of_cons in Hm as [-> | Hm]); [done..|by apply elem_of_nil in Hm]. }
    scan. change (amp_scan 0 (jsq "param(`")) with (Some 1%Z). cbn [mbind option_bind]. scan.
    scanr Ho. by apply amp_scan_none; [apply num_no_parens|apply num_no_amp].
  - assert (pdepth 0 (param_op mode) = Some 0%Z) as Ho.
    { unfold cmp_modes in Hm.
      repeat (apply elem_of_cons in Hm as [-> | Hm]); [done..|by apply elem_of_nil in Hm]. }
    unfold balanced. scan. change (pdepth 0 (jsq "param(`")) with (Some 1%Z).
    cbn [mbind option_bind]. scan. scanr Ho. done.
Qed.

(** A text that is one factor is parsed by the group parser alone. *)
Lemma parse_one_factor e :
  top_part (js " * ") e ->
  tryParseRequestRuleExpr e =
  obind (fun g => Ret ((fun g' => [g']) <$> g)) (tryParseRuleGroupFactor e).
Proof.
  intros He. pose proof He as (Ht & Hn & _). unfold tryParseRequestRuleExpr.
  rewrite Ht, (proj2 (truthy_spec _) Hn). cbn [negb].
  pose proof (split_multiply_parts [e] ltac:(done) ltac:(by apply Forall_singleton)) as Hs.
  cbn [join] in Hs. rewrite Hs. cbn [parse_groups].
  by destruct (tryParseRuleGroupFactor e) as [[g|]|].
Qed.

(** ** Combining and splitting *)

Lemma pdepth_outer d s z :
  (0 <= d)%Z -> z <> [] -> pdepth d s = Some 0%Z ->
  outer_parens_loop (d + 1) (s ++ z) = outer_parens_loop 1 z.
Proof.
  intros Hd Hz. revert d Hd. induction s as [|c s IH]; intros d Hd; cbn [pdepth app].
  { by intros [= ->]. }
  destruct (Z.ltb_spec (depth_after d c) 0); [done|]. intros Hp. cbn [outer_parens_loop].
  assert ((if (c =? 41)%N then (if (c =? 40)%N then (d + 1 + 1)%Z else (d + 1)%Z) - 1
           else if (c =? 40)%N then (d + 1 + 1)%Z else (d + 1)%Z)%Z = depth_after d c + 1)%Z as ->.
  { unfold depth_after. destruct (c =? 40)%N, (c =? 41)%N; lia. }
  rewrite (proj2 (Z.eqb_neq _ 0)) by lia. cbn [andb]. apply IH; [lia|done].
Qed.

Lemma outer_parens_wrapped s : balanced s -> hasFullOuterParens (js "(" ++ s ++ js ")") = true.
Proof.
  intros Hb. unfold hasFullOuterParens.
  assert (ends_with (js ")") (js "(" ++ s ++ js ")") = true) as ->.
  { unfold ends_with. rewrite app_assoc, rev_app_distr. done. }
  change (js "(" ++ s ++ js ")") with (40%N :: s ++ js ")").
  cbn [starts_with N.eqb negb orb outer_parens_loop].
  change (outer_parens_loop (0 + 1) (s ++ js ")") = true).
  rewrite pdepth_outer by done. done.
Qed.

Lemma slice_wrapped s :
  slice 1 (length (js "(" ++ s ++ js ")") - 1) (js "(" ++ s ++ js ")") = s.
Proof.
  change (js "(" ++ s ++ js ")") with (40%N :: s ++ js ")").
  unfold slice. cbn [length]. rewrite length_app. change (length (js ")")) with 1.
  replace (S (length s + 1) - 1 - 1) with (length s) by lia.
  change (drop 1 (40%N :: s ++ js ")")) with (s ++ js ")"). by rewrite take_app_length.
Qed.

(** One pair of parentheses around a text that has none of its own is removed. *)
Lemma unwrap_wrapped base :
  trim base = base -> balanced base -> hasFullOuterParens base = false ->
  unwrapOuterParens (js "(" ++ base ++ js ")") = base.
Proof.
  intros Ht Hb Hn. unfold unwrapOuterParens.
  destruct (wrapped_part (js " * ") base Hb ltac:(done)) as (-> & _ & _).
  destruct (length (js "(" ++ base ++ js ")")) as [|n] eqn:E; [done|].
  cbn [unwrap_loop]. rewrite outer_parens_wrapped, slice_wrapped, Ht by done.
  destruct n; [done|]. cbn [unwrap_loop]. by rewrite Hn.
Qed.

Lemma partition_rules gs :
  Forall canonical_group gs ->
  partition_parts (map buildRuleGroupFactor gs) = Ret (map buildRuleGroupFactor gs, []).
Proof.
  induction 1 as [|g gs Hg _ IH]; [done|]. cbn [map partition_parts].
  assert (is_rule_part (buildRuleGroupFactor g) = Ret true) as ->.
  { unfold is_rule_part.
    assert (buildRuleGroupFactor g = buildRequestRuleExpr [g]) as ->
      by by rewrite build_rules by by constructor.
    by rewrite rule_expr_parse by by constructor. }
  cbn [obind]. by rewrite IH.
Qed.

(** ** Theorems *)

(** Canonical groups used in the witnesses. *)
Definition ex_groups : list RequestRuleGroup :=
  [{| rg_conditions := [ex_header; ex_range]; rg_multiplier := js "0.5" |};
   {| rg_conditions := [ph_condition SParam (js "stream") MATCH_EXISTS []]; rg_multiplier := js "1.2" |}].

Lemma ex_groups_canonical : Forall canonical_group ex_groups.
Proof.
  assert (forall p, forallb plain_unit p && truthy p && (trim p =s p) = true -> path_ok p) as Hpath.
  { intros p ((Hp & Hn)%andb_true_iff & Ht)%andb_true_iff.
    split; [by apply forallb_Forall'|]. split; [by apply truthy_spec|by apply jeqb_eq]. }
  assert (forall p, forallb plain_unit p = true -> plain p) as Hpl by (intros; by apply forallb_Forall').
  repeat (apply Forall_cons; split); [..|by apply Forall_nil]; (split; [done|]); (split; [|by vm_compute]).
  - apply Forall_cons; split; [|apply Forall_cons; split; [|by apply Forall_nil]].
    + apply can_eq; [by apply Hpath|by apply Hpl|done|done].
    + apply (can_time_range (js "hour") (js "UTC")); [done|by apply Hpl|done|by vm_compute..].
  - apply Forall_cons; split; [|by apply Forall_nil]. by apply can_exists, Hpath.
Qed.

(** C32. Reading back: the request rules the editor builds from groups in its own
    normal form parse to exactly those groups, for any number of groups and of
    conditions (existence, header contains, equality, time comparison and overnight
    range). *)
Theorem rules_roundtrip gs :
  Forall canonical_group gs -> tryParseRequestRuleExpr (buildRequestRuleExpr gs) = Ret (Some gs).
Proof. apply rule_expr_parse. Qed.

Lemma rules_roundtrip_witness :
  tryParseRequestRuleExpr (buildRequestRuleExpr ex_groups) = Ret (Some ex_groups).
Proof. apply rules_roundtrip. exact ex_groups_canonical. Defined.

(** Splitting undoes combining: a base expression that is trimmed, balanced, not
    itself parenthesised and not readable as a rule comes back from the stored
    expression together with the text of its rules. *)
Theorem split_combine base gs :
  base <> [] -> trim base = base -> balanced base -> hasFullOuterParens base = false ->
  is_rule_part (js "(" ++ base ++ js ")") = Ret false ->
  gs <> [] -> Forall canonical_group gs ->
  splitBillingExprAndRequestRules (combineBillingExpr base (buildRequestRuleExpr gs)) =
  Ret (base, buildRequestRuleExpr gs).
Proof.
  intros Hne Ht Hb Hout Hnr Hgs Hg.
  pose proof (rules_nonempty gs Hg Hgs) as Hrne. rewrite build_rules in * by done.
  pose proof (group_parts gs Hg) as Hparts. set (rs := map buildRuleGroupFactor gs) in *.
  assert (rs <> []) as Hrs by by destruct gs.
  unfold combineBillingExpr. rewrite Ht, parts_trim by done.
  rewrite (proj2 (truthy_spec _) Hne), (proj2 (truthy_spec _) Hrne). cbn [negb].
  replace (js "(" ++ base ++ js ") * " ++ join (js " * ") rs)
    with (join (js " * ") ((js "(" ++ base ++ js ")") :: rs))
    by (rewrite join_cons by done; by rewrite <- !app_assoc).
  assert (Forall (top_part (js " * ")) ((js "(" ++ base ++ js ")") :: rs)) as Hall
    by (apply Forall_cons; split; [by apply wrapped_part|done]).
  unfold splitBillingExprAndRequestRules. rewrite parts_trim, split_multiply_parts by done.
  assert (truthy (join (js " * ") ((js "(" ++ base ++ js ")") :: rs)) = true) as ->
    by (by rewrite join_cons by done).
  cbn [negb length]. assert ((S (length rs) <=? 1)%nat = false) as -> by (by destruct rs).
  cbn [partition_parts]. unfold rs. rewrite Hnr, partition_rules by done. cbn [obind].
  fold rs. destruct rs as [|r rs'] eqn:E; [done|]. by rewrite unwrap_wrapped.
Qed.

Lemma split_combine_witness :
  splitBillingExprAndRequestRules
    (combineBillingExpr (jsq "tier(`base`, p * 2.5 + c * 10)") (buildRequestRuleExpr ex_groups)) =
  Ret (jsq "tier(`base`, p * 2.5 + c * 10)", buildRequestRuleExpr ex_groups).
Proof.
  apply split_combine; [done|by vm_compute..|done|exact ex_groups_canonical].
Defined.

(** A comparison on a request parameter (greater or less than a number), which the
    editor offers and builds, is never read back: the separator inside the generated
    [param(..) != nil && param(..) > v] is taken for one between two conditions, so the
    parser answers [null] for every path, comparison, value and multiplier. *)
Theorem param_comparison_unreadable p mode v mult :
  path_ok p -> mode ∈ cmp_modes -> is_numeric_literal v = true -> is_numeric_literal mult = true ->
  let g := {| rg_conditions := [ph_condition SParam p mode v]; rg_multiplier := mult |} in
  buildRequestRuleExpr [g] <> [] /\
  tryParseRequestRuleExpr (buildRequestRuleExpr [g]) = Ret None.
Proof.
  intros Hp Hm Hv Hmu g.
  set (e1 := jsq "param(`" ++ p ++ jsq "`) != nil").
  set (e2 := jsq "param(`" ++ p ++ jsq "`) " ++ param_op mode ++ js " " ++ v).
  destruct (part_exists p Hp) as (P1 & T1 & B1). fold e1 in P1, T1, B1.
  destruct (part_bare_cmp p mode v Hp Hm Hv) as [T2 B2]. fold e2 in T2, B2.
  assert (buildRequestRuleExpr [g] = js "(" ++ join AND [e1; e2] ++ js " ? " ++ mult ++ js " : 1)") as ->.
  { unfold buildRequestRuleExpr, buildRuleGroupFactor, g. cbn [map rg_multiplier rg_conditions].
    rewrite (numeric_trim mult), Hmu, (build_param_cmp p mode v) by done. done. }
  split; [done|].
  destruct (group_factor_match (join AND [e1; e2]) mult) as (x & Hx & H1 & H2); [done|done|].
  assert (tryParseRuleGroupFactor (js "(" ++ join AND [e1; e2] ++ js " ? " ++ mult ++ js " : 1)") =
          Ret None) as Hfac.
  { unfold tryParseRuleGroupFactor. rewrite Hx, H1, split_and_texts by (done || by apply Forall_cons; split; [|apply Forall_singleton]).
    cbn [parse_conditions]. destruct T1 as (-> & _), T2 as (-> & _). rewrite P1.
    cbn [obind]. unfold e2. by rewrite (parse_bare_cmp p mode v). }
  rewrite parse_one_factor, Hfac; [done|]. apply factor_part; [|done].
  apply balanced_join; [done|]. by apply Forall_cons; split; [|apply Forall_singleton].
Qed.

Lemma param_comparison_unreadable_witness :
  tryParseRequestRuleExpr
    (buildRequestRuleExpr [{| rg_conditions := [ex_param_gt]; rg_multiplier := js "2" |}]) = Ret None.
Proof.
  apply (param_comparison_unreadable (js "size") MATCH_GT (js "10") (js "2"));
    [|by left|by vm_compute..].
  split; [by apply forallb_Forall'|done].
Defined.

(** Reading rules can throw: a quoted operand with an escape JSON does not know is
    handed to [JSON.parse] outside any handler. *)
Theorem rules_parse_can_throw :
  tryParseRequestRuleExpr (jsq "(has(header(`x`), `\q`) ? 2 : 1)") = Throw.
Proof. vm_compute. reflexivity. Qed.

