(* ===== verification/TierExpr.v ===== *)
(** * The tier editor

    [features/pricing/lib/tier-expr.ts]: the visual editor of tiered prices, the billing
    expression it generates, the expressions it can show, and the local estimate of a
    cost.  The fields of a tier come from forms and from [JSON]; a field that is absent
    is [None], any other value is a [jsval]. *)

From S2P Require Import Prelude JsString JsRegex JsNumber Json JsExpr BillingExpr.

Inductive CacheMode := CACHE_MODE_TIMED | CACHE_MODE_GENERIC.

#[export] Instance cache_mode_eq_dec : EqDecision CacheMode.
Proof. solve_decision. Defined.

(** [Some VUndef] or [Some VNull] for a value is [c.value == null]. *)
Record TierConditionInput := { ci_var : jstr; ci_op : jstr; ci_value : jsval }.

(** [Partial<VisualTier>]; a [VisualTier] has every field. *)
Record VisualTier := {
  label : option jstr; conditions : option (list TierConditionInput);
  input_unit_cost : option jsval; output_unit_cost : option jsval; cache_mode : option CacheMode;
  cache_read_unit_cost : option jsval; cache_create_unit_cost : option jsval;
  cache_create_1h_unit_cost : option jsval; image_unit_cost : option jsval;
  image_output_unit_cost : option jsval; audio_input_unit_cost : option jsval;
  audio_output_unit_cost : option jsval }.

Record VisualConfig := { tiers : list VisualTier }.

(** [Number(v) || 0] *)
Definition number_or_zero (v : option jsval) : number := n_or (to_number (default VUndef v)) n_zero.

(** [tier[field]] *)
Definition tier_field (t : VisualTier) (field : jstr) : option jsval :=
  if field =s js "cache_read_unit_cost" then cache_read_unit_cost t
  else if field =s js "cache_create_unit_cost" then cache_create_unit_cost t
  else if field =s js "cache_create_1h_unit_cost" then cache_create_1h_unit_cost t
  else if field =s js "image_unit_cost" then image_unit_cost t
  else if field =s js "image_output_unit_cost" then image_output_unit_cost t
  else if field =s js "audio_input_unit_cost" then audio_input_unit_cost t
  else if field =s js "audio_output_unit_cost" then audio_output_unit_cost t
  else None.

Definition getTierCacheMode (t : VisualTier) : CacheMode :=
  match cache_mode t with
  | Some m => m
  | None => if n_ltb n_zero (to_number (default VUndef (cache_create_1h_unit_cost t)))
            then CACHE_MODE_TIMED else CACHE_MODE_GENERIC
  end.

(** The spread of [tier] comes after the first fields and before the others. *)
Definition normalizeVisualTier (t : VisualTier) : VisualTier :=
  let number v := Some (VNum (number_or_zero v)) in
  {| label := Some (default [] (label t));
     conditions := Some (default [] (conditions t));
     input_unit_cost := match input_unit_cost t with Some v => Some v | None => number None end;
     output_unit_cost := match output_unit_cost t with Some v => Some v | None => number None end;
     cache_mode := Some (getTierCacheMode t);
     cache_read_unit_cost := number (cache_read_unit_cost t);
     cache_create_unit_cost := number (cache_create_unit_cost t);
     cache_create_1h_unit_cost := number (cache_create_1h_unit_cost t);
     image_unit_cost := number (image_unit_cost t);
     image_output_unit_cost := number (image_output_unit_cost t);
     audio_input_unit_cost := number (audio_input_unit_cost t);
     audio_output_unit_cost := number (audio_output_unit_cost t) |}.

Definition empty_tier : VisualTier :=
  {| label := None; conditions := None; input_unit_cost := None; output_unit_cost := None; cache_mode := None;
     cache_read_unit_cost := None; cache_create_unit_cost := None; cache_create_1h_unit_cost := None;
     image_unit_cost := None; image_output_unit_cost := None; audio_input_unit_cost := None;
     audio_output_unit_cost := None |}.

Definition createDefaultVisualConfig : VisualConfig :=
  {| tiers := [normalizeVisualTier
       {| label := Some (js "base"); conditions := Some []; input_unit_cost := Some (VNum n_zero);
          output_unit_cost := Some (VNum n_zero); cache_mode := Some CACHE_MODE_GENERIC;
          cache_read_unit_cost := None; cache_create_unit_cost := None; cache_create_1h_unit_cost := None;
          image_unit_cost := None; image_output_unit_cost := None; audio_input_unit_cost := None;
          audio_output_unit_cost := None |}] |}.

Definition normalizeVisualConfig (config : option VisualConfig) : VisualConfig :=
  match config with
  | Some c => match tiers c with
              | [] => createDefaultVisualConfig
              | ts => {| tiers := map normalizeVisualTier ts |}
              end
  | None => createDefaultVisualConfig
  end.

(** ** Generating *)

(** [c.var && c.op && c.value != null && c.value !== ''] *)
Definition condition_filled (c : TierConditionInput) : bool :=
  truthy (ci_var c) && truthy (ci_op c) &&
  match ci_value c with VUndef | VNull | VStr [] => false | _ => true end.

Definition condition_text (c : TierConditionInput) : jstr :=
  ci_var c ++ js " " ++ ci_op c ++ js " " ++ to_string (ci_value c).

Definition buildConditionStr (cs : option (list TierConditionInput)) : jstr :=
  join (js " && ") (map condition_text (bfilter condition_filled (default [] cs))).

(** [(name, cost)] of the extra prices that are not zero *)
Definition extra_costs (t : VisualTier) : list (jstr * number) :=
  bfilter (fun p => negb (n_eqb (snd p) n_zero))
    (map (fun '(field, exprVar) => (exprVar, number_or_zero (tier_field t field))) BILLING_CACHE_VAR_MAP).

Definition product_text (p : jstr * number) : jstr := fst p ++ js " * " ++ show_num (snd p).

(** The products of a tier. *)
Definition tier_products (t : VisualTier) : list (jstr * number) :=
  (js "p", number_or_zero (input_unit_cost t)) :: (js "c", number_or_zero (output_unit_cost t)) :: extra_costs t.

Definition buildTierBodyExpr (t : VisualTier) : jstr := join (js " + ") (map product_text (tier_products t)).

Definition tier_call (name : jstr) (t : VisualTier) : jstr :=
  jsq "tier(`" ++ name ++ jsq "`, " ++ buildTierBodyExpr t ++ js ")".

(** The loop over several tiers; [i] is the index of the first one left. *)
Fixpoint tier_parts (i : nat) (ts : list VisualTier) : list jstr :=
  match ts with
  | [] => []
  | t :: rest =>
      let body := tier_call (str_or (default [] (label t)) (js "tier_" ++ show_nat (i + 1))) t in
      let cond := buildConditionStr (conditions t) in
      (if negb (bool_decide (rest = [])) && truthy cond then cond ++ js " ? " ++ body else body)
      :: tier_parts (S i) rest
  end.

#[export] Instance tier_list_nil_dec (ts : list VisualTier) : Decision (ts = []).
Proof. destruct ts; [by left|by right]. Defined.

Definition generateExprFromVisualConfig (config : option VisualConfig) : jstr :=
  match config with
  | None => js "p * 0 + c * 0"
  | Some c =>
      match tiers c with
      | [] => js "p * 0 + c * 0"
      | [t] =>
          let body := tier_call (str_or (default [] (label t)) (js "default")) t in
          let cond := buildConditionStr (conditions t) in
          if truthy cond then cond ++ js " ? " ++ body ++ js " : p * 0 + c * 0" else body
      | ts => join (js " : ") (tier_parts 0 ts)
      end
  end.

(** ** Parsing *)

Definition spaces : regex := RStar (RSet c_space).

(** [p\s*\*\s*(...)\s*\+\s*c\s*\*\s*(...)] and an optional group for each extra price,
    with the groups numbered from [i]. *)
Definition optCacheStr (i : nat) : list regex :=
  imap (fun k '(_, v) =>
    ROpt (RSeqs [spaces; RLit (js "+"); spaces; RLit v; spaces; RLit (js "*"); spaces;
                 RGroup (i + k) (RPlus (RSet c_num))])) BILLING_CACHE_VAR_MAP.

Definition bodyPat (i : nat) : list regex :=
  [RLit (js "p"); spaces; RLit (js "*"); spaces; RGroup i (RPlus (RSet c_num)); spaces; RLit (js "+"); spaces;
   RLit (js "c"); spaces; RLit (js "*"); spaces; RGroup (i + 1) (RPlus (RSet c_num))] ++ optCacheStr (i + 2).

(** The pattern of the version: v, digits, a colon, and the body as group 1. *)
Definition version_re : regex :=
  RSeq RStart (RSeqs [RLit (js "v"); RPlus (RSet c_digit); RLit (js ":"); RGroup 1 (RStar (RSet c_any)); REnd]).

Definition singleRe : regex :=
  RSeq RStart (RSeqs ([RLit (jsq "tier(`"); RGroup 1 (RStar (RSet (c_not 34))); RLit (jsq "`,"); spaces] ++
                      bodyPat 2 ++ [RLit (js ")"); REnd])).

Definition visualTierRe : regex :=
  RSeqs ([ROpt (RSeqs [condGroup; spaces; RLit (js "?"); spaces]);
          RLit (jsq "tier(`"); RGroup 2 (RStar (RSet (c_not 34))); RLit (jsq "`,"); spaces] ++
         bodyPat 3 ++ [RLit (js ")")]).

(** The tier of a match: group [i] is the label, the prices follow it. *)
Definition matched_tier (i : nat) (cs : list TierConditionInput) (m : mstate) : VisualTier :=
  let price k := VNum (num_of_string (cap k m)) in
  let extra k := (fun w => VNum (num_of_string w)) <$> cap_get (i + 3 + k) (caps m) in
  normalizeVisualTier
    {| label := Some (cap i m); conditions := Some cs;
       input_unit_cost := Some (price (i + 1)); output_unit_cost := Some (price (i + 2)); cache_mode := None;
       cache_read_unit_cost := extra 0%nat; cache_create_unit_cost := extra 1%nat;
       cache_create_1h_unit_cost := extra 2%nat; image_unit_cost := extra 3%nat;
       image_output_unit_cost := extra 4%nat; audio_input_unit_cost := extra 5%nat;
       audio_output_unit_cost := extra 6%nat |}.

Definition condition_of (c : TierCondition) : TierConditionInput :=
  {| ci_var := tcond_var c; ci_op := tcond_op c; ci_value := VNum (tcond_value c) |}.

Definition parse_visual_match (m : mstate) : VisualTier :=
  let condStr := cap 1 m in
  matched_tier 2
    (if truthy condStr then map condition_of (omap parse_tier_condition (split_and condStr)) else []) m.

(** [replace(/\s+/g, '')] *)
Definition without_spaces (s : jstr) : jstr := bfilter (fun c => negb (is_ws c)) s.

Definition tryParseVisualConfig (exprStr : option jstr) : option VisualConfig :=
  let text := default [] exprStr in
  if negb (truthy text) then None
  else
    let body := match match_re version_re text with Some m => cap 1 m | None => text end in
    match match_re singleRe body with
    | Some simple => Some (normalizeVisualConfig (Some {| tiers := [matched_tier 1 [] simple] |}))
    | None =>
        match map parse_visual_match (matches visualTierRe body) with
        | [] => None
        | ts =>
            let cfg := normalizeVisualConfig (Some {| tiers := ts |}) in
            if negb (without_spaces (generateExprFromVisualConfig (Some cfg)) =s without_spaces body)
            then None else Some cfg
        end
    end.

(** ** Estimating *)

(** [(var, stateKey)] *)
Definition ESTIMATOR_VARS : list (jstr * jstr) :=
  [(js "cr", js "cacheReadTokens"); (js "cc", js "cacheCreateTokens"); (js "cc1h", js "cacheCreate1hTokens");
   (js "img", js "imageTokens"); (js "img_o", js "imageOutputTokens"); (js "ai", js "audioInputTokens");
   (js "ao", js "audioOutputTokens")].

Record EvalResult := { cost : number; matchedTier : jstr; eval_error : option jstr }.

(** [extraTokenValues[key] || 0] *)
Definition extra_tokens (extras : list (jstr * number)) (key : jstr) : number :=
  n_or (default n_nan (prop_get key extras)) n_zero.

(** The variables in scope. *)
Definition estimate_env (promptTokens completionTokens : number) (extras : list (jstr * number))
  : list (jstr * number) :=
  let len := n_add (n_add (n_add promptTokens (extra_tokens extras (js "cacheReadTokens")))
                          (extra_tokens extras (js "cacheCreateTokens")))
                   (extra_tokens extras (js "cacheCreate1hTokens")) in
  [(js "p", promptTokens); (js "c", completionTokens); (js "len", len)] ++
  map (fun '(v, key) => (v, extra_tokens extras key)) ESTIMATOR_VARS.

(** [tierFn], and the functions of [Math] that a generated expression does not call. *)
Definition estimate_call (fn : jstr) (args : list jsval) (matched : jstr) : option (jsval * jstr) :=
  if fn =s js "tier" then
    match args with
    | [VStr name; v] => Some (v, name)
    | _ => None
    end
  else None.

(** [None]: the expression is outside the fragment of [JsExpr], where nothing throws. *)
Definition evalExprLocally (exprStr : jstr) (promptTokens completionTokens : number)
    (extras : list (jstr * number)) : option EvalResult :=
  if negb (truthy exprStr) || negb (truthy (trim exprStr)) then Some {| cost := n_zero; matchedTier := []; eval_error := None |}
  else
    e ← parse_expr exprStr;
    let env := estimate_env promptTokens completionTokens extras in
    '(v, matched) ← eval (fun x => VNum <$> prop_get x env) estimate_call e [];
    Some {| cost := n_or (to_number v) n_zero; matchedTier := matched; eval_error := None |}.

(** [\b(cr|cc|...)\b] *)
Definition extra_vars_re : regex :=
  RSeqs [RWordB; RGroup 1 (RAlts (map (fun p => RLit (fst p)) ESTIMATOR_VARS)); RWordB].

Definition exprUsesExtraVars (exprStr : jstr) : bool :=
  if negb (truthy exprStr) then false else test_re extra_vars_re exprStr.
