(* ===== verification/TierFacts.v ===== *)
(** * The tier editor: evaluating what it generates

    The billing expression of a tier table, run as JavaScript, charges the first tier
    whose conditions hold. *)

From Stdlib Require Import SpecFloat.
From S2P Require Import Prelude JsString JsRegex JsNumber Json JsonText JsExpr BillingExpr TierExpr.

(** ** Reading literals and names *)

Lemma skip_unit c t : is_ws c = false -> skip (c :: t) = c :: t.
Proof. intros H. unfold skip. simpl. by rewrite H. Qed.

Lemma skip_space c t : is_ws c = false -> skip (32%N :: c :: t) = c :: t.
Proof. intros H. unfold skip. simpl. by rewrite H. Qed.

(** The expression a number is printed as. *)
Definition literal (x : number) : expr :=
  if starts_with [45%N] (show_num x) then ENeg (ENum (SFopp x)) else ENum x.

(** Unsigned digits as they are printed: a digit first, no second one after a zero. *)
Definition unsigned (u : jstr) (y : number) : Prop :=
  exists c t, u = c :: t /\ is_digit c = true /\ ((c =? 48)%N && next_is is_digit t = false) /\
    read_decimal u = Some (y, []).

Lemma printed_number x :
  reads_back x = true ->
  exists u y, unsigned u y /\
    ((show_num x = u /\ x = y) \/ (show_num x = 45%N :: u /\ x = SFopp y)).
Proof.
  unfold reads_back. rewrite andb_true_iff. intros [_ H].
  destruct (parse_number (show_num x)) as [[z [|]]|] eqn:E; try done. apply n_same_eq in H as <-.
  unfold parse_number in E.
  destruct (match show_num x with
            | c :: r => if (c =? 45)%N then (true, r) else (false, show_num x)
            | [] => (false, show_num x) end) as [neg u] eqn:En.
  destruct (read_digits u) as [ip s1] eqn:Er.
  match type of E with (if ?b && ?b' then _ else _) = _ => destruct b eqn:Eip; [|done]; destruct b' eqn:Ef; [|done] end.
  cbn [andb] in E. apply bind_Some in E as ([y r] & Hd & E).
  assert (r = [] /\ n_opp neg y = x) as [-> Ex].
  { destruct r as [|d r]; [by injection E|]. destruct ((d =? 101) || (d =? 69))%N; [done|]. by injection E. }
  exists u, y. split.
  - unfold read_digits in Er. destruct u as [|c t]; [injection Er as <- <-; done|]. exists c, t. split; [done|].
    simpl in Er. destruct (is_digit c) eqn:Ec; [|injection Er as <- <-; done]. split; [done|]. split; [|done].
    destruct t as [|d t]; [by rewrite andb_false_r|]. simpl in Er |- *.
    destruct (is_digit d); [|by rewrite andb_false_r]. destruct (span is_digit t) as [a b]. injection Er as <- <-.
    simpl in Eip. apply negb_true_iff in Eip. by rewrite Eip.
  - destruct (show_num x) as [|c w]; [injection En as <- <-; left; by rewrite <- Ex|].
    destruct (c =? 45)%N eqn:Ec.
    + injection En as <- <-. right. apply N.eqb_eq in Ec as ->. by rewrite <- Ex.
    + injection En as <- <-. left. by rewrite <- Ex.
Qed.

Lemma read_unsigned f u y rest :
  unsigned u y -> number_end rest -> parse (S f) LUnary (u ++ rest) = Some (ENum y, rest).
Proof.
  intros (c & t & -> & Hc & Hz & Hd) Hr.
  assert (is_ws c = false /\ (c =? 45)%N = false /\ (c =? 40)%N = false /\ (c =? 34)%N = false) as (W & E1 & E2 & E3).
  { unfold is_digit, is_ws in *. lia. }
  cbn [parse app]. rewrite skip_unit by done. rewrite E1, E2, E3.
  assert ((c =? 48)%N && next_is is_digit (t ++ rest) = false) as ->.
  { destruct t as [|d t]; [|exact Hz]. cbn [app]. destruct rest as [|d rest]; [by rewrite andb_false_r|].
    destruct Hr as (Hr & _). cbn [next_is]. by rewrite Hr, andb_false_r. }
  rewrite Hc. cbn [orb]. change (c :: t ++ rest) with ((c :: t) ++ rest). by rewrite (read_decimal_app _ _ _ Hr Hd).
Qed.

Lemma SFopp_involutive x : SFopp (SFopp x) = x.
Proof. destruct x as [[]|[]| |[]]; done. Qed.

Lemma digit_not_minus c : is_digit c = true -> (45 =? c)%N = false.
Proof. unfold is_digit. lia. Qed.

Lemma read_literal f x rest :
  reads_back x = true -> number_end rest -> 2 <= f ->
  parse f LUnary (show_num x ++ rest) = Some (literal x, rest).
Proof.
  intros Hx Hr Hf. destruct f as [|[|f]]; [lia..|]. destruct (printed_number x Hx) as (u & y & Hu & H). unfold literal.
  destruct H as [[-> ->] | [-> Ex]].
  - assert (starts_with [45%N] u = false) as ->.
    { destruct Hu as (c & t & -> & Hc & _). cbn [starts_with]. by rewrite (digit_not_minus c Hc). }
    by apply read_unsigned.
  - cbn [starts_with]. rewrite N.eqb_refl. cbn [andb app]. cbn [parse].
    change (skip (45%N :: u ++ rest)) with (45%N :: u ++ rest). cbn [N.eqb Pos.eqb].
    assert (next_is (N.eqb 45) (u ++ rest) = false) as ->.
    { destruct Hu as (c & t & -> & Hc & _). cbn [app next_is]. by rewrite (digit_not_minus c Hc). }
    pose proof (read_unsigned f u y rest Hu Hr) as E. cbn [parse] in E. rewrite E. cbn [mbind option_bind].
    by rewrite Ex, SFopp_involutive.
Qed.

(** A name of letters and digits. *)
Definition name_text (w : jstr) : Prop :=
  match w with c :: t => is_letter c = true /\ Forall (fun d => is_name_unit d = true) t | [] => False end.

(** The text goes on with a blank and something other than an opening parenthesis. *)
Definition spaced (rest : jstr) : Prop :=
  exists c t, rest = 32%N :: c :: t /\ is_ws c = false /\ (c =? 40)%N = false.

Lemma letter_unit c : is_letter c = true ->
  is_ws c = false /\ (c =? 45)%N = false /\ (c =? 40)%N = false /\ (c =? 34)%N = false /\ (c =? 48)%N = false /\
  is_digit c || (c =? 46)%N = false.
Proof. unfold is_letter, is_ws, is_digit. lia. Qed.

(** A name, up to what follows it. *)
Lemma read_name f w rest :
  name_text w -> not_head is_name_unit rest ->
  parse (S f) LUnary (w ++ rest) =
  match skip rest with
  | d :: u => if (d =? 40)%N then parse f (LArgs w []) u else Some (EVar w, rest)
  | [] => Some (EVar w, rest)
  end.
Proof.
  destruct w as [|c t]; [done|]. intros [Hc Ht] Hr. destruct (letter_unit c Hc) as (W & E1 & E2 & E3 & E4 & E5).
  cbn [parse app]. rewrite skip_unit by done. rewrite E1, E2, E3, E4, E5. cbn [andb].
  rewrite Hc. change (c :: t ++ rest) with ((c :: t) ++ rest). rewrite span_exact; [done| |].
  - constructor; [by unfold is_name_unit; rewrite Hc|done].
  - by destruct rest.
Qed.

Lemma read_var f w rest : name_text w -> spaced rest -> parse (S f) LUnary (w ++ rest) = Some (EVar w, rest).
Proof.
  intros Hw (c & t & -> & Hc & Hp). rewrite read_name by done. rewrite skip_space by done. by rewrite Hp.
Qed.

(** ** Where a level ends *)

(** The next unit is none of [ops]. *)
Definition no_op (ops : list N) (rest : jstr) : Prop :=
  match skip rest with [] => True | c :: _ => existsb (N.eqb c) ops = false end.

Ltac stop_level H :=
  cbn [parse]; unfold no_op in H; destruct (skip _) as [|c t]; [done|]; cbn [existsb] in H;
  repeat match type of H with _ || _ = false => let E := fresh in apply orb_false_iff in H as [E H]; rewrite ?E end.

Lemma stop_mul f a rest : no_op [42; 47]%N rest -> parse (S f) (LMulRest a) rest = Some (a, rest).
Proof. intros H. by stop_level H. Qed.

Lemma stop_add f a rest : no_op [43; 45]%N rest -> parse (S f) (LAddRest a) rest = Some (a, rest).
Proof. intros H. stop_level H. done. Qed.

Lemma stop_rel f a rest : no_op [60; 62]%N rest -> parse (S f) (LRelRest a) rest = Some (a, rest).
Proof. intros H. stop_level H. cbn [read_rel]. by repeat match goal with E : (_ =? _)%N = false |- _ => rewrite E; clear E end. Qed.

Lemma stop_and f a rest : no_op [38]%N rest -> parse (S f) (LAndRest a) rest = Some (a, rest).
Proof.
  intros H. stop_level H. change (js "&&") with [38; 38]%N. cbn [starts_with].
  assert ((38 =? c)%N = false) as -> by (rewrite N.eqb_sym; done). done.
Qed.

Lemma no_op_sub ops ops' rest : forallb (fun x => existsb (N.eqb x) ops) ops' = true -> no_op ops rest -> no_op ops' rest.
Proof.
  unfold no_op. destruct (skip rest) as [|c t]; [done|]. rewrite !existsb_none, forallb_Forall', Forall_forall.
  intros Hs H x Hx. specialize (Hs x Hx). apply existsb_elem in Hs as (y & Hy & Exy). apply N.eqb_eq in Exy as ->. by apply H.
Qed.

Ltac sub_op H := refine (no_op_sub _ _ _ _ H); reflexivity.

Lemma skip_blank_unit s : skip (32%N :: s) = skip s.
Proof. unfold skip. simpl. by destruct (span is_ws s). Qed.

(** Leading blanks do not matter. *)
Lemma parse_space f l s :
  match l with LCond | LAnd | LRel | LAdd | LMul | LUnary => True | _ => False end ->
  parse f l (32%N :: s) = parse f l s.
Proof.
  revert l. induction f as [|f IH]; intros l Hl; [done|]. destruct l; try done.
  - rewrite !parse_cond. by rewrite IH.
  - rewrite !parse_and. by rewrite IH.
  - rewrite !parse_rel. by rewrite IH.
  - rewrite !parse_add. by rewrite IH.
  - rewrite !parse_mul. by rewrite IH.
  - cbn [parse]. by rewrite skip_blank_unit.
Qed.

(** ** Sums of products *)

Definition product_expr (p : jstr * number) : expr := EBin OMul (EVar (fst p)) (literal (snd p)).

Definition sum_expr (p0 : jstr * number) (ps : list (jstr * number)) : expr :=
  fold_left (fun a p => EBin OAdd a (product_expr p)) ps (product_expr p0).

Definition product_ok (p : jstr * number) : Prop := name_text (fst p) /\ reads_back (snd p) = true.

Lemma read_product f p rest :
  product_ok p -> number_end rest -> no_op [42; 47]%N rest -> 4 <= f ->
  parse f LMul (product_text p ++ rest) = Some (product_expr p, rest).
Proof.
  intros [Hn Hx] Hr Ho Hf. destruct f as [|[|f]]; [lia..|]. unfold product_text. rewrite <- !app_assoc.
  change (js " * " ++ show_num (snd p) ++ rest) with (32%N :: 42%N :: 32%N :: show_num (snd p) ++ rest).
  rewrite parse_mul, (read_var f (fst p)); [|done|by eexists _, _].
  cbn [mbind option_bind]. rewrite (parse_times _ _ _ (32%N :: show_num (snd p) ++ rest)) by done.
  rewrite parse_space, read_literal by (done || lia). cbn [mbind option_bind]. destruct f as [|f]; [lia|]. by apply stop_mul.
Qed.

Lemma product_head p rest : product_ok p ->
  exists c u, product_text p ++ rest = c :: u /\ is_letter c = true.
Proof.
  intros [Hn _]. unfold product_text. destruct p as [[|c w] x]; [done|]. destruct Hn as [Hc _]. by eexists _, _.
Qed.

Lemma read_sum_rest f a ps rest :
  Forall product_ok ps -> number_end rest -> no_op [42; 47; 43; 45]%N rest -> 5 + length ps <= f ->
  parse f (LAddRest a) (concat (map (fun p => js " + " ++ product_text p) ps) ++ rest) =
  Some (fold_left (fun a p => EBin OAdd a (product_expr p)) ps a, rest).
Proof.
  intros Hps Hr Ho. revert f a. induction Hps as [|p ps Hp Hps IH]; intros f a Hf; (destruct f as [|f]; [simpl in Hf; lia|]).
  - apply stop_add. sub_op Ho.
  - cbn [map concat fold_left]. rewrite <- !app_assoc. set (more := concat _ ++ rest) in *.
    rewrite (parse_plus _ _ _ (32%N :: product_text p ++ more)) by done.
    rewrite parse_space by done. simpl in Hf.
    assert (number_end more /\ no_op [42; 47]%N more) as [Hn Hm].
    { unfold more. destruct ps as [|q qs]; [split; [done|sub_op Ho]|done]. }
    rewrite read_product by (done || lia). cbn [mbind option_bind]. unfold more. apply IH. lia.
Qed.

Lemma join_concat sep x l : join sep (x :: l) = x ++ concat (map (fun y => sep ++ y) l).
Proof.
  revert x. induction l as [|y l IH]; intros x; [by rewrite app_nil_r|]. rewrite join_cons, IH by done. cbn [map concat].
  by rewrite <- !app_assoc.
Qed.

Lemma read_sum f p0 ps rest :
  product_ok p0 -> Forall product_ok ps -> number_end rest -> no_op [42; 47; 43; 45]%N rest -> 6 + length ps <= f ->
  parse f LAdd (join (js " + ") (map product_text (p0 :: ps)) ++ rest) = Some (sum_expr p0 ps, rest).
Proof.
  intros H0 Hps Hr Ho Hf. destruct f as [|f]; [lia|]. cbn [map]. rewrite join_concat, map_map, <- app_assoc.
  set (more := concat _ ++ rest). rewrite parse_add. assert (number_end more /\ no_op [42; 47]%N more) as [Hn Hm].
  { unfold more. destruct ps as [|q qs]; [split; [done|sub_op Ho]|done]. }
  rewrite read_product by (done || lia). cbn [mbind option_bind]. apply read_sum_rest; (done || lia).
Qed.

(** A sum on its own, at the level of a conditional. *)
Lemma up_to_cond f s e rest :
  no_op [60; 62; 38; 63]%N rest -> parse f LAdd s = Some (e, rest) -> 1 <= f ->
  parse (3 + f) LCond s = Some (e, rest).
Proof.
  intros Ho H Hf. cbn [Nat.add]. rewrite parse_cond, parse_and, parse_rel, H. cbn [mbind option_bind].
  destruct f as [|f]; [lia|]. rewrite stop_rel by sub_op Ho. cbn [mbind option_bind]. rewrite stop_and by sub_op Ho.
  cbn [mbind option_bind]. unfold no_op in Ho. destruct (skip rest) as [|c t]; [done|]. cbn [existsb] in Ho.
  destruct (c =? 63)%N eqn:E; [|done]. by rewrite !orb_true_r in Ho.
Qed.

Lemma up_to_add f s e rest :
  no_op [42; 47; 43; 45]%N rest -> parse f LUnary s = Some (e, rest) -> 1 <= f ->
  parse (2 + f) LAdd s = Some (e, rest).
Proof.
  intros Ho H Hf. cbn [Nat.add]. rewrite parse_add, parse_mul, H. cbn [mbind option_bind].
  destruct f as [|f]; [lia|]. rewrite stop_mul by sub_op Ho. cbn [mbind option_bind]. apply stop_add. sub_op Ho.
Qed.

(** ** A tier *)

Definition plain_text (w : jstr) : bool := forallb plain_text_unit w.

Definition call_expr (name : jstr) (p0 : jstr * number) (ps : list (jstr * number)) : expr :=
  ECall (js "tier") [EText name; sum_expr p0 ps].

Definition call_text (name body : jstr) : jstr := jsq "tier(`" ++ name ++ jsq "`, " ++ body ++ js ")".

Lemma read_name_literal f name rest :
  plain_text name = true -> parse (S f) LUnary (34%N :: name ++ 34%N :: rest) = Some (EText name, rest).
Proof.
  intros Hn. cbn [parse]. rewrite skip_unit by done. cbn [N.eqb Pos.eqb]. unfold read_text.
  rewrite span_exact; [done| |done]. by apply forallb_Forall'.
Qed.

Lemma read_call f name p0 ps rest :
  plain_text name = true -> product_ok p0 -> Forall product_ok ps -> 12 + length ps <= f ->
  parse f LUnary (call_text name (join (js " + ") (map product_text (p0 :: ps))) ++ rest) =
  Some (call_expr name p0 ps, rest).
Proof.
  intros Hn H0 Hps Hf. set (body := join _ _).
  assert (call_text name body ++ rest =
    js "tier" ++ 40%N :: 34%N :: name ++ 34%N :: 44%N :: 32%N :: body ++ 41%N :: rest) as ->.
  { unfold call_text. by rewrite <- !app_assoc. }
  destruct f as [|[|[|f]]]; [lia..|]. rewrite read_name; [|by repeat constructor|done].
  rewrite skip_unit by done. cbn [N.eqb Pos.eqb]. rewrite parse_args.
  assert (parse (S f) LCond (34%N :: name ++ 34%N :: 44%N :: 32%N :: body ++ 41%N :: rest) =
    Some (EText name, 44%N :: 32%N :: body ++ 41%N :: rest)) as ->.
  { replace (S f) with (3 + (2 + S (f - 5))) by lia. apply up_to_cond; [done| |lia].
    apply up_to_add; [done| |lia]. by apply read_name_literal. }
  cbn [mbind option_bind]. rewrite skip_unit by done. cbn [N.eqb Pos.eqb app].
  rewrite parse_args, parse_space by done.
  assert (parse f LCond (body ++ 41%N :: rest) = Some (sum_expr p0 ps, 41%N :: rest)) as ->.
  { replace f with (3 + (f - 3)) by lia. apply up_to_cond; [done| |lia]. unfold body. apply read_sum; [done..|lia]. }
  cbn [mbind option_bind]. by rewrite skip_unit.
Qed.

(** ** Conditions *)

Definition op_of (op : jstr) : option binop :=
  if op =s js "<" then Some OLt else if op =s js "<=" then Some OLe
  else if op =s js ">" then Some OGt else if op =s js ">=" then Some OGe else None.

(** A condition as the editor offers it. *)
Definition condition_ok (c : TierConditionInput) : Prop :=
  ci_var c ∈ [js "p"; js "c"; js "len"] /\ exists op x, op_of (ci_op c) = Some op /\ ci_value c = VNum x /\
    reads_back x = true.

Definition condition_value (c : TierConditionInput) : number := match ci_value c with VNum x => x | _ => n_nan end.

Definition condition_expr (c : TierConditionInput) : expr :=
  EBin (default OLt (op_of (ci_op c))) (EVar (ci_var c)) (literal (condition_value c)).

Definition and_expr (c0 : TierConditionInput) (cs : list TierConditionInput) : expr :=
  fold_left (fun a c => EBin OAnd a (condition_expr c)) cs (condition_expr c0).

Lemma elem_of_three {A} (x a b c : A) : x ∈ [a; b; c] -> x = a \/ x = b \/ x = c.
Proof. rewrite !elem_of_cons, elem_of_nil. naive_solver. Qed.

Lemma read_op op o s : op_of op = Some o -> read_rel (op ++ 32%N :: s) = Some (o, 32%N :: s) /\ exists c t, op = c :: t /\ is_ws c = false /\
  existsb (N.eqb c) [42; 47; 43; 45]%N = false /\ (c =? 40)%N = false.
Proof.
  unfold op_of, jeqb. repeat case_bool_decide; subst; intros [= <-]; (split; [done|]); by eexists _, _.
Qed.

Lemma read_condition f c rest :
  condition_ok c -> number_end rest -> no_op [42; 47; 43; 45; 60; 62]%N rest -> 8 <= f ->
  parse f LRel (condition_text c ++ rest) = Some (condition_expr c, rest).
Proof.
  intros (Hv & op & x & Hop & Hx & Hb) Hr Ho Hf. unfold condition_text, condition_expr, condition_value. rewrite Hx, Hop.
  cbn [default from_option id to_string]. rewrite <- !app_assoc.
  assert (name_text (ci_var c)) as Hn by (clear -Hv; apply elem_of_three in Hv as [-> | [-> | ->] ]; by repeat constructor).
  destruct (read_op _ _ (show_num x ++ rest) Hop) as (Hrel & d & u & Eop & Hd & Hdo & Hdp).
  change (js " " ++ ci_op c ++ js " " ++ show_num x ++ rest) with (32%N :: ci_op c ++ 32%N :: show_num x ++ rest).
  destruct f as [|f]; [lia|]. rewrite parse_rel. replace f with (2 + S (f - 3)) by lia.
  rewrite (up_to_add _ _ (EVar (ci_var c)) (32%N :: ci_op c ++ 32%N :: show_num x ++ rest)); [| | |lia].
  - cbn [mbind option_bind Nat.add]. rewrite parse_rel_rest. rewrite skip_blank_unit, Eop. cbn [app]. rewrite skip_unit by done.
    change (d :: u ++ 32%N :: show_num x ++ rest) with ((d :: u) ++ 32%N :: show_num x ++ rest). rewrite <- Eop, Hrel.
    rewrite parse_space by done. replace (S (S (f - 3))) with (2 + (f - 3)) by lia.
    rewrite (up_to_add _ _ (literal x) rest); [|sub_op Ho|apply read_literal; (done || lia)|lia].
    cbn [mbind option_bind Nat.add]. apply stop_rel. sub_op Ho.
  - unfold no_op. rewrite skip_blank_unit, Eop. cbn [app]. by rewrite skip_unit.
  - rewrite Eop. apply read_var; [done|]. by eexists _, _.
Qed.

Lemma read_and_rest f a cs rest :
  Forall condition_ok cs -> number_end rest -> no_op [42; 47; 43; 45; 60; 62; 38]%N rest -> 9 + length cs <= f ->
  parse f (LAndRest a) (concat (map (fun c => js " && " ++ condition_text c) cs) ++ rest) =
  Some (fold_left (fun a c => EBin OAnd a (condition_expr c)) cs a, rest).
Proof.
  intros Hcs Hr Ho. revert f a. induction Hcs as [|c cs Hc Hcs IH]; intros f a Hf; (destruct f as [|f]; [simpl in Hf; lia|]).
  - apply stop_and. sub_op Ho.
  - cbn [map concat fold_left]. rewrite <- !app_assoc. set (more := concat _ ++ rest) in *.
    rewrite parse_and_rest.
    change (skip (js " && " ++ condition_text c ++ more)) with (38%N :: 38%N :: 32%N :: condition_text c ++ more).
    change (starts_with (js "&&") (38%N :: 38%N :: 32%N :: condition_text c ++ more)) with true. cbv iota. cbn [drop].
    rewrite parse_space by done. simpl in Hf.
    assert (number_end more /\ no_op [42; 47; 43; 45; 60; 62]%N more) as [Hn Hm].
    { unfold more. destruct cs as [|q qs]; [split; [done|sub_op Ho]|done]. }
    rewrite read_condition by (done || lia). cbn [mbind option_bind]. unfold more. apply IH. lia.
Qed.

Lemma read_conditions f c0 cs rest :
  condition_ok c0 -> Forall condition_ok cs -> number_end rest -> no_op [42; 47; 43; 45; 60; 62; 38]%N rest ->
  10 + length cs <= f ->
  parse f LAnd (join (js " && ") (map condition_text (c0 :: cs)) ++ rest) = Some (and_expr c0 cs, rest).
Proof.
  intros H0 Hcs Hr Ho Hf. destruct f as [|f]; [lia|]. cbn [map]. rewrite join_concat, map_map, <- app_assoc.
  set (more := concat _ ++ rest). rewrite parse_and.
  assert (number_end more /\ no_op [42; 47; 43; 45; 60; 62]%N more) as [Hn Hm].
  { unfold more. destruct cs as [|q qs]; [split; [done|sub_op Ho]|done]. }
  rewrite read_condition by (done || lia). cbn [mbind option_bind]. apply read_and_rest; (done || lia).
Qed.

(** ** A table of tiers *)

Lemma read_tier f name p0 ps rest :
  plain_text name = true -> product_ok p0 -> Forall product_ok ps ->
  no_op [42; 47; 43; 45; 60; 62; 38; 63]%N rest -> 17 + length ps <= f ->
  parse f LCond (call_text name (join (js " + ") (map product_text (p0 :: ps))) ++ rest) =
  Some (call_expr name p0 ps, rest).
Proof.
  intros Hn H0 Hps Ho Hf. replace f with (3 + (2 + (f - 5))) by lia. apply up_to_cond; [sub_op Ho| |lia].
  apply up_to_add; [sub_op Ho| |lia]. apply read_call; (done || lia).
Qed.

Lemma read_choice f c0 cs name p0 ps more e :
  condition_ok c0 -> Forall condition_ok cs -> plain_text name = true -> product_ok p0 -> Forall product_ok ps ->
  10 + length cs <= f -> 17 + length ps <= f -> parse f LCond more = Some (e, []) ->
  parse (S f) LCond (join (js " && ") (map condition_text (c0 :: cs)) ++ js " ? " ++
    call_text name (join (js " + ") (map product_text (p0 :: ps))) ++ js " : " ++ more) =
  Some (ECond (and_expr c0 cs) (call_expr name p0 ps) e, []).
Proof.
  intros H0 Hcs Hn Hp0 Hps Hf1 Hf2 Hm. rewrite parse_cond, read_conditions by done. cbn [mbind option_bind].
  match goal with |- context [skip (js " ? " ++ ?u)] => change (skip (js " ? " ++ u)) with (63%N :: 32%N :: u) end.
  cbn [N.eqb Pos.eqb]. rewrite parse_space, read_tier by done. cbn [mbind option_bind].
  change (skip (js " : " ++ more)) with (58%N :: 32%N :: more). cbn [N.eqb Pos.eqb].
  by rewrite parse_space, Hm by done.
Qed.

(** The conditions the editor writes: the ones that are filled in. *)
Definition filled (t : VisualTier) : list TierConditionInput := bfilter condition_filled (default [] (conditions t)).

(** A tier whose expression can be read back: plain label, printed prices that read back,
    conditions on the offered variables. *)
Definition tier_ok (t : VisualTier) : Prop :=
  plain_text (default [] (label t)) = true /\ Forall (fun p => reads_back (snd p) = true) (tier_products t) /\
  Forall condition_ok (filled t).

(** Only the last tier of a table may be without conditions. *)
Fixpoint table_ok (ts : list VisualTier) : Prop :=
  match ts with
  | [] => False
  | [t] => tier_ok t
  | t :: rest => tier_ok t /\ filled t <> [] /\ table_ok rest
  end.

Definition price_names : list jstr := js "p" :: js "c" :: map snd BILLING_CACHE_VAR_MAP.

Lemma product_names t : Forall (fun p => fst p ∈ price_names) (tier_products t).
Proof.
  repeat constructor; [set_solver..|]. apply Forall_forall. intros p. unfold extra_costs.
  rewrite elem_of_bfilter, list_elem_of_fmap. intros [([field v] & -> & H) _]. simpl.
  do 2 right. apply list_elem_of_fmap. by exists (field, v).
Qed.

Lemma price_name_text v : v ∈ price_names -> name_text v.
Proof.
  assert (Forall name_text price_names) as H.
  { repeat first [apply List.Forall_nil | apply List.Forall_cons]; by repeat constructor. }
  rewrite Forall_forall in H. apply H.
Qed.

Lemma products_ok t : tier_ok t -> Forall product_ok (tier_products t).
Proof.
  intros (_ & Hp & _). pose proof (product_names t) as Hn. induction Hn as [|p ps Hn _ IH]; [constructor|].
  inversion Hp; subst. constructor; [|auto]. split; [by apply price_name_text|done].
Qed.

Lemma extra_costs_few t : length (extra_costs t) <= 7.
Proof. unfold extra_costs. etransitivity; [apply List.filter_length_le|]. by rewrite length_map. Qed.

Lemma length_join {A} (sep : jstr) (f : A -> jstr) x l :
  sep <> [] -> length l <= length (join sep (map f (x :: l))).
Proof.
  intros Hs. cbn [map]. rewrite join_concat, length_app. assert (1 <= length sep) by (destruct sep; [done|simpl; lia]).
  assert (length l <= length (concat (map (fun y => sep ++ y) (map f l)))); [|lia].
  induction l as [|y l IH]; [done|]. cbn [map concat length]. rewrite !length_app. lia.
Qed.

Definition tier_name (i : nat) (t : VisualTier) : jstr := str_or (default [] (label t)) (js "tier_" ++ show_nat (i + 1)).

Definition tier_expr (name : jstr) (t : VisualTier) : expr :=
  call_expr name (js "p", number_or_zero (input_unit_cost t))
    ((js "c", number_or_zero (output_unit_cost t)) :: extra_costs t).

Fixpoint table_expr (i : nat) (ts : list VisualTier) : expr :=
  match ts with
  | [] => EVar []
  | [t] => tier_expr (tier_name i t) t
  | t :: rest =>
      match filled t with
      | c0 :: cs => ECond (and_expr c0 cs) (tier_expr (tier_name i t) t) (table_expr (S i) rest)
      | [] => EVar []
      end
  end.

Lemma condition_str t c0 cs : filled t = c0 :: cs ->
  buildConditionStr (conditions t) = join (js " && ") (map condition_text (c0 :: cs)) /\
  truthy (buildConditionStr (conditions t)) = true.
Proof.
  intros E. unfold buildConditionStr. fold (filled t). rewrite E. split; [done|]. cbn [map]. rewrite join_concat.
  unfold condition_text. rewrite <- !app_assoc. by destruct (ci_var c0).
Qed.

Lemma read_tier_call f name t rest :
  tier_ok t -> plain_text name = true -> no_op [42; 47; 43; 45; 60; 62; 38; 63]%N rest -> 25 <= f ->
  parse f LCond (tier_call name t ++ rest) = Some (tier_expr name t, rest).
Proof.
  intros Hok Hn Ho Hf. pose proof (products_ok t Hok) as Hp. unfold tier_products in Hp. inversion Hp; subst.
  pose proof (extra_costs_few t). apply (read_tier f name _ (_ :: _)); [done..|]. cbn [length]. lia.
Qed.

Lemma read_tier_choice f name t c0 cs more e :
  tier_ok t -> plain_text name = true -> filled t = c0 :: cs -> 25 + length cs <= f ->
  parse f LCond more = Some (e, []) ->
  parse (S f) LCond (buildConditionStr (conditions t) ++ js " ? " ++ tier_call name t ++ js " : " ++ more) =
  Some (ECond (and_expr c0 cs) (tier_expr name t) e, []).
Proof.
  intros Hok Hn Hc Hf Hm. pose proof (products_ok t Hok) as Hp. unfold tier_products in Hp. inversion Hp; subst.
  pose proof (extra_costs_few t). destruct Hok as (_ & _ & Hcs). rewrite Hc in Hcs. inversion Hcs; subst.
  destruct (condition_str t c0 cs Hc) as [-> _]. apply (read_choice f c0 cs name _ (_ :: _)); try done; cbn [length]; lia.
Qed.

Lemma tier_name_plain i t : tier_ok t -> plain_text (tier_name i t) = true.
Proof.
  intros (H & _). unfold tier_name, str_or. destruct (default [] (label t)) eqn:E; [|done]. unfold plain_text.
  change (truthy []) with false. cbv iota. rewrite forallb_app. apply andb_true_iff. split; [done|]. apply forallb_Forall', (Forall_impl _ _ _ (show_N_digits _)).
  intros c Hc. unfold plain_text_unit. unfold is_digit in Hc. lia.
Qed.

Lemma read_table f i ts :
  table_ok ts -> 26 + length (join (js " : ") (tier_parts i ts)) <= f ->
  parse f LCond (join (js " : ") (tier_parts i ts)) = Some (table_expr i ts, []).
Proof.
  revert f i. induction ts as [|t [|t' rest] IH]; intros f i Hok Hf; [done| |].
  - cbn [tier_parts table_expr join]. rewrite bool_decide_true by done. cbn [negb andb].
    rewrite <- (app_nil_r (tier_call _ t)). simpl in Hok. apply read_tier_call; [done|by apply tier_name_plain|done|].
    lia.
  - destruct Hok as (Ht & Hc & Hr). destruct (filled t) as [|c0 cs] eqn:Ef; [done|].
    destruct (condition_str t c0 cs Ef) as [Ec Htr].
    remember (t' :: rest) as ts' eqn:Ets. assert (ts' <> []) as Hne by (by subst).
    assert (tier_parts i (t :: ts') =
      (buildConditionStr (conditions t) ++ js " ? " ++ tier_call (tier_name i t) t) :: tier_parts (S i) ts') as Ep.
    { cbn [tier_parts]. rewrite bool_decide_false by done. by rewrite Htr. }
    rewrite Ep in *. rewrite join_cons in * by (by subst). rewrite <- !app_assoc in *.
    rewrite !length_app in Hf. change (length (js " : ")) with 3 in Hf. destruct f as [|f]; [lia|].
    assert (table_expr i (t :: ts') = ECond (and_expr c0 cs) (tier_expr (tier_name i t) t) (table_expr (S i) ts')) as ->.
    { subst ts'. cbn [table_expr]. by rewrite Ef. }
    assert (length cs <= length (buildConditionStr (conditions t))) by (rewrite Ec; by apply length_join).
    apply read_tier_choice; [done|by apply tier_name_plain|done| |].
    + lia.
    + apply IH; [done|]. lia.
Qed.

(** ** Evaluating a table *)

Section evaluation.
(** The names in scope and their values. *)
Variable env : list (jstr * number).

Definition amount (v : jstr) : number := default n_nan (prop_get v env).

Definition scope (x : jstr) : option jsval := VNum <$> prop_get x env.

Definition in_scope (v : jstr) : Prop := is_Some (prop_get v env).

Definition product_cost (p : jstr * number) : number := n_mul (amount (fst p)) (snd p).

(** The cost of a tier: the sum of its products, from left to right. *)
Definition tier_cost (t : VisualTier) : number :=
  match tier_products t with
  | p0 :: ps => fold_left (fun a p => n_add a (product_cost p)) ps (product_cost p0)
  | [] => n_nan
  end.

Definition compare (op : binop) (x y : number) : bool :=
  match op with
  | OLt => n_ltb x y | OLe => n_leb x y | OGt => n_ltb y x | OGe => n_leb y x | _ => false
  end.

Definition condition_holds (c : TierConditionInput) : bool :=
  compare (default OLt (op_of (ci_op c))) (amount (ci_var c)) (condition_value c).

(** The price table: the first tier whose conditions all hold, else the last one. *)
Fixpoint charge (i : nat) (ts : list VisualTier) : number * jstr :=
  match ts with
  | [] => (n_nan, [])
  | [t] => (tier_cost t, tier_name i t)
  | t :: rest => if forallb condition_holds (filled t) then (tier_cost t, tier_name i t) else charge (S i) rest
  end.

Abbreviation ev := (eval scope estimate_call).

Lemma eval_var v st : in_scope v -> ev (EVar v) st = Some (VNum (amount v), st).
Proof. intros [x Hx]. unfold amount. simpl. unfold scope. by rewrite Hx. Qed.

Lemma eval_literal x st : ev (literal x) st = Some (VNum x, st).
Proof. unfold literal. destruct (starts_with _ _); [|done]. simpl. unfold n_neg. by rewrite SFopp_involutive. Qed.

(** An operator on two numbers. *)
Lemma eval_strict op a b x y st z : op <> OAnd ->
  ev a st = Some (VNum x, st) -> ev b st = Some (VNum y, st) -> js_binop op (VNum x) (VNum y) = Some z ->
  ev (EBin op a b) st = Some (z, st).
Proof. intros Hop Ha Hb Hz. destruct op; try done; cbn [eval]; by rewrite Ha; cbn [mbind option_bind]; rewrite Hb; cbn [mbind option_bind]; rewrite Hz. Qed.

Lemma eval_product p st : in_scope (fst p) -> ev (product_expr p) st = Some (VNum (product_cost p), st).
Proof.
  intros Hv. eapply eval_strict; [done|by apply eval_var|apply eval_literal|done].
Qed.

Lemma eval_sum p0 ps st : in_scope (fst p0) -> Forall (fun p => in_scope (fst p)) ps ->
  ev (sum_expr p0 ps) st = Some (VNum (fold_left (fun a p => n_add a (product_cost p)) ps (product_cost p0)), st).
Proof.
  intros H0 Hps. unfold sum_expr. pose proof (eval_product p0 st H0) as E. revert E.
  generalize (product_expr p0) (product_cost p0). induction Hps as [|p ps Hp Hps IH]; intros e x E; [done|].
  cbn [fold_left]. apply IH. eapply eval_strict; [done|apply E|by apply eval_product|done].
Qed.

Lemma eval_condition c st : condition_ok c -> in_scope (ci_var c) ->
  ev (condition_expr c) st = Some (VBool (condition_holds c), st).
Proof.
  intros (_ & op & x & Hop & Hx & _) Hv. unfold condition_expr, condition_holds, condition_value. rewrite Hop, Hx.
  cbn [default from_option id]. assert (op ∈ [OLt; OLe; OGt; OGe]) as Ho.
  { revert Hop. unfold op_of. repeat case_match; intros [= <-]; set_solver. }
  rewrite !elem_of_cons, elem_of_nil in Ho.
  destruct Ho as [-> | [-> | [-> | [-> | []]]]];
    (eapply eval_strict; [done|by apply eval_var|apply eval_literal|done]).
Qed.

Lemma eval_and a b st :
  ev (EBin OAnd a b) st = '(v, st1) ← ev a st; if v_truthy v then ev b st1 else Some (v, st1).
Proof. reflexivity. Qed.

Lemma eval_choice c a b st :
  ev (ECond c a b) st = '(v, st1) ← ev c st; if v_truthy v then ev a st1 else ev b st1.
Proof. reflexivity. Qed.

Lemma eval_conditions c0 cs st : Forall (fun c => condition_ok c /\ in_scope (ci_var c)) (c0 :: cs) ->
  ev (and_expr c0 cs) st = Some (VBool (forallb condition_holds (c0 :: cs)), st).
Proof.
  inversion 1 as [|? ? [H0 V0] Hcs]; subst. unfold and_expr. pose proof (eval_condition c0 st H0 V0) as E. revert E.
  cbn [forallb]. generalize (condition_expr c0) (condition_holds c0).
  clear H. induction Hcs as [|c cs [Hc Hv] Hcs IH]; intros e b E; [by rewrite andb_true_r|].
  cbn [fold_left forallb]. rewrite andb_assoc. apply IH. rewrite eval_and, E. cbn [mbind option_bind v_truthy].
  destruct b; [by apply eval_condition|done].
Qed.

Lemma eval_tier name t st : Forall (fun p => in_scope (fst p)) (tier_products t) ->
  ev (tier_expr name t) st = Some (VNum (tier_cost t), name).
Proof.
  unfold tier_expr, call_expr, tier_cost, tier_products. inversion 1 as [|p0 ps H0 Hps]; subst.
  assert (forall e v, ev e st = Some (v, st) -> ev (ECall (js "tier") [EText name; e]) st = Some (v, name)) as Hcall.
  { intros e v E. cbn [eval]. cbn [eval] in E. cbn [mbind option_bind]. by rewrite E. }
  apply Hcall. by apply eval_sum.
Qed.

Definition table_scope (ts : list VisualTier) : Prop :=
  Forall (fun t => Forall (fun p => in_scope (fst p)) (tier_products t) /\
                   Forall (fun c => condition_ok c /\ in_scope (ci_var c)) (filled t)) ts.

Lemma eval_table i ts : table_ok ts -> table_scope ts ->
  ev (table_expr i ts) [] = Some (VNum (fst (charge i ts)), snd (charge i ts)).
Proof.
  revert i. induction ts as [|t [|t' rest] IH]; intros i Hok Hs; [done| |].
  - inversion Hs as [|? ? [Hp _]]; subst. by apply eval_tier.
  - destruct Hok as (_ & Hc & Hr). inversion Hs as [|? ? [Hp Hcs] Hs']; subst.
    remember (t' :: rest) as ts'. specialize (IH (S i) Hr Hs').
    assert (charge i (t :: ts') =
      if forallb condition_holds (filled t) then (tier_cost t, tier_name i t) else charge (S i) ts') as ->
      by (by subst ts').
    assert (table_expr i (t :: ts') = match filled t with
      | c0 :: cs => ECond (and_expr c0 cs) (tier_expr (tier_name i t) t) (table_expr (S i) ts') | [] => EVar [] end) as ->
      by (by subst ts').
    destruct (filled t) as [|c0 cs]; [done|]. rewrite eval_choice, eval_conditions by done. cbn [mbind option_bind v_truthy].
    destruct (forallb condition_holds (c0 :: cs)); [by apply eval_tier|done].
Qed.
End evaluation.

(** ** The estimate *)

Lemma price_scope p c extras v : v ∈ js "len" :: price_names -> in_scope (estimate_env p c extras) v.
Proof.
  assert (Forall (in_scope (estimate_env p c extras)) (js "len" :: price_names)) as H.
  { repeat first [apply List.Forall_nil | apply List.Forall_cons]; by eexists. }
  rewrite Forall_forall in H. apply H.
Qed.

Lemma table_tiers ts t : table_ok ts -> t ∈ ts -> tier_ok t.
Proof.
  induction ts as [|u [|u' rest] IH]; intros Hok; [by intros ?%elem_of_nil|by intros ->%list_elem_of_singleton|].
  destruct Hok as (Hu & _ & Hr). rewrite elem_of_cons. intros [-> | H]; auto.
Qed.

Lemma estimate_scope p c extras ts : Forall tier_ok ts -> table_scope (estimate_env p c extras) ts.
Proof.
  intros H. apply (Forall_impl _ _ _ H). intros t (_ & _ & Hc). split.
  - apply (Forall_impl _ _ _ (product_names t)). intros q Hq. apply price_scope. by right.
  - apply (Forall_impl _ _ _ Hc). intros d Hd. split; [done|]. apply price_scope. destruct Hd as [Hv _].
    revert Hv. generalize (ci_var d). intros v Hv. set_solver.
Qed.

(** What can be read is not blank. *)
Lemma parse_not_blank f l s x :
  match l with LCond | LAnd | LRel | LAdd | LMul | LUnary => True | _ => False end ->
  parse f l s = Some x -> truthy s && truthy (trim s) = true.
Proof.
  revert l x. induction f as [|f IH]; intros l x Hl H; [done|]. destruct l; try done;
    rewrite ?parse_cond, ?parse_and, ?parse_rel, ?parse_add, ?parse_mul in H;
    try (apply bind_Some in H as ([e r] & H & _); refine (IH _ _ _ H); exact I).
  cbn [parse] in H. destruct (skip s) as [|c t] eqn:E; [done|]. clear H IH. change (trim_start s = c :: t) in E.
  pose proof (trim_start_head s) as Hw. rewrite E in Hw. assert (c ∈ s) as Hc.
  { destruct (trim_start_suffix s) as (w & -> & _). rewrite E. set_solver. }
  pose proof (trim_nonws s c Hc Hw). destruct s; [set_solver|]. by destruct (trim _).
Qed.

Lemma estimate_text s e p c extras v matched :
  (forall f, 26 + length s <= f -> parse f LCond s = Some (e, [])) -> 2 <= length s ->
  eval (scope (estimate_env p c extras)) estimate_call e [] = Some (v, matched) ->
  evalExprLocally s p c extras = Some {| cost := n_or (to_number v) n_zero; matchedTier := matched; eval_error := None |}.
Proof.
  intros Hp Hl Hv. unfold evalExprLocally.
  assert (truthy s && truthy (trim s) = true) as Hb by (apply (parse_not_blank (26 + length s) LCond s (e, [])); auto).
  apply andb_true_iff in Hb as [-> ->]. cbn [negb orb]. unfold parse_expr. rewrite Hp by lia.
  cbn [mbind option_bind]. change (skip []) with (@nil N). cbn [mbind option_bind].
  change (fun x : jstr => VNum <$> prop_get x (estimate_env p c extras)) with (scope (estimate_env p c extras)).
  by rewrite Hv.
Qed.

(** What a table of prices charges, and the name of the tier it takes. *)
Definition table_charge (env : list (jstr * number)) (ts : list VisualTier) : number * jstr :=
  match ts with
  | [t] => if forallb (condition_holds env) (filled t)
           then (tier_cost env t, str_or (default [] (label t)) (js "default")) else (n_zero, [])
  | _ => charge env 0 ts
  end.

Lemma free_text f : 26 <= f ->
  parse f LCond (js "p * 0 + c * 0") = Some (sum_expr (js "p", n_zero) [(js "c", n_zero)], []).
Proof. intros Hf. apply (parse_mono 26); [vm_compute; reflexivity|done]. Qed.

(** A product by zero is zero or [NaN], and so is the sum of two. *)
Lemma free_cost (x y : number) : n_or (n_add (n_mul x n_zero) (n_mul y n_zero)) n_zero = n_zero.
Proof. destruct x, y; try reflexivity; repeat match goal with b : bool |- _ => destruct b end; reflexivity. Qed.

Lemma default_plain t : tier_ok t -> plain_text (str_or (default [] (label t)) (js "default")) = true.
Proof. intros (H & _). by destruct (default [] (label t)). Qed.

Lemma estimate_single t p c extras :
  tier_ok t ->
  let r := table_charge (estimate_env p c extras) [t] in
  evalExprLocally (generateExprFromVisualConfig (Some {| tiers := [t] |})) p c extras =
  Some {| cost := n_or (fst r) n_zero; matchedTier := snd r; eval_error := None |}.
Proof.
  intros Ht. pose proof (estimate_scope p c extras [t] (proj2 (Forall_singleton tier_ok t) Ht)) as Hs.
  inversion Hs as [|? ? [Hp Hc] _]; subst. pose proof (default_plain t Ht) as Hn. cbn [generateExprFromVisualConfig tiers table_charge].
  set (name := str_or _ _) in *. destruct (filled t) as [|c0 cs] eqn:Ef.
  - assert (buildConditionStr (conditions t) = []) as ->.
    { unfold buildConditionStr. fold (filled t). by rewrite Ef. }
    change (truthy []) with false. cbn [forallb fst snd]. cbv iota.
    apply (estimate_text _ (tier_expr name t) _ _ _ (VNum (tier_cost (estimate_env p c extras) t))); [| |by apply eval_tier].
    + intros f Hf. rewrite <- (app_nil_r (tier_call name t)). apply read_tier_call; (done || lia).
    + unfold tier_call. rewrite length_app. change (length (jsq "tier(`")) with 6. lia.
  - destruct (condition_str t c0 cs Ef) as [Ec ->]. set (ok := forallb _ _).
    set (free := n_add (n_mul (amount (estimate_env p c extras) (js "p")) n_zero)
                       (n_mul (amount (estimate_env p c extras) (js "c")) n_zero)).
    etransitivity; [apply (estimate_text _
      (ECond (and_expr c0 cs) (tier_expr name t) (sum_expr (js "p", n_zero) [(js "c", n_zero)])) _ _ _
      (VNum (if ok then tier_cost (estimate_env p c extras) t else free)) (if ok then name else []))|].
    + intros f Hf. rewrite !length_app in Hf. change (length (js " ? ")) with 3 in Hf. destruct f as [|f]; [lia|].
      change (js " : p * 0 + c * 0") with (js " : " ++ js "p * 0 + c * 0").
      assert (length cs <= length (buildConditionStr (conditions t))) by (rewrite Ec; by apply length_join).
      apply read_tier_choice; [done..| |apply free_text]; lia.
    + rewrite !length_app. change (length (js " ? ")) with 3. lia.
    + rewrite eval_choice, eval_conditions by done. fold ok. cbn [mbind option_bind v_truthy].
      destruct ok; [by apply eval_tier|]. rewrite eval_sum; [reflexivity|..].
      * apply price_scope. set_solver.
      * repeat constructor. apply price_scope. set_solver.
    + destruct ok; [done|]. unfold free. cbn [to_number fst snd]. by rewrite free_cost.
Qed.

(** C31. The estimate of a generated expression is the price table's: the text the editor
    generates for a well-formed table, read and run as JavaScript on any token counts,
    charges the first tier whose conditions hold (the last one when none does, nothing for
    a single tier whose conditions fail), and names it; a label that is empty is the
    numbered default.  A cost that is not a number is shown as zero. *)
Theorem estimate_refines_table cfg p c extras :
  table_ok (tiers cfg) ->
  evalExprLocally (generateExprFromVisualConfig (Some cfg)) p c extras =
  let r := table_charge (estimate_env p c extras) (tiers cfg) in
  Some {| cost := n_or (fst r) n_zero; matchedTier := snd r; eval_error := None |}.
Proof.
  destruct cfg as [ts]. cbn [tiers]. intros Hok. destruct ts as [|t [|t' rest]]; [done|by apply estimate_single|].
  assert (Forall tier_ok (t :: t' :: rest)) as Hall.
  { apply Forall_forall. intros u. by apply table_tiers. }
  change (generateExprFromVisualConfig (Some {| tiers := t :: t' :: rest |}))
    with (join (js " : ") (tier_parts 0 (t :: t' :: rest))).
  change (table_charge (estimate_env p c extras) (t :: t' :: rest)) with (charge (estimate_env p c extras) 0 (t :: t' :: rest)).
  apply (estimate_text _ (table_expr 0 (t :: t' :: rest)) _ _ _ (VNum _)).
  - intros f Hf. by apply read_table.
  - change (tier_parts 0 (t :: t' :: rest)) with
      (hd [] (tier_parts 0 (t :: t' :: rest)) :: tier_parts 1 (t' :: rest)).
    rewrite join_cons by done. rewrite !length_app. change (length (js " : ")) with 3. lia.
  - apply eval_table; [done|by apply estimate_scope].
Qed.

Definition sample_tier (l : jstr) (cs : list TierConditionInput) (a b : Z) : VisualTier :=
  {| label := Some l; conditions := Some cs; input_unit_cost := Some (VNum (num_of_Z a));
     output_unit_cost := Some (VNum (num_of_Z b)); cache_mode := None; cache_read_unit_cost := Some (VStr (js "0.5"));
     cache_create_unit_cost := None; cache_create_1h_unit_cost := None; image_unit_cost := None;
     image_output_unit_cost := None; audio_input_unit_cost := None; audio_output_unit_cost := None |}.

Definition sample_table : VisualConfig :=
  {| tiers := [sample_tier (js "small") [ {| ci_var := js "len"; ci_op := js "<="; ci_value := VNum (num_of_Z 200) |} ] 2 4;
               sample_tier [] [] 3 6] |}.

Lemma estimate_refines_table_witness :
  table_ok (tiers sample_table) /\
  evalExprLocally (generateExprFromVisualConfig (Some sample_table)) (num_of_Z 100) (num_of_Z 10) [] =
    Some {| cost := num_of_Z 240; matchedTier := js "small"; eval_error := None |} /\
  evalExprLocally (generateExprFromVisualConfig (Some sample_table)) (num_of_Z 300) (num_of_Z 10) [] =
    Some {| cost := num_of_Z 960; matchedTier := js "tier_2"; eval_error := None |}.
Proof.
  assert (table_ok (tiers sample_table)) as Hok.
  { repeat split; try (repeat constructor; reflexivity); try done.
    constructor; [|constructor]. split; [set_solver|]. exists OLe, (num_of_Z 200). done. }
  split; [done|]. split.
  - rewrite (estimate_refines_table sample_table (num_of_Z 100) (num_of_Z 10) [] Hok). vm_compute. reflexivity.
  - rewrite (estimate_refines_table sample_table (num_of_Z 300) (num_of_Z 10) [] Hok). vm_compute. reflexivity.
Defined.
