(* ===== verification/AuthSession.v ===== *)
(** * Authentication session

    The authentication store ([stores/auth-store.ts]), the cross-tab session events
    ([lib/auth-session-sync.ts]) and the session operations and the refresh runner
    of [lib/auth-session.ts].  One browser tab is a record [Tab]; every operation is
    a function on it, and what the outside can observe (requests, published events,
    toasts, navigations) is appended to the log of the tab.  The asynchronous
    refresh is cut at its [await]s: [RunState] says at which one it is suspended. *)

From S2P Require Import Prelude JsString JsNumber Json.

(** ** Data *)

Record LoginSession := {
  sid : jstr; current : bool; login_method : jstr; ip : jstr; user_agent : jstr;
  created_at : number; last_active_at : number; expires_at : number }.

(** The user is the validated object itself: the operations only pass it on. *)
Definition AuthUser := jsval.

Record AuthBundle := {
  access_token : jstr; token_type : jstr; access_expires_at : number;
  bundle_user : AuthUser; bundle_session : LoginSession }.

Inductive AuthBootstrapState := Idle | Checking | Complete.

Record AuthState := {
  user : option AuthUser; accessToken : option jstr; accessExpiresAt : option number;
  session : option LoginSession; pending2FAFlowToken : option jstr;
  bootstrapState : AuthBootstrapState }.

(** What an authentication refresh ended with; a superseded refresh carries
    [AuthRefreshSupersededError]. *)
Inductive RefreshError := Superseded | ErrorValue (v : jsval).

Inductive RefreshOutcome :=
  | Authenticated (bundle : AuthBundle)
  | Anonymous
  | TransientError (error : RefreshError)
  | OutOfSync (code : option jstr).

Record AuthRefreshHTTPResponse := { status : Z; data : jsval; error : jsval }.

Inductive SyncKind := SyncAuthenticated | SyncSignedOut.

(** ** Validators of untrusted values *)

Definition is_string (v : jsval) : bool := match v with VStr _ => true | _ => false end.
Definition is_number (v : jsval) : bool := match v with VNum _ => true | _ => false end.
Definition is_boolean (v : jsval) : bool := match v with VBool _ => true | _ => false end.
Definition is_nonempty_string (v : jsval) : bool := match v with VStr s => truthy s | _ => false end.

Definition isAuthUser (value : jsval) : bool :=
  is_record value &&
  match get (js "id") value with VNum i => n_isInteger i && n_positive i | _ => false end &&
  is_string (get (js "username") value) && is_number (get (js "role") value).

Definition isLoginSession (value : jsval) : bool :=
  is_record value && is_nonempty_string (get (js "sid") value) &&
  is_boolean (get (js "current") value) && is_string (get (js "login_method") value) &&
  is_string (get (js "ip") value) && is_string (get (js "user_agent") value) &&
  is_number (get (js "created_at") value) && is_number (get (js "last_active_at") value) &&
  is_number (get (js "expires_at") value).

Definition hasValidTokenFields (value : jsval) : bool :=
  is_nonempty_string (get (js "access_token") value) &&
  is_nonempty_string (get (js "token_type") value) &&
  match get (js "access_expires_at") value with
  | VNum x => n_isFinite x && n_positive x
  | _ => false
  end.

Definition isAuthBundle (value : jsval) : bool :=
  is_record value && hasValidTokenFields value &&
  isAuthUser (get (js "user") value) && isLoginSession (get (js "session") value).

Definition v_str (v : jsval) : jstr := match v with VStr s => s | _ => [] end.
Definition v_num (v : jsval) : number := match v with VNum x => x | _ => n_nan end.
Definition v_bool (v : jsval) : bool := match v with VBool b => b | _ => false end.

(** The typed view of a validated session and bundle. *)
Definition session_of (v : jsval) : LoginSession :=
  {| sid := v_str (get (js "sid") v); current := v_bool (get (js "current") v);
     login_method := v_str (get (js "login_method") v); ip := v_str (get (js "ip") v);
     user_agent := v_str (get (js "user_agent") v);
     created_at := v_num (get (js "created_at") v);
     last_active_at := v_num (get (js "last_active_at") v);
     expires_at := v_num (get (js "expires_at") v) |}.

Definition bundle_of (v : jsval) : AuthBundle :=
  {| access_token := v_str (get (js "access_token") v);
     token_type := v_str (get (js "token_type") v);
     access_expires_at := v_num (get (js "access_expires_at") v);
     bundle_user := get (js "user") v; bundle_session := session_of (get (js "session") v) |}.

Definition parseBundle (value : jsval) : option AuthBundle :=
  if isAuthBundle value then Some (bundle_of value) else None.

Definition isAuthTokenRotation (value : jsval) : bool :=
  is_record value && hasValidTokenFields value &&
  (v_str (get (js "token_type") value) =s js "Bearer") &&
  isLoginSession (get (js "session") value) && v_bool (get (js "current") (get (js "session") value)).

(** ** The store *)

Definition initial_auth : AuthState :=
  {| user := None; accessToken := None; accessExpiresAt := None; session := None;
     pending2FAFlowToken := None; bootstrapState := Idle |}.

Definition setBundle (bundle : AuthBundle) (a : AuthState) : AuthState :=
  {| user := Some (bundle_user bundle); accessToken := Some (access_token bundle);
     accessExpiresAt := Some (access_expires_at bundle);
     session := Some (bundle_session bundle); pending2FAFlowToken := None;
     bootstrapState := Complete |}.

Definition setUser (u : option AuthUser) (a : AuthState) : AuthState :=
  {| user := u; accessToken := accessToken a; accessExpiresAt := accessExpiresAt a;
     session := session a; pending2FAFlowToken := pending2FAFlowToken a;
     bootstrapState := bootstrapState a |}.

Definition setPending2FAFlowToken (t : option jstr) (a : AuthState) : AuthState :=
  {| user := user a; accessToken := accessToken a; accessExpiresAt := accessExpiresAt a;
     session := session a; pending2FAFlowToken := t; bootstrapState := bootstrapState a |}.

Definition setBootstrapState (b : AuthBootstrapState) (a : AuthState) : AuthState :=
  {| user := user a; accessToken := accessToken a; accessExpiresAt := accessExpiresAt a;
     session := session a; pending2FAFlowToken := pending2FAFlowToken a; bootstrapState := b |}.

Definition reset (b : AuthBootstrapState) (a : AuthState) : AuthState :=
  {| user := None; accessToken := None; accessExpiresAt := None; session := None;
     pending2FAFlowToken := None; bootstrapState := b |}.

(** [auth.session?.sid] *)
Definition current_sid (a : AuthState) : option jstr := sid <$> session a.

Definition same_sid (a b : option jstr) : bool :=
  match a, b with
  | Some x, Some y => x =s y
  | None, None => true
  | _, _ => false
  end.

(** ** The tab *)

(** The request options the client looks at. *)
Record ApiRequestConfig := {
  url : jstr; params : option jstr; headers : list (jstr * jstr);
  skipErrorHandler : bool; skipBusinessError : bool; skipAuthRefresh : bool;
  authRetry : bool; acceptAuthRotation : bool; disableDuplicate : bool }.

(** A promise of the tab's own that may reject. *)
Inductive settled (A : Type) := Resolved (x : A) | Rejected (e : jsval).
Arguments Resolved {A} _.
Arguments Rejected {A} _.

Inductive effect :=
  | FPublish (kind : SyncKind) (sid : jstr)
  | FRequest (expectedSID : option jstr)
  | FWait (delay : Z)
  | FClearQueries
  | FToast (message : jstr)
  | FRedirect (path : jstr)
  | FNavigate (path : jstr)
  | FReload
  | FSend (config : ApiRequestConfig)
  | FThrow (e : jsval)
  | FBootstrap (o : settled RefreshOutcome)
  | FHeaders (h : settled (list (jstr * jstr))).

(** Where the refresh is suspended: waiting for the browser lock, for the response
    of attempt [raceAttempt], for the delay before it, or settled with the [finally]
    callback still to run. *)
Inductive RunState :=
  | AwaitLock (refreshEpoch : Z)
  | AwaitResponse (refreshEpoch : Z) (raceAttempt : nat) (allowMismatchRetry : bool)
  | AwaitDelay (refreshEpoch : Z) (raceAttempt : nat) (allowMismatchRetry : bool)
  | Settled (o : settled RefreshOutcome).

(** The callers suspended on the refresh promise. *)
Inductive Waiter :=
  | WBootstrap
  | WHeaders
  | WRetry (config : ApiRequestConfig) (error : jsval).

Record Tab := {
  auth : AuthState;
  authEpoch : Z;
  refreshPromise : option RunState;
  waiters : list Waiter;
  pathname : jstr;
  log : list effect }.

Definition emit (e : list effect) (t : Tab) : Tab :=
  {| auth := auth t; authEpoch := authEpoch t; refreshPromise := refreshPromise t;
     waiters := waiters t; pathname := pathname t; log := log t ++ e |}.

(** Writing the store runs the root component's subscription, which drops the
    cached queries when the session changes. *)
Definition set_auth (f : AuthState -> AuthState) (t : Tab) : Tab :=
  let a := f (auth t) in
  {| auth := a; authEpoch := authEpoch t; refreshPromise := refreshPromise t;
     waiters := waiters t; pathname := pathname t;
     log := log t ++
            if same_sid (current_sid a) (current_sid (auth t)) then [] else [FClearQueries] |}.

Definition set_epoch (n : Z) (t : Tab) : Tab :=
  {| auth := auth t; authEpoch := n; refreshPromise := refreshPromise t;
     waiters := waiters t; pathname := pathname t; log := log t |}.

Definition set_promise (p : option RunState) (t : Tab) : Tab :=
  {| auth := auth t; authEpoch := authEpoch t; refreshPromise := p;
     waiters := waiters t; pathname := pathname t; log := log t |}.

Definition set_waiters (w : list Waiter) (t : Tab) : Tab :=
  {| auth := auth t; authEpoch := authEpoch t; refreshPromise := refreshPromise t;
     waiters := w; pathname := pathname t; log := log t |}.

(** ** Cross-tab events *)

Definition kind_name (k : SyncKind) : jstr :=
  match k with SyncAuthenticated => js "authenticated" | SyncSignedOut => js "signed_out" end.

(** The object posted to the other tabs. *)
Definition sync_event (kind : SyncKind) (s source nonce : jstr) (timestamp : number) : jsval :=
  VObj [(js "kind", VStr (kind_name kind)); (js "sid", VStr s); (js "source", VStr source);
        (js "nonce", VStr nonce); (js "timestamp", VNum timestamp)].

Definition isAuthSessionSyncEvent (value : jsval) : bool :=
  is_record value &&
  match get (js "kind") value with
  | VStr k => (k =s js "authenticated") || (k =s js "signed_out")
  | _ => false
  end &&
  is_nonempty_string (get (js "sid") value) && is_string (get (js "source") value) &&
  is_string (get (js "nonce") value) && is_number (get (js "timestamp") value).

Definition publishAuthSessionEvent (kind : SyncKind) (s : jstr) (t : Tab) : Tab :=
  if negb (truthy s) then t else emit [FPublish kind s] t.

Definition n_abs (x : number) : number := if n_ltb x n_zero then n_sub n_zero x else x.

(** The filter of [subscribeAuthSessionEvents]: the event handed to the listener. *)
Definition deliver (authSyncSource : jstr) (now : number) (value : jsval) : option (SyncKind * jstr) :=
  if isAuthSessionSyncEvent value &&
     negb (v_str (get (js "source") value) =s authSyncSource) &&
     n_ltb (n_abs (n_sub now (v_num (get (js "timestamp") value)))) (num_of_Z 60000)
  then Some (if v_str (get (js "kind") value) =s js "authenticated" then SyncAuthenticated
             else SyncSignedOut, v_str (get (js "sid") value))
  else None.

(** ** Session operations *)

Definition applyAuthBundle (bundle : AuthBundle) (synchronizeTabs : bool) (t : Tab) : Tab :=
  let previousSID := current_sid (auth t) in
  let t1 := set_epoch (authEpoch t + 1) t in
  let t2 := set_auth (setBundle bundle) t1 in
  if synchronizeTabs && negb (same_sid previousSID (Some (sid (bundle_session bundle))))
  then publishAuthSessionEvent SyncAuthenticated (sid (bundle_session bundle)) t2
  else t2.

(** The session of an answer that was not checked: absent, or the object with the
    fields it has. *)
Definition raw_session (v : jsval) : option LoginSession :=
  if is_record v then Some (session_of v) else None.

(** [x] is [undefined], [null] or of its declared type. *)
Definition absent_or (p : jsval -> bool) (x : jsval) : bool :=
  match x with VUndef | VNull => true | _ => p x end.

(** An answer typed [AuthBundle] that was not checked: each field is absent or has the
    type it is declared with, and nothing else is known of it. *)
Definition typed_session (v : jsval) : bool :=
  is_record v && is_string (get (js "sid") v) && is_boolean (get (js "current") v) &&
  is_string (get (js "login_method") v) && is_string (get (js "ip") v) && is_string (get (js "user_agent") v) &&
  is_number (get (js "created_at") v) && is_number (get (js "last_active_at") v) && is_number (get (js "expires_at") v).

Definition typed_answer (v : jsval) : bool :=
  is_record v && absent_or is_string (get (js "access_token") v) &&
  absent_or is_number (get (js "access_expires_at") v) && absent_or is_record (get (js "user") v) &&
  absent_or typed_session (get (js "session") v).

(** [setBundle] on such an answer. *)
Definition set_raw_bundle (v : jsval) (a : AuthState) : AuthState :=
  {| user := if is_record (get (js "user") v) then Some (get (js "user") v) else None;
     accessToken := match get (js "access_token") v with VStr s => Some s | _ => None end;
     accessExpiresAt := match get (js "access_expires_at") v with VNum x => Some x | _ => None end;
     session := raw_session (get (js "session") v); pending2FAFlowToken := None; bootstrapState := Complete |}.

(** [applyAuthBundle(res.data)] on an answer that was not checked, as the form of the
    second factor calls it: the store is written before the session id is read, which
    throws when there is no session. *)
Definition applyRawBundle (v : jsval) (t : Tab) : Tab :=
  let previousSID := current_sid (auth t) in
  let t1 := set_epoch (authEpoch t + 1) t in
  let t2 := set_auth (set_raw_bundle v) t1 in
  match raw_session (get (js "session") v) with
  | None => emit [FThrow (VStr (js "TypeError"))] t2
  | Some s =>
      if negb (same_sid previousSID (Some (sid s))) then publishAuthSessionEvent SyncAuthenticated (sid s) t2 else t2
  end.

Definition clearAuthentication (synchronizeTabs : bool) (b : AuthBootstrapState) (t : Tab) : Tab :=
  let s := current_sid (auth t) in
  let t1 := set_epoch (authEpoch t + 1) t in
  let t2 := set_auth (reset b) t1 in
  match s with
  | Some s' => if synchronizeTabs && truthy s' then publishAuthSessionEvent SyncSignedOut s' t2 else t2
  | None => t2
  end.

Definition clearAuthenticatedClientState (synchronizeTabs : bool) (t : Tab) : Tab :=
  clearAuthentication synchronizeTabs Complete (emit [FClearQueries] t).

Inductive RotationError := RInvalid | RNoSession | RMismatch.

(** [AuthRotationError] by its message. *)
Definition rotation_message (e : RotationError) : jstr :=
  match e with
  | RInvalid => js "Invalid authentication rotation response"
  | RNoSession => js "Authentication rotation has no active session"
  | RMismatch => js "Authentication rotation session mismatch"
  end.

Definition applyAuthRotation (value : jsval) (t : Tab) : RotationError + Tab :=
  if negb (isAuthTokenRotation value) then inl RInvalid
  else
    let s := session_of (get (js "session") value) in
    match user (auth t), session (auth t) with
    | Some u, Some cur =>
        if negb (sid s =s sid cur) then inl RMismatch
        else inr (applyAuthBundle
               {| access_token := v_str (get (js "access_token") value);
                  token_type := v_str (get (js "token_type") value);
                  access_expires_at := v_num (get (js "access_expires_at") value);
                  bundle_session := s; bundle_user := u |} false t)
    | _, _ => inl RNoSession
    end.

(** The listener of the root component. *)
Definition on_peer_event (kind : SyncKind) (s : jstr) (t : Tab) : Tab :=
  let currentSID := current_sid (auth t) in
  match kind with
  | SyncAuthenticated =>
      if same_sid (Some s) currentSID then t
      else
        let t1 := match currentSID with
                  | Some c => if truthy c then clearAuthentication false Complete t else t
                  | None => t
                  end in
        emit [FReload] t1
  | SyncSignedOut =>
      match currentSID with
      | Some c =>
          if truthy c && (s =s c)
          then emit [FNavigate (js "/sign-in")] (clearAuthenticatedClientState false t)
          else t
      | None => t
      end
  end.

(** ** The refresh runner *)

Definition refreshRaceDelays : list Z := [80; 200; 500]%Z.

Definition settle (o : settled RefreshOutcome) (t : Tab) : Tab := set_promise (Some (Settled o)) t.

(** [run] up to its first [await]. *)
Definition run (refreshEpoch : Z) (raceAttempt : nat) (allowMismatchRetry : bool) (t : Tab) : Tab :=
  if negb (authEpoch t =? refreshEpoch)%Z then settle (Resolved (TransientError Superseded)) t
  else set_promise (Some (AwaitResponse refreshEpoch raceAttempt allowMismatchRetry))
         (emit [FRequest (current_sid (auth t))] t).

(** The [clear] of the runtime: an idle reset does not count as a change of session. *)
Definition runtime_clear (synchronizeTabs : bool) (b : option AuthBootstrapState) (t : Tab) : Tab :=
  match synchronizeTabs, b with
  | false, Some Idle => set_auth (reset Idle) t
  | _, _ => clearAuthentication synchronizeTabs (default Complete b) t
  end.

(** [response.error ?? response.data] *)
Definition nullish_or (a b : jsval) : jsval :=
  match a with VUndef | VNull => b | _ => a end.

Definition response_data (response : AuthRefreshHTTPResponse) : jsval :=
  if is_record (data response) then data response else VUndef.

Definition response_code (response : AuthRefreshHTTPResponse) : option jstr :=
  match get (js "code") (response_data response) with VStr c => Some c | _ => None end.

(** The bundle of a response that reports success. *)
Definition response_bundle (response : AuthRefreshHTTPResponse) : option AuthBundle :=
  match get (js "success") (response_data response) with
  | VBool true => parseBundle (get (js "data") (response_data response))
  | _ => None
  end.

Definition has_code (c : jstr) (code : option jstr) : bool :=
  match code with Some c' => c' =s c | None => false end.

(** The branches of [run] for a response without a bundle. *)
Definition on_refusal (refreshEpoch : Z) (raceAttempt : nat) (allowMismatchRetry : bool)
    (response : AuthRefreshHTTPResponse) (t : Tab) : Tab :=
  let code := response_code response in
  if (status response =? 409)%Z && has_code (js "AUTH_REFRESH_RACE") code then
    match refreshRaceDelays !! raceAttempt with
    | Some delay =>
        set_promise (Some (AwaitDelay refreshEpoch (S raceAttempt) allowMismatchRetry))
          (emit [FWait delay] t)
    | None => settle (Resolved (OutOfSync code)) (runtime_clear false None t)
    end
  else if (status response =? 409)%Z && has_code (js "AUTH_SESSION_MISMATCH") code then
    if allowMismatchRetry
    then run refreshEpoch 0 false (runtime_clear false (Some Idle) t)
    else settle (Resolved (OutOfSync code)) (runtime_clear false None t)
  else if (status response =? 401)%Z then
    settle (Resolved Anonymous) (runtime_clear true None t)
  else if (status response =? 0)%Z || (500 <=? status response)%Z || (status response =? 429)%Z then
    settle (Resolved (TransientError (ErrorValue (nullish_or (error response) (data response)))))
      (set_auth (setBootstrapState Idle) t)
  else
    settle (Resolved (OutOfSync (Some (default (js "AUTH_INVALID_REFRESH_RESPONSE") code))))
      (runtime_clear false None t).

(** The rest of [run] once the response is there. *)
Definition on_response (refreshEpoch : Z) (raceAttempt : nat) (allowMismatchRetry : bool)
    (response : AuthRefreshHTTPResponse) (t : Tab) : Tab :=
  if negb (authEpoch t =? refreshEpoch)%Z then settle (Resolved (TransientError Superseded)) t
  else
    match response_bundle response with
    | Some b => settle (Resolved (Authenticated b)) (applyAuthBundle b false t)
    | None => on_refusal refreshEpoch raceAttempt allowMismatchRetry response t
    end.

(** What the HTTP library reports of the refresh request. *)
Inductive AxiosResult :=
  | AxiosOk (status : Z) (data : jsval)
  | AxiosFailed (response : option (Z * jsval)) (e : jsval)
  | OtherFailure (e : jsval).

Definition requestRefresh (r : AxiosResult) : AuthRefreshHTTPResponse :=
  match r with
  | AxiosOk s d => {| status := s; data := d; error := VUndef |}
  | OtherFailure e => {| status := 0; data := VUndef; error := e |}
  | AxiosFailed (Some (s, d)) e => {| status := s; data := d; error := e |}
  | AxiosFailed None e => {| status := 0; data := VUndef; error := e |}
  end.

(** [refreshAuthentication]: joins the refresh under way, or starts one, at once or
    when the browser grants the lock. *)
Definition refreshAuthentication (has_locks : bool) (w : Waiter) (t : Tab) : Tab :=
  let t1 := match refreshPromise t with
            | Some _ => t
            | None => if has_locks then set_promise (Some (AwaitLock (authEpoch t))) t
                      else run (authEpoch t) 0 true t
            end in
  set_waiters (waiters t1 ++ [w]) t1.

(** [Math.floor(Date.now() / 1000)], from the clock in milliseconds. *)
Definition seconds (now : Z) : number := num_of_Z (now / 1000).

Definition currentValidAuthBundle (now : Z) (a : AuthState) : option AuthBundle :=
  match user a, accessToken a, accessExpiresAt a, session a with
  | Some u, Some tok, Some exp, Some s =>
      if negb (truthy tok) || negb (n_truthy exp) || n_leb exp (seconds now) then None
      else Some {| access_token := tok; token_type := js "Bearer"; access_expires_at := exp;
                   bundle_user := u; bundle_session := s |}
  | _, _, _, _ => None
  end.

Definition bootstrapAuthentication (has_locks : bool) (now : Z) (t : Tab) : Tab :=
  match currentValidAuthBundle now (auth t) with
  | Some bundle =>
      emit [FBootstrap (Resolved (Authenticated bundle))] (set_auth (setBootstrapState Complete) t)
  | None =>
      let hasStaleSession := match user (auth t), session (auth t) with
                             | Some _, Some _ => true | _, _ => false end in
      match bootstrapState (auth t), hasStaleSession with
      | Complete, false => emit [FBootstrap (Resolved Anonymous)] t
      | _, _ => refreshAuthentication has_locks WBootstrap (set_auth (setBootstrapState Checking) t)
      end
  end.

Definition getCommonHeaders (a : AuthState) : list (jstr * jstr) :=
  (js "Content-Type", js "application/json") ::
  match accessToken a with
  | Some tok => if truthy tok then [(js "Authorization", js "Bearer " ++ tok)] else []
  | None => []
  end.

(** The token is there and expires after [limit]. *)
Definition token_after (limit : number) (a : AuthState) : bool :=
  match accessToken a, accessExpiresAt a with
  | Some tok, Some exp => truthy tok && n_truthy exp && n_ltb limit exp
  | _, _ => false
  end.

Definition getFreshAuthHeaders (has_locks : bool) (now : Z) (t : Tab) : Tab :=
  if token_after (num_of_Z (now / 1000 + 60)) (auth t)
  then emit [FHeaders (Resolved (getCommonHeaders (auth t)))] t
  else refreshAuthentication has_locks WHeaders t.

(** [getFreshAuthHeaders] after its [await]. *)
Definition resume_headers (now : Z) (o : settled RefreshOutcome) (t : Tab) : Tab :=
  match o with
  | Rejected e => emit [FHeaders (Rejected e)] t
  | Resolved (Authenticated _) => emit [FHeaders (Resolved (getCommonHeaders (auth t)))] t
  | Resolved outcome =>
      if token_after (seconds now) (auth t)
      then emit [FHeaders (Resolved (getCommonHeaders (auth t)))] t
      else emit [FHeaders (Rejected (VStr (match outcome with
                                           | TransientError _ => js "Request failed"
                                           | _ => js "Session expired!"
                                           end)))] t
  end.
