(* ===== verification/HttpClient.v ===== *)
(** * HTTP client

    [lib/http-client.ts] on top of [AuthSession]: the response interceptors (token
    rotation, business errors, one retry after a 401), the request interceptor and
    the sharing of identical GET requests; the mapping of server error codes to
    messages ([lib/server-error-message.ts]); and the tab as a transition system
    whose events are everything the program reacts to. *)

From S2P Require Import Prelude Machine JsString JsNumber Json AuthSession.

(** ** Server error messages *)

Definition serverErrorMessageKeys : list (jstr * jstr) :=
  [(js "AUTH_SESSION_LIMIT",
    js "Too many active login sessions. On a device where you are already signed in, open Login sessions and use " ++ [8220%N] ++
    js "Sign out other sessions" ++ [8221%N] ++
    js " to revoke them. If you cannot access a signed-in device, reset your password to sign out all sessions.");
   (js "AUTH_SESSION_ISSUANCE_LIMIT",
    js "Too many login sessions were created recently. Please wait for the rolling window to pass, then try again.");
   (js "TELEGRAM_BIND_DISABLED", js "Telegram binding is disabled.");
   (js "TELEGRAM_BIND_INVALID_REQUEST",
    js "The Telegram authorization request is invalid or expired.");
   (js "TELEGRAM_BIND_FLOW_INVALID",
    js "This Telegram binding request has expired or has already been used.");
   (js "TELEGRAM_BIND_SESSION_INVALID",
    js "The login session that started this Telegram binding is no longer valid.");
   (js "TELEGRAM_BIND_ALREADY_BOUND", js "This Telegram account is already bound.");
   (js "TELEGRAM_BIND_USER_DELETED", js "This user account no longer exists.");
   (js "TELEGRAM_BIND_USER_DISABLED", js "This user account is disabled.");
   (js "TELEGRAM_BIND_INTERNAL_ERROR", js "Telegram binding failed. Please try again.")].

Definition serverErrorPayload (value : jsval) : option jsval :=
  if negb (is_record value) then None
  else
    let response := get (js "response") value in
    if is_record response && is_record (get (js "data") response)
    then Some (get (js "data") response) else Some value.

(** Codes that name a property every object inherits are left out of the model. *)
Definition getServerErrorMessageKey (value : jsval) : option jstr :=
  match serverErrorPayload value with
  | Some payload =>
      match get (js "code") payload with
      | VStr code => prop_get code serverErrorMessageKeys
      | _ => None
      end
  | None => None
  end.

(** ** Interceptors *)

Definition redirectToSignIn (t : Tab) : Tab :=
  if negb (pathname t =s js "/sign-in") then emit [FRedirect (js "/sign-in")] t else t.

Definition toast (skip : bool) (message : jstr) (t : Tab) : Tab :=
  if skip then t else emit [FToast message] t.

(** [a || b] where [a] may be any value: the toast shows it as text. *)
Definition v_or_text (v : jsval) (d : jstr) : jstr := if v_truthy v then to_string v else d.

(** The handler of a successful response; a rotation that does not apply makes the
    call reject with its error. *)
Definition on_success (config : ApiRequestConfig) (response_data : jsval) (t : Tab)
  : RotationError + Tab :=
  let success := get (js "success") response_data in
  let rotated :=
    match acceptAuthRotation config, success with
    | true, VBool true => applyAuthRotation (get (js "data") response_data) t
    | _, _ => inr t
    end in
  match rotated with
  | inl e => inl e
  | inr t1 =>
      match skipBusinessError config, success with
      | false, VBool false =>
          inr (emit [FToast (match getServerErrorMessageKey response_data with
                             | Some key => key
                             | None => v_or_text (get (js "message") response_data) (js "Request failed")
                             end)] t1)
      | _, _ => inr t1
      end
  end.

Definition with_retry (config : ApiRequestConfig) : ApiRequestConfig :=
  {| url := url config; params := params config; headers := headers config;
     skipErrorHandler := skipErrorHandler config; skipBusinessError := skipBusinessError config;
     skipAuthRefresh := skipAuthRefresh config; authRetry := true;
     acceptAuthRotation := acceptAuthRotation config; disableDuplicate := disableDuplicate config |}.

Definition with_headers (h : list (jstr * jstr)) (config : ApiRequestConfig) : ApiRequestConfig :=
  {| url := url config; params := params config; headers := h;
     skipErrorHandler := skipErrorHandler config; skipBusinessError := skipBusinessError config;
     skipAuthRefresh := skipAuthRefresh config; authRetry := authRetry config;
     acceptAuthRotation := acceptAuthRotation config; disableDuplicate := disableDuplicate config |}.

(** The message of a failure that is not a 401. *)
Definition failure_message (error : jsval) : jstr :=
  match getServerErrorMessageKey error with
  | Some key => key
  | None =>
      v_or_text (get (js "message") (get (js "data") (get (js "response") error)))
        (v_or_text (get (js "message") error) (js "Request failed"))
  end.

(** [status === n] on a dynamic value. *)
Definition is_status (n : Z) (v : jsval) : bool :=
  match v with VNum x => n_eqb x (num_of_Z n) | _ => false end.

(** The handler of a failed response, up to its [await]; [config] is [error.config]. *)
Definition on_failure (has_locks : bool) (config : option ApiRequestConfig) (error : jsval) (t : Tab)
  : Tab :=
  let skip := match config with Some c => skipErrorHandler c | None => false end in
  if is_status 401 (get (js "status") (get (js "response") error)) then
    match config with
    | Some c =>
        if negb (skipAuthRefresh c) && negb (authRetry c)
        then refreshAuthentication has_locks (WRetry (with_retry c) error) t
        else if authRetry c
        then emit [FThrow error]
               (redirectToSignIn (toast skip (js "Session expired!") (clearAuthentication false Complete t)))
        else emit [FThrow error] (toast skip (js "Session expired!") t)
    | None => emit [FThrow error] (toast skip (js "Session expired!") t)
    end
  else emit [FThrow error] (toast skip (failure_message error) t).

(** The request interceptor: every request carries the current token. *)
Definition authorize (a : AuthState) (config : ApiRequestConfig) : ApiRequestConfig :=
  match accessToken a with
  | Some tok =>
      if truthy tok
      then with_headers (prop_set (js "Authorization") (js "Bearer " ++ tok) (headers config)) config
      else config
  | None => config
  end.

Definition send (config : ApiRequestConfig) (t : Tab) : Tab := emit [FSend (authorize (auth t) config)] t.

(** The failure handler after its [await]. *)
Definition resume_retry (config : ApiRequestConfig) (error : jsval) (o : settled RefreshOutcome) (t : Tab)
  : Tab :=
  match o with
  | Rejected e => emit [FThrow e] t
  | Resolved (Authenticated _) => send (authorize (auth t) config) t
  | Resolved (TransientError _) => emit [FThrow error] t
  | Resolved _ =>
      emit [FThrow error]
        (redirectToSignIn (toast (skipErrorHandler config) (js "Session expired!") t))
  end.

(** ** Resuming the callers *)

Definition resume (now : Z) (o : settled RefreshOutcome) (t : Tab) (w : Waiter) : Tab :=
  match w with
  | WBootstrap => emit [FBootstrap o] t
  | WHeaders => resume_headers now o t
  | WRetry config error => resume_retry config error o t
  end.

(** The [finally] callback forgets the promise, then its callers go on in the order
    they asked. *)
Definition finally (now : Z) (o : settled RefreshOutcome) (t : Tab) : Tab :=
  foldl (resume now o) (set_waiters [] (set_promise None t)) (waiters t).

(** ** The tab as a transition system *)

Inductive event :=
  | ELogin (value : jsval)
  | ESecondFactor (value : jsval)
  | ESignOut (synchronizeTabs : bool)
  | EClear (synchronizeTabs : bool)
  | ESetUser (u : option AuthUser)
  | ESetPending2FA (flowToken : option jstr)
  | EPeer (source : jstr) (now : number) (value : jsval)
  | EBootstrap (now : Z)
  | EGetHeaders (now : Z)
  | EResponseOk (config : ApiRequestConfig) (response_data : jsval)
  | EResponseFailed (config : option ApiRequestConfig) (error : jsval)
  | ELockGranted
  | ELockRejected (e : jsval)
  | ERefreshResponse (r : AxiosResult)
  | EDelayOver
  | EFinally (now : Z).

(** The sign-in forms apply an answer that [isAuthBundle] accepts ([ELogin]); the form of
    the second factor applies the answer as it is ([ESecondFactor]), of which the model
    takes those whose fields have their declared types where they are there.  The other
    events are the operations above.  [None]: the event cannot happen in this state. *)
Definition step (has_locks : bool) (e : event) (t : Tab) : option Tab :=
  match e with
  | ELogin value => b ← parseBundle value; Some (applyAuthBundle b true t)
  | ESecondFactor value => if typed_answer value then Some (applyRawBundle value t) else None
  | ESignOut sync => Some (clearAuthenticatedClientState sync t)
  | EClear sync => Some (clearAuthentication sync Complete t)
  | ESetUser u => Some (set_auth (setUser u) t)
  | ESetPending2FA f => Some (set_auth (setPending2FAFlowToken f) t)
  | EPeer source now value =>
      Some (match deliver source now value with
            | Some (k, s) => on_peer_event k s t
            | None => t
            end)
  | EBootstrap now => Some (bootstrapAuthentication has_locks now t)
  | EGetHeaders now => Some (getFreshAuthHeaders has_locks now t)
  | EResponseOk config d =>
      Some (match on_success config d t with
            | inl err => emit [FThrow (VStr (rotation_message err))] t
            | inr t' => t'
            end)
  | EResponseFailed config err => Some (on_failure has_locks config err t)
  | ELockGranted =>
      match refreshPromise t with
      | Some (AwaitLock ep) => Some (run ep 0 true t)
      | _ => None
      end
  | ELockRejected err =>
      match refreshPromise t with
      | Some (AwaitLock _) => Some (settle (Rejected err) t)
      | _ => None
      end
  | ERefreshResponse r =>
      match refreshPromise t with
      | Some (AwaitResponse ep attempt allow) => Some (on_response ep attempt allow (requestRefresh r) t)
      | _ => None
      end
  | EDelayOver =>
      match refreshPromise t with
      | Some (AwaitDelay ep attempt allow) => Some (run ep attempt allow t)
      | _ => None
      end
  | EFinally now =>
      match refreshPromise t with
      | Some (Settled o) => Some (finally now o t)
      | _ => None
      end
  end.

(** A fresh tab at path [p]. *)
Definition new_tab (p : jstr) : Tab :=
  {| auth := initial_auth; authEpoch := 0; refreshPromise := None; waiters := [];
     pathname := p; log := [] |}.

(** The tab as a machine, with or without browser locks. *)
Definition tab_machine (has_locks : bool) : Machine Tab event :=
  {| initial t := exists p, t = new_tab p; next := step has_locks |}.

Abbreviation steps has_locks := (runs (tab_machine has_locks)).
Definition reachable (has_locks : bool) : Tab -> Prop := reaches (tab_machine has_locks).

(** ** Sharing of identical GET requests *)

(** [inFlightGet]: the keys of the requests under way. *)
Definition get_key (a : AuthState) (config : ApiRequestConfig) : jstr :=
  str_or (default [] (current_sid a)) (js "anonymous") ++ js ":" ++ url config ++ js "?" ++
  default (js "{}") (params config).

(** The answer of [api.get]: a request of its own, or the one under way for the key. *)
Inductive get_result := GetSent (key : option jstr) | GetShared (key : jstr).

Definition api_get (config : ApiRequestConfig) (inFlightGet : list jstr) (t : Tab)
  : get_result * list jstr * Tab :=
  if disableDuplicate config then (GetSent None, inFlightGet, send config t)
  else
    let key := get_key (auth t) config in
    if existsb (jeqb key) inFlightGet then (GetShared key, inFlightGet, t)
    else (GetSent (Some key), inFlightGet ++ [key], send config t).

(** The [finally] of a shared request. *)
Definition get_finally (key : jstr) (inFlightGet : list jstr) : list jstr :=
  bfilter (fun k => negb (k =s key)) inFlightGet.
