(* ===== verification/AuthFacts.v ===== *)
(** * Facts about authentication

    Invariants of every reachable tab and the guarantees of the refresh protocol:
    a refresh that was overtaken by a sign-in or sign-out changes nothing, a refresh
    ends after a bounded number of requests, a failed request is sent again at most
    once, and tabs do not echo each other's session events. *)

From S2P Require Import Prelude Machine JsString JsNumber Json AuthSession HttpClient.

(** ** The invariant *)

(** The access token, its expiry and the session are present together and valid. *)
Definition auth_ok (a : AuthState) : Prop :=
  match accessToken a, accessExpiresAt a, session a with
  | Some tok, Some exp, Some s =>
      tok <> [] /\ n_isFinite exp = true /\ n_positive exp = true /\ sid s <> []
  | None, None, None => True
  | _, _, _ => False
  end.

Definition bundle_ok (b : AuthBundle) : Prop :=
  access_token b <> [] /\ n_isFinite (access_expires_at b) = true /\
  n_positive (access_expires_at b) = true /\ sid (bundle_session b) <> [].

Definition waiter_ok (w : Waiter) : Prop :=
  match w with WRetry c _ => authRetry c = true | _ => True end.

(** A suspended refresh started in this or an earlier epoch and has used no more than
    its three delays; nobody waits when there is none. *)
Definition promise_ok (epoch : Z) (p : option RunState) (ws : list Waiter) : Prop :=
  match p with
  | None => ws = []
  | Some (AwaitLock ep) => (ep <= epoch)%Z
  | Some (AwaitResponse ep a _) => (ep <= epoch)%Z /\ a <= 3
  | Some (AwaitDelay ep a _) => (ep <= epoch)%Z /\ 1 <= a <= 3
  | Some (Settled _) => True
  end.

(** Published session ids are not empty, and a request is only ever sent again marked
    as a retry. *)
Definition effect_ok (e : effect) : Prop :=
  match e with
  | FPublish _ s => s <> []
  | FSend c => authRetry c = true
  | _ => True
  end.

(** [strict] says whether the store is to be well formed too. *)
Definition tab_ok (strict : Prop) (t : Tab) : Prop :=
  (strict -> auth_ok (auth t)) /\ promise_ok (authEpoch t) (refreshPromise t) (waiters t) /\
  Forall waiter_ok (waiters t) /\ Forall effect_ok (log t).

(** The event brings no unchecked answer. *)
Definition checked (e : event) : Prop :=
  match e with ESecondFactor v => isAuthBundle v = true | _ => True end.

(** ** Validators *)

Lemma nonempty_v_str v : is_nonempty_string v = true -> v_str v <> [].
Proof. destruct v; try done. simpl. by rewrite truthy_spec. Qed.

Lemma valid_session v : isLoginSession v = true -> sid (session_of v) <> [].
Proof. unfold isLoginSession. intros H. bsplit. by apply nonempty_v_str. Qed.

Lemma valid_token_fields v :
  hasValidTokenFields v = true ->
  v_str (get (js "access_token") v) <> [] /\
  n_isFinite (v_num (get (js "access_expires_at") v)) = true /\
  n_positive (v_num (get (js "access_expires_at") v)) = true.
Proof.
  unfold hasValidTokenFields. intros H. bsplit. split; [by apply nonempty_v_str|].
  destruct (get (js "access_expires_at") v); try done. bsplit. done.
Qed.

Lemma parse_bundle_ok v b : parseBundle v = Some b -> bundle_ok b.
Proof.
  unfold parseBundle, isAuthBundle. destruct (_ && _) eqn:E; [|done]. intros [= <-].
  bsplit. destruct (valid_token_fields v) as (T1 & T2 & T3); [done|].
  repeat split; try done. by apply valid_session.
Qed.

(** ** Operations keep the invariant *)

Section operations.
Context {P : Prop}.

Lemma emit_ok es t : Forall effect_ok es -> tab_ok P t -> tab_ok P (emit es t).
Proof. intros He (Ha & Hp & Hw & Hl). repeat split; try done. by apply Forall_app. Qed.

Lemma set_auth_ok f t : (P -> auth_ok (f (auth t))) -> tab_ok P t -> tab_ok P (set_auth f t).
Proof.
  intros Hf (Ha & Hp & Hw & Hl). repeat split; try done.
  simpl. apply Forall_app. split; [done|]. destruct (same_sid _ _); [done|]. by repeat constructor.
Qed.

Lemma set_promise_ok p t :
  promise_ok (authEpoch t) p (waiters t) -> tab_ok P t -> tab_ok P (set_promise p t).
Proof. intros Hp' (Ha & Hp & Hw & Hl). by repeat split. Qed.

Lemma promise_ok_later ep p ws : promise_ok ep p ws -> promise_ok (ep + 1) p ws.
Proof. destruct p as [[]|]; simpl; [..|done]; try done; lia. Qed.

Lemma set_epoch_ok t : tab_ok P t -> tab_ok P (set_epoch (authEpoch t + 1) t).
Proof.
  intros (Ha & Hp & Hw & Hl). repeat split; try done. simpl. by apply promise_ok_later.
Qed.

Lemma publish_ok k s t : tab_ok P t -> tab_ok P (publishAuthSessionEvent k s t).
Proof.
  intros H. unfold publishAuthSessionEvent. destruct (truthy s) eqn:E; [|done]. simpl.
  apply emit_ok; [|done]. apply Forall_singleton. by apply truthy_spec.
Qed.

Lemma apply_ok b sync t : (P -> bundle_ok b) -> tab_ok P t -> tab_ok P (applyAuthBundle b sync t).
Proof.
  intros Hb Ht. unfold applyAuthBundle.
  assert (tab_ok P (set_auth (setBundle b) (set_epoch (authEpoch t + 1) t))).
  { apply set_auth_ok; [done|]. by apply set_epoch_ok. }
  destruct (_ && _); [by apply publish_ok|done].
Qed.

Lemma clear_ok sync b t : tab_ok P t -> tab_ok P (clearAuthentication sync b t).
Proof.
  intros Ht. unfold clearAuthentication.
  assert (tab_ok P (set_auth (reset b) (set_epoch (authEpoch t + 1) t))).
  { apply set_auth_ok; [done|]. by apply set_epoch_ok. }
  destruct (current_sid (auth t)); [|done]. destruct (_ && _); [by apply publish_ok|done].
Qed.

Lemma clear_client_ok sync t : tab_ok P t -> tab_ok P (clearAuthenticatedClientState sync t).
Proof. intros Ht. apply clear_ok, emit_ok; [by repeat constructor|done]. Qed.

Lemma rotation_ok v t t' : applyAuthRotation v t = inr t' -> tab_ok P t -> tab_ok P t'.
Proof.
  unfold applyAuthRotation. destruct (isAuthTokenRotation v) eqn:E; [|done]. cbn [negb].
  destruct (user (auth t)) as [u|], (session (auth t)) as [s|]; try done.
  destruct (negb _); [done|]. intros [= <-] Ht. apply apply_ok; [|done].
  unfold isAuthTokenRotation in E. bsplit.
  destruct (valid_token_fields v) as (T1 & T2 & T3); [done|].
  repeat split; try done. by apply valid_session.
Qed.

Lemma peer_ok k s t : tab_ok P t -> tab_ok P (on_peer_event k s t).
Proof.
  intros Ht. unfold on_peer_event. destruct k.
  - destruct (same_sid _ _); [done|]. apply emit_ok; [by repeat constructor|].
    destruct (current_sid (auth t)); [|done]. destruct (truthy _); [by apply clear_ok|done].
  - destruct (current_sid (auth t)); [|done]. destruct (_ && _); [|done].
    apply emit_ok; [by repeat constructor|]. by apply clear_client_ok.
Qed.

Lemma run_ok ep a allow t :
  (ep <= authEpoch t)%Z -> a <= 3 -> tab_ok P t -> tab_ok P (run ep a allow t).
Proof.
  intros He Hle Ht. unfold run, settle. destruct (negb _); [by apply set_promise_ok|].
  apply set_promise_ok; [done|]. apply emit_ok; [by repeat constructor|done].
Qed.

Lemma runtime_clear_ok s b t : tab_ok P t -> tab_ok P (runtime_clear s b t).
Proof.
  intros Ht. unfold runtime_clear. destruct s; [by apply clear_ok|].
  destruct b as [[]|]; try by apply clear_ok. by apply set_auth_ok.
Qed.

Lemma settle_ok o t : tab_ok P t -> tab_ok P (settle o t).
Proof. intros. by apply set_promise_ok. Qed.

Lemma runtime_clear_epoch s b t :
  (authEpoch t <= authEpoch (runtime_clear s b t))%Z.
Proof.
  assert (forall sync b', authEpoch t <= authEpoch (clearAuthentication sync b' t))%Z as H.
  { intros. unfold clearAuthentication, publishAuthSessionEvent. cases; simpl; lia. }
  unfold runtime_clear. destruct s; [apply H|]. destruct b as [[]|]; try apply H. simpl. lia.
Qed.

Lemma race_delay_lt a d : refreshRaceDelays !! a = Some d -> a < 3.
Proof. intros H. by apply lookup_lt_Some in H. Qed.

Lemma on_refusal_ok ep a allow r t :
  (ep <= authEpoch t)%Z -> a <= 3 -> tab_ok P t -> tab_ok P (on_refusal ep a allow r t).
Proof.
  intros He Hle Ht. unfold on_refusal. cbv zeta.
  destruct (_ && _).
  { destruct (refreshRaceDelays !! a) eqn:Ed; [|by apply settle_ok, runtime_clear_ok].
    apply race_delay_lt in Ed. apply set_promise_ok; [simpl; lia|].
    apply emit_ok; [by repeat constructor|done]. }
  destruct (_ && _).
  { destruct allow; [|by apply settle_ok, runtime_clear_ok].
    apply run_ok; [|lia|by apply runtime_clear_ok].
    pose proof (runtime_clear_epoch false (Some Idle) t). lia. }
  destruct (_ =? _)%Z; [by apply settle_ok, runtime_clear_ok|].
  destruct (_ || _); [|by apply settle_ok, runtime_clear_ok].
  apply settle_ok, set_auth_ok; [|done]. by destruct Ht.
Qed.

Lemma on_response_ok ep a allow r t :
  (ep <= authEpoch t)%Z -> a <= 3 -> tab_ok P t -> tab_ok P (on_response ep a allow r t).
Proof.
  intros He Hle Ht. unfold on_response. destruct (negb _); [by apply settle_ok|].
  destruct (response_bundle r) as [b|] eqn:Eb; [|by apply on_refusal_ok].
  apply settle_ok, apply_ok; [|done]. unfold response_bundle in Eb.
  destruct (get _ _) as [| |[]| | | |]; try done. intros _; by eapply parse_bundle_ok.
Qed.

Lemma refresh_ok locks w t :
  waiter_ok w -> tab_ok P t -> tab_ok P (refreshAuthentication locks w t).
Proof.
  intros Hw Ht. unfold refreshAuthentication.
  set (t1 := match refreshPromise t with Some _ => t | None => _ end). cbv zeta.
  assert (tab_ok P t1 /\ refreshPromise t1 <> None) as [(Ha & Hp & Hws & Hl) Hn].
  { unfold t1. destruct (refreshPromise t) eqn:E; [by rewrite E|]. destruct locks.
    - split; [|done]. apply set_promise_ok; [simpl; lia|done].
    - split; [apply run_ok; [lia|lia|done]|]. unfold run, settle. by destruct (negb _). }
  repeat split; try done; cbn [set_waiters auth authEpoch refreshPromise waiters log].
  - by destruct (refreshPromise t1) as [[]|].
  - by apply Forall_app; split; [|apply Forall_singleton].
Qed.

Lemma auth_ok_bootstrap b a : auth_ok a -> auth_ok (setBootstrapState b a).
Proof. done. Qed.

Lemma bootstrap_ok locks now t : tab_ok P t -> tab_ok P (bootstrapAuthentication locks now t).
Proof.
  intros Ht. unfold bootstrapAuthentication.
  destruct (currentValidAuthBundle now (auth t)).
  { apply emit_ok; [by repeat constructor|]. apply set_auth_ok; [|done]. by destruct Ht. }
  assert (tab_ok P (set_auth (setBootstrapState Checking) t)) by (apply set_auth_ok; [by destruct Ht|done]).
  destruct (bootstrapState (auth t)), (match user (auth t), session (auth t) with Some _, Some _ => true | _, _ => false end);
    try by apply refresh_ok. apply emit_ok; [by repeat constructor|done].
Qed.

Lemma get_headers_ok locks now t : tab_ok P t -> tab_ok P (getFreshAuthHeaders locks now t).
Proof.
  intros Ht. unfold getFreshAuthHeaders. destruct (token_after _ _); [|by apply refresh_ok].
  apply emit_ok; [by repeat constructor|done].
Qed.

Lemma toast_ok skip msg t : tab_ok P t -> tab_ok P (toast skip msg t).
Proof. intros Ht. destruct skip; [done|]. apply emit_ok; [by repeat constructor|done]. Qed.

Lemma redirect_ok t : tab_ok P t -> tab_ok P (redirectToSignIn t).
Proof.
  intros Ht. unfold redirectToSignIn. destruct (negb _); [|done].
  apply emit_ok; [by repeat constructor|done].
Qed.

Lemma success_ok config d t t' : on_success config d t = inr t' -> tab_ok P t -> tab_ok P t'.
Proof.
  intros H Ht. unfold on_success in H. cbv zeta in H.
  destruct (match acceptAuthRotation config with true => _ | false => _ end) as [e|t1] eqn:E; [done|].
  assert (tab_ok P t1) as Ht1.
  { destruct (acceptAuthRotation config); [|by simplify_eq].
    destruct (get (js "success") d) as [| |[]| | | |]; simplify_eq; try done. by eapply rotation_ok. }
  destruct (skipBusinessError config); [by simplify_eq|].
  destruct (get (js "success") d) as [| |[]| | | |]; simplify_eq; try done.
  apply emit_ok; [by repeat constructor|done].
Qed.

Lemma throw_ok e t : tab_ok P t -> tab_ok P (emit [FThrow e] t).
Proof. apply emit_ok. by repeat constructor. Qed.

Lemma failure_ok locks config err t : tab_ok P t -> tab_ok P (on_failure locks config err t).
Proof.
  intros Ht. unfold on_failure. cbv zeta. destruct (is_status _ _); [|by apply throw_ok, toast_ok].
  destruct config as [c|]; [|by apply throw_ok, toast_ok].
  destruct (negb (skipAuthRefresh c) && _); [by apply refresh_ok|].
  destruct (authRetry c); [by apply throw_ok, redirect_ok, toast_ok, clear_ok|].
  by apply throw_ok, toast_ok.
Qed.

Lemma authorize_retry a c : authRetry (authorize a c) = authRetry c.
Proof. unfold authorize. by cases. Qed.

Lemma resume_ok now o t w : waiter_ok w -> tab_ok P t -> tab_ok P (resume now o t w).
Proof.
  intros Hw Ht. destruct w as [| |c err]; cbn [resume].
  - apply emit_ok; [by repeat constructor|done].
  - unfold resume_headers. destruct o as [[]|]; try destruct (token_after _ _);
      (apply emit_ok; [by repeat constructor|done]).
  - unfold resume_retry. destruct o as [[]|]; try by apply throw_ok.
    + apply emit_ok; [|done]. apply Forall_singleton. simpl. by rewrite !authorize_retry.
    + by apply throw_ok, redirect_ok, toast_ok.
    + by apply throw_ok, redirect_ok, toast_ok.
Qed.

Lemma resume_all_ok now o ws t :
  Forall waiter_ok ws -> tab_ok P t -> tab_ok P (foldl (resume now o) t ws).
Proof.
  intros Hw. revert t. induction Hw as [|w ws Hw _ IH]; intros t Ht; [done|].
  simpl. by apply IH, resume_ok.
Qed.

Lemma finally_ok now o t : tab_ok P t -> tab_ok P (finally now o t).
Proof. intros (Ha & Hp & Hw & Hl). apply resume_all_ok; [done|]. by repeat split. Qed.

Lemma raw_ok v t : (P -> isAuthBundle v = true) -> tab_ok P t -> tab_ok P (applyRawBundle v t).
Proof.
  intros Hv Ht. unfold applyRawBundle. cbv zeta.
  assert (tab_ok P (set_auth (set_raw_bundle v) (set_epoch (authEpoch t + 1) t))).
  { apply set_auth_ok; [|by apply set_epoch_ok]. intros HP. specialize (Hv HP). unfold isAuthBundle in Hv. bsplit.
    destruct (valid_token_fields v) as (T1 & T2 & T3); [done|]. unfold auth_ok, set_raw_bundle, raw_session.
    cbn [accessToken accessExpiresAt session]. unfold hasValidTokenFields in *. bsplit.
    destruct (get (js "access_token") v); try done. destruct (get (js "access_expires_at") v); try done.
    assert (is_record (get (js "session") v) = true) as -> by (unfold isLoginSession in *; by bsplit).
    repeat split; try done. by apply valid_session. }
  destruct (raw_session _); [|by apply emit_ok; [repeat constructor|]]. destruct (negb _); [by apply publish_ok|done].
Qed.

Lemma step_ok locks e t t' : (P -> checked e) -> step locks e t = Some t' -> tab_ok P t -> tab_ok P t'.
Proof.
  intros Hc Hs Ht. pose proof Ht as (Ha & Hp & Hw & Hl).
  destruct e; simpl in Hs.
  - destruct (parseBundle value) eqn:E; simplify_eq/=. apply apply_ok; [intros _; by eapply parse_bundle_ok|done].
  - destruct (typed_answer value); simplify_eq/=. by apply raw_ok.
  - simplify_eq. by apply clear_client_ok.
  - simplify_eq. by apply clear_ok.
  - simplify_eq. by apply set_auth_ok.
  - simplify_eq. by apply set_auth_ok.
  - simplify_eq. destruct (deliver _ _ _) as [[]|]; [by apply peer_ok|done].
  - simplify_eq. by apply bootstrap_ok.
  - simplify_eq. by apply get_headers_ok.
  - simplify_eq. destruct (on_success _ _ _) eqn:E; [by apply throw_ok|by eapply success_ok].
  - simplify_eq. by apply failure_ok.
  - destruct (refreshPromise t) as [[]|]; simplify_eq. apply run_ok; [done|lia|done].
  - destruct (refreshPromise t) as [[]|]; simplify_eq. by apply settle_ok.
  - destruct (refreshPromise t) as [[]|]; simplify_eq. by apply on_response_ok; destruct Hp.
  - destruct (refreshPromise t) as [[]|]; simplify_eq. simpl in Hp. apply run_ok; [lia|lia|done].
  - destruct (refreshPromise t) as [[]|]; simplify_eq. by apply finally_ok.
Qed.

Lemma new_tab_ok p : tab_ok P (new_tab p).
Proof. by repeat split; constructor. Qed.
End operations.

(** Without a condition on the answers of the second factor, everything but the store is
    well formed. *)
Lemma step_ok_any locks e t t' : step locks e t = Some t' -> tab_ok False t -> tab_ok False t'.
Proof. by apply step_ok. Qed.

Lemma steps_ok locks t es t' : steps locks t es t' -> tab_ok False t -> tab_ok False t'.
Proof. apply runs_invariant. intros e s s'. apply step_ok_any. Qed.

Lemma steps_strict locks t es t' : steps locks t es t' -> Forall checked es -> tab_ok True t -> tab_ok True t'.
Proof.
  induction 1 as [|t e t1 es t2 Hs _ IH]; [done|]. intros [He Hes]%Forall_cons Ht. apply IH; [done|].
  exact (step_ok locks e t t1 (fun _ => He) Hs Ht).
Qed.

Lemma reachable_ok locks t : reachable locks t -> tab_ok False t.
Proof.
  apply reaches_invariant; [intros ? [p ->]; apply new_tab_ok|]. intros e s s'. apply step_ok_any.
Qed.

(** C1. In every reachable tab nobody waits for a refresh that does not exist, every
    published session event names a session, and the only requests the client sends
    again are marked as retries.  As long as every answer of the second factor was one
    [isAuthBundle] accepts, which the form does not check, the access token, its expiry
    and the session are also present together or absent together, and when present the
    token and the session id are not empty and the expiry is finite and positive. *)
Theorem reachable_tab_ok locks p es t :
  steps locks (new_tab p) es t -> tab_ok (Forall checked es) t.
Proof.
  intros Hs. destruct (steps_ok _ _ _ _ Hs (new_tab_ok p)) as (_ & Hp). split; [|done].
  intros Hc. by apply (steps_strict _ _ _ _ Hs Hc (new_tab_ok p)).
Qed.

(** The condition is needed: an answer of the second factor without a session leaves a
    token in the store that belongs to no session, and makes the form fail. *)
Theorem unchecked_second_factor t v tok :
  typed_answer v = true -> get (js "access_token") v = VStr tok -> get (js "session") v = VUndef ->
  exists t', step false (ESecondFactor v) t = Some t' /\ accessToken (auth t') = Some tok /\
    session (auth t') = None /\ last (log t') = Some (FThrow (VStr (js "TypeError"))).
Proof.
  intros Ht Htok Hs. cbn [step]. rewrite Ht. eexists. split; [reflexivity|]. unfold applyRawBundle, raw_session. cbv zeta.
  rewrite Hs. cbn [is_record emit log auth set_auth]. unfold set_raw_bundle, raw_session. rewrite Htok, Hs.
  split; [done|]. split; [done|]. apply last_snoc.
Qed.

(** ** Overtaken refreshes *)

Definition run_epoch (r : RunState) : option Z :=
  match r with
  | AwaitLock ep | AwaitResponse ep _ _ | AwaitDelay ep _ _ => Some ep
  | Settled _ => None
  end.

(** The events that move the refresh itself. *)
Definition runner_event (e : event) : bool :=
  match e with
  | ELockGranted | ELockRejected _ | ERefreshResponse _ | EDelayOver => true
  | _ => false
  end.

(** C2. A refresh that was overtaken (the epoch has moved since it started) changes
    nothing when its lock, response or delay arrives, whatever the server answered: the
    store, the epoch and the log stay as they are, and it settles as superseded or with
    the lock's error. *)
Theorem overtaken_refresh_inert locks e t t' r ep :
  refreshPromise t = Some r -> run_epoch r = Some ep -> ep <> authEpoch t ->
  runner_event e = true -> step locks e t = Some t' ->
  auth t' = auth t /\ authEpoch t' = authEpoch t /\ log t' = log t /\
  exists o, refreshPromise t' = Some (Settled o) /\
    (o = Resolved (TransientError Superseded) \/ exists err, e = ELockRejected err /\ o = Rejected err).
Proof.
  intros Hr Hep Hne He Hs.
  destruct e; try done; cbn [step] in Hs; rewrite Hr in Hs; destruct r; simplify_eq/=;
    unfold run, on_response;
    rewrite ?(proj2 (Z.eqb_neq (authEpoch t) ep)) by congruence; simpl; eauto 10.
Qed.

(** No session, and every refresh under way is overtaken. *)
Definition signed_out (t : Tab) : Prop :=
  session (auth t) = None /\ accessToken (auth t) = None /\
  exists r, refreshPromise t = Some r /\ forall ep, run_epoch r = Some ep -> (ep < authEpoch t)%Z.

Lemma signed_out_emit es t : signed_out t -> signed_out (emit es t).
Proof. done. Qed.

Lemma signed_out_set_auth f t :
  session (f (auth t)) = None -> accessToken (f (auth t)) = None -> signed_out t ->
  signed_out (set_auth f t).
Proof. intros H1 H2 (_ & _ & H). done. Qed.

Lemma signed_out_clear sync b t :
  (exists r, refreshPromise t = Some r /\ forall ep, run_epoch r = Some ep -> (ep <= authEpoch t)%Z) ->
  signed_out (clearAuthentication sync b t).
Proof.
  intros (r & Hr & Hep).
  assert (signed_out (set_auth (reset b) (set_epoch (authEpoch t + 1) t))) as H.
  { split; [done|]. split; [done|]. exists r. split; [done|]. intros ep He. simpl.
    specialize (Hep ep He). lia. }
  unfold clearAuthentication, publishAuthSessionEvent. cases; by try apply signed_out_emit.
Qed.

Lemma signed_out_le t :
  signed_out t -> exists r, refreshPromise t = Some r /\ forall ep, run_epoch r = Some ep -> (ep <= authEpoch t)%Z.
Proof. intros (_ & _ & r & Hr & H). exists r. split; [done|]. intros ep He. specialize (H ep He). lia. Qed.

Lemma signed_out_refresh locks w t : signed_out t -> signed_out (refreshAuthentication locks w t).
Proof.
  intros H. pose proof H as (H1 & H2 & r & Hr & Hep). unfold refreshAuthentication. rewrite Hr.
  split; [done|]. split; [done|]. by exists r.
Qed.

Lemma signed_out_rotation v t : signed_out t -> exists e, applyAuthRotation v t = inl e.
Proof.
  intros (H1 & _). unfold applyAuthRotation. rewrite H1.
  destruct (negb _); [eauto|]. destruct (user _); eauto.
Qed.

Lemma signed_out_success config d t t' :
  signed_out t -> on_success config d t = inr t' -> signed_out t'.
Proof.
  intros Ht H. unfold on_success in H.
  destruct (signed_out_rotation (get (js "data") d) t Ht) as [e He].
  rewrite He in H. cases; by try apply signed_out_emit.
Qed.

Lemma signed_out_settled o t : signed_out t -> signed_out (settle o t).
Proof. intros (? & ? & _). split; [done|]. split; [done|]. by eexists. Qed.

Lemma signed_out_failure locks config err t :
  signed_out t -> signed_out (on_failure locks config err t).
Proof.
  intros Ht. unfold on_failure, redirectToSignIn, toast.
  destruct (is_status _ _); [|cases; by repeat apply signed_out_emit].
  destruct config as [c|]; [|cases; by repeat apply signed_out_emit].
  destruct (negb (skipAuthRefresh c) && _); [by apply signed_out_refresh|].
  destruct (authRetry c); [|cases; by repeat apply signed_out_emit].
  pose proof (signed_out_clear false Complete t (signed_out_le t Ht)) as Hc.
  destruct (skipErrorHandler c), (negb _); by repeat apply signed_out_emit.
Qed.

Lemma signed_out_step locks e t t' :
  match e with ELogin _ | ESecondFactor _ | EFinally _ => False | _ => True end ->
  signed_out t -> step locks e t = Some t' -> signed_out t'.
Proof.
  intros He Ht Hs. pose proof Ht as (H1 & H2 & r & Hr & Hep).
  pose proof (signed_out_le t Ht) as Hle.
  destruct e; try done; cbn [step] in Hs.
  1-9: simplify_eq.
  - apply signed_out_clear. done.
  - by apply signed_out_clear.
  - by apply signed_out_set_auth.
  - by apply signed_out_set_auth.
  - destruct (deliver _ _ _) as [[[] ?]|]; [..|done]; unfold on_peer_event, current_sid; by rewrite H1.
  - unfold bootstrapAuthentication, currentValidAuthBundle. rewrite H1, H2.
    destruct (user (auth t)), (bootstrapState (auth t)), (accessExpiresAt (auth t));
      first [by apply signed_out_emit | by apply signed_out_refresh, signed_out_set_auth].
  - unfold getFreshAuthHeaders, token_after. rewrite H2. by apply signed_out_refresh.
  - destruct (on_success _ _ _) eqn:E; [by apply signed_out_emit|by eapply signed_out_success].
  - by apply signed_out_failure.
  - rewrite Hr in Hs. destruct r; simplify_eq. specialize (Hep _ eq_refl). unfold run.
    rewrite (proj2 (Z.eqb_neq _ _)) by lia. by apply signed_out_settled.
  - rewrite Hr in Hs. destruct r; simplify_eq. by apply signed_out_settled.
  - rewrite Hr in Hs. destruct r; simplify_eq. specialize (Hep _ eq_refl). unfold on_response.
    rewrite (proj2 (Z.eqb_neq _ _)) by lia. by apply signed_out_settled.
  - rewrite Hr in Hs. destruct r; simplify_eq. specialize (Hep _ eq_refl). unfold run.
    rewrite (proj2 (Z.eqb_neq _ _)) by lia. by apply signed_out_settled.
Qed.

(** C3. A refresh under way when the user signs out never signs the tab in again: until
    its [finally] runs, no sequence of events other than a new sign-in brings a session
    or a token back. *)
Theorem sign_out_sticks locks sync t r es t1 t2 :
  reachable locks t -> refreshPromise t = Some r ->
  step locks (ESignOut sync) t = Some t1 -> steps locks t1 es t2 ->
  Forall (fun e => match e with ELogin _ | ESecondFactor _ | EFinally _ => False | _ => True end) es ->
  session (auth t2) = None /\ accessToken (auth t2) = None.
Proof.
  intros Ht Hr Hs Hsteps Hes. pose proof (reachable_ok _ _ Ht) as (_ & Hp & _ & _).
  assert (signed_out t1) as H1.
  { simpl in Hs. simplify_eq. apply signed_out_clear. simpl. rewrite Hr in *. eexists. split; [done|].
    intros ep Hep. destruct r; simplify_eq/=; lia. }
  clear Hs Hr Hp Ht. induction Hsteps as [|t1 e t1' es t2 Hstep _ IH].
  - by destruct H1 as (? & ? & _).
  - inversion Hes; subst. apply IH; [done|]. by apply (signed_out_step locks e t1).
Qed.

(** ** Bounds of a refresh *)

(** Requests the refresh may still send, and steps it may still take. *)
Definition request_budget (r : RunState) : nat :=
  match r with
  | AwaitLock _ => 8
  | AwaitResponse _ a allow => (3 - a) + if allow then 4 else 0
  | AwaitDelay _ a allow => (4 - a) + if allow then 4 else 0
  | Settled _ => 0
  end.

Definition step_budget (r : RunState) : nat :=
  match r with
  | AwaitLock _ => 15
  | AwaitResponse _ a allow => (7 - 2 * a) + if allow then 7 else 0
  | AwaitDelay _ a allow => (8 - 2 * a) + if allow then 7 else 0
  | Settled _ => 0
  end.

Definition is_request (e : effect) : bool := match e with FRequest _ => true | _ => false end.
Definition requests (l : list effect) : nat := length (bfilter is_request l).

Lemma requests_app a b : requests (a ++ b) = requests a + requests b.
Proof. unfold requests. by rewrite List.filter_app, length_app. Qed.

(** What an operation other than the runner does to the refresh: nothing. *)
Definition same_refresh (t t' : Tab) : Prop :=
  refreshPromise t' = refreshPromise t /\ requests (log t') = requests (log t).

Lemma same_refresh_refl t : same_refresh t t.
Proof. done. Qed.

Lemma same_refresh_trans t1 t2 t3 : same_refresh t1 t2 -> same_refresh t2 t3 -> same_refresh t1 t3.
Proof. unfold same_refresh. intuition congruence. Qed.

Lemma same_refresh_emit es t t' :
  bfilter is_request es = [] -> same_refresh t t' -> same_refresh t (emit es t').
Proof.
  intros He [H1 H2]. split; [done|]. simpl. rewrite requests_app, H2. unfold requests at 2.
  rewrite He. simpl. lia.
Qed.

Lemma same_refresh_set_auth f t t' : same_refresh t t' -> same_refresh t (set_auth f t').
Proof.
  intros [H1 H2]. split; [done|]. simpl. rewrite requests_app, H2.
  destruct (same_sid _ _); simpl; unfold requests; simpl; lia.
Qed.

Lemma same_refresh_clear sync b t t' :
  same_refresh t t' -> same_refresh t (clearAuthentication sync b t').
Proof.
  intros H. assert (same_refresh t (set_auth (reset b) (set_epoch (authEpoch t' + 1) t'))) as H1.
  { by apply same_refresh_set_auth. }
  unfold clearAuthentication, publishAuthSessionEvent. cases; by try apply same_refresh_emit.
Qed.

Lemma same_refresh_apply b sync t t' :
  same_refresh t t' -> same_refresh t (applyAuthBundle b sync t').
Proof.
  intros H. assert (same_refresh t (set_auth (setBundle b) (set_epoch (authEpoch t' + 1) t'))) as H1.
  { by apply same_refresh_set_auth. }
  unfold applyAuthBundle, publishAuthSessionEvent. cases; by try apply same_refresh_emit.
Qed.

Lemma same_refresh_raw v t t' : same_refresh t t' -> same_refresh t (applyRawBundle v t').
Proof.
  intros H. assert (same_refresh t (set_auth (set_raw_bundle v) (set_epoch (authEpoch t' + 1) t'))) as H1.
  { by apply same_refresh_set_auth. }
  unfold applyRawBundle, publishAuthSessionEvent. cbv zeta. cases; by try apply same_refresh_emit.
Qed.

Lemma same_refresh_runtime_clear s b t t' :
  same_refresh t t' -> same_refresh t (runtime_clear s b t').
Proof.
  intros H. unfold runtime_clear.
  destruct s; [by apply same_refresh_clear|]. destruct b as [[]|]; try by apply same_refresh_clear.
  by apply same_refresh_set_auth.
Qed.

(** Joining a refresh under way leaves it alone and sends nothing. *)
Lemma same_refresh_join locks w t :
  refreshPromise t <> None -> same_refresh t (refreshAuthentication locks w t).
Proof. intros H. unfold refreshAuthentication. by destruct (refreshPromise t). Qed.

Lemma same_refresh_success config d t t' :
  on_success config d t = inr t' -> same_refresh t t'.
Proof.
  intros H. unfold on_success in H. cbv zeta in H.
  destruct (match acceptAuthRotation config with true => _ | false => _ end) as [e|t1] eqn:E; [done|].
  assert (same_refresh t t1) as Ht1.
  { destruct (acceptAuthRotation config); [|by simplify_eq].
    destruct (get (js "success") d) as [| |[]| | | |]; simplify_eq; try done.
    unfold applyAuthRotation in E. cases; by apply same_refresh_apply. }
  destruct (skipBusinessError config); [by simplify_eq|].
  destruct (get (js "success") d) as [| |[]| | | |]; simplify_eq; try done.
  by apply same_refresh_emit.
Qed.

Lemma same_refresh_failure locks config err t :
  refreshPromise t <> None -> same_refresh t (on_failure locks config err t).
Proof.
  intros Hr. unfold on_failure, redirectToSignIn, toast.
  pose proof (same_refresh_refl t) as H0.
  pose proof (same_refresh_clear false Complete t t H0) as Hc.
  destruct (is_status _ _); [|cases; by repeat apply same_refresh_emit].
  destruct config as [c|]; [|cases; by repeat apply same_refresh_emit].
  destruct (negb (skipAuthRefresh c) && _); [by apply same_refresh_join|].
  destruct (authRetry c); [|cases; by repeat apply same_refresh_emit].
  destruct (skipErrorHandler c), (negb _); by repeat apply same_refresh_emit.
Qed.

Lemma same_refresh_step locks e t t' :
  refreshPromise t <> None -> runner_event e = false ->
  match e with EFinally _ => False | _ => True end ->
  step locks e t = Some t' -> same_refresh t t'.
Proof.
  intros Hr He Hf Hs. pose proof (same_refresh_refl t) as H0.
  destruct e; try done; cbn [step] in Hs.
  - destruct (parseBundle value); simplify_eq/=. by apply same_refresh_apply.
  - destruct (typed_answer value); simplify_eq/=. by apply same_refresh_raw.
  - simplify_eq. by apply same_refresh_clear, same_refresh_emit.
  - simplify_eq. by apply same_refresh_clear.
  - simplify_eq. by apply same_refresh_set_auth.
  - simplify_eq. by apply same_refresh_set_auth.
  - simplify_eq. destruct (deliver _ _ _) as [[[] s]|]; [..|done]; unfold on_peer_event; cases;
      repeat first [done | apply same_refresh_emit; [done|] | apply same_refresh_clear].
  - simplify_eq. unfold bootstrapAuthentication.
    destruct (currentValidAuthBundle _ _).
    { by apply same_refresh_emit, same_refresh_set_auth. }
    assert (same_refresh t (refreshAuthentication locks WBootstrap (set_auth (setBootstrapState Checking) t))).
    { eapply same_refresh_trans; [by apply same_refresh_set_auth|]. by apply same_refresh_join. }
    cases; try done; by apply same_refresh_emit.
  - simplify_eq. unfold getFreshAuthHeaders.
    destruct (token_after _ _); [by apply same_refresh_emit|by apply same_refresh_join].
  - simplify_eq. destruct (on_success _ _ _) eqn:E; [by apply same_refresh_emit|].
    by eapply same_refresh_success.
  - simplify_eq. by apply same_refresh_failure.
Qed.

(** What [run] and the handling of a response do to the budgets. *)
Definition within (n m : nat) (t t' : Tab) : Prop :=
  exists r, refreshPromise t' = Some r /\
    requests (log t') + request_budget r <= requests (log t) + n /\ step_budget r <= m.

Lemma settle_within n m o t t' : same_refresh t t' -> within n m t (settle o t').
Proof. intros [_ H]. eexists. split; [done|]. simpl. rewrite H. lia. Qed.

Lemma run_within ep a (allow : bool) n m t t' :
  same_refresh t t' -> (4 - a) + (if allow then 4 else 0) <= n ->
  (7 - 2 * a) + (if allow then 7 else 0) <= m -> a <= 3 -> within n m t (run ep a allow t').
Proof.
  intros Hs Hn Hm Ha. unfold run. destruct (negb _); [by apply settle_within|].
  destruct Hs as [_ Hs]. eexists. split; [done|]. simpl. rewrite requests_app, Hs.
  unfold requests at 2. simpl. destruct allow; lia.
Qed.

Lemma response_within ep a allow r t :
  a <= 3 ->
  within (request_budget (AwaitResponse ep a allow)) (step_budget (AwaitResponse ep a allow) - 1) t
    (on_response ep a allow r t).
Proof.
  intros Ha. pose proof (same_refresh_refl t) as H0. unfold on_response.
  destruct (negb _); [by apply settle_within|].
  destruct (response_bundle r); [by apply settle_within, same_refresh_apply|].
  unfold on_refusal. cbv zeta. destruct (_ && _).
  { destruct (refreshRaceDelays !! a) eqn:Ed; [|by apply settle_within, same_refresh_runtime_clear].
    apply race_delay_lt in Ed. eexists. split; [done|]. simpl. rewrite requests_app.
    unfold requests at 2. simpl. destruct allow; lia. }
  destruct (_ && _).
  { destruct allow; [|by apply settle_within, same_refresh_runtime_clear].
    apply run_within; [by apply same_refresh_runtime_clear|simpl; lia..]. }
  destruct (_ =? _)%Z; [by apply settle_within, same_refresh_runtime_clear|].
  destruct (_ || _); [|by apply settle_within, same_refresh_runtime_clear].
  by apply settle_within, same_refresh_set_auth.
Qed.

Lemma runner_within locks e t t' r :
  tab_ok False t -> refreshPromise t = Some r -> runner_event e = true -> step locks e t = Some t' ->
  1 <= step_budget r /\ within (request_budget r) (step_budget r - 1) t t'.
Proof.
  intros (_ & Hp & _) Hr He Hs. rewrite Hr in Hp. pose proof (same_refresh_refl t) as H0.
  destruct e; try done; cbn [step] in Hs; rewrite Hr in Hs; destruct r as [ep|ep a al|ep a al|];
    simplify_eq; (split; [simpl in *; destruct al || idtac; lia|]).
  - apply run_within; [done|simpl; lia..].
  - by apply settle_within.
  - apply response_within. by destruct Hp.
  - simpl in Hp. apply run_within; [done|simpl; lia..].
Qed.

Lemma refresh_budget locks t es t' r :
  tab_ok False t -> refreshPromise t = Some r -> steps locks t es t' ->
  Forall (fun e => match e with EFinally _ => False | _ => True end) es ->
  within (request_budget r) (step_budget r - length (bfilter runner_event es)) t t' /\
  length (bfilter runner_event es) <= step_budget r.
Proof.
  intros Ht Hr Hs. revert r Ht Hr.
  induction Hs as [t|t e t1 es t2 Hstep Hs IH]; intros r Ht Hr Hf.
  { split; [|simpl; lia]. exists r. simpl. split; [done|]. lia. }
  inversion Hf as [|? ? Hfe Hf']; subst. pose proof (step_ok_any _ _ _ _ Hstep Ht) as Ht1.
  cbn [List.filter]. destruct (runner_event e) eqn:He.
  - destruct (runner_within locks e t t1 r Ht Hr He Hstep) as [Hpos (r1 & Hr1 & Hq & Hst)].
    destruct (IH r1 Ht1 Hr1 Hf') as [(r2 & Hr2 & Hq2 & Hst2) Hlen]. cbn [length].
    split; [|lia]. exists r2. split; [done|]. lia.
  - assert (same_refresh t t1) as [E1 E2] by (apply (same_refresh_step locks e); [by rewrite Hr|done..]).
    destruct (IH r Ht1 ltac:(congruence) Hf') as [(r2 & Hr2 & Hq2 & Hst2) Hlen].
    split; [|done]. exists r2. split; [done|]. lia.
Qed.

(** C4. A refresh ends: from the moment it is under way until its [finally], whatever
    else happens in the tab, it takes at most 15 steps (lock, responses, delays) and
    sends at most 8 requests in all, and after its last step it is settled. *)
Theorem refresh_bounded locks t es t' r :
  reachable locks t -> refreshPromise t = Some r -> steps locks t es t' ->
  Forall (fun e => match e with EFinally _ => False | _ => True end) es ->
  length (bfilter runner_event es) <= 15 /\ requests (log t') <= requests (log t) + 8 /\
  (length (bfilter runner_event es) = step_budget r -> exists o, refreshPromise t' = Some (Settled o)).
Proof.
  intros Ht Hr Hs Hf. apply reachable_ok in Ht.
  destruct (refresh_budget locks t es t' r Ht Hr Hs Hf) as [(r2 & Hr2 & Hq & Hst) Hlen].
  assert (request_budget r <= 8 /\ step_budget r <= 15) as [B1 B2].
  { destruct Ht as (_ & Hp & _). rewrite Hr in Hp. destruct r as [|? ? []|? ? []|]; simpl in *; lia. }
  split; [lia|]. split; [lia|]. intros Heq.
  assert (step_budget r2 = 0) as H0 by lia. rewrite Hr2.
  assert (tab_ok False t') as (_ & Hp2 & _) by (by eapply steps_ok). rewrite Hr2 in Hp2.
  destruct r2 as [|? ? []|? ? []|o]; simpl in *; try lia. eauto.
Qed.

(** A tab with a refresh under way in which the server keeps refusing. *)
Definition race_409 : AxiosResult :=
  AxiosFailed (Some (409%Z, VObj [(js "code", VStr (js "AUTH_REFRESH_RACE"))])) VUndef.
Definition mismatch_409 : AxiosResult :=
  AxiosFailed (Some (409%Z, VObj [(js "code", VStr (js "AUTH_SESSION_MISMATCH"))])) VUndef.

Definition start_events : list event := [EBootstrap 0].
Definition refusal_events : list event :=
  [ERefreshResponse race_409; EDelayOver; ERefreshResponse race_409; EDelayOver;
   ERefreshResponse race_409; EDelayOver; ERefreshResponse mismatch_409;
   ERefreshResponse race_409; EDelayOver; ERefreshResponse race_409; EDelayOver;
   ERefreshResponse race_409; EDelayOver; ERefreshResponse race_409].

Definition started : Tab := default (new_tab []) (exec (tab_machine false) start_events (new_tab (js "/"))).
Definition refused : Tab := default (new_tab []) (exec (tab_machine false) refusal_events started).

Lemma refresh_bounded_witness :
  requests (log refused) <= requests (log started) + 8 /\ requests (log refused) = 8 /\
  exists o, refreshPromise refused = Some (Settled o).
Proof.
  destruct (refresh_bounded false started refusal_events refused (AwaitResponse 0 0 true))
    as (H1 & H2 & H3).
  - exists (new_tab (js "/")), start_events. split; [by eexists|]. apply exec_runs. vm_compute. reflexivity.
  - vm_compute. reflexivity.
  - apply exec_runs. vm_compute. reflexivity.
  - by repeat constructor.
  - split; [exact H2|]. split; [vm_compute; reflexivity|]. apply H3. vm_compute. reflexivity.
Defined.

(** ** Witnesses *)

Definition ex_session : jsval :=
  VObj [(js "sid", VStr (js "s1")); (js "current", VBool true); (js "login_method", VStr (js "password"));
        (js "ip", VStr (js "10.0.0.1")); (js "user_agent", VStr (js "ua"));
        (js "created_at", VNum (num_of_Z 1)); (js "last_active_at", VNum (num_of_Z 1));
        (js "expires_at", VNum (num_of_Z 9000000))].

Definition ex_bundle : jsval :=
  VObj [(js "access_token", VStr (js "tok")); (js "token_type", VStr (js "Bearer"));
        (js "access_expires_at", VNum (num_of_Z 1000));
        (js "user", VObj [(js "id", VNum (num_of_Z 7)); (js "username", VStr (js "ann"));
                          (js "role", VNum (num_of_Z 1))]);
        (js "session", ex_session)].

Definition ex_success : AxiosResult :=
  AxiosOk 200 (VObj [(js "success", VBool true); (js "data", ex_bundle)]).

(** Signed in, token about to expire, refresh under way. *)
Definition refreshing_events : list event := [ELogin ex_bundle; EGetHeaders 999000].
Definition refreshing : Tab :=
  default (new_tab []) (exec (tab_machine false) refreshing_events (new_tab (js "/dashboard"))).
Definition signed_out_tab : Tab :=
  default (new_tab []) (step false (ESignOut true) refreshing).

Lemma refreshing_reachable : reachable false refreshing.
Proof.
  exists (new_tab (js "/dashboard")), refreshing_events. split; [by eexists|].
  apply exec_runs. vm_compute. reflexivity.
Qed.

Lemma reachable_tab_ok_witness : tab_ok (Forall checked refreshing_events) refreshing /\ Forall checked refreshing_events /\
  accessToken (auth refreshing) = Some (js "tok").
Proof.
  split; [apply (reachable_tab_ok false (js "/dashboard")); apply exec_runs; vm_compute; reflexivity|].
  split; [by repeat constructor|vm_compute; reflexivity].
Defined.

Lemma overtaken_refresh_inert_witness :
  auth (default (new_tab []) (step false (ERefreshResponse ex_success) signed_out_tab)) = auth signed_out_tab.
Proof.
  apply (overtaken_refresh_inert false (ERefreshResponse ex_success) signed_out_tab
           (default (new_tab []) (step false (ERefreshResponse ex_success) signed_out_tab))
           (AwaitResponse 1 0 true) 1);
    [vm_compute; reflexivity|reflexivity|vm_compute; congruence|reflexivity|vm_compute; reflexivity].
Defined.

Lemma sign_out_sticks_witness :
  session (auth (default (new_tab []) (step false (ERefreshResponse ex_success) signed_out_tab))) = None.
Proof.
  apply (sign_out_sticks false true refreshing (AwaitResponse 1 0 true) [ERefreshResponse ex_success]
           signed_out_tab (default (new_tab []) (step false (ERefreshResponse ex_success) signed_out_tab))).
  - exact refreshing_reachable.
  - vm_compute. reflexivity.
  - vm_compute. reflexivity.
  - apply exec_runs. vm_compute. reflexivity.
  - by repeat constructor.
Defined.

(** ** Rotation *)

(** Applying a token rotation: it is refused, with the message of the first failing
    check and the tab untouched, when the value is not a rotation, when there is no user
    or session, or when it is for another session; otherwise the token, its expiry and
    the session are replaced, the user and the session id stay, the epoch advances and no
    event is published. *)
Theorem rotation_spec v t :
  match applyAuthRotation v t with
  | inl RInvalid => isAuthTokenRotation v = false
  | inl RNoSession =>
      isAuthTokenRotation v = true /\ (user (auth t) = None \/ session (auth t) = None)
  | inl RMismatch =>
      isAuthTokenRotation v = true /\
      exists s, session (auth t) = Some s /\ sid s <> sid (session_of (get (js "session") v))
  | inr t' =>
      isAuthTokenRotation v = true /\ user (auth t) <> None /\
      user (auth t') = user (auth t) /\ current_sid (auth t') = current_sid (auth t) /\
      accessToken (auth t') = Some (v_str (get (js "access_token") v)) /\
      accessExpiresAt (auth t') = Some (v_num (get (js "access_expires_at") v)) /\
      authEpoch t' = (authEpoch t + 1)%Z /\ log t' = log t
  end.
Proof.
  unfold applyAuthRotation. destruct (isAuthTokenRotation v); [|done]. cbn [negb].
  generalize (session_of (get (js "session") v)) as ns. intros ns.
  destruct (user (auth t)) as [u|] eqn:Eu; [|by auto].
  destruct (session (auth t)) as [s|] eqn:Es; [|by auto].
  destruct (_ =s _) eqn:E; cbn [negb].
  - apply jeqb_eq in E. unfold applyAuthBundle, current_sid. cbn -[js get v_str v_num].
    unfold current_sid. rewrite Es. cbn -[js get v_str v_num]. rewrite E, jeqb_refl.
    repeat split; try done. apply app_nil_r.
  - apply jeqb_neq in E. split; [done|]. exists s. split; [done|]. congruence.
Qed.

(** ** Tabs *)

Definition is_publish (e : effect) : bool := match e with FPublish _ _ => true | _ => false end.

Lemma publish_set_auth f t :
  bfilter is_publish (log (set_auth f t)) = bfilter is_publish (log t).
Proof.
  unfold set_auth. cbn [log]. rewrite List.filter_app.
  destruct (same_sid (current_sid (f (auth t))) (current_sid (auth t))); apply app_nil_r.
Qed.

(** A session event posted by one tab reaches every other tab within a minute, and
    never the tab that posted it. *)
Theorem published_event_delivered kind s source source' nonce now ts :
  s <> [] -> n_ltb (n_abs (n_sub now ts)) (num_of_Z 60000) = true ->
  deliver source now (sync_event kind s source nonce ts) = None /\
  (source' <> source -> deliver source' now (sync_event kind s source nonce ts) = Some (kind, s)).
Proof.
  intros Hs Ht. apply truthy_spec in Hs.
  assert (isAuthSessionSyncEvent (sync_event kind s source nonce ts) = true) as Hev.
  { unfold isAuthSessionSyncEvent.
    change (is_nonempty_string (get (js "sid") (sync_event kind s source nonce ts))) with (truthy s).
    rewrite Hs.
    by destruct kind. }
  unfold deliver. rewrite Hev. split.
  - change (v_str (get (js "source") (sync_event kind s source nonce ts))) with source.
    by rewrite jeqb_refl.
  - intros Hne. change (v_str (get (js "source") (sync_event kind s source nonce ts))) with source.
    change (v_num (get (js "timestamp") (sync_event kind s source nonce ts))) with ts. rewrite Ht.
    assert ((source =s source') = false) as -> by (apply jeqb_neq; congruence).
    by destruct kind.
Qed.

Lemma published_event_delivered_witness :
  deliver (js "b") (num_of_Z 5000) (sync_event SyncSignedOut (js "s1") (js "a") (js "n") (num_of_Z 4000))
  = Some (SyncSignedOut, js "s1").
Proof.
  apply published_event_delivered; [done|vm_compute; reflexivity|done].
Defined.

(** Tabs do not echo: reacting to another tab's event never publishes one; the event
    of another sign-in makes the tab reload, dropping its own session first; a sign-out
    only concerns a tab that is in the very session it names. *)
Theorem peer_events_do_not_echo kind s t :
  bfilter is_publish (log (on_peer_event kind s t)) = bfilter is_publish (log t) /\
  (kind = SyncSignedOut -> current_sid (auth t) <> Some s -> on_peer_event kind s t = t) /\
  (kind = SyncSignedOut -> s <> [] -> current_sid (auth t) = Some s ->
     session (auth (on_peer_event kind s t)) = None) /\
  (kind = SyncAuthenticated -> current_sid (auth t) <> Some s ->
     last (log (on_peer_event kind s t)) = Some FReload).
Proof.
  assert (forall b t0, bfilter is_publish (log (clearAuthentication false b t0)) = bfilter is_publish (log t0)) as Hc.
  { intros b t0. unfold clearAuthentication. cbn [andb].
    transitivity (bfilter is_publish (log (set_auth (reset b) (set_epoch (authEpoch t0 + 1) t0))));
      [by destruct (current_sid (auth t0))|]. by rewrite publish_set_auth. }
  split; [|split; [|split]].
  - unfold on_peer_event, clearAuthenticatedClientState. destruct kind.
    + destruct (same_sid _ _); [done|]. simpl. rewrite List.filter_app. simpl. rewrite app_nil_r.
      destruct (current_sid (auth t)); [|done]. destruct (truthy _); [apply Hc|done].
    + destruct (current_sid (auth t)); [|done]. destruct (_ && _); [|done]. simpl.
      rewrite List.filter_app, Hc. simpl. by rewrite List.filter_app, !app_nil_r.
  - intros -> Hne. unfold on_peer_event. destruct (current_sid (auth t)) as [c|]; [|done].
    assert ((s =s c) = false) as -> by (apply jeqb_neq; congruence). by rewrite andb_false_r.
  - intros -> Hs Hcur. unfold on_peer_event. rewrite Hcur.
    rewrite (proj2 (truthy_spec s) Hs), jeqb_refl. simpl.
    unfold clearAuthenticatedClientState, clearAuthentication. by cases.
  - intros -> Hne. unfold on_peer_event.
    assert (same_sid (Some s) (current_sid (auth t)) = false) as ->.
    { destruct (current_sid (auth t)); [|done]. simpl. apply jeqb_neq. congruence. }
    simpl. by rewrite last_snoc.
Qed.

(** ** Retries *)

Lemma clear_silent b t :
  exists es, log (clearAuthentication false b t) = log t ++ es /\
    Forall (fun e => match e with FSend _ => False | _ => True end) es /\
    session (auth (clearAuthentication false b t)) = None /\
    accessToken (auth (clearAuthentication false b t)) = None /\
    pathname (clearAuthentication false b t) = pathname t.
Proof.
  assert (clearAuthentication false b t = set_auth (reset b) (set_epoch (authEpoch t + 1) t)) as ->.
  { unfold clearAuthentication. by destruct (current_sid (auth t)). }
  eexists. split; [reflexivity|]. split; [|done].
  destruct (same_sid (current_sid _) _); by repeat constructor.
Qed.

(** A request is sent again at most once: a 401 answer to a request not yet retried
    only queues it, marked, behind the refresh; a 401 answer to a marked request sends
    nothing, ends the session and redirects to the sign-in page. *)
Theorem retry_once locks config err t :
  is_status 401 (get (js "status") (get (js "response") err)) = true ->
  let t' := on_failure locks (Some config) err t in
  (authRetry config = true ->
     session (auth t') = None /\ accessToken (auth t') = None /\
     Forall (fun e => match e with FSend _ => False | _ => True end) (drop (length (log t)) (log t')) /\
     (pathname t <> js "/sign-in" -> FRedirect (js "/sign-in") ∈ log t')) /\
  (authRetry config = false -> skipAuthRefresh config = false ->
     waiters t' = waiters t ++ [WRetry (with_retry config) err] /\
     authRetry (with_retry config) = true /\ refreshPromise t' <> None).
Proof.
  intros H401. cbv zeta. unfold on_failure. rewrite H401. split.
  - intros ->. rewrite andb_false_r. cbv iota.
    destruct (clear_silent Complete t) as (es & Hlog & Hes & Hsess & Htok & Hpath).
    revert Hlog Hsess Htok Hpath. generalize (clearAuthentication false Complete t) as tc.
    intros tc Hlog Hsess Htok Hpath. unfold redirectToSignIn, toast.
    destruct (skipErrorHandler config), (pathname t =s js "/sign-in") eqn:Ep;
      cbn [emit auth log pathname]; rewrite Hpath, Ep; cbn [negb emit auth log];
      rewrite Hlog, <- ?app_assoc, drop_app_length;
      (split; [done|]); (split; [done|]);
      (split; [rewrite ?Forall_app; repeat split; try done; by apply Forall_singleton|]).
    all: intros Hne; try by (apply jeqb_eq in Ep).
    all: rewrite !elem_of_app, !list_elem_of_singleton; tauto.
  - intros -> ->. cbn [negb andb]. unfold refreshAuthentication, run, settle.
    destruct (refreshPromise t) eqn:E; [by simpl; rewrite E|].
    destruct locks; [done|]. by destruct (negb _).
Qed.

Definition ex_config (retry : bool) : ApiRequestConfig :=
  {| url := js "/api/user/self"; params := None; headers := []; skipErrorHandler := false;
     skipBusinessError := false; skipAuthRefresh := false; authRetry := retry;
     acceptAuthRotation := false; disableDuplicate := false |}.

Definition ex_401 : jsval := VObj [(js "response", VObj [(js "status", VNum (num_of_Z 401))])].

Lemma retry_once_witness :
  session (auth (on_failure false (Some (ex_config true)) ex_401 refreshing)) = None.
Proof. apply (retry_once false (ex_config true) ex_401 refreshing); vm_compute; reflexivity. Defined.

(** Headers for a streaming request never carry an expired token on the strength of
    the stored expiry: when [getFreshAuthHeaders] answers without a successful refresh,
    the stored token is there, its expiry is after the current second, and the headers
    carry it; otherwise it rejects with the message of the failure. *)
Theorem fresh_headers_unexpired now oc t :
  match oc with Authenticated _ => False | _ => True end ->
  (exists tok exp,
     accessToken (auth t) = Some tok /\ accessExpiresAt (auth t) = Some exp /\ tok <> [] /\
     n_ltb (seconds now) exp = true /\
     log (resume_headers now (Resolved oc) t) = log t ++
       [FHeaders (Resolved [(js "Content-Type", js "application/json");
                            (js "Authorization", js "Bearer " ++ tok)])]) \/
  token_after (seconds now) (auth t) = false /\
  log (resume_headers now (Resolved oc) t) = log t ++
    [FHeaders (Rejected (VStr (match oc with
                               | TransientError _ => js "Request failed"
                               | _ => js "Session expired!"
                               end)))].
Proof.
  intros Ho. destruct (token_after (seconds now) (auth t)) eqn:E.
  - left. assert (resume_headers now (Resolved oc) t =
      emit [FHeaders (Resolved (getCommonHeaders (auth t)))] t) as ->
      by (unfold resume_headers; rewrite E; by destruct oc).
    unfold token_after in E. destruct (accessToken (auth t)) as [tok|] eqn:Et; [|done].
    destruct (accessExpiresAt (auth t)) as [exp|]; [|done]. bsplit.
    exists tok, exp. repeat split; try done; [by apply truthy_spec|].
    unfold getCommonHeaders. rewrite Et. cbn [emit log]. by destruct tok.
  - right. split; [done|]. unfold resume_headers. rewrite E. by destruct oc.
Qed.

Lemma fresh_headers_unexpired_witness :
  token_after (seconds 999000) (auth refreshing) = false /\
  log (resume_headers 999000 (Resolved Anonymous) refreshing) =
    log refreshing ++ [FHeaders (Rejected (VStr (js "Session expired!")))] \/
  log (resume_headers 999000 (Resolved Anonymous) refreshing) =
    log refreshing ++ [FHeaders (Resolved [(js "Content-Type", js "application/json");
                                           (js "Authorization", js "Bearer tok")])].
Proof.
  destruct (fresh_headers_unexpired 999000 Anonymous refreshing I) as [(tok & exp & E & _ & _ & _ & ->) | H].
  - right. vm_compute in E. injection E as <-. reflexivity.
  - left. exact H.
Defined.

(** How a rejected refresh shows in each caller. *)
Definition rejection (err : jsval) (w : Waiter) : effect :=
  match w with
  | WBootstrap => FBootstrap (Rejected err)
  | WHeaders => FHeaders (Rejected err)
  | WRetry _ _ => FThrow err
  end.

Lemma resume_rejected now err ws t :
  foldl (resume now (Rejected err)) t ws =
  {| auth := auth t; authEpoch := authEpoch t; refreshPromise := refreshPromise t;
     waiters := waiters t; pathname := pathname t; log := log t ++ map (rejection err) ws |}.
Proof.
  revert t. induction ws as [|w ws IH]; intros t; simpl.
  - rewrite app_nil_r. by destruct t.
  - rewrite IH. destruct w; simpl; by rewrite <- app_assoc.
Qed.

(** The error handler around the browser lock does not see a rejected lock request:
    the promise is returned, not awaited, so the rejection reaches every caller and the
    bootstrap state stays as it was ([checking] when a bootstrap asked). *)
Theorem lock_rejection_escapes locks err t ep now :
  refreshPromise t = Some (AwaitLock ep) ->
  exists t1 t2,
    step locks (ELockRejected err) t = Some t1 /\ step locks (EFinally now) t1 = Some t2 /\
    auth t2 = auth t /\ refreshPromise t2 = None /\ log t2 = log t ++ map (rejection err) (waiters t).
Proof.
  intros Hr. cbn [step]. rewrite Hr. eexists _, _. split; [reflexivity|]. split; [reflexivity|].
  unfold finally. rewrite resume_rejected. done.
Qed.

Definition lock_waiting : Tab :=
  default (new_tab []) (exec (tab_machine true) [EBootstrap 0] (new_tab (js "/"))).

Lemma lock_rejection_escapes_witness :
  exists t1 t2,
    step true (ELockRejected VNull) lock_waiting = Some t1 /\ step true (EFinally 0) t1 = Some t2 /\
    bootstrapState (auth t2) = Checking /\ FBootstrap (Rejected VNull) ∈ log t2.
Proof.
  destruct (lock_rejection_escapes true VNull lock_waiting 0 0) as (t1 & t2 & H1 & H2 & H3 & H4 & H5).
  - vm_compute. reflexivity.
  - exists t1, t2. split; [exact H1|]. split; [exact H2|]. rewrite H3, H5. split; [vm_compute; reflexivity|].
    apply elem_of_app. right. left.
Defined.

(** ** Shared GET requests *)

(** A GET request is only answered by one sent in the same session: when [api.get]
    shares a request under way, every request with that key was issued under the same
    session id (ids without a colon), for the same address and parameters text. *)
Theorem get_shared_same_session config config' flight key t t' flight' t1 :
  api_get config flight t = (GetShared key, flight', t1) ->
  key = get_key (auth t') config' ->
  58%N ∉ str_or (default [] (current_sid (auth t))) (js "anonymous") ->
  58%N ∉ str_or (default [] (current_sid (auth t'))) (js "anonymous") ->
  key ∈ flight /\ flight' = flight /\ t1 = t /\
  str_or (default [] (current_sid (auth t))) (js "anonymous") =
    str_or (default [] (current_sid (auth t'))) (js "anonymous") /\
  url config ++ js "?" ++ default (js "{}") (params config) =
    url config' ++ js "?" ++ default (js "{}") (params config').
Proof.
  intros H Hk H1 H2. unfold api_get in H. destruct (disableDuplicate config); [done|].
  destruct (existsb _ flight) eqn:E; [|done]. injection H as <- <- <-.
  apply existsb_elem in E as (k & Hin & Ek%jeqb_eq). rewrite <- Ek in Hin.
  split; [done|]. split; [done|]. split; [done|]. unfold get_key in Hk.
  by apply app_sep_inj in Hk.
Qed.

Lemma get_shared_same_session_witness :
  let flight := [get_key (auth refreshing) (ex_config false)] in
  get_key (auth refreshing) (ex_config false) ∈ flight.
Proof.
  eapply (get_shared_same_session (ex_config false) (ex_config false)
    [get_key (auth refreshing) (ex_config false)] _ refreshing refreshing).
  - vm_compute. reflexivity.
  - reflexivity.
  - vm_compute. set_solver.
  - vm_compute. set_solver.
Defined.
