(* ===== verification/AdvancedCustom.v ===== *)
(** * Advanced custom channels

    [features/channels/lib/advanced-custom.ts]: the route configuration of an advanced
    custom channel, its templates, the table of converters and incoming paths, the
    normalisation and the validation. *)

From S2P Require Import Prelude JsString JsNumber Json.
From stdpp Require Import gmap.

(** ** Data *)

Record AdvancedCustomRouteAuth := {
  auth_type : option jstr; auth_name : option jstr; auth_value : option jstr }.

Record AdvancedCustomRoute := {
  incoming_path : option jstr; upstream_path : option jstr; converter : option jstr;
  models : option (list jstr); route_auth : option AdvancedCustomRouteAuth }.

Record AdvancedCustomConfig := { advanced_routes : option (list AdvancedCustomRoute) }.

Record AdvancedCustomValidationError := { message : jstr; routeIndex : option nat }.

Definition ADVANCED_CUSTOM_MODEL_LIST_PATH : jstr := js "/v1/models".
Definition ADVANCED_CUSTOM_MODEL_LIST_LABEL : jstr := js "OpenAI Models".
Definition ADVANCED_CUSTOM_MODEL_REGEX_PREFIX : jstr := js "re:".

Definition NONE : jstr := js "none".
Definition CLAUDE_TO_CHAT : jstr := js "anthropic_messages_to_openai_chat_completions".
Definition CHAT_TO_CLAUDE : jstr := js "openai_chat_completions_to_anthropic_messages".
Definition CHAT_TO_RESPONSES : jstr := js "openai_chat_completions_to_openai_responses".
Definition RESPONSES_TO_CHAT : jstr := js "openai_responses_to_openai_chat_completions".
Definition RESPONSES_TO_GEMINI : jstr := js "openai_responses_to_gemini_generate_content".
Definition GEMINI_TO_CHAT : jstr := js "gemini_generate_content_to_openai_chat_completions".
Definition CHAT_TO_GEMINI : jstr := js "openai_chat_completions_to_gemini_generate_content".

(** [(value, (label, triggerLabel))] *)
Definition ADVANCED_CUSTOM_CONVERTER_OPTIONS : list (jstr * (jstr * jstr)) :=
  [(NONE, (js "Native forwarding", js "Native forwarding"));
   (CLAUDE_TO_CHAT, (js "Anthropic Messages to OpenAI Chat", js "To OpenAI Chat"));
   (CHAT_TO_CLAUDE, (js "OpenAI Chat to Anthropic Messages", js "To Anthropic Messages"));
   (CHAT_TO_RESPONSES, (js "OpenAI Chat to OpenAI Responses", js "To OpenAI Responses"));
   (RESPONSES_TO_CHAT, (js "OpenAI Responses to OpenAI Chat", js "To OpenAI Chat"));
   (RESPONSES_TO_GEMINI,
     (js "OpenAI Responses to Gemini Generate Content", js "To Gemini Generate Content"));
   (GEMINI_TO_CHAT, (js "Gemini Generate Content to OpenAI Chat", js "To OpenAI Chat"));
   (CHAT_TO_GEMINI, (js "OpenAI Chat to Gemini Generate Content", js "To Gemini Generate Content"))].

(** [(value, label)] *)
Definition ADVANCED_CUSTOM_AUTH_MODE_OPTIONS : list (jstr * jstr) :=
  [(js "default", js "Default Bearer"); (js "none", js "No Auth"); (js "header", js "Header");
   (js "query", js "Query")].

Definition openAIChatPath : jstr := js "/v1/chat/completions".
Definition openAIResponsesPath : jstr := js "/v1/responses".
Definition claudeMessagesPath : jstr := js "/v1/messages".
Definition geminiGenerateContentPath : jstr := js "/v1beta/models/{model}:generateContent".
Definition geminiEmbedPath : jstr := js "/v1beta/models/{model}:embedContent".
Definition geminiBatchEmbedPath : jstr := js "/v1beta/models/{model}:batchEmbedContents".

(** [(value, label)] *)
Definition ADVANCED_CUSTOM_INCOMING_PATH_OPTIONS : list (jstr * jstr) :=
  [(js "/v1/chat/completions", js "OpenAI Chat");
   (js "/v1/responses", js "OpenAI Responses");
   (js "/v1/responses/compact", js "OpenAI Responses Compact");
   (js "/v1/alpha/search", js "OpenAI Alpha Search");
   (ADVANCED_CUSTOM_MODEL_LIST_PATH, ADVANCED_CUSTOM_MODEL_LIST_LABEL);
   (js "/v1/embeddings", js "OpenAI Embeddings");
   (js "/v1/images/generations", js "OpenAI Image Generations");
   (js "/v1/images/edits", js "OpenAI Image Edits");
   (js "/v1/completions", js "OpenAI Completions");
   (js "/v1/audio/speech", js "OpenAI Audio Speech");
   (js "/v1/audio/transcriptions", js "OpenAI Audio Transcriptions");
   (js "/v1/audio/translations", js "OpenAI Audio Translations");
   (js "/v1/rerank", js "OpenAI Rerank");
   (js "/v1/realtime", js "OpenAI Realtime");
   (js "/v1/messages", js "Claude Messages");
   (geminiGenerateContentPath, js "Gemini Generate Content");
   (geminiEmbedPath, js "Gemini Embed Content");
   (geminiBatchEmbedPath, js "Gemini Batch Embed Contents")].

Definition ADVANCED_CUSTOM_ROUTE_SUMMARY_LABELS : list (jstr * jstr) :=
  [(js "/v1/chat/completions", js "OpenAI Chat");
   (ADVANCED_CUSTOM_MODEL_LIST_PATH, ADVANCED_CUSTOM_MODEL_LIST_LABEL)].

Definition bearerHeaderAuth : AdvancedCustomRouteAuth :=
  {| auth_type := Some (js "header"); auth_name := Some (js "Authorization");
     auth_value := Some (js "Bearer {api_key}") |}.

Definition apiKeyHeaderAuth : AdvancedCustomRouteAuth :=
  {| auth_type := Some (js "header"); auth_name := Some (js "x-api-key");
     auth_value := Some (js "{api_key}") |}.

Definition geminiQueryAuth : AdvancedCustomRouteAuth :=
  {| auth_type := Some (js "query"); auth_name := Some (js "key"); auth_value := Some (js "{api_key}") |}.

(** ** Templates *)

Definition route (i u c : jstr) (a : option AdvancedCustomRouteAuth) : AdvancedCustomRoute :=
  {| incoming_path := Some i; upstream_path := Some u; converter := Some c; models := None;
     route_auth := a |}.

Definition config (rs : list AdvancedCustomRoute) : AdvancedCustomConfig :=
  {| advanced_routes := Some rs |}.

(** [(value, (label, config))] *)
Definition ADVANCED_CUSTOM_TEMPLATE_OPTIONS : list (jstr * (jstr * AdvancedCustomConfig)) :=
  [(js "official_openai_chat", (js "Official OpenAI Chat",
     config [route openAIChatPath openAIChatPath NONE (Some bearerHeaderAuth)]));
   (js "official_openai_responses", (js "Official OpenAI Responses",
     config [route openAIResponsesPath openAIResponsesPath NONE (Some bearerHeaderAuth)]));
   (js "official_openai_embeddings", (js "Official OpenAI Embeddings",
     config [route (js "/v1/embeddings") (js "/v1/embeddings") NONE (Some bearerHeaderAuth)]));
   (js "official_openai_images", (js "Official OpenAI Images",
     config [route (js "/v1/images/generations") (js "/v1/images/generations") NONE (Some bearerHeaderAuth);
             route (js "/v1/images/edits") (js "/v1/images/edits") NONE (Some bearerHeaderAuth)]));
   (js "official_claude_messages", (js "Official Claude Messages",
     config [route claudeMessagesPath claudeMessagesPath NONE (Some apiKeyHeaderAuth)]));
   (js "official_gemini_native", (js "Official Gemini Native",
     config [route geminiGenerateContentPath geminiGenerateContentPath NONE (Some geminiQueryAuth);
             route geminiEmbedPath geminiEmbedPath NONE (Some geminiQueryAuth);
             route geminiBatchEmbedPath geminiBatchEmbedPath NONE (Some geminiQueryAuth)]));
   (js "official_gemini_from_openai_chat", (js "Official Gemini from OpenAI Chat",
     config [route openAIChatPath geminiGenerateContentPath CHAT_TO_GEMINI (Some geminiQueryAuth)]))].

(** A clone has the same fields; configurations are values here. *)
Definition getAdvancedCustomTemplateConfig (templateKey : jstr) : AdvancedCustomConfig :=
  match find_first (fun o => fst o =s templateKey) ADVANCED_CUSTOM_TEMPLATE_OPTIONS with
  | Some o => snd (snd o)
  | None =>
      match ADVANCED_CUSTOM_TEMPLATE_OPTIONS with
      | o :: _ => snd (snd o)
      | [] => config []
      end
  end.

Definition createAdvancedCustomRoute : AdvancedCustomRoute :=
  route openAIChatPath openAIChatPath NONE None.

Definition createAdvancedCustomConfig : AdvancedCustomConfig := config [createAdvancedCustomRoute].

(** ** Converters and paths *)

Definition isConverterPathAllowed (incomingPath conv : jstr) : bool :=
  if conv =s NONE then true
  else if incomingPath =s js "/v1/alpha/search" then false
  else if conv =s CLAUDE_TO_CHAT then incomingPath =s js "/v1/messages"
  else if (conv =s CHAT_TO_CLAUDE) || (conv =s CHAT_TO_RESPONSES) || (conv =s CHAT_TO_GEMINI)
  then incomingPath =s js "/v1/chat/completions"
  else if conv =s RESPONSES_TO_CHAT then incomingPath =s js "/v1/responses"
  else if conv =s RESPONSES_TO_GEMINI then incomingPath =s js "/v1/responses"
  else includes (js ":generateContent") incomingPath || includes (js ":streamGenerateContent") incomingPath.

Definition getAdvancedCustomIncomingPathOptions (conv : jstr) : list (jstr * jstr) :=
  bfilter (fun o => isConverterPathAllowed (fst o) conv) ADVANCED_CUSTOM_INCOMING_PATH_OPTIONS.

Definition getDefaultAdvancedCustomIncomingPath (conv : jstr) : jstr :=
  match getAdvancedCustomIncomingPathOptions conv with
  | o :: _ => str_or (fst o) (js "/v1/chat/completions")
  | [] => js "/v1/chat/completions"
  end.

Definition isAdvancedCustomIncomingPathAllowed (incomingPath conv : jstr) : bool :=
  isConverterPathAllowed incomingPath conv.

Definition getAdvancedCustomConverterOptions (incomingPath : jstr) : list (jstr * (jstr * jstr)) :=
  let normalizedIncomingPath := trim incomingPath in
  bfilter (fun o => (fst o =s NONE) || isConverterPathAllowed normalizedIncomingPath (fst o))
    ADVANCED_CUSTOM_CONVERTER_OPTIONS.

Definition getAdvancedCustomNativeAuth (incomingPath : jstr) : AdvancedCustomRouteAuth :=
  if incomingPath =s claudeMessagesPath then apiKeyHeaderAuth
  else if includes (js ":generateContent") incomingPath ||
          includes (js ":streamGenerateContent") incomingPath ||
          includes (js ":embedContent") incomingPath ||
          includes (js ":batchEmbedContents") incomingPath
  then geminiQueryAuth
  else bearerHeaderAuth.

(** [{ upstream_path, auth }] *)
Definition getAdvancedCustomConverterDefaults (conv incomingPath : jstr)
  : jstr * AdvancedCustomRouteAuth :=
  let normalizedIncomingPath :=
    str_or (trim incomingPath) (getDefaultAdvancedCustomIncomingPath conv) in
  if conv =s NONE then
    (normalizedIncomingPath, getAdvancedCustomNativeAuth normalizedIncomingPath)
  else if (conv =s CLAUDE_TO_CHAT) || (conv =s GEMINI_TO_CHAT) || (conv =s RESPONSES_TO_CHAT)
  then (openAIChatPath, bearerHeaderAuth)
  else if conv =s CHAT_TO_RESPONSES then (openAIResponsesPath, bearerHeaderAuth)
  else if conv =s CHAT_TO_CLAUDE then (claudeMessagesPath, apiKeyHeaderAuth)
  else if (conv =s CHAT_TO_GEMINI) || (conv =s RESPONSES_TO_GEMINI)
  then (geminiGenerateContentPath, geminiQueryAuth)
  else (str_or normalizedIncomingPath openAIChatPath,
        getAdvancedCustomNativeAuth normalizedIncomingPath).

Definition getAdvancedCustomUpstreamPathPlaceholder (conv : jstr) (incomingPath : option jstr) : jstr :=
  fst (getAdvancedCustomConverterDefaults conv
         (default (getDefaultAdvancedCustomIncomingPath conv) incomingPath)).

Definition getAdvancedCustomIncomingPathLabel (value : jstr) : jstr :=
  match find_first (fun o => fst o =s value) ADVANCED_CUSTOM_INCOMING_PATH_OPTIONS with
  | Some o => str_or (snd o) value
  | None => value
  end.

(** ** Normalisation *)

Definition getAdvancedCustomRouteUpstreamPath (r : AdvancedCustomRoute) : jstr :=
  trim (default [] (upstream_path r)).

Definition normalizeAdvancedCustomRouteModels (ms : option (list jstr)) : list jstr :=
  match ms with
  | Some l => bfilter truthy (map trim l)
  | None => []
  end.

Definition normalizeAdvancedCustomRoute (r : AdvancedCustomRoute) : AdvancedCustomRoute :=
  {| incoming_path := Some (default [] (incoming_path r));
     upstream_path := Some (getAdvancedCustomRouteUpstreamPath r);
     converter := Some (str_or (default [] (converter r)) NONE);
     models := match normalizeAdvancedCustomRouteModels (models r) with
               | [] => None
               | l => Some l
               end;
     route_auth := (fun a => {| auth_type := auth_type a;
                                auth_name := Some (default [] (auth_name a));
                                auth_value := Some (default [] (auth_value a)) |}) <$> route_auth r |}.

Definition normalizeAdvancedCustomConfig (c : AdvancedCustomConfig) : AdvancedCustomConfig :=
  {| advanced_routes := Some (map normalizeAdvancedCustomRoute (default [] (advanced_routes c))) |}.

Definition parseAdvancedCustomRouteModels (value : jstr) : list jstr :=
  dedup (bfilter truthy (map trim (split_on 44 value))).

Inductive AdvancedCustomModelRuleKind := Exact | Regex.

Definition getAdvancedCustomModelRuleKind (modelRule : jstr) : AdvancedCustomModelRuleKind :=
  if starts_with ADVANCED_CUSTOM_MODEL_REGEX_PREFIX modelRule then Regex else Exact.

Definition getAdvancedCustomRegexModelPattern (modelRule : jstr) : jstr :=
  slice_from (length ADVANCED_CUSTOM_MODEL_REGEX_PREFIX) modelRule.

(** [JSON.parse] of the stored text, read at the declared types: a missing or falsy
    field is absent.  [None]: some field has another type, which the types of the
    source exclude. *)
Definition as_text (v : jsval) : option (option jstr) :=
  match v with
  | VStr s => Some (Some s)
  | VUndef | VNull => Some None
  | _ => None
  end.

Fixpoint all_some {A} (l : list (option A)) : option (list A) :=
  match l with
  | [] => Some []
  | x :: t => y ← x; ys ← all_some t; Some (y :: ys)
  end.

Definition decode_auth (v : jsval) : option (option AdvancedCustomRouteAuth) :=
  match v with
  | VObj _ =>
      t ← as_text (get (js "type") v); n ← as_text (get (js "name") v);
      x ← as_text (get (js "value") v);
      Some (Some {| auth_type := t; auth_name := n; auth_value := x |})
  | VUndef | VNull => Some None
  | _ => None
  end.

Definition decode_models (v : jsval) : option (option (list jstr)) :=
  match v with
  | VArr l =>
      Some <$> all_some (map (fun x => match x with VStr s => Some s | _ => None end) l)
  | VUndef | VNull => Some None
  | _ => None
  end.

Definition decode_route (v : jsval) : option AdvancedCustomRoute :=
  match v with
  | VObj _ =>
      i ← as_text (get (js "incoming_path") v); u ← as_text (get (js "upstream_path") v);
      c ← as_text (get (js "converter") v); ms ← decode_models (get (js "models") v);
      a ← decode_auth (get (js "auth") v);
      Some {| incoming_path := i; upstream_path := u; converter := c; models := ms; route_auth := a |}
  | _ => None
  end.

Definition decode_config (v : jsval) : option AdvancedCustomConfig :=
  match get (js "advanced_routes") v with
  | VArr l => (fun rs => {| advanced_routes := Some rs |}) <$> all_some (map decode_route l)
  | _ => Some {| advanced_routes := None |}
  end.

(** [Some None] is the [null] result. *)
Definition parseAdvancedCustomConfig (value : option jstr) : option (option AdvancedCustomConfig) :=
  let text := default [] value in
  if negb (truthy (trim text)) then Some None
  else
    match json_parse text with
    | Some (VObj o) =>
        (fun c => Some (normalizeAdvancedCustomConfig c)) <$> decode_config (VObj o)
    | _ => Some None
    end.

(** ** Validation *)

Section validation.
(** [new URL(value)]: protocol and host, or failure. *)
Variable parse_url : jstr -> option (jstr * jstr).

Definition isFullHttpURLOrAbsolutePath (value : jstr) : bool :=
  if starts_with (js "/") value then negb (starts_with (js "//") value)
  else
    match parse_url value with
    | Some (protocol, host) =>
        truthy host && ((protocol =s js "http:") || (protocol =s js "https:"))
    | None => false
    end.

Definition isAdvancedCustomConverter (value : jstr) : bool :=
  existsb (fun o => fst o =s value) ADVANCED_CUSTOM_CONVERTER_OPTIONS.

Definition validateRouteAuth (a : option AdvancedCustomRouteAuth) : option jstr :=
  match a with
  | None => None
  | Some a =>
      let ty := default [] (auth_type a) in
      if ty =s js "none" then None
      else if negb (ty =s js "header") && negb (ty =s js "query") then Some (js "Auth type is invalid")
      else if negb (truthy (trim (default [] (auth_name a)))) then Some (js "Auth name is required")
      else if negb (truthy (trim (default [] (auth_value a)))) then Some (js "Auth value is required")
      else None
  end.

(** The entry of [routeModelsByPath] for one path. *)
Record PathState := { catchAllIndex : option nat; path_models : gmap jstr nat }.

Definition empty_path_state : PathState := {| catchAllIndex := None; path_models := ∅ |}.

(** The [for] over the models of a route; [seen] is [seenInRoute]. *)
Fixpoint check_models (routeIndex : nat) (ms : list jstr) (seen : gset jstr) (known : gmap jstr nat)
  : AdvancedCustomValidationError + gmap jstr nat :=
  match ms with
  | [] => inr known
  | model :: rest =>
      if match getAdvancedCustomModelRuleKind model with
         | Regex => negb (truthy (getAdvancedCustomRegexModelPattern model))
         | Exact => false
         end
      then inl {| routeIndex := Some routeIndex; message := js "Model regex cannot be empty" |}
      else if bool_decide (model ∈ seen)
      then inl {| routeIndex := Some routeIndex; message := js "Duplicate model in route models" |}
      else match known !! model with
           | Some _ => inl {| routeIndex := Some routeIndex;
                              message := js "Route models must be unique for the same incoming path" |}
           | None => check_models routeIndex rest ({[model]} ∪ seen) (<[model := routeIndex]> known)
           end
  end.

(** Returns the error or the updated map. *)
Definition validateAdvancedCustomRouteModels (routeIndex : nat) (incomingPath : jstr) (ms : list jstr)
    (byPath : gmap jstr PathState) : AdvancedCustomValidationError + gmap jstr PathState :=
  let state := default empty_path_state (byPath !! incomingPath) in
  match ms, catchAllIndex state with
  | [], Some _ =>
      inl {| routeIndex := Some routeIndex;
             message := js "Only one catch-all route is allowed for the same incoming path" |}
  | [], None =>
      inr (<[incomingPath := {| catchAllIndex := Some routeIndex;
                                path_models := path_models state |}]> byPath)
  | _, Some _ =>
      inl {| routeIndex := Some routeIndex;
             message := js "Catch-all route must be last for the same incoming path" |}
  | _, None =>
      match check_models routeIndex ms ∅ (path_models state) with
      | inl e => inl e
      | inr known => inr (<[incomingPath := {| catchAllIndex := None; path_models := known |}]> byPath)
      end
  end.

Record LoopState := { routeModelsByPath : gmap jstr PathState; modelListRouteIndex : option nat }.

Definition route_path (r : AdvancedCustomRoute) : jstr := trim (default [] (incoming_path r)).
Definition route_converter (r : AdvancedCustomRoute) : jstr := str_or (default [] (converter r)) NONE.

Definition fail_at (index : nat) (msg : jstr) : AdvancedCustomValidationError :=
  {| routeIndex := Some index; message := msg |}.

(** The checks on the route that lists models. *)
Definition check_model_list (index : nat) (r : AdvancedCustomRoute) (st : LoopState)
  : option AdvancedCustomValidationError :=
  match modelListRouteIndex st with
  | Some _ => Some (fail_at index (js "Only one OpenAI Models route is allowed"))
  | None =>
      if (0 <? length (normalizeAdvancedCustomRouteModels (models r)))%nat
      then Some (fail_at index (js "OpenAI Models route does not support client model rules"))
      else if negb (route_converter r =s NONE)
      then Some (fail_at index (js "OpenAI Models route must use native forwarding"))
      else if includes (js "{model}") (getAdvancedCustomRouteUpstreamPath r)
      then Some (fail_at index (js "OpenAI Models upstream path must not contain {model}"))
      else None
  end.

(** The body of the loop of [validateAdvancedCustomConfig]. *)
Definition check_route (index : nat) (r : AdvancedCustomRoute) (st : LoopState)
  : AdvancedCustomValidationError + LoopState :=
  let incomingPath := route_path r in
  let upstreamPath := getAdvancedCustomRouteUpstreamPath r in
  let conv := route_converter r in
  let routeModels := normalizeAdvancedCustomRouteModels (models r) in
  if negb (truthy incomingPath) then inl (fail_at index (js "Incoming path is required"))
  else if negb (starts_with (js "/") incomingPath)
  then inl (fail_at index (js "Incoming path must start with /"))
  else if includes (js "?") incomingPath
  then inl (fail_at index (js "Incoming path must not include query"))
  else
    match (if incomingPath =s ADVANCED_CUSTOM_MODEL_LIST_PATH then check_model_list index r st else None) with
    | Some e => inl e
    | None =>
        let listIndex := if incomingPath =s ADVANCED_CUSTOM_MODEL_LIST_PATH then Some index
                         else modelListRouteIndex st in
        match validateAdvancedCustomRouteModels index incomingPath routeModels (routeModelsByPath st) with
        | inl e => inl e
        | inr byPath =>
            if negb (truthy upstreamPath) then inl (fail_at index (js "Upstream path is required"))
            else if negb (isFullHttpURLOrAbsolutePath upstreamPath)
            then inl (fail_at index (js "Upstream path must be a full URL or a path starting with /"))
            else if negb (isAdvancedCustomConverter conv)
            then inl (fail_at index (js "Converter is not registered"))
            else if negb (isConverterPathAllowed incomingPath conv)
            then inl (fail_at index (js "Converter does not match incoming path"))
            else
              match validateRouteAuth (route_auth r) with
              | Some authError => inl (fail_at index authError)
              | None => inr {| routeModelsByPath := byPath; modelListRouteIndex := listIndex |}
              end
        end
    end.

Fixpoint check_routes (index : nat) (rs : list AdvancedCustomRoute) (st : LoopState)
  : option AdvancedCustomValidationError :=
  match rs with
  | [] => None
  | r :: rest =>
      match check_route index r st with
      | inl e => Some e
      | inr st' => check_routes (S index) rest st'
      end
  end.

Definition initial_loop : LoopState := {| routeModelsByPath := ∅; modelListRouteIndex := None |}.

(** [null] is [None]: the configuration is valid. *)
Definition validateAdvancedCustomConfig (c : option AdvancedCustomConfig)
  : option AdvancedCustomValidationError :=
  match c with
  | None => Some {| routeIndex := None; message := js "Advanced custom configuration is required" |}
  | Some c =>
      let routes := default [] (advanced_routes (normalizeAdvancedCustomConfig c)) in
      match routes with
      | [] => Some {| routeIndex := None;
                      message := js "Advanced custom configuration requires at least one route" |}
      | _ => check_routes 0 routes initial_loop
      end
  end.

Definition normalized_routes (c : AdvancedCustomConfig) : list AdvancedCustomRoute :=
  default [] (advanced_routes (normalizeAdvancedCustomConfig c)).

Definition hasValidAdvancedCustomModelListRoute (c : option AdvancedCustomConfig) : bool :=
  match c with
  | None => false
  | Some cfg =>
      match validateAdvancedCustomConfig (Some cfg) with
      | Some _ => false
      | None => existsb (fun r => route_path r =s ADVANCED_CUSTOM_MODEL_LIST_PATH) (normalized_routes cfg)
      end
  end.

Definition advancedCustomConfigUsesRelativeUpstreamPath (c : option AdvancedCustomConfig) : bool :=
  match c with
  | None => false
  | Some cfg =>
      existsb (fun r => starts_with (js "/") (getAdvancedCustomRouteUpstreamPath r)) (normalized_routes cfg)
  end.

(** [null] is [None]; a path naming a property every object inherits is left out. *)
Definition getAdvancedCustomRouteSummaryLabel (r : AdvancedCustomRoute) : option jstr :=
  let incomingPath := route_path r in
  if negb (truthy incomingPath) then None
  else Some (match prop_get incomingPath ADVANCED_CUSTOM_ROUTE_SUMMARY_LABELS with
             | Some l => str_or l (getAdvancedCustomIncomingPathLabel incomingPath)
             | None => getAdvancedCustomIncomingPathLabel incomingPath
             end).

(** [(routeCount, valid, routeTypeLabels)] *)
Definition getAdvancedCustomStats (value : option jstr) : option (nat * bool * list jstr) :=
  c ← parseAdvancedCustomConfig value;
  Some (match c with
        | None => (0, false, [])
        | Some c =>
            let routes := normalized_routes c in
            (length routes,
             match validateAdvancedCustomConfig (Some (normalizeAdvancedCustomConfig c)) with
             | None => true | Some _ => false end,
             dedup (bfilter truthy (omap getAdvancedCustomRouteSummaryLabel routes)))
        end).
End validation.

(** ** Authentication of a route *)

Definition getAdvancedCustomAuthMode (r : AdvancedCustomRoute) : jstr :=
  str_or (default [] (a ← route_auth r; auth_type a)) (js "default").

Definition buildAdvancedCustomAuth (mode : jstr) (previousAuth : option AdvancedCustomRouteAuth)
  : option AdvancedCustomRouteAuth :=
  let prev_name := default [] (a ← previousAuth; auth_name a) in
  let prev_value := default [] (a ← previousAuth; auth_value a) in
  if mode =s js "default" then None
  else if mode =s js "none" then
    Some {| auth_type := Some (js "none"); auth_name := None; auth_value := None |}
  else if mode =s js "header" then
    Some {| auth_type := Some (js "header"); auth_name := Some (str_or prev_name (js "Authorization"));
            auth_value := Some (str_or prev_value (js "Bearer {api_key}")) |}
  else
    Some {| auth_type := Some (js "query"); auth_name := Some (str_or prev_name (js "api_key"));
            auth_value := Some (str_or prev_value (js "{api_key}")) |}.
