(* ===== verification/AdvancedCustomFacts.v ===== *)
(** * Facts about advanced custom channels

    The validator of [AdvancedCustom] accepts exactly the configurations of a
    declarative specification, reports the first route that breaks it, and the
    templates, converters and defaults of the editor satisfy it. *)

From S2P Require Import Prelude JsString JsNumber Json AdvancedCustom.
From stdpp Require Import gmap.

(** ** Specification *)

Definition route_models (r : AdvancedCustomRoute) : list jstr :=
  normalizeAdvancedCustomRouteModels (models r).

(** A regex rule has a pattern. *)
Definition rule_ok (m : jstr) : Prop :=
  getAdvancedCustomModelRuleKind m = Regex -> getAdvancedCustomRegexModelPattern m <> [].

Section spec.
Context (parse_url : jstr -> option (jstr * jstr)).

(** What a route must satisfy on its own. *)
Definition route_ok (r : AdvancedCustomRoute) : Prop :=
  route_path r <> [] /\ starts_with (js "/") (route_path r) = true /\
  includes (js "?") (route_path r) = false /\
  (route_path r = ADVANCED_CUSTOM_MODEL_LIST_PATH ->
     route_models r = [] /\ route_converter r = NONE /\
     includes (js "{model}") (getAdvancedCustomRouteUpstreamPath r) = false) /\
  NoDup (route_models r) /\ Forall rule_ok (route_models r) /\
  getAdvancedCustomRouteUpstreamPath r <> [] /\
  isFullHttpURLOrAbsolutePath parse_url (getAdvancedCustomRouteUpstreamPath r) = true /\
  isAdvancedCustomConverter (route_converter r) = true /\
  isConverterPathAllowed (route_path r) (route_converter r) = true /\
  validateRouteAuth (route_auth r) = None.

(** What two routes in this order must satisfy: the earlier one on the same path is no
    catch-all, and they share no model rule. *)
Definition pair_ok (r1 r2 : AdvancedCustomRoute) : Prop :=
  route_path r1 = route_path r2 ->
  route_models r1 <> [] /\ forall m, m ∈ route_models r1 -> m ∉ route_models r2.

Definition routes_ok (rs : list AdvancedCustomRoute) : Prop :=
  rs <> [] /\ Forall route_ok rs /\ ForallOrdPairs pair_ok rs.

(** ** The loop over models *)

Lemma rule_bad m :
  match getAdvancedCustomModelRuleKind m with
  | Regex => negb (truthy (getAdvancedCustomRegexModelPattern m))
  | Exact => false
  end = true <-> ~ rule_ok m.
Proof.
  unfold rule_ok. destruct (getAdvancedCustomModelRuleKind m); [naive_solver|].
  rewrite negb_true_iff. split.
  - intros E H. specialize (H eq_refl). apply truthy_spec in H. congruence.
  - intros H. apply not_true_iff_false. rewrite truthy_spec. naive_solver.
Qed.

Lemma check_models_inr i ms seen known known' :
  check_models i ms seen known = inr known' ->
  NoDup ms /\ Forall rule_ok ms /\ (forall m, m ∈ ms -> m ∉ seen /\ known !! m = None) /\
  forall m, is_Some (known' !! m) <-> is_Some (known !! m) \/ m ∈ ms.
Proof.
  revert seen known. induction ms as [|m ms IH]; intros seen known; cbn [check_models].
  { intros [= <-]. split; [constructor|]. split; [constructor|]. set_solver. }
  destruct (match getAdvancedCustomModelRuleKind m with Exact => _ | Regex => _ end) eqn:Er; [done|].
  destruct (bool_decide_reflect (m ∈ seen)) as [|Hs]; [done|].
  destruct (known !! m) eqn:Ek; [done|]. intros H.
  apply IH in H as (Hnd & Hf & Hd & Hdom).
  assert (m ∉ ms) as Hm. { intros Hin. destruct (Hd m Hin) as [Hn _]. set_solver. }
  split; [by constructor|]. split.
  { constructor; [|done]. apply not_true_iff_false in Er. rewrite rule_bad in Er.
    unfold rule_ok in *. intros HR Hnil. apply Er. intros H. by apply H. }
  split.
  - intros x [-> | Hx]%elem_of_cons; [done|]. destruct (Hd x Hx) as [Hn Hl].
    split; [set_solver|]. by apply lookup_insert_None in Hl as [? _].
  - intros x. rewrite Hdom, lookup_insert_is_Some', elem_of_cons. naive_solver.
Qed.

Lemma check_models_ok i ms seen known :
  NoDup ms -> Forall rule_ok ms -> (forall m, m ∈ ms -> m ∉ seen /\ known !! m = None) ->
  exists known', check_models i ms seen known = inr known'.
Proof.
  intros Hnd Hf. revert seen known. induction Hnd as [|m ms Hm Hnd IH]; intros seen known Hd; [by eexists|].
  inversion Hf as [|? ? Hr Hf']; subst. cbn [check_models].
  destruct (match getAdvancedCustomModelRuleKind m with Exact => _ | Regex => _ end) eqn:Er.
  { by apply rule_bad in Er. }
  destruct (Hd m) as [Hs Hk]; [by left|].
  rewrite bool_decide_false, Hk by done. apply IH; [done|].
  intros x Hx. destruct (Hd x) as [Hxs Hxk]; [by right|].
  split; [set_solver|]. rewrite lookup_insert_ne; [done|]. by intros <-.
Qed.

(** ** The loop over routes *)

(** What the loop knows after the routes [pre]. *)
Definition path_state (st : LoopState) (p : jstr) : PathState :=
  default empty_path_state (routeModelsByPath st !! p).

Definition loop_inv (pre : list AdvancedCustomRoute) (st : LoopState) : Prop :=
  (forall p, is_Some (catchAllIndex (path_state st p)) <->
             exists r, r ∈ pre /\ route_path r = p /\ route_models r = []) /\
  (forall p m, is_Some (path_models (path_state st p) !! m) <->
               exists r, r ∈ pre /\ route_path r = p /\ m ∈ route_models r) /\
  (is_Some (modelListRouteIndex st) <->
   exists r, r ∈ pre /\ route_path r = ADVANCED_CUSTOM_MODEL_LIST_PATH).

Lemma loop_inv_initial : loop_inv [] initial_loop.
Proof.
  split; [|split].
  - intros p. unfold path_state. simpl. rewrite lookup_empty. simpl. rewrite is_Some_alt. set_solver.
  - intros p m. unfold path_state. simpl. rewrite lookup_empty. simpl. rewrite lookup_empty, is_Some_alt.
    set_solver.
  - rewrite is_Some_alt. simpl. set_solver.
Qed.

(** The state of one path after a route on it. *)
Definition path_after (r : AdvancedCustomRoute) (old new : PathState) : Prop :=
  (is_Some (catchAllIndex new) <-> is_Some (catchAllIndex old) \/ route_models r = []) /\
  forall m, is_Some (path_models new !! m) <-> is_Some (path_models old !! m) \/ m ∈ route_models r.

Lemma validate_models_inr i r byPath byPath' :
  validateAdvancedCustomRouteModels i (route_path r) (route_models r) byPath = inr byPath' ->
  let old := default empty_path_state (byPath !! route_path r) in
  catchAllIndex old = None /\ NoDup (route_models r) /\ Forall rule_ok (route_models r) /\
  (forall m, m ∈ route_models r -> path_models old !! m = None) /\
  exists new, byPath' = <[route_path r := new]> byPath /\ path_after r old new.
Proof.
  unfold validateAdvancedCustomRouteModels. cbv zeta.
  set (old := default empty_path_state _).
  destruct (route_models r) as [|m ms] eqn:Em, (catchAllIndex old) eqn:Ec; try done.
  - intros [= <-]. split; [done|]. split; [constructor|]. split; [constructor|]. split; [set_solver|].
    eexists. split; [done|]. split; simpl.
    + split; [intros _; by right|by eauto].
    + intros x. rewrite Em. set_solver.
  - destruct (check_models _ _ _ _) eqn:E; [done|]. intros [= <-].
    apply check_models_inr in E as (Hnd & Hf & Hd & Hdom). split; [done|]. split; [done|]. split; [done|].
    split; [intros x Hx; by apply Hd|].
    eexists. split; [done|]. split; simpl.
    + rewrite Ec, Em. split; [by intros [? ?]|by intros [[? ?]|]].
    + intros x. by rewrite Hdom, Em.
Qed.

Lemma validate_models_ok i r byPath :
  let old := default empty_path_state (byPath !! route_path r) in
  catchAllIndex old = None -> NoDup (route_models r) -> Forall rule_ok (route_models r) ->
  (forall m, m ∈ route_models r -> path_models old !! m = None) ->
  exists byPath', validateAdvancedCustomRouteModels i (route_path r) (route_models r) byPath = inr byPath'.
Proof.
  cbv zeta. intros Hc Hnd Hf Hd. unfold validateAdvancedCustomRouteModels. cbv zeta. rewrite Hc.
  destruct (route_models r) as [|m ms] eqn:Em; [by eexists|].
  destruct (check_models_ok i (m :: ms) ∅ (path_models (default empty_path_state (byPath !! route_path r))))
    as [known ->]; [done|done| |by eexists].
  intros x Hx. split; [set_solver|by apply Hd].
Qed.

Lemma loop_inv_snoc pre r st st' new :
  loop_inv pre st ->
  routeModelsByPath st' = <[route_path r := new]> (routeModelsByPath st) ->
  path_after r (path_state st (route_path r)) new ->
  (is_Some (modelListRouteIndex st') <-> is_Some (modelListRouteIndex st) \/
     route_path r = ADVANCED_CUSTOM_MODEL_LIST_PATH) ->
  loop_inv (pre ++ [r]) st'.
Proof.
  intros (I1 & I2 & I3) Hby (Hc & Hm) Hl.
  assert (forall p, path_state st' p = if decide (p = route_path r) then new else path_state st p) as Hps.
  { intros p. unfold path_state. rewrite Hby. case_decide; subst; [by rewrite lookup_insert_eq|].
    by rewrite lookup_insert_ne by done. }
  assert (forall (P : AdvancedCustomRoute -> Prop),
    (exists x, x ∈ pre ++ [r] /\ P x) <-> (exists x, x ∈ pre /\ P x) \/ P r) as Hex.
  { intros P. setoid_rewrite elem_of_app. setoid_rewrite list_elem_of_singleton. naive_solver. }
  split; [|split].
  - intros p. rewrite Hex, Hps, <- I1. case_decide as Hp; [subst; rewrite Hc; naive_solver|naive_solver].
  - intros p m. rewrite Hex, Hps, <- I2. case_decide as Hp; [subst; rewrite Hm; naive_solver|naive_solver].
  - by rewrite Hex, Hl, I3.
Qed.

(** The route against the ones before it, as the loop state sees them. *)
Lemma pairs_state pre r st :
  loop_inv pre st ->
  (forall r', r' ∈ pre -> pair_ok r' r) <->
  catchAllIndex (path_state st (route_path r)) = None /\
  forall m, m ∈ route_models r -> path_models (path_state st (route_path r)) !! m = None.
Proof.
  intros (I1 & I2 & _). unfold pair_ok. split.
  - intros H. split.
    + apply eq_None_not_Some. rewrite I1. intros (r' & Hin & Hp & Hm). by destruct (H r' Hin Hp).
    + intros m Hm. apply eq_None_not_Some. rewrite I2. intros (r' & Hin & Hp & Hm').
      destruct (H r' Hin Hp) as [_ Hd]. by apply (Hd m).
  - intros [Hc Hd] r' Hin Hp. split.
    + intros Hm. apply eq_None_not_Some in Hc. apply Hc, I1. eauto.
    + intros m Hm Hm'. apply Hd, eq_None_not_Some in Hm'. apply Hm', I2. eauto.
Qed.

Lemma model_list_none i r st :
  check_model_list i r st = None <->
  modelListRouteIndex st = None /\ route_models r = [] /\ route_converter r = NONE /\
  includes (js "{model}") (getAdvancedCustomRouteUpstreamPath r) = false.
Proof.
  unfold check_model_list. fold (route_models r).
  destruct (modelListRouteIndex st); [naive_solver|].
  destruct (route_models r) as [|m ms]; cbn [length Nat.ltb Nat.leb]; [|naive_solver].
  destruct (route_converter r =s NONE) eqn:E; cbn [negb]; [apply jeqb_eq in E|apply jeqb_neq in E; naive_solver].
  destruct (includes (js "{model}") _); naive_solver.
Qed.

Lemma check_route_inr pre i r st st' :
  loop_inv pre st -> check_route parse_url i r st = inr st' ->
  route_ok r /\ (forall r', r' ∈ pre -> pair_ok r' r) /\ loop_inv (pre ++ [r]) st'.
Proof.
  intros Hinv. unfold check_route. cbv zeta. fold (route_models r).
  destruct (truthy (route_path r)) eqn:E1; [|done]. cbn [negb].
  destruct (starts_with _ _) eqn:E2; [|done]. cbn [negb].
  destruct (includes _ _) eqn:E3; [done|].
  destruct (if route_path r =s ADVANCED_CUSTOM_MODEL_LIST_PATH then check_model_list i r st else None) eqn:E4; [done|].
  destruct (validateAdvancedCustomRouteModels _ _ _ _) as [|byPath] eqn:E5; [done|].
  destruct (truthy (getAdvancedCustomRouteUpstreamPath r)) eqn:E6; [|done]. cbn [negb].
  destruct (isFullHttpURLOrAbsolutePath _ _) eqn:E7; [|done]. cbn [negb].
  destruct (isAdvancedCustomConverter _) eqn:E8; [|done]. cbn [negb].
  destruct (isConverterPathAllowed _ _) eqn:E9; [|done]. cbn [negb].
  destruct (validateRouteAuth _) eqn:E10; [done|]. intros [= <-].
  apply validate_models_inr in E5 as (Hc & Hnd & Hf & Hd & new & -> & Hafter).
  assert (route_path r = ADVANCED_CUSTOM_MODEL_LIST_PATH -> check_model_list i r st = None) as Hml.
  { intros Hp. by rewrite Hp, jeqb_refl in E4. }
  split; [|split].
  - repeat split; try done; try by apply truthy_spec.
    all: intros; apply Hml, model_list_none in H as (_ & ? & ? & ?); done.
  - by apply (pairs_state pre r st Hinv).
  - apply (loop_inv_snoc pre r st _ new Hinv); [done|done|]. cbn [modelListRouteIndex].
    destruct (route_path r =s ADVANCED_CUSTOM_MODEL_LIST_PATH) eqn:Ep; [apply jeqb_eq in Ep|apply jeqb_neq in Ep]; [|naive_solver].
    split; [by right|by eauto].
Qed.

Lemma check_route_ok pre i r st :
  loop_inv pre st -> Forall route_ok pre -> route_ok r -> (forall r', r' ∈ pre -> pair_ok r' r) ->
  exists st', check_route parse_url i r st = inr st'.
Proof.
  intros Hinv Hpre (H1 & H2 & H3 & H4 & H5 & H6 & H7 & H8 & H9 & H10 & H11) Hpairs.
  pose proof Hpairs as Hst. apply (pairs_state pre r st Hinv) in Hst as [Hc Hd].
  unfold check_route. cbv zeta. fold (route_models r).
  rewrite (proj2 (truthy_spec _) H1), H2, H3. cbn [negb].
  assert ((if route_path r =s ADVANCED_CUSTOM_MODEL_LIST_PATH then check_model_list i r st else None) = None) as ->.
  { destruct (route_path r =s ADVANCED_CUSTOM_MODEL_LIST_PATH) eqn:Ep; [|done]. apply jeqb_eq in Ep. apply model_list_none.
    destruct (H4 Ep) as (Hm & ? & ?). split; [|done].
    apply eq_None_not_Some. destruct Hinv as (_ & _ & I3). rewrite I3. intros (r' & Hin & Hp').
    rewrite Forall_forall in Hpre. destruct (Hpre r' Hin) as (_ & _ & _ & Hl & _).
    destruct (Hpairs r' Hin) as [Hne _]; [congruence|]. by apply Hne, Hl. }
  destruct (validate_models_ok i r (routeModelsByPath st)) as [byPath ->]; [done|done|done|done|].
  rewrite (proj2 (truthy_spec _) H7), H8, H9, H10, H11. cbn [negb]. by eexists.
Qed.

Lemma check_route_error i r st e : check_route parse_url i r st = inl e -> routeIndex e = Some i.
Proof.
  unfold check_route, check_model_list, validateAdvancedCustomRouteModels.
  assert (forall ms seen known e', check_models i ms seen known = inl e' -> routeIndex e' = Some i) as Hm.
  { intros ms. induction ms as [|m ms IH]; intros seen known e'; cbn [check_models]; [done|].
    intros H. cases; eauto. }
  intros H. cases; eauto.
Qed.

(** The loop accepts the rest of the routes, or stops at the first bad one. *)
Lemma check_routes_spec pre i rs st :
  loop_inv pre st -> Forall route_ok pre ->
  match check_routes parse_url i rs st with
  | None => Forall route_ok rs /\ ForallOrdPairs pair_ok rs /\
            (forall r r', r' ∈ pre -> r ∈ rs -> pair_ok r' r)
  | Some e => exists k r, routeIndex e = Some (i + k) /\ rs !! k = Some r /\
      Forall route_ok (take k rs) /\ ForallOrdPairs pair_ok (take k rs) /\
      (forall r r', r' ∈ pre -> r ∈ take k rs -> pair_ok r' r) /\
      ~ (route_ok r /\ forall r', r' ∈ pre ++ take k rs -> pair_ok r' r)
  end.
Proof.
  revert pre i st. induction rs as [|r rs IH]; intros pre i st Hinv Hpre; cbn [check_routes].
  { split; [constructor|]. split; [constructor|]. set_solver. }
  destruct (check_route parse_url i r st) as [e|st'] eqn:E.
  - exists 0, r. rewrite Nat.add_0_r. split; [by eapply check_route_error|]. split; [done|].
    split; [constructor|]. split; [constructor|]. split; [set_solver|]. intros [Hr Hp]. rewrite app_nil_r in Hp.
    destruct (check_route_ok pre i r st Hinv Hpre Hr Hp) as [? ?]. congruence.
  - destruct (check_route_inr pre i r st st' Hinv E) as (Hr & Hp & Hinv').
    assert (Forall route_ok (pre ++ [r])) as Hpre' by (apply Forall_app; auto).
    specialize (IH (pre ++ [r]) (S i) st' Hinv' Hpre').
    destruct (check_routes parse_url (S i) rs st') as [e|].
    + destruct IH as (k & r1 & Hi & Hk & Hf & Ho & Hpp & Hn). exists (S k), r1.
      split; [by rewrite Hi; f_equal; lia|]. split; [done|]. cbn [take].
      split; [by constructor|]. rewrite <- app_assoc in Hn. split; [|split; [|done]].
      * constructor; [|done]. apply Forall_forall. intros r' Hin. apply Hpp; set_solver.
      * intros r2 r' Hin [-> | Hin1]%elem_of_cons; [by apply Hp|]. apply Hpp; set_solver.
    + destruct IH as (Hf & Ho & Hpp). split; [by constructor|]. split.
      * constructor; [|done]. apply Forall_forall. intros r' Hin. apply Hpp; set_solver.
      * intros r1 r' Hin [-> | Hin1]%elem_of_cons; [by apply Hp|]. apply Hpp; set_solver.
Qed.
End spec.

(** ** Normalisation *)

Lemma normalize_models_idem ms :
  normalizeAdvancedCustomRouteModels (Some (normalizeAdvancedCustomRouteModels ms)) =
  normalizeAdvancedCustomRouteModels ms.
Proof.
  destruct ms as [l|]; [|done]. unfold normalizeAdvancedCustomRouteModels.
  induction l as [|m l IH]; [done|]. simpl. destruct (truthy (trim m)) eqn:E; [|done].
  simpl. rewrite trim_idem, E. by f_equal.
Qed.

Lemma normalize_route_idem r :
  normalizeAdvancedCustomRoute (normalizeAdvancedCustomRoute r) = normalizeAdvancedCustomRoute r.
Proof.
  unfold normalizeAdvancedCustomRoute at 1.
  assert (normalizeAdvancedCustomRouteModels (models (normalizeAdvancedCustomRoute r)) =
          normalizeAdvancedCustomRouteModels (models r)) as ->.
  { simpl. pose proof (normalize_models_idem (models r)) as H.
    destruct (normalizeAdvancedCustomRouteModels (models r)); [done|]. exact H. }
  unfold normalizeAdvancedCustomRoute, getAdvancedCustomRouteUpstreamPath.
  destruct r as [i u c ms [[ty n v]|]]; simpl; rewrite trim_idem; f_equal;
    unfold str_or; f_equal; by destruct (truthy (default [] c)) eqn:E; [rewrite E|].
Qed.

Lemma normalize_config_idem c :
  normalizeAdvancedCustomConfig (normalizeAdvancedCustomConfig c) = normalizeAdvancedCustomConfig c.
Proof.
  unfold normalizeAdvancedCustomConfig. simpl. do 2 f_equal. rewrite map_map.
  apply map_ext. intros r. apply normalize_route_idem.
Qed.

(** ** Theorems *)

(** C33. The validator decides its specification: a configuration is accepted exactly when
    it has a route, every route is well formed on its own (path, upstream, converter
    registered and fitting the path, authentication, model rules), and on each incoming
    path a catch-all route comes last, alone, and no model rule is repeated. *)
Theorem validate_spec parse_url c :
  validateAdvancedCustomConfig parse_url (Some c) = None <->
  routes_ok parse_url (normalized_routes c).
Proof.
  unfold validateAdvancedCustomConfig, routes_ok. fold (normalized_routes c). cbv zeta.
  destruct (normalized_routes c) as [|r rs]; [naive_solver|].
  pose proof (check_routes_spec parse_url [] 0 (r :: rs) initial_loop (loop_inv_initial parse_url) ltac:(constructor)) as H.
  destruct (check_routes _ _ _ _) as [e|]; [|naive_solver].
  split; [done|]. intros (_ & Hf & Ho). destruct H as (k & r1 & _ & Hk & _ & _ & _ & Hn).
  destruct Hn. rewrite Forall_forall in Hf. split; [apply Hf; by eapply list_elem_of_lookup_2|].
  intros r' Hin. clear Hf. cbn [app] in Hin.
  revert k Hk Hin. induction Ho as [|x l Hx Ho IH]; intros k Hk Hin; [done|].
  destruct k as [|k]; [by apply elem_of_nil in Hin|]. cbn [take] in Hin. simpl in Hk.
  apply elem_of_cons in Hin as [-> | Hin]; [|by eapply IH].
  rewrite Forall_forall in Hx. apply Hx. by eapply list_elem_of_lookup_2.
Qed.

(** A rejected configuration is blamed on its first bad route: the reported index is
    one of the routes, everything before it is acceptable, and that route breaks the
    specification, on its own or against an earlier one. *)
Theorem validate_first_error parse_url c e k :
  validateAdvancedCustomConfig parse_url (Some c) = Some e -> routeIndex e = Some k ->
  exists r, normalized_routes c !! k = Some r /\
    Forall (route_ok parse_url) (take k (normalized_routes c)) /\
    ForallOrdPairs pair_ok (take k (normalized_routes c)) /\
    ~ (route_ok parse_url r /\ forall r', r' ∈ take k (normalized_routes c) -> pair_ok r' r).
Proof.
  unfold validateAdvancedCustomConfig. fold (normalized_routes c). cbv zeta.
  destruct (normalized_routes c) as [|r rs]; [by intros [= <-]|].
  pose proof (check_routes_spec parse_url [] 0 (r :: rs) initial_loop (loop_inv_initial parse_url) ltac:(constructor)) as H.
  intros E Hk. rewrite E in H. destruct H as (k' & r1 & Hi & Hk' & Hf & Ho & _ & Hn).
  rewrite Hk in Hi. injection Hi as ->. eauto 10.
Qed.

Definition no_url : jstr -> option (jstr * jstr) := fun _ => None.

(** Two catch-all routes on the same path. *)
Definition ex_two_catch_all : AdvancedCustomConfig :=
  config [createAdvancedCustomRoute; createAdvancedCustomRoute].

Lemma validate_first_error_witness :
  exists r, normalized_routes ex_two_catch_all !! 1 = Some r /\
    ~ (route_ok no_url r /\ forall r', r' ∈ take 1 (normalized_routes ex_two_catch_all) -> pair_ok r' r).
Proof.
  destruct (validate_first_error no_url ex_two_catch_all
    (fail_at 1 (js "Only one catch-all route is allowed for the same incoming path")) 1)
    as (r & H1 & _ & _ & H2); [vm_compute; reflexivity|reflexivity|].
  exists r. split; [exact H1|exact H2].
Defined.

(** Normalising is idempotent, and validation does not depend on it having been done
    before: the stored configuration is judged as the edited one. *)
Theorem normalize_stable parse_url c :
  normalizeAdvancedCustomConfig (normalizeAdvancedCustomConfig c) = normalizeAdvancedCustomConfig c /\
  validateAdvancedCustomConfig parse_url (Some (normalizeAdvancedCustomConfig c)) =
  validateAdvancedCustomConfig parse_url (Some c).
Proof.
  split; [apply normalize_config_idem|]. unfold validateAdvancedCustomConfig.
  by rewrite normalize_config_idem.
Qed.

(** A route with the suggested defaults of a converter. *)
Definition default_route (conv : jstr) : AdvancedCustomRoute :=
  let p := getDefaultAdvancedCustomIncomingPath conv in
  let d := getAdvancedCustomConverterDefaults conv p in
  route p (fst d) conv (Some (snd d)).

(** What the editor offers is valid: every template, a new configuration, and for
    every converter the route on its default path with its default upstream path and
    authentication pass the validation, whatever the URL parser. *)
Theorem offered_configs_valid parse_url :
  Forall (fun o => validateAdvancedCustomConfig parse_url (Some (snd (snd o))) = None)
    ADVANCED_CUSTOM_TEMPLATE_OPTIONS /\
  (forall key, validateAdvancedCustomConfig parse_url (Some (getAdvancedCustomTemplateConfig key)) = None) /\
  validateAdvancedCustomConfig parse_url (Some createAdvancedCustomConfig) = None /\
  Forall (fun o => validateAdvancedCustomConfig parse_url (Some (config [default_route (fst o)])) = None)
    ADVANCED_CUSTOM_CONVERTER_OPTIONS.
Proof.
  assert (Forall (fun o => validateAdvancedCustomConfig parse_url (Some (snd (snd o))) = None)
    ADVANCED_CUSTOM_TEMPLATE_OPTIONS) as Ht.
  { repeat (constructor; [vm_compute; reflexivity|]). constructor. }
  split; [done|]. split; [|split; [vm_compute; reflexivity|]].
  - intros key. unfold getAdvancedCustomTemplateConfig.
    destruct (find_first _ _) as [o|] eqn:E; [|vm_compute; reflexivity].
    rewrite Forall_forall in Ht. apply Ht. by apply find_first_Some in E as [_ ?].
  - repeat (constructor; [vm_compute; reflexivity|]). constructor.
Qed.
