(* ===== verification/PlaygroundMessages.v ===== *)
(** * Playground messages

    The chat messages of the playground: [features/playground/lib/message/*.ts] and
    the pure part of [features/playground/lib/streaming/*.ts].  Times are numbers of
    milliseconds; the current time, the generated identifiers and the translation [t]
    are arguments of the functions that read them. *)

From S2P Require Import Prelude JsString JsNumber JsMath Json.

(** ** Data *)

Inductive MessageRole := User | Assistant | System.
Inductive MessageStatus := Loading | Streaming | StComplete | StError.

#[export] Instance MessageRole_eq_dec : EqDecision MessageRole.
Proof. solve_decision. Defined.
#[export] Instance MessageStatus_eq_dec : EqDecision MessageStatus.
Proof. solve_decision. Defined.

Record MessageVersion := { version_id : jstr; content : jstr }.

Record MessageAttachment := {
  att_url : jstr; filename : option jstr; mediaType : option jstr }.

Record Reasoning := {
  r_content : jstr; r_duration : number; r_startedAt : option number; r_completedAt : option number;
  r_durationMs : option number }.

Record Message := {
  key : jstr; from : MessageRole; versions : list MessageVersion;
  createdAt : option number; startedAt : option number; completedAt : option number;
  durationMs : option number;
  sources : option (list (jstr * jstr)); reasoning : option Reasoning;
  isReasoningStreaming : option bool; isReasoningComplete : option bool;
  isContentComplete : option bool; status : option MessageStatus;
  errorCode : option (option jstr); (* Some None is null *)
  attachments : option (list MessageAttachment) }.

(** [{ ...message, field: value }] *)
Definition with_versions (v : list MessageVersion) (m : Message) : Message :=
  {| key := key m; from := from m; versions := v; createdAt := createdAt m; startedAt := startedAt m;
     completedAt := completedAt m; durationMs := durationMs m; sources := sources m;
     reasoning := reasoning m; isReasoningStreaming := isReasoningStreaming m;
     isReasoningComplete := isReasoningComplete m; isContentComplete := isContentComplete m;
     status := status m; errorCode := errorCode m; attachments := attachments m |}.

Definition with_reasoning (r : option Reasoning) (m : Message) : Message :=
  {| key := key m; from := from m; versions := versions m; createdAt := createdAt m;
     startedAt := startedAt m; completedAt := completedAt m; durationMs := durationMs m;
     sources := sources m; reasoning := r; isReasoningStreaming := isReasoningStreaming m;
     isReasoningComplete := isReasoningComplete m; isContentComplete := isContentComplete m;
     status := status m; errorCode := errorCode m; attachments := attachments m |}.

Definition with_streaming (b : bool) (m : Message) : Message :=
  {| key := key m; from := from m; versions := versions m; createdAt := createdAt m;
     startedAt := startedAt m; completedAt := completedAt m; durationMs := durationMs m;
     sources := sources m; reasoning := reasoning m; isReasoningStreaming := Some b;
     isReasoningComplete := isReasoningComplete m; isContentComplete := isContentComplete m;
     status := status m; errorCode := errorCode m; attachments := attachments m |}.

Definition with_status (s : MessageStatus) (m : Message) : Message :=
  {| key := key m; from := from m; versions := versions m; createdAt := createdAt m;
     startedAt := startedAt m; completedAt := completedAt m; durationMs := durationMs m;
     sources := sources m; reasoning := reasoning m; isReasoningStreaming := isReasoningStreaming m;
     isReasoningComplete := isReasoningComplete m; isContentComplete := isContentComplete m;
     status := Some s; errorCode := errorCode m; attachments := attachments m |}.

Definition with_error_code (e : option (option jstr)) (m : Message) : Message :=
  {| key := key m; from := from m; versions := versions m; createdAt := createdAt m;
     startedAt := startedAt m; completedAt := completedAt m; durationMs := durationMs m;
     sources := sources m; reasoning := reasoning m; isReasoningStreaming := isReasoningStreaming m;
     isReasoningComplete := isReasoningComplete m; isContentComplete := isContentComplete m;
     status := status m; errorCode := e; attachments := attachments m |}.

Definition with_created (t : option number) (m : Message) : Message :=
  {| key := key m; from := from m; versions := versions m; createdAt := t; startedAt := startedAt m;
     completedAt := completedAt m; durationMs := durationMs m; sources := sources m;
     reasoning := reasoning m; isReasoningStreaming := isReasoningStreaming m;
     isReasoningComplete := isReasoningComplete m; isContentComplete := isContentComplete m;
     status := status m; errorCode := errorCode m; attachments := attachments m |}.

Definition with_timing (s c d : number) (m : Message) : Message :=
  {| key := key m; from := from m; versions := versions m; createdAt := createdAt m;
     startedAt := Some s; completedAt := Some c; durationMs := Some d; sources := sources m;
     reasoning := reasoning m; isReasoningStreaming := isReasoningStreaming m;
     isReasoningComplete := isReasoningComplete m; isContentComplete := isContentComplete m;
     status := status m; errorCode := errorCode m; attachments := attachments m |}.

Definition with_images (a : list MessageAttachment) (m : Message) : Message :=
  {| key := key m; from := from m; versions := versions m; createdAt := createdAt m;
     startedAt := startedAt m; completedAt := completedAt m; durationMs := durationMs m;
     sources := sources m; reasoning := reasoning m; isReasoningStreaming := Some false;
     isReasoningComplete := isReasoningComplete m; isContentComplete := Some true;
     status := Some StComplete; errorCode := errorCode m; attachments := Some a |}.

(** [ERROR_MESSAGES] *)
Definition API_REQUEST_ERROR : jstr := js "Request error occurred".
Definition NETWORK_ERROR : jstr := js "Network connection failed or server not responding".
Definition PARSE_ERROR : jstr := js "Error parsing response data".
Definition STREAM_START_ERROR : jstr := js "Error establishing connection".
Definition CONNECTION_CLOSED : jstr := js "Connection closed".
Definition INTERRUPTED : jstr := js "Generation was interrupted".

(** ** Versions *)

Definition createMessageVersion (id : jstr) (c : jstr) : MessageVersion :=
  {| version_id := id; content := c |}.

Definition getCurrentVersion (m : Message) : MessageVersion :=
  match versions m with
  | v :: _ => v
  | [] => {| version_id := js "default"; content := [] |}
  end.

Definition getMessageContent (m : Message) : jstr := content (getCurrentVersion m).

Definition hasMessageContent (m : Message) : bool := truthy (trim (getMessageContent m)).

Definition updateCurrentVersionContent (m : Message) (c : jstr) : Message :=
  with_versions [{| version_id := version_id (getCurrentVersion m); content := c |}] m.

(** ** Creating messages *)

Definition createUserMessage (k vid : jstr) (c : jstr) (created : number) (atts : list MessageAttachment)
  : Message :=
  {| key := k; from := User; versions := [createMessageVersion vid c]; createdAt := Some created;
     startedAt := None; completedAt := None; durationMs := None; sources := None; reasoning := None;
     isReasoningStreaming := None; isReasoningComplete := None; isContentComplete := None;
     status := None; errorCode := None;
     attachments := match atts with [] => None | _ => Some atts end |}.

Definition createLoadingAssistantMessage (k vid : jstr) (started : number) : Message :=
  {| key := k; from := Assistant; versions := [createMessageVersion vid []];
     createdAt := Some started; startedAt := Some started; completedAt := None; durationMs := None;
     sources := None; reasoning := None; isReasoningStreaming := Some false;
     isReasoningComplete := Some false; isContentComplete := Some false; status := Some Loading;
     errorCode := None; attachments := None |}.

(** ** Request content *)

Inductive ContentPart := TextPart (text : jstr) | ImagePart (url : jstr).
Inductive MessageContent := PlainContent (text : jstr) | PartsContent (parts : list ContentPart).

Definition buildMessageContent (text : jstr) (imageUrls : list jstr) : MessageContent :=
  match bfilter (fun u => truthy (trim u)) imageUrls with
  | [] => PlainContent text
  | validImages => PartsContent (TextPart text :: map (fun u => ImagePart (trim u)) validImages)
  end.

Definition is_text_part (p : ContentPart) : bool := match p with TextPart _ => true | _ => false end.

Definition getTextContent (c : MessageContent) : jstr :=
  match c with
  | PlainContent t => t
  | PartsContent ps =>
      match find_first is_text_part ps with
      | Some (TextPart t) => t
      | _ => []
      end
  end.

Definition formatMessageForAPI (m : Message) : MessageRole * MessageContent :=
  (from m, buildMessageContent (getMessageContent m) (map att_url (default [] (attachments m)))).

Definition isValidMessage (m : Message) : bool :=
  match versions m with
  | [] => false
  | _ => negb (bool_decide (from m = Assistant) && negb (hasMessageContent m))
  end.

(** ** Reasoning tags *)

Definition OPEN_TAG : jstr := js "<think>".
Definition CLOSE_TAG : jstr := js "</think>".

Record ParsedThinkTags := { visibleContent : jstr; pt_reasoning : jstr; hasUnclosedTag : bool }.

(** The [while] loop from position [currentPos]: visible parts, reasoning parts and
    whether a tag is left open.  Every round moves past a tag, so the length of the
    content bounds the number of rounds. *)
Fixpoint think_loop (fuel : nat) (c : jstr) (currentPos : nat) : list jstr * list jstr * bool :=
  match fuel with
  | O => ([], [], false)
  | S f =>
      match index_of_at OPEN_TAG c currentPos with
      | None => (if (currentPos <? length c)%nat then [slice_from currentPos c] else [], [], false)
      | Some openPos =>
          let before := if (currentPos <? openPos)%nat then [slice currentPos openPos c] else [] in
          match index_of_at CLOSE_TAG c (openPos + 7) with
          | None => (before, [slice_from (openPos + 7) c], true)
          | Some closePos =>
              let '(vis, reas, unclosed) := think_loop f c (closePos + 8) in
              (before ++ vis, slice (openPos + 7) closePos c :: reas, unclosed)
          end
      end
  end.

Definition parseThinkTags (c : jstr) : ParsedThinkTags :=
  if negb (includes OPEN_TAG c)
  then {| visibleContent := c; pt_reasoning := []; hasUnclosedTag := false |}
  else
    let '(vis, reas, unclosed) := think_loop (S (length c)) c 0 in
    {| visibleContent := trim (concat vis); pt_reasoning := trim (join [10%N; 10%N] reas);
       hasUnclosedTag := unclosed |}.

(** ** Timing *)

Definition completeAssistantTiming (now : number) (m : Message) : Message :=
  if negb (bool_decide (from m = Assistant)) then m
  else
    let started := match startedAt m with
                   | Some s => s
                   | None => default now (createdAt m)
                   end in
    with_timing started now (n_max n_zero (n_sub now started)) m.

Definition startReasoningTiming (now : number) (m : Message) : Reasoning :=
  match reasoning m with
  | Some r => {| r_content := r_content r; r_duration := r_duration r;
                 r_startedAt := Some (default now (r_startedAt r));
                 r_completedAt := r_completedAt r; r_durationMs := r_durationMs r |}
  | None => {| r_content := []; r_duration := n_zero; r_startedAt := Some now; r_completedAt := None;
               r_durationMs := None |}
  end.

(** [Math.ceil(ms / 1000)] *)
Definition ceil_seconds (ms : number) : number := n_ceil (n_div ms (num_of_Z 1000)).

Definition completeReasoningTiming (now : number) (m : Message) : Message :=
  match reasoning m with
  | Some r =>
      match r_durationMs r with
      | Some _ => m
      | None =>
          let started := match r_startedAt r with
                         | Some s => s
                         | None => default now (startedAt m)
                         end in
          let d := n_max n_zero (n_sub now started) in
          with_reasoning (Some {| r_content := r_content r; r_duration := ceil_seconds d;
                                  r_startedAt := Some started; r_completedAt := Some now;
                                  r_durationMs := Some d |}) m
      end
  | None => m
  end.

Definition reasoning_with (c : jstr) (r : Reasoning) : Reasoning :=
  {| r_content := c; r_duration := r_duration r; r_startedAt := r_startedAt r;
     r_completedAt := r_completedAt r; r_durationMs := r_durationMs r |}.

(** ** Streaming *)

Definition processStreamingContent (now : number) (m : Message) (contentChunk : jstr) : Message :=
  let fullContent := getMessageContent m ++ contentChunk in
  match reasoning m, includes OPEN_TAG fullContent with
  | None, false => with_streaming false (updateCurrentVersionContent m fullContent)
  | _, _ =>
      let p := parseThinkTags fullContent in
      let finalReasoning :=
        if truthy (pt_reasoning p)
        then Some (reasoning_with (pt_reasoning p) (startReasoningTiming now m))
        else reasoning m in
      with_streaming (hasUnclosedTag p)
        (with_reasoning finalReasoning (updateCurrentVersionContent m fullContent))
  end.

Inductive StreamChunkType := ReasoningChunk | ContentChunk.

Definition getAppendableChunk (currentContent chunk : jstr) : jstr :=
  if negb (truthy currentContent) || negb (starts_with currentContent chunk) then chunk
  else slice_from (length currentContent) chunk.

Definition applyStreamingChunk (now : number) (m : Message) (ty : StreamChunkType) (chunk : jstr) : Message :=
  if bool_decide (status m = Some StError) then m
  else
    match ty with
    | ReasoningChunk =>
        let r := startReasoningTiming now m in
        with_status Streaming
          (with_streaming true
            (with_reasoning (Some (reasoning_with (r_content r ++ getAppendableChunk (r_content r) chunk) r)) m))
    | ContentChunk =>
        let appendableChunk := getAppendableChunk (getMessageContent m) chunk in
        let contentMessage := processStreamingContent now m appendableChunk in
        with_status Streaming
          (if default false (isReasoningStreaming contentMessage) then contentMessage
           else completeReasoningTiming now contentMessage)
    end.

Definition finalizeMessage (now : number) (m : Message) (apiReasoningContent : option jstr) : Message :=
  let c := getMessageContent m in
  let parsed := if includes OPEN_TAG c then Some (parseThinkTags c) else None in
  let visible := match parsed with Some p => visibleContent p | None => c end in
  let finalReasoning :=
    str_or (default [] apiReasoningContent)
      (str_or (default [] (r_content <$> reasoning m))
        (default [] (pt_reasoning <$> parsed))) in
  completeReasoningTiming now
    (with_streaming false
      (with_reasoning
        (if truthy finalReasoning
         then Some (reasoning_with finalReasoning (startReasoningTiming now m)) else None)
        (updateCurrentVersionContent m visible))).

Definition completeAssistantMessage (now : number) (m : Message) : Message :=
  completeAssistantTiming now (with_status StComplete (finalizeMessage now m None)).

Definition isAssistantMessageFinal (m : Message) : bool :=
  match status m with Some StComplete | Some StError => true | _ => false end.

Definition isAssistantMessagePending (m : Message) : bool :=
  match status m with Some Loading | Some Streaming => true | _ => false end.

Definition isPendingAssistantMessage (m : Message) : bool :=
  bool_decide (from m = Assistant) && isAssistantMessagePending m.

(** A choice of a completion: content and reasoning of its message, if any. *)
Record ChatCompletionChoice := {
  choice_content : option jstr; choice_reasoning : option jstr }.

Definition hasChatCompletionChoice (choices : list ChatCompletionChoice) : bool :=
  match choices with [] => false | _ => true end.

Definition applyChatCompletionChoice (now : number) (m : Message) (choice : ChatCompletionChoice) : Message :=
  completeAssistantTiming now
    (with_status StComplete
      (finalizeMessage now (updateCurrentVersionContent m (default [] (choice_content choice)))
        (choice_reasoning choice))).

Definition applyChatCompletionResponse (now : number) (m : Message) (choices : list ChatCompletionChoice)
  : option Message :=
  match choices with
  | [] => None
  | c :: _ => Some (applyChatCompletionChoice now m c)
  end.

Record GeneratedImage := { b64_json : option jstr; image_url : option jstr }.

Definition image_attachment (index : nat) (image : GeneratedImage) : option MessageAttachment :=
  let u := match b64_json image with
           | Some b => if truthy b then js "data:image/png;base64," ++ b else default [] (image_url image)
           | None => default [] (image_url image)
           end in
  if truthy u
  then Some {| att_url := u; filename := Some (js "generated-image-" ++ show_nat (index + 1) ++ js ".png");
               mediaType := Some (js "image/png") |}
  else None.

Definition applyImageGenerationResponse (now : number) (m : Message) (images : list GeneratedImage)
  : option Message :=
  match omap id (imap image_attachment images) with
  | [] => None
  | atts => Some (completeAssistantTiming now (with_images atts m))
  end.

(** ** Loading from storage *)

(** The greatest index whose message is pending. *)
Fixpoint last_pending (messages : list Message) : option nat :=
  match messages with
  | [] => None
  | m :: t =>
      match last_pending t with
      | Some i => Some (S i)
      | None => if isPendingAssistantMessage m then Some 0 else None
      end
  end.

Definition sanitize_message (t : jstr -> jstr) (now : number) (m : Message) : Message :=
  let finalized := finalizeMessage now m None in
  if hasMessageContent finalized || truthy (trim (default [] (r_content <$> reasoning finalized)))
  then completeAssistantTiming now (with_streaming false (with_status StComplete finalized))
  else completeAssistantTiming now
         (with_streaming false
           (with_status StError
             (updateCurrentVersionContent finalized (t API_REQUEST_ERROR ++ js ": " ++ t INTERRUPTED)))).

Definition sanitizeMessagesOnLoad (t : jstr -> jstr) (now : number) (messages : list Message) : list Message :=
  match last_pending messages with
  | None => messages
  | Some targetIndex =>
      match messages !! targetIndex with
      | Some m => <[targetIndex := sanitize_message t now m]> messages
      | None => messages
      end
  end.

(** ** Updating the conversation *)

Definition updateLastAssistantMessage (messages : list Message) (updater : Message -> Message)
  : list Message :=
  match last messages with
  | Some m =>
      if bool_decide (from m = Assistant)
      then <[length messages - 1 := updater m]> messages
      else messages
  | None => messages
  end.

Definition updateAssistantMessageWithError (now : number) (messages : list Message) (errorMessage : jstr)
    (code : option jstr) (title : jstr) : list Message :=
  updateLastAssistantMessage messages (fun m =>
    completeAssistantTiming now
      (with_error_code (Some (match code with Some c => if truthy c then Some c else None | None => None end))
        (with_streaming false
          (with_status StError
            (updateCurrentVersionContent m (title ++ js ": " ++ errorMessage)))))).

(** [ids]: keys and version ids of the two new messages. *)
Definition appendUserMessagePair (now : number) (ids : jstr * jstr * (jstr * jstr)) (messages : list Message)
    (c : jstr) (atts : list MessageAttachment) : list Message :=
  let '(uk, uv, (ak, av)) := ids in
  messages ++ [createUserMessage uk uv c now atts; createLoadingAssistantMessage ak av now].

Definition has_key (k : jstr) (m : Message) : bool := key m =s k.

Definition createRegeneratedMessages (now : number) (ids : jstr * jstr) (messages : list Message)
    (messageKey : jstr) : option (list Message) :=
  messageIndex ← find_index (has_key messageKey) messages;
  m ← messages !! messageIndex;
  Some (take (if bool_decide (from m = User) then messageIndex + 1 else messageIndex) messages ++
        [createLoadingAssistantMessage (fst ids) (snd ids) now]).

Definition removeMessageByKey (messages : list Message) (messageKey : jstr) : list Message :=
  bfilter (fun m => negb (has_key messageKey m)) messages.

(** [None] when the loop reads past the end of the list, which throws; [Some None] is
    the answer [null]. *)
Fixpoint getPreviousUserMessage (messages : list Message) (beforeIndex : nat) : option (option Message) :=
  match beforeIndex with
  | O => Some None
  | S index =>
      m ← messages !! index;
      if bool_decide (from m = User) then Some (Some m) else getPreviousUserMessage messages index
  end.

(** [(messages, shouldSend)] *)
Definition applyMessageEdit (now : number) (ids : jstr * jstr) (messages : list Message) (messageKey c : jstr)
    (shouldSubmit : bool) : option (list Message * bool) :=
  messageIndex ← find_index (has_key messageKey) messages;
  let updatedMessages :=
    map (fun m => if has_key messageKey m
                  then with_created (if shouldSubmit then Some now else createdAt m)
                         (updateCurrentVersionContent m c)
                  else m) messages in
  m ← updatedMessages !! messageIndex;
  Some (if negb shouldSubmit || negb (bool_decide (from m = User)) then (updatedMessages, false)
        else (take (messageIndex + 1) updatedMessages ++
              [createLoadingAssistantMessage (fst ids) (snd ids) now], true)).

Definition getEditingMessageContent (messages : list Message) (editingKey : option jstr) : jstr :=
  match editingKey with
  | Some k =>
      if truthy k then
        match find_first (has_key k) messages with
        | Some m => getMessageContent m
        | None => []
        end
      else []
  | None => []
  end.

(** [(alwaysShowActions, content, isEditing)] *)
Definition getChatMessageRenderState (messages : list Message) (m : Message) (messageIndex : nat)
    (editingKey : option jstr) : bool * jstr * bool :=
  ((messageIndex + 1 =? length messages)%nat && bool_decide (from m = Assistant), getMessageContent m,
   match editingKey with Some k => k =s key m | None => false end).

(** ** What is displayed *)

Definition shouldShowMessageLoader (m : Message) (isAssistant : bool) (versionContent : jstr) : bool :=
  isAssistant && negb (default false (isReasoningStreaming m)) &&
  (bool_decide (status m = Some Loading) ||
   bool_decide (status m = Some Streaming) && negb (truthy versionContent)).

Definition shouldShowMessageContent (m : Message) (versionContent : jstr) : bool :=
  (bool_decide (from m = User) || negb (default false (isReasoningStreaming m))) &&
  (0 <? length versionContent)%nat.

Definition getDisplayContent (m : Message) (versionContent : jstr) : jstr :=
  if negb (bool_decide (from m = Assistant)) then versionContent
  else if negb (includes OPEN_TAG versionContent) then versionContent
  else visibleContent (parseThinkTags versionContent).

Record MessageContentState := {
  displayContent : jstr; hasSources : bool; st_isAssistant : bool; showLoader : bool;
  showMessageContent : bool; st_sources : list (jstr * jstr); reasoningContent : option jstr }.

(** [hasReasoning] is that [reasoningContent] is present. *)
Definition getMessageContentState (m : Message) (versionContent : jstr) : MessageContentState :=
  let isAssistant := bool_decide (from m = Assistant) in
  {| displayContent := getDisplayContent m versionContent;
     hasSources := (0 <? length (default [] (sources m)))%nat;
     st_isAssistant := isAssistant;
     showLoader := shouldShowMessageLoader m isAssistant versionContent;
     showMessageContent := shouldShowMessageContent m versionContent;
     st_sources := default [] (sources m);
     reasoningContent := if isAssistant
                         then (r ← reasoning m; if truthy (r_content r) then Some (r_content r) else None)
                         else None |}.

(** [(content, hasContent, isAssistant, isUser, isLoading)] *)
Definition getMessageActionState (m : Message) : jstr * bool * bool * bool * bool :=
  (getMessageContent m, hasMessageContent m, bool_decide (from m = Assistant), bool_decide (from m = User),
   isAssistantMessagePending m).

(** [(canSave, hasChanged, showSaveAndSubmit)] *)
Definition getMessageEditorState (m : Message) (editText originalText : jstr) : bool * bool * bool :=
  let hasText := truthy (trim editText) in
  let hasChanged := negb (editText =s originalText) in
  (hasText && hasChanged, hasChanged, bool_decide (from m = User)).

Definition isErrorMessage (m : Message) : bool := bool_decide (status m = Some StError).

(** [role] as an integer. *)
Definition isAdminRole (role : option Z) : bool :=
  match role with Some r => (10 <=? r)%Z | None => false end.

(** [(content, model-price?, showSettingsLink)] *)
Definition getMessageErrorState (m : Message) (isAdmin : bool) : option (jstr * bool * bool) :=
  if negb (isErrorMessage m) then None
  else
    let isModelPriceError :=
      match errorCode m with Some (Some c) => c =s js "model_price_error" | _ => false end in
    Some (str_or (getMessageContent m) (js "An unknown error occurred"), isModelPriceError,
          isModelPriceError && isAdmin).

(** [true] is the right side. *)
Definition getMessageAlignment (m : Message) (left_layout : bool) : bool :=
  if left_layout then false else bool_decide (from m = User).

(** ** Payloads *)

Record PlaygroundConfig := {
  cfg_model : jstr; selectedTokenId : option Z; cfg_temperature : number; cfg_top_p : number;
  cfg_max_tokens : number; cfg_frequency_penalty : number; cfg_presence_penalty : number;
  cfg_seed : option number; cfg_stream : bool }.

Record ParameterEnabled := {
  en_temperature : bool; en_top_p : bool; en_max_tokens : bool; en_frequency_penalty : bool;
  en_presence_penalty : bool; en_seed : bool }.

Record ChatCompletionRequest := {
  rq_model : jstr; rq_messages : list (MessageRole * MessageContent); rq_stream : bool;
  rq_temperature : option number; rq_top_p : option number; rq_max_tokens : option number;
  rq_frequency_penalty : option number; rq_presence_penalty : option number; rq_seed : option number }.

Definition only_if {A} (b : bool) (x : A) : option A := if b then Some x else None.

Definition buildChatCompletionPayload (messages : list Message) (cfg : PlaygroundConfig)
    (enabled : ParameterEnabled) : ChatCompletionRequest :=
  {| rq_model := cfg_model cfg;
     rq_messages := map formatMessageForAPI (bfilter isValidMessage messages);
     rq_stream := cfg_stream cfg;
     rq_temperature := only_if (en_temperature enabled) (cfg_temperature cfg);
     rq_top_p := only_if (en_top_p enabled) (cfg_top_p cfg);
     rq_max_tokens := only_if (en_max_tokens enabled) (cfg_max_tokens cfg);
     rq_frequency_penalty := only_if (en_frequency_penalty enabled) (cfg_frequency_penalty cfg);
     rq_presence_penalty := only_if (en_presence_penalty enabled) (cfg_presence_penalty cfg);
     rq_seed := if en_seed enabled then cfg_seed cfg else None |}.

(** The prompt of an image request: the text of the last user message. *)
Definition image_prompt (messages : list Message) : jstr :=
  let p := match find_first (fun m => bool_decide (from m = User)) (rev messages) with
           | Some m => match versions m with v :: _ => trim (content v) | [] => [] end
           | None => []
           end in
  str_or p (js "Generate an image.").

(** ** Stream payloads *)

Inductive parsed (A : Type) := Parsed (x : A) | ParseThrew.
Arguments Parsed {A} _.
Arguments ParseThrew {A}.

(** [a || undefined] and [a || b] on dynamic values, as text; the declared types make
    the values strings. *)
Definition text_or_none (v : jsval) : option jstr := if v_truthy v then Some (to_string v) else None.

(** [(errorCode, errorMessage)] *)
Definition parseStreamErrorDetails (data : option jstr) : option jstr * jstr :=
  let text := default [] data in
  let fallbackMessage := str_or text API_REQUEST_ERROR in
  if negb (truthy text) then (None, fallbackMessage)
  else
    match json_parse text with
    | None => (None, fallbackMessage)
    | Some p =>
        let err := get (js "error") p in
        if negb (v_truthy err) then (None, fallbackMessage)
        else (text_or_none (get (js "code") err),
              default fallbackMessage (text_or_none (get (js "message") err)))
    end.

(** [chunk.choices?.[0]?.delta]; [ParseThrew] when [JSON.parse] throws, or when the
    parsed value is [null] and has no properties. *)
Definition parseStreamMessageUpdates (data : jstr) : parsed (list (StreamChunkType * jstr)) :=
  match json_parse data with
  | None | Some VNull => ParseThrew
  | Some chunk =>
      let first := match get (js "choices") chunk with VArr (c :: _) => c | _ => VUndef end in
      let delta := get (js "delta") first in
      if negb (v_truthy delta) then Parsed []
      else
        Parsed (match text_or_none (get (js "reasoning_content") delta) with
                | Some c => [(ReasoningChunk, c)] | None => [] end ++
                match text_or_none (get (js "content") delta) with
                | Some c => [(ContentChunk, c)] | None => [] end)
  end.

Definition isStreamDoneMessage (data : jstr) : bool := data =s js "[DONE]".

Definition isStreamClosedReadyState (readyState : option Z) : bool :=
  match readyState with Some r => (r =? 2)%Z | None => false end.

Definition getStreamReadyStateError (eventReadyState http_status : option Z) : option jstr :=
  match eventReadyState, http_status with
  | Some r, Some st =>
      if (2 <=? r)%Z && negb (st =? 200)%Z
      then Some (js "HTTP " ++ show_Z st ++ js ": " ++ CONNECTION_CLOSED) else None
  | _, _ => None
  end.

Definition PLAYGROUND_TOKEN_HEADER : jstr := js "X-ACU-Playground-Token-Id".

Definition withPlaygroundTokenHeader (headers : list (jstr * jstr)) (tokenId : option Z)
  : list (jstr * jstr) :=
  match tokenId with
  | Some i => if (i =? 0)%Z then headers else prop_set PLAYGROUND_TOKEN_HEADER (show_Z i) headers
  | None => headers
  end.

(** [(errorCode, errorMessage)] *)
Definition parseRequestErrorDetails (error : jsval) : option jstr * jstr :=
  let d := get (js "data") (get (js "response") error) in
  (text_or_none (get (js "code") (get (js "error") d)),
   match text_or_none (get (js "message") d) with
   | Some s => s
   | None => default API_REQUEST_ERROR (text_or_none (get (js "message") error))
   end).
