(* ===== verification/StreamController.v ===== *)
(** * Streaming requests of the playground

    [createStreamRequestController] of [features/playground/hooks/use-stream-request.ts]:
    one controller that sends streaming requests, each replacing the one before it, and
    forwards what its event source reports to the callbacks of the request.  The
    controller is a transition system over the events it can see; the callbacks and the
    calls on the event sources are its output. *)

From S2P Require Import Prelude Machine JsString JsNumber Json PlaygroundMessages.

(** ** State *)

(** An event source created by request [src_gen]; [completed] is the flag of that
    request's closure. *)
Record Source := { src_gen : Z; completed : bool }.

Inductive output :=
  | OUpdate (gen : Z) (ty : StreamChunkType) (chunk : jstr)
  | OComplete (gen : Z)
  | OError (gen : Z) (message : jstr) (code : option jstr)
  | OStreaming (streaming : bool)
  | OOpen (id : nat) (headers : list (jstr * jstr))
  | OStart (id : nat)
  | OClose (id : nat) (inert : bool).

(** [pending]: the requests waiting for their headers, with the selected token. *)
Record Controller := {
  generation : Z; source : option nat; pending : list (Z * option Z);
  srcs : list Source; out : list output }.

Definition new_controller : Controller :=
  {| generation := 0; source := None; pending := []; srcs := []; out := [] |}.

Definition say (l : list output) (c : Controller) : Controller :=
  {| generation := generation c; source := source c; pending := pending c; srcs := srcs c;
     out := out c ++ l |}.

Definition set_source (s : option nat) (c : Controller) : Controller :=
  {| generation := generation c; source := s; pending := pending c; srcs := srcs c; out := out c |}.

Definition set_generation (g : Z) (c : Controller) : Controller :=
  {| generation := g; source := source c; pending := pending c; srcs := srcs c; out := out c |}.

Definition set_pending (p : list (Z * option Z)) (c : Controller) : Controller :=
  {| generation := generation c; source := source c; pending := p; srcs := srcs c; out := out c |}.

Definition set_srcs (l : list Source) (c : Controller) : Controller :=
  {| generation := generation c; source := source c; pending := pending c; srcs := l; out := out c |}.

(** ** The closures of a request *)

(** [isCurrent() && !completed] *)
Definition live (id : nat) (c : Controller) : bool :=
  match srcs c !! id with
  | Some s => (generation c =? src_gen s)%Z && bool_decide (source c = Some id) && negb (completed s)
  | None => false
  end.

(** [target.close()]: records whether the handlers of the source would ignore an event
    the call fires before it returns. *)
Definition close_source (id : nat) (c : Controller) : Controller :=
  say [OClose id (negb (live id c))] c.

Definition closeActiveSource (id : nat) (c : Controller) : Controller :=
  let c1 := close_source id c in
  if bool_decide (source c1 = Some id) then say [OStreaming false] (set_source None c1) else c1.

Definition mark_completed (id : nat) (c : Controller) : Controller :=
  match srcs c !! id with
  | Some s => set_srcs (<[id := {| src_gen := src_gen s; completed := true |}]> (srcs c)) c
  | None => c
  end.

Definition gen_of (id : nat) (c : Controller) : Z :=
  match srcs c !! id with Some s => src_gen s | None => 0 end.

Definition handleError (id : nat) (message : jstr) (code : option jstr) (c : Controller) : Controller :=
  if negb (live id c) then c
  else closeActiveSource id (say [OError (gen_of id c) message code] (mark_completed id c)).

Definition on_message (id : nat) (event_data : option jstr) (c : Controller) : Controller :=
  if negb (live id c) then c
  else
    let data := default [] event_data in
    if isStreamDoneMessage data
    then say [OComplete (gen_of id c)] (closeActiveSource id (mark_completed id c))
    else
      match parseStreamMessageUpdates data with
      | Parsed updates => say (map (fun '(ty, chunk) => OUpdate (gen_of id c) ty chunk) updates) c
      | ParseThrew => handleError id PARSE_ERROR None c
      end.

Definition on_error (id : nat) (source_state : option Z) (event_data : option jstr) (c : Controller)
  : Controller :=
  if negb (live id c) then c
  else if negb (isStreamClosedReadyState source_state)
  then let '(code, message) := parseStreamErrorDetails event_data in handleError id message code c
  else c.

Definition on_ready_state (id : nat) (event_state http_status : option Z) (c : Controller) : Controller :=
  if negb (live id c) then c
  else
    match getStreamReadyStateError event_state http_status with
    | Some message => handleError id message None c
    | None => c
    end.

(** ** Operations *)

Definition close_previous (previous : option nat) (c : Controller) : Controller :=
  match previous with Some id => close_source id c | None => c end.

(** [send] up to its [await]. *)
Definition send_start (tokenId : option Z) (c : Controller) : Controller :=
  let requestGeneration := (generation c + 1)%Z in
  let c1 := set_source None (set_generation requestGeneration c) in
  let c2 := say [OStreaming false] (close_previous (source c) c1) in
  set_pending (pending c2 ++ [(requestGeneration, tokenId)]) c2.

Definition forget (g : Z) (c : Controller) : Controller :=
  set_pending (bfilter (fun p => negb (fst p =? g)%Z) (pending c)) c.

(** [send] when the headers could not be had; [message] is that of the error, when it
    is an [Error]. *)
Definition headers_failed (g : Z) (message : option jstr) (c : Controller) : Controller :=
  let c1 := forget g c in
  if negb (generation c1 =? g)%Z then c1
  else say [OError g (default STREAM_START_ERROR message) None] c1.

(** [send] once the headers are there; [starts] is whether [stream()] returns. *)
Definition headers_ready (g : Z) (tokenId : option Z) (headers : list (jstr * jstr)) (starts : bool)
    (c : Controller) : Controller :=
  let c1 := forget g c in
  if negb (generation c1 =? g)%Z then c1
  else
    let id := length (srcs c1) in
    let c2 := set_srcs (srcs c1 ++ [{| src_gen := g; completed := false |}]) c1 in
    let c3 := say [OStreaming true]
                (set_source (Some id) (say [OOpen id (withPlaygroundTokenHeader headers tokenId)] c2)) in
    if starts then say [OStart id] c3 else handleError id STREAM_START_ERROR None c3.

Definition cancel (notify : bool) (c : Controller) : Controller :=
  let c1 := set_source None (set_generation (generation c + 1) c) in
  let c2 := close_previous (source c) c1 in
  if notify then say [OStreaming false] c2 else c2.

(** ** Transitions *)

Inductive ctl_event :=
  | CSend (tokenId : option Z)
  | CHeaders (g : Z) (headers : list (jstr * jstr)) (starts : bool)
  | CHeadersFailed (g : Z) (message : option jstr)
  | CMessage (id : nat) (event_data : option jstr)
  | CError (id : nat) (source_state : option Z) (event_data : option jstr)
  | CReadyState (id : nat) (event_state http_status : option Z)
  | CStop
  | CDispose.

Definition pending_token (g : Z) (c : Controller) : option (option Z) :=
  snd <$> find_first (fun p => (fst p =? g)%Z) (pending c).

(** [None]: nothing is waiting for these headers. *)
Definition ctl_step (e : ctl_event) (c : Controller) : option Controller :=
  match e with
  | CSend tokenId => Some (send_start tokenId c)
  | CHeaders g headers starts =>
      tokenId ← pending_token g c; Some (headers_ready g tokenId headers starts c)
  | CHeadersFailed g message => _ ← pending_token g c; Some (headers_failed g message c)
  | CMessage id d => Some (on_message id d c)
  | CError id st d => Some (on_error id st d c)
  | CReadyState id st h => Some (on_ready_state id st h c)
  | CStop => Some (cancel true c)
  | CDispose => Some (cancel false c)
  end.

Definition ctl_machine : Machine Controller ctl_event :=
  {| initial c := c = new_controller; next := ctl_step |}.

Abbreviation ctl_steps := (runs ctl_machine).
Definition ctl_reachable : Controller -> Prop := reaches ctl_machine.
