(* ===== verification/StreamFacts.v ===== *)
(** * Facts about streaming requests

    Every request of the controller calls back in order: updates, then at most one
    completion or error; a request that was replaced or stopped never calls back
    again; closing a source is only done when its handlers ignore what it fires. *)

From S2P Require Import Prelude Machine JsString JsNumber Json PlaygroundMessages StreamController.

(** ** Callbacks of a request *)

Definition cb_gen (o : output) : option Z :=
  match o with OUpdate g _ _ | OComplete g | OError g _ _ => Some g | _ => None end.

Definition is_update (o : output) : bool := match o with OUpdate _ _ _ => true | _ => false end.

(** The callbacks of request [g], in order. *)
Definition callbacks (g : Z) (l : list output) : list output :=
  bfilter (fun o => bool_decide (cb_gen o = Some g)) l.

Lemma callbacks_app g a b : callbacks g (a ++ b) = callbacks g a ++ callbacks g b.
Proof. apply List.filter_app. Qed.

(** Updates, then at most one terminal callback. *)
Definition well_ordered (l : list output) : Prop :=
  exists us ts, l = us ++ ts /\ Forall (fun o => is_update o = true) us /\ length ts <= 1.

(** Request [g] may still call back. *)
Definition is_open (g : Z) (c : Controller) : Prop :=
  g ∈ map fst (pending c) \/ exists s, s ∈ srcs c /\ src_gen s = g /\ completed s = false.

Definition gens (c : Controller) : list Z := map fst (pending c) ++ map src_gen (srcs c).

Record ctl_ok (c : Controller) : Prop := {
  ok_nodup : NoDup (gens c);
  ok_le : Forall (fun g => (g <= generation c)%Z) (gens c);
  ok_source : forall id, source c = Some id ->
    exists s, srcs c !! id = Some s /\ src_gen s = generation c /\ completed s = false;
  ok_order : forall g, Forall (fun o => is_update o = true) (callbacks g (out c)) \/
    well_ordered (callbacks g (out c)) /\ ~ is_open g c;
  ok_gens : forall g, callbacks g (out c) <> [] -> (g <= generation c)%Z;
  ok_close : Forall (fun o => match o with OClose _ inert => inert = true | _ => True end) (out c) }.

(** A change that adds no callback and opens no request. *)
Definition quiet (c c' : Controller) : Prop :=
  (generation c <= generation c')%Z /\
  (exists l, out c' = out c ++ l /\ Forall (fun o => cb_gen o = None) l /\
     Forall (fun o => match o with OClose _ inert => inert = true | _ => True end) l) /\
  (forall g, is_open g c' -> is_open g c \/ (generation c < g)%Z).

Lemma callbacks_none g l : Forall (fun o => cb_gen o = None) l -> callbacks g l = [].
Proof.
  induction 1 as [|o l Ho _ IH]; [done|]. unfold callbacks in *. simpl.
  rewrite bool_decide_false by (by rewrite Ho). exact IH.
Qed.

Lemma quiet_ok c c' :
  ctl_ok c -> quiet c c' -> NoDup (gens c') -> Forall (fun g => (g <= generation c')%Z) (gens c') ->
  (forall id, source c' = Some id ->
    exists s, srcs c' !! id = Some s /\ src_gen s = generation c' /\ completed s = false) ->
  ctl_ok c'.
Proof.
  intros [H1 H2 H3 H4 H5 H6] (Hg & (l & Ho & Hn & Hc) & Hop) Hnd Hle Hsrc.
  assert (forall g, callbacks g (out c') = callbacks g (out c)) as Hcb.
  { intros g. by rewrite Ho, callbacks_app, (callbacks_none g l), app_nil_r. }
  split; try done.
  - intros g. rewrite Hcb. destruct (H4 g) as [? | [? Hno]]; [by left|].
    destruct (decide (callbacks g (out c) = [])) as [E|E]; [left; rewrite E; constructor|].
    right. split; [done|]. intros Hopen. destruct (Hop g Hopen) as [? | ?]; [done|].
    specialize (H5 g E). lia.
  - intros g. rewrite Hcb. intros E. specialize (H5 g E). lia.
  - rewrite Ho. by apply Forall_app.
Qed.

Lemma live_spec id c :
  live id c = true <->
  exists s, srcs c !! id = Some s /\ src_gen s = generation c /\ source c = Some id /\ completed s = false.
Proof.
  unfold live. destruct (srcs c !! id) as [s|]; [|naive_solver].
  rewrite !andb_true_iff, bool_decide_eq_true, negb_true_iff, Z.eqb_eq. naive_solver.
Qed.

(** After the generation has moved or the source is gone, the handlers are inert. *)
Lemma live_no_source id c : source c = None -> live id c = false.
Proof. intros H. apply not_true_iff_false. rewrite live_spec. naive_solver. Qed.

Lemma close_previous_quiet p c :
  source c = None -> quiet c (close_previous p c).
Proof.
  intros Hs. destruct p as [id|]; simpl.
  - unfold close_source. rewrite live_no_source by done. split; [done|]. split; [|by left].
    eexists. split; [done|]. by repeat constructor.
  - split; [done|]. split; [|by left]. exists []. by rewrite app_nil_r.
Qed.

Lemma close_previous_same p c :
  generation (close_previous p c) = generation c /\ source (close_previous p c) = source c /\
  pending (close_previous p c) = pending c /\ srcs (close_previous p c) = srcs c.
Proof. by destruct p. Qed.

(** ** Starting and cancelling *)

Lemma send_start_ok tokenId c : ctl_ok c -> ctl_ok (send_start tokenId c).
Proof.
  intros H. pose proof H as [H1 H2 H3 H4 H5 H6]. unfold send_start.
  set (c1 := set_source None (set_generation (generation c + 1) c)).
  destruct (close_previous_quiet (source c) c1 eq_refl) as (_ & (l & Ho & Hn & Hc) & _).
  destruct (close_previous_same (source c) c1) as (E1 & E2 & E3 & E4).
  apply (quiet_ok c).
  - done.
  - unfold quiet. cbn [set_pending say generation]. rewrite E1. split; [simpl; lia|]. split.
    + exists (l ++ [OStreaming false]). cbn [set_pending say out]. rewrite Ho, <- app_assoc.
      split; [done|]. rewrite !Forall_app. by repeat constructor.
    + intros g [Hg | (s & Hs & Hgs)].
      * cbn [set_pending say pending] in Hg. rewrite E3, map_app, elem_of_app in Hg.
        destruct Hg as [Hg | Hg]; [by left; left|]. right. simpl in Hg.
        apply list_elem_of_singleton in Hg as ->. lia.
      * cbn [set_pending say srcs] in Hs. rewrite E4 in Hs. left. right. by exists s.
  - unfold gens. cbn [set_pending say pending srcs]. rewrite E3, E4, map_app. simpl map.
    unfold gens in H1, H2. rewrite <- app_assoc.
    apply NoDup_app in H1 as (Na & Nb & Nc). rewrite Forall_app in H2. destruct H2 as [L1 L2].
    rewrite !Forall_forall in L1, L2.
    apply NoDup_app. split; [done|]. split.
    + intros x Hx Hin. apply elem_of_app in Hin as [Hin | Hin].
      * simpl in Hin. apply list_elem_of_singleton in Hin as ->. specialize (L1 _ Hx). lia.
      * by apply (Nb x).
    + simpl. constructor; [|done]. intros Hin. specialize (L2 _ Hin). lia.
  - unfold gens. cbn [set_pending say pending srcs generation]. rewrite E1, E3, E4, map_app.
    unfold gens in H2. rewrite Forall_app in H2. destruct H2 as [L1 L2]. simpl.
    rewrite !Forall_app. repeat split;
      try (eapply Forall_impl; [eassumption|]; simpl; intros; lia). constructor; [lia|constructor].
  - cbn [set_pending say source]. rewrite E2. done.
Qed.

Lemma cancel_ok notify c : ctl_ok c -> ctl_ok (cancel notify c).
Proof.
  intros H. pose proof H as [H1 H2 H3 H4 H5 H6]. unfold cancel.
  set (c1 := set_source None (set_generation (generation c + 1) c)).
  destruct (close_previous_quiet (source c) c1 eq_refl) as (_ & (l & Ho & Hn & Hc) & _).
  destruct (close_previous_same (source c) c1) as (E1 & E2 & E3 & E4).
  assert (exists l', out (if notify then say [OStreaming false] (close_previous (source c) c1)
     else close_previous (source c) c1) = out c ++ l' /\ Forall (fun o => cb_gen o = None) l' /\
     Forall (fun o => match o with OClose _ inert => inert = true | _ => True end) l') as Hl.
  { destruct notify; [|by exists l]. exists (l ++ [OStreaming false]). simpl. rewrite Ho, <- app_assoc.
    split; [done|]. rewrite !Forall_app. by repeat constructor. }
  assert (forall (P : Controller -> Prop), P (say [OStreaming false] (close_previous (source c) c1)) ->
    P (close_previous (source c) c1) -> P (if notify then say [OStreaming false] (close_previous (source c) c1)
     else close_previous (source c) c1)) as Hif by (by destruct notify).
  apply (quiet_ok c); [done| | | |].
  - split; [|split; [done|]].
    + apply Hif; cbn [say generation]; rewrite E1; simpl; lia.
    + intros g. apply Hif; unfold is_open; cbn [say pending srcs]; rewrite E3, E4; by left.
  - apply Hif; unfold gens; cbn [say pending srcs]; by rewrite E3, E4.
  - apply Hif; unfold gens; cbn [say pending srcs generation]; rewrite E1, E3, E4;
      (eapply Forall_impl; [exact H2|]); simpl; intros; lia.
  - intros id. apply Hif; cbn [say source]; by rewrite E2.
Qed.

(** ** Finishing a request *)

Definition finished (c : Controller) (id : nat) (l : list output) : Controller :=
  {| generation := generation c; source := None; pending := pending c;
     srcs := <[id := {| src_gen := gen_of id c; completed := true |}]> (srcs c); out := out c ++ l |}.

Lemma live_gen id c : live id c = true -> gen_of id c = generation c.
Proof. rewrite live_spec. intros (s & Hs & Hg & _). unfold gen_of. by rewrite Hs. Qed.

Lemma close_completed id c l :
  live id c = true ->
  closeActiveSource id (say l (mark_completed id c)) =
  finished c id (l ++ [OClose id true; OStreaming false]).
Proof.
  rewrite live_spec. intros (s & Hs & Hg & Hsrc & Hc). unfold mark_completed, finished, gen_of. rewrite Hs.
  assert (id < length (srcs c)) as Hlt by by eapply lookup_lt_Some.
  unfold closeActiveSource, close_source. cbn [say source set_srcs].
  assert (live id (say l (set_srcs (<[id := {| src_gen := src_gen s; completed := true |}]> (srcs c)) c)) = false) as ->.
  { apply not_true_iff_false. rewrite live_spec. intros (s' & Hs' & _ & _ & Hc').
    cbn [say set_srcs srcs] in Hs'. rewrite list_lookup_insert_eq in Hs' by done. by simplify_eq. }
  rewrite bool_decide_true by done. unfold say, set_source, set_srcs. simpl. by rewrite <- !app_assoc.
Qed.

Lemma handle_error_live id msg code c :
  live id c = true ->
  handleError id msg code c =
  finished c id [OError (gen_of id c) msg code; OClose id true; OStreaming false].
Proof. intros H. unfold handleError. rewrite H. cbn [negb]. by rewrite close_completed. Qed.

Lemma done_live id c :
  live id c = true ->
  say [OComplete (gen_of id c)] (closeActiveSource id (mark_completed id c)) =
  finished c id [OClose id true; OStreaming false; OComplete (gen_of id c)].
Proof.
  intros H. assert (mark_completed id c = say [] (mark_completed id c)) as ->.
  { unfold say. rewrite app_nil_r. by destruct (mark_completed id c). }
  rewrite close_completed by done. unfold finished, say. simpl. by rewrite <- app_assoc.
Qed.

Lemma map_insert_gen id c s :
  srcs c !! id = Some s ->
  map src_gen (<[id := {| src_gen := src_gen s; completed := true |}]> (srcs c)) = map src_gen (srcs c).
Proof.
  intros H. change (map src_gen) with (fmap (M := list) src_gen). rewrite list_fmap_insert. simpl.
  apply list_insert_id. by rewrite list_lookup_fmap, H.
Qed.

(** The source of a live request is the only way the request is open. *)
Lemma finished_not_open c id l :
  ctl_ok c -> live id c = true -> ~ is_open (gen_of id c) (finished c id l).
Proof.
  intros [H1 H2 H3 H4 H5 H6] Hl. pose proof Hl as (s & Hs & Hg & Hsrc & Hc)%live_spec.
  unfold gen_of, finished. rewrite Hs. unfold is_open. cbn [pending srcs].
  unfold gens in H1. apply NoDup_app in H1 as (Na & Nb & Nc).
  assert (src_gen s ∈ map src_gen (srcs c)) as Hin.
  { apply list_elem_of_In, in_map, list_elem_of_In. by eapply list_elem_of_lookup_2. }
  intros [Hp | (s' & Hs' & Hg' & Hc')]; [by apply (Nb (src_gen s))|].
  apply list_elem_of_lookup_1 in Hs' as [j Hj].
  destruct (decide (j = id)) as [-> | Hne].
  { rewrite list_lookup_insert_eq in Hj by (by eapply lookup_lt_Some). unfold gen_of in Hj. rewrite Hs in Hj.
    by simplify_eq. }
  rewrite list_lookup_insert_ne in Hj by done. destruct Hne.
  eapply (NoDup_lookup (map src_gen (srcs c))); [done| |].
  - change (map src_gen (srcs c)) with (src_gen <$> srcs c). by rewrite list_lookup_fmap, Hj.
  - change (map src_gen (srcs c)) with (src_gen <$> srcs c). rewrite list_lookup_fmap, Hs. simpl. by rewrite Hg'.
Qed.

Lemma finished_open c id l g : is_open g (finished c id l) -> is_open g c.
Proof.
  intros [Hp | (s & Hs & Hg & Hc)]; [by left|]. right.
  apply list_elem_of_lookup_1 in Hs as [j Hj]. cbn [finished srcs] in Hj.
  apply list_lookup_insert_Some in Hj as [(_ & <- & _) | (_ & Hj)]; [done|].
  exists s. split; [by eapply list_elem_of_lookup_2|done].
Qed.

Lemma finished_ok c id l o :
  ctl_ok c -> live id c = true -> callbacks (gen_of id c) l = [o] ->
  (forall g, g <> gen_of id c -> callbacks g l = []) ->
  Forall (fun x => match x with OClose _ inert => inert = true | _ => True end) l ->
  ctl_ok (finished c id l).
Proof.
  intros H Hl Ho Hother Hclose. pose proof H as [H1 H2 H3 H4 H5 H6].
  pose proof Hl as (s & Hs & Hg & Hsrc & Hc)%live_spec.
  assert (gen_of id c = src_gen s) as Egen by (unfold gen_of; by rewrite Hs).
  assert (is_open (gen_of id c) c) as Hopen.
  { right. exists s. rewrite Egen. split; [by eapply list_elem_of_lookup_2|done]. }
  assert (gens (finished c id l) = gens c) as Eg.
  { unfold gens. cbn [finished pending srcs]. by rewrite Egen, map_insert_gen. }
  split.
  - by rewrite Eg.
  - by rewrite Eg.
  - done.
  - intros g. cbn [finished out]. rewrite callbacks_app.
    destruct (decide (g = gen_of id c)) as [-> | Hne].
    + right. split; [|by apply finished_not_open]. rewrite Ho. destruct (H4 (gen_of id c)) as [Hu | [_ Hno]]; [|done].
      exists (callbacks (gen_of id c) (out c)), [o]. done.
    + rewrite Hother, app_nil_r by done. destruct (H4 g) as [? | [? Hno]]; [by left|right].
      split; [done|]. intros Hop. by apply Hno, (finished_open c id l).
  - intros g. cbn [finished out generation]. rewrite callbacks_app.
    destruct (decide (g = gen_of id c)) as [-> | Hne]; [rewrite Egen, Hg; lia|].
    rewrite Hother, app_nil_r by done. apply H5.
  - cbn [finished out]. by apply Forall_app.
Qed.

Lemma callbacks_single g o l1 l2 :
  cb_gen o = Some g -> Forall (fun x => cb_gen x = None) l1 -> Forall (fun x => cb_gen x = None) l2 ->
  callbacks g (l1 ++ o :: l2) = [o] /\ forall g', g' <> g -> callbacks g' (l1 ++ o :: l2) = [].
Proof.
  intros Ho Hl1 Hl2. split.
  - rewrite callbacks_app, (callbacks_none g l1) by done. unfold callbacks. simpl.
    rewrite bool_decide_true by done. f_equal. by apply (callbacks_none g l2).
  - intros g' Hne. rewrite callbacks_app, (callbacks_none g' l1) by done. unfold callbacks. simpl.
    rewrite bool_decide_false by congruence. by apply (callbacks_none g' l2).
Qed.

Lemma handle_error_ok id msg code c : ctl_ok c -> ctl_ok (handleError id msg code c).
Proof.
  intros H. destruct (live id c) eqn:Hl; [|by unfold handleError; rewrite Hl].
  rewrite handle_error_live by done.
  destruct (callbacks_single (gen_of id c) (OError (gen_of id c) msg code) []
    [OClose id true; OStreaming false]) as [E1 E2]; [done|constructor|by repeat constructor|].
  eapply finished_ok; [done|done|exact E1|exact E2|by repeat constructor].
Qed.

(** ** Receiving *)

Lemma updates_ok id c (us : list (StreamChunkType * jstr)) :
  ctl_ok c -> live id c = true ->
  ctl_ok (say (map (fun '(ty, chunk) => OUpdate (gen_of id c) ty chunk) us) c).
Proof.
  intros [H1 H2 H3 H4 H5 H6] Hl. pose proof Hl as (s & Hs & Hg & Hsrc & Hc)%live_spec.
  assert (gen_of id c = src_gen s) as Egen by (unfold gen_of; by rewrite Hs).
  set (l := map _ us).
  assert (Forall (fun o => is_update o = true /\ cb_gen o = Some (gen_of id c)) l) as Hu.
  { apply Forall_forall. intros o Ho. unfold l in Ho. apply list_elem_of_In, in_map_iff in Ho as ([ty ch] & <- & _). done. }
  assert (forall g, g <> gen_of id c -> callbacks g l = []) as Hne.
  { intros g Hn. revert Hu. generalize l. induction 1 as [|o l' [_ Ho] _ IH]; [done|].
    unfold callbacks in *. simpl. rewrite Ho, bool_decide_false by congruence. exact IH. }
  assert (Forall (fun o => is_update o = true) (callbacks (gen_of id c) l)) as Hcb.
  { apply Forall_forall. intros o Ho. unfold callbacks in Ho. apply list_elem_of_In, filter_In in Ho as [Ho _].
    rewrite Forall_forall in Hu. by apply Hu, list_elem_of_In. }
  split; try done; cbn [say out generation].
  - intros g. rewrite callbacks_app. destruct (decide (g = gen_of id c)) as [-> | Hn].
    + left. destruct (H4 (gen_of id c)) as [? | [_ Hno]]; [by apply Forall_app|].
      destruct Hno. right. exists s. rewrite Egen. split; [by eapply list_elem_of_lookup_2|done].
    + rewrite Hne, app_nil_r by done. apply H4.
  - intros g. rewrite callbacks_app. destruct (decide (g = gen_of id c)) as [-> | Hn]; [rewrite Egen, Hg; lia|].
    rewrite Hne, app_nil_r by done. apply H5.
  - apply Forall_app. split; [done|]. eapply Forall_impl; [exact Hu|]. intros [] [? ?]; done.
Qed.

Lemma on_message_ok id d c : ctl_ok c -> ctl_ok (on_message id d c).
Proof.
  intros H. unfold on_message. destruct (live id c) eqn:Hl; [|done]. cbn [negb]. cbv zeta.
  destruct (isStreamDoneMessage _).
  - rewrite done_live by done.
    destruct (callbacks_single (gen_of id c) (OComplete (gen_of id c)) [OClose id true; OStreaming false] [])
      as [E1 E2]; [done|by repeat constructor|constructor|].
    eapply finished_ok; [done|done|exact E1|exact E2|by repeat constructor].
  - destruct (parseStreamMessageUpdates _); [by apply updates_ok|by apply handle_error_ok].
Qed.

(** ** Headers *)

Lemma forget_sub g c x : x ∈ map fst (pending (forget g c)) -> x ∈ map fst (pending c) /\ x <> g.
Proof.
  cbn [forget set_pending pending]. intros Hx. apply list_elem_of_In, in_map_iff in Hx as (p & <- & Hp).
  apply filter_In in Hp as [Hp Hn]. apply negb_true_iff, Z.eqb_neq in Hn. split; [|done].
  apply list_elem_of_In. by apply in_map.
Qed.

Lemma NoDup_map_filter {A} (f : A -> Z) p (l : list A) : NoDup (map f l) -> NoDup (map f (bfilter p l)).
Proof.
  induction l as [|x l IH]; simpl; [done|]. intros [Hx Hl]%NoDup_cons.
  destruct (p x); [|by apply IH]. simpl. constructor; [|by apply IH].
  intros Hin. apply Hx. apply list_elem_of_In, in_map_iff in Hin as (y & Ey & Hy).
  apply filter_In in Hy as [Hy _]. apply list_elem_of_In, in_map_iff. by exists y.
Qed.

Lemma forget_ok g c : ctl_ok c -> ctl_ok (forget g c) /\ (g ∈ map fst (pending c) -> ~ is_open g (forget g c)).
Proof.
  intros H. pose proof H as [H1 H2 H3 H4 H5 H6]. unfold gens in *.
  apply NoDup_app in H1 as (Na & Nb & Nc). rewrite Forall_app, !Forall_forall in H2. destruct H2 as [L1 L2].
  split.
  - apply (quiet_ok c); [done| | | |done].
    + split; [done|]. split; [exists []; by rewrite app_nil_r|]. intros x [Hx | Hx]; left; [left|by right].
      by apply (forget_sub g c).
    + unfold gens. apply NoDup_app. split; [by apply NoDup_map_filter|]. split; [|done].
      intros x [Hx _]%forget_sub. by apply Nb.
    + unfold gens. apply Forall_app. split; apply Forall_forall; [|done].
      intros x [Hx _]%forget_sub. by apply L1.
  - intros Hin [Hp | (s & Hs & <- & _)]; [by apply forget_sub in Hp as [_ ?]|].
    apply (Nb (src_gen s) Hin). apply list_elem_of_In, in_map, list_elem_of_In. done.
Qed.

Lemma pending_token_elem g c t : pending_token g c = Some t -> g ∈ map fst (pending c).
Proof.
  unfold pending_token. intros (p & (Hg & Hin)%find_first_Some & _)%fmap_Some.
  apply Z.eqb_eq in Hg. apply list_elem_of_In, in_map_iff. exists p. by rewrite <- list_elem_of_In.
Qed.

Lemma closed_updates g c : ctl_ok c -> is_open g c -> Forall (fun o => is_update o = true) (callbacks g (out c)).
Proof. intros H Ho. by destruct (ok_order c H g) as [? | [_ ?]]. Qed.

Lemma headers_failed_ok g msg c :
  ctl_ok c -> g ∈ map fst (pending c) -> ctl_ok (headers_failed g msg c).
Proof.
  intros H Hin. destruct (forget_ok g c H) as [Hf Hno]. unfold headers_failed. cbv zeta.
  destruct (generation (forget g c) =? g)%Z eqn:E; [|done]. cbn [negb]. apply Z.eqb_eq in E.
  pose proof Hf as [H1 H2 H3 H4 H5 H6].
  set (o := OError g (default STREAM_START_ERROR msg) None).
  destruct (callbacks_single g o [] []) as [E1 E2]; [done|constructor|constructor|].
  change (callbacks g [o] = [o]) in E1. change (forall g', g' <> g -> callbacks g' [o] = []) in E2.
  split; try done; cbn [say out generation].
  - intros x. rewrite callbacks_app. destruct (decide (x = g)) as [-> | Hn].
    + right. split; [|by apply Hno]. exists (callbacks g (out (forget g c))), [o]. rewrite E1.
      split; [done|]. split; [|done]. apply (closed_updates g c); [done|by left].
    + rewrite E2, app_nil_r by done. apply H4.
  - intros x. rewrite callbacks_app. destruct (decide (x = g)) as [-> | Hn]; [lia|].
    rewrite E2, app_nil_r by done. apply H5.
  - apply Forall_app. split; [done|by repeat constructor].
Qed.

Lemma headers_ready_ok g tokenId headers starts c :
  ctl_ok c -> g ∈ map fst (pending c) -> ctl_ok (headers_ready g tokenId headers starts c).
Proof.
  intros H Hin. destruct (forget_ok g c H) as [Hf Hno]. specialize (Hno Hin). unfold headers_ready. cbv zeta.
  destruct (generation (forget g c) =? g)%Z eqn:E; [|done]. cbn [negb]. apply Z.eqb_eq in E.
  pose proof Hf as [H1 H2 H3 H4 H5 H6]. set (c1 := forget g c) in *.
  set (c2 := set_srcs (srcs c1 ++ [{| src_gen := g; completed := false |}]) c1).
  set (c3 := say [OStreaming true]
    (set_source (Some (length (srcs c1)))
      (say [OOpen (length (srcs c1)) (withPlaygroundTokenHeader headers tokenId)] c2))).
  assert (ctl_ok c3) as H3'.
  { assert (forall x, callbacks x (out c3) = callbacks x (out c1)) as Hcb.
    { intros x. cbn [c3 say set_source out c2 set_srcs]. rewrite !callbacks_app. cbn. by rewrite !app_nil_r. }
    assert (gens c3 = gens c1 ++ [g]) as Eg.
    { unfold gens. cbn [c3 say set_source pending srcs c2 set_srcs]. by rewrite map_app, app_assoc. }
    assert (g ∉ gens c1) as Hng.
    { unfold gens. rewrite elem_of_app. intros [Hp | Hp]; [by apply forget_sub in Hp as [_ ?]|].
      pose proof (ok_nodup c H) as Hnd. unfold gens in Hnd. apply NoDup_app in Hnd as (_ & Nb & _).
      by apply (Nb g Hin). }
    split.
    - rewrite Eg. apply NoDup_app. split; [done|]. split; [|apply NoDup_singleton].
      intros x Hx [= ->]%list_elem_of_singleton. done.
    - rewrite Eg, Forall_app. split; [done|]. apply Forall_singleton.
      change (generation c3) with (generation c1). lia.
    - intros id [= <-]. eexists. cbn [c3 say set_source srcs c2 set_srcs]. rewrite lookup_app_r by done.
      rewrite Nat.sub_diag. split; [done|]. by split.
    - intros x. rewrite Hcb. destruct (decide (x = g)) as [-> | Hn].
      + left. apply (closed_updates g c); [done|by left].
      + destruct (H4 x) as [? | [? Hnx]]; [by left|]. right. split; [done|].
        intros [Hp | (s & Hs & Hgs & Hcs)]; apply Hnx; [by left|].
        cbn [c3 say set_source srcs c2 set_srcs] in Hs. apply elem_of_app in Hs as [Hs | Hs]; [right; by exists s|].
        apply list_elem_of_singleton in Hs as ->. by simpl in Hgs.
    - intros x. rewrite Hcb. apply H5.
    - cbn [c3 say set_source out c2 set_srcs]. rewrite !Forall_app. by repeat constructor. }
  destruct starts; [|by apply handle_error_ok].
  apply (quiet_ok c3); try apply H3'.
  split; [done|]. split; [|by left]. eexists. split; [done|]. by repeat constructor.
Qed.

Lemma ctl_step_ok e c c' : ctl_step e c = Some c' -> ctl_ok c -> ctl_ok c'.
Proof.
  intros Hs H. destruct e; cbn [ctl_step] in Hs.
  - simplify_eq. by apply send_start_ok.
  - destruct (pending_token g c) eqn:E; simplify_eq/=. apply headers_ready_ok; [done|by eapply pending_token_elem].
  - destruct (pending_token g c) eqn:E; simplify_eq/=. apply headers_failed_ok; [done|by eapply pending_token_elem].
  - simplify_eq. by apply on_message_ok.
  - simplify_eq. unfold on_error. destruct (negb (live id c)); [done|]. destruct (negb _); [|done].
    destruct (parseStreamErrorDetails _). by apply handle_error_ok.
  - simplify_eq. unfold on_ready_state. destruct (negb (live id c)); [done|].
    destruct (getStreamReadyStateError _ _); [by apply handle_error_ok|done].
  - simplify_eq. by apply cancel_ok.
  - simplify_eq. by apply cancel_ok.
Qed.

Lemma new_controller_ok : ctl_ok new_controller.
Proof. split; try done; try constructor. apply Forall_nil_2. Qed.

Lemma ctl_reachable_ok c : ctl_reachable c -> ctl_ok c.
Proof.
  apply reaches_invariant; [intros ? ->; apply new_controller_ok|]. intros e s s'. apply ctl_step_ok.
Qed.

(** ** Theorems *)

(** C6. In every reachable state the callbacks of each request come in order: updates,
    then at most one completion or error and nothing after it; and the source of the
    controller, when there is one, belongs to the latest request and is not finished. *)
Theorem stream_callbacks_ordered c g :
  ctl_reachable c ->
  well_ordered (callbacks g (out c)) /\
  forall id, source c = Some id ->
    exists s, srcs c !! id = Some s /\ src_gen s = generation c /\ completed s = false.
Proof.
  intros H%ctl_reachable_ok. split; [|apply (ok_source c H)].
  destruct (ok_order c H g) as [Hu | [? _]]; [|done].
  exists (callbacks g (out c)), []. rewrite app_nil_r. split; [done|]. split; [done|simpl; lia].
Qed.

(** An event source is only closed when its handlers ignore what closing fires: the
    source is no longer the controller's, or its request is marked finished. *)
Theorem stream_close_inert c :
  ctl_reachable c ->
  Forall (fun o => match o with OClose _ inert => inert = true | _ => True end) (out c).
Proof. intros H%ctl_reachable_ok. apply (ok_close c H). Qed.

(** Calls back only for the current generation, which never decreases. *)
Definition only_current (c c' : Controller) : Prop :=
  (generation c <= generation c')%Z /\
  forall g, (g < generation c)%Z -> callbacks g (out c') = callbacks g (out c).

Lemma only_current_finished c id l :
  live id c = true -> (forall g, g <> gen_of id c -> callbacks g l = []) ->
  only_current c (finished c id l).
Proof.
  intros Hl Ho. split; [done|]. intros g Hg. cbn [finished out].
  rewrite callbacks_app, Ho, app_nil_r; [done|]. rewrite live_gen by done. lia.
Qed.

Lemma only_current_error id msg code c : only_current c (handleError id msg code c).
Proof.
  destruct (live id c) eqn:Hl; [|by unfold handleError; rewrite Hl].
  rewrite handle_error_live by done.
  destruct (callbacks_single (gen_of id c) (OError (gen_of id c) msg code) []
    [OClose id true; OStreaming false]) as [_ E2]; [done|constructor|by repeat constructor|].
  by apply only_current_finished.
Qed.

Lemma only_current_quiet c c' l :
  (generation c <= generation c')%Z -> out c' = out c ++ l -> Forall (fun o => cb_gen o = None) l ->
  only_current c c'.
Proof.
  intros Hg Ho Hn. split; [done|]. intros g _. by rewrite Ho, callbacks_app, (callbacks_none g l), app_nil_r.
Qed.

Lemma only_current_trans c1 c2 c3 : only_current c1 c2 -> only_current c2 c3 -> only_current c1 c3.
Proof.
  intros [G1 H1] [G2 H2]. split; [lia|]. intros g Hg. rewrite H2 by lia. by apply H1.
Qed.

Lemma close_previous_out p c :
  exists l, out (close_previous p c) = out c ++ l /\ Forall (fun o => cb_gen o = None) l /\
    generation (close_previous p c) = generation c.
Proof.
  destruct p as [id|]; [|by exists []; rewrite app_nil_r]. eexists. split; [done|]. by repeat constructor.
Qed.

Lemma only_current_step e c c' : ctl_step e c = Some c' -> only_current c c'.
Proof.
  intros Hs. assert (only_current c c) as Hrefl by done.
  destruct e; simpl in Hs.
  - simplify_eq. unfold send_start.
    destruct (close_previous_out (source c) (set_source None (set_generation (generation c + 1) c)))
      as (l & Ho & Hn & Hg).
    apply (only_current_quiet c _ (l ++ [OStreaming false])).
    + cbn [set_pending say generation]. rewrite Hg. simpl. lia.
    + cbn [set_pending say out]. rewrite Ho. simpl. by rewrite <- app_assoc.
    + apply Forall_app. by repeat constructor.
  - destruct (pending_token g c); simplify_eq/=. unfold headers_ready. cbv zeta.
    destruct (negb _); [done|].
    set (c3 := say [OStreaming true] _).
    assert (only_current c c3) as H3.
    { eapply only_current_quiet; [done| |].
      - cbn [c3 say set_source out set_srcs forget set_pending]. rewrite <- app_assoc. reflexivity.
      - by repeat constructor. }
    destruct starts; [|by eapply only_current_trans, only_current_error].
    eapply only_current_trans; [exact H3|]. eapply only_current_quiet; [done|reflexivity|by repeat constructor].
  - destruct (pending_token g c); simplify_eq/=. unfold headers_failed. cbv zeta.
    destruct (generation (forget g c) =? g)%Z eqn:E; [|done]. cbn [negb]. apply Z.eqb_eq in E. split; [done|].
    intros x Hx. cbn [say out]. rewrite callbacks_app.
    destruct (callbacks_single g (OError g (default STREAM_START_ERROR message) None) [] []) as [_ E2];
      [done|constructor|constructor|]. cbn [app] in E2. simpl in E.
    rewrite E2, app_nil_r by lia. done.
  - simplify_eq. unfold on_message. destruct (live id c) eqn:Hl; [|done]. cbn [negb]. cbv zeta.
    destruct (isStreamDoneMessage _).
    + rewrite done_live by done.
      destruct (callbacks_single (gen_of id c) (OComplete (gen_of id c)) [OClose id true; OStreaming false] [])
        as [_ E2]; [done|by repeat constructor|constructor|]. by apply only_current_finished.
    + destruct (parseStreamMessageUpdates _) as [us|]; [|apply only_current_error].
      split; [done|]. intros g Hg. cbn [say out]. rewrite callbacks_app.
      assert (callbacks g (map (fun '(ty, chunk) => OUpdate (gen_of id c) ty chunk) us) = []) as ->;
        [|by rewrite app_nil_r].
      rewrite live_gen by done. induction us as [|[ty ch] us IH]; [done|]. unfold callbacks in *. simpl.
      rewrite bool_decide_false by (simpl; intros [= ?]; lia). exact IH.
  - simplify_eq. unfold on_error. destruct (negb (live id c)); [done|]. destruct (negb _); [|done].
    destruct (parseStreamErrorDetails _). apply only_current_error.
  - simplify_eq. unfold on_ready_state. destruct (negb (live id c)); [done|].
    destruct (getStreamReadyStateError _ _); [apply only_current_error|done].
  - simplify_eq. unfold cancel.
    destruct (close_previous_out (source c) (set_source None (set_generation (generation c + 1) c)))
      as (l & Ho & Hn & Hg).
    apply (only_current_quiet c _ (l ++ [OStreaming false])).
    + cbn [say generation]. rewrite Hg. simpl. lia.
    + cbn [say out]. rewrite Ho. simpl. by rewrite <- app_assoc.
    + apply Forall_app. by repeat constructor.
  - simplify_eq. unfold cancel.
    destruct (close_previous_out (source c) (set_source None (set_generation (generation c + 1) c)))
      as (l & Ho & Hn & Hg).
    apply (only_current_quiet c _ l); [rewrite Hg; simpl; lia|done|done].
Qed.

#[export] Instance only_current_preorder : PreOrder only_current.
Proof. split; [done|]. intros c c1 c2. apply only_current_trans. Qed.

Lemma only_current_steps c es c' : ctl_steps c es c' -> only_current c c'.
Proof. apply (runs_preorder ctl_machine only_current). apply only_current_step. Qed.

(** C5. A request that was stopped, disposed of or replaced never calls back again: from
    the state after the stop or the new request, no sequence of events, late headers and
    late stream events included, adds a callback for it or for any earlier request. *)
Theorem stream_superseded_silent e c c1 es c2 g :
  match e with CSend _ | CStop | CDispose => True | _ => False end ->
  ctl_step e c = Some c1 -> ctl_steps c1 es c2 -> (g <= generation c)%Z ->
  callbacks g (out c2) = callbacks g (out c).
Proof.
  intros He Hs Hes Hg.
  assert (generation c1 = (generation c + 1)%Z /\ callbacks g (out c1) = callbacks g (out c)) as [G1 H1].
  { destruct e; try done; simpl in Hs; simplify_eq; unfold send_start, cancel;
      destruct (close_previous_out (source c) (set_source None (set_generation (generation c + 1) c)))
        as (l & Ho & Hn & Hgen); cbn [set_pending say generation out]; rewrite ?Hgen, ?Ho; (split; [done|]);
      rewrite ?callbacks_app; cbn; rewrite ?app_nil_r; cbn [set_source set_generation out];
      rewrite ?callbacks_app, (callbacks_none g l), app_nil_r by done; done. }
  destruct (only_current_steps _ _ _ Hes) as [_ H2]. rewrite H2 by lia. done.
Qed.

(** ** Witnesses *)

Definition ex_chunk : jstr := jsq "{`choices`:[{`delta`:{`content`:`Hi`}}]}".

(** A request whose answer arrives in part, then a second request. *)
Definition ex_events : list ctl_event :=
  [CSend None; CHeaders 1 [] true; CMessage 0 (Some ex_chunk); CSend (Some 7%Z); CHeaders 2 [] true].
Definition ex_ctl : Controller := default new_controller (exec ctl_machine ex_events new_controller).

Lemma ex_ctl_reachable : ctl_reachable ex_ctl.
Proof. exists new_controller, ex_events. split; [done|]. apply exec_runs. vm_compute. reflexivity. Qed.

Lemma stream_callbacks_ordered_witness :
  well_ordered (callbacks 1 (out ex_ctl)) /\ callbacks 1 (out ex_ctl) = [OUpdate 1 ContentChunk (js "Hi")].
Proof.
  split; [apply (stream_callbacks_ordered ex_ctl 1 ex_ctl_reachable)|vm_compute; reflexivity].
Defined.

Lemma stream_close_inert_witness : OClose 0 true ∈ out ex_ctl /\
  Forall (fun o => match o with OClose _ inert => inert = true | _ => True end) (out ex_ctl).
Proof.
  split; [|apply stream_close_inert; exact ex_ctl_reachable].
  vm_compute. repeat first [left | right].
Defined.

Lemma stream_superseded_silent_witness :
  let c1 := default new_controller (ctl_step CStop ex_ctl) in
  let c2 := default new_controller (ctl_step (CMessage 1 (Some (js "[DONE]"))) c1) in
  callbacks 2 (out c2) = callbacks 2 (out ex_ctl).
Proof.
  apply (stream_superseded_silent CStop ex_ctl (default new_controller (ctl_step CStop ex_ctl))
           [CMessage 1 (Some (js "[DONE]"))]).
  - exact I.
  - vm_compute. reflexivity.
  - apply exec_runs. vm_compute. reflexivity.
  - vm_compute. congruence.
Defined.
