(* ===== verification/PlaygroundFacts.v ===== *)
(** * Facts about playground messages

    The reasoning tags are separated from the visible text exactly where they are, the
    chunks of a stream are assembled to the text that was sent, a conversation loaded
    from storage is not left waiting, and the edits touch what they name. *)

From S2P Require Import Prelude JsString JsNumber Json PlaygroundMessages.

(** ** Reasoning tags *)

Lemma open_len : length OPEN_TAG = 7. Proof. reflexivity. Qed.
Lemma close_len : length CLOSE_TAG = 8. Proof. reflexivity. Qed.

(** [indexOf] past a prefix finds what it finds in the rest. *)
Lemma index_of_at_app p pre s :
  index_of_at p (pre ++ s) (length pre) = (fun i => length pre + i) <$> index_of p s.
Proof.
  unfold index_of_at, index_of. rewrite drop_app_length. apply index_of_from_shift.
Qed.

(** The first occurrence of a tag after a text that does not overlap it. *)
Lemma index_of_first p a b :
  (forall j, j < length a -> starts_with p (drop j (a ++ p ++ b)) = false) ->
  index_of p (a ++ p ++ b) = Some (length a).
Proof.
  intros H. destruct (index_of p (a ++ p ++ b)) as [i|] eqn:E.
  - apply index_of_Some in E as (Hs & Hl & Hj). f_equal.
    destruct (lt_eq_lt_dec i (length a)) as [[Hlt | ->] | Hgt]; [|done|].
    + exfalso. specialize (H i Hlt).
      assert (starts_with p (drop i (a ++ p ++ b)) = true) as Ht; [|congruence].
      rewrite Hs. generalize (drop (i + length p) (a ++ p ++ b)) as z. intros z.
      rewrite drop_app_length'; [apply starts_with_app|]. rewrite length_take. lia.
    + specialize (Hj (length a) Hgt). rewrite drop_app_length, starts_with_app in Hj. done.
  - rewrite index_of_None in E. specialize (E (length a)).
    rewrite drop_app_length, starts_with_app in E. rewrite length_app in E. discriminate E. lia.
Qed.

(** A text without the unit [<] contains no tag, nor the start of one. *)
Definition tag_free (s : jstr) : Prop := 60%N ∉ s.

Lemma tag_free_index p a b :
  tag_free a -> match p with c :: _ => c = 60%N | [] => False end ->
  index_of p (a ++ p ++ b) = Some (length a).
Proof.
  intros Ha Hp. apply index_of_first. intros j Hj.
  destruct p as [|c p]; [done|]. subst c. rewrite drop_app_le by lia.
  destruct (drop j a) as [|x t] eqn:E.
  { apply (f_equal length) in E. rewrite length_drop in E. simpl in E. lia. }
  cbn [app starts_with]. assert (x <> 60%N) as Hx.
  { intros ->. apply Ha. rewrite <- (take_drop j a), E. apply elem_of_app. right. left. }
  by rewrite (proj2 (N.eqb_neq 60 x)) by congruence.
Qed.

Lemma tag_free_none p a :
  tag_free a -> match p with c :: _ => c = 60%N | [] => False end -> index_of p a = None.
Proof.
  intros Ha Hp. destruct p as [|c p]; [done|]. subst c.
  apply index_of_None. intros j _. destruct (drop j a) as [|x t] eqn:E; [done|].
  cbn [starts_with]. destruct (N.eqb_spec 60 x) as [<- |]; [|done]. destruct Ha.
  rewrite <- (take_drop j a), E. apply elem_of_app. right. left.
Qed.

(** A text with [<think>] blocks: visible text, then pairs of reasoning and visible
    text. *)
Definition block (b : jstr * jstr) : jstr := OPEN_TAG ++ fst b ++ CLOSE_TAG ++ snd b.
Definition render (v : jstr) (bs : list (jstr * jstr)) : jstr := v ++ concat (map block bs).

Definition non_empty_part (s : jstr) : list jstr := if truthy s then [s] else [].

Lemma concat_parts l : concat (concat (map non_empty_part l)) = concat l.
Proof.
  induction l as [|s l IH]; [done|]. simpl. unfold non_empty_part at 1. destruct s; simpl; [done|].
  by rewrite IH.
Qed.

Lemma slice_mid a b c n m : n = length a -> m = length a + length b -> slice n m (a ++ b ++ c) = b.
Proof.
  intros -> ->. unfold slice. rewrite drop_app_length.
  replace (length a + length b - length a) with (length b) by lia. apply take_app_length.
Qed.

(** A text may end in a block that is still open. *)
Definition tail_text (tail : option jstr) : jstr :=
  match tail with Some r => OPEN_TAG ++ r | None => [] end.

Definition tail_free (tail : option jstr) : Prop :=
  match tail with Some r => tag_free r | None => True end.

(** The loop from the start of the visible text [v] on. *)
Lemma think_loop_render fuel pre v bs tail :
  tag_free v -> Forall (fun b => tag_free (fst b) /\ tag_free (snd b)) bs -> tail_free tail ->
  length bs < fuel ->
  think_loop fuel (pre ++ render v bs ++ tail_text tail) (length pre) =
  (concat (map non_empty_part (v :: map snd bs)),
   map fst bs ++ match tail with Some r => [r] | None => [] end,
   match tail with Some _ => true | None => false end).
Proof.
  intros Hv Hbs Htail. revert fuel pre v Hv.
  induction Hbs as [|[r v'] bs [Hr Hv'] Hbs IH]; intros [|fuel] pre v Hv Hf; try (simpl in Hf; lia).
  - unfold render. cbn [map concat app think_loop]. rewrite !app_nil_r, index_of_at_app.
    destruct tail as [r|]; cbn [tail_text tail_free] in *.
    + rewrite tag_free_index by done. cbn [fmap option_fmap option_map].
      replace (pre ++ v ++ OPEN_TAG ++ r) with ((pre ++ v ++ OPEN_TAG) ++ r) by (by rewrite <- !app_assoc).
      replace (length pre + length v + 7) with (length (pre ++ v ++ OPEN_TAG))
        by (rewrite !length_app, open_len; lia).
      rewrite index_of_at_app, (tag_free_none CLOSE_TAG r) by done. cbn [fmap option_fmap option_map].
      unfold slice_from. rewrite drop_app_length. f_equal. f_equal.
      rewrite <- !app_assoc, slice_mid by lia. unfold non_empty_part.
      destruct v as [|c v]; cbn [length truthy].
      * by rewrite (proj2 (Nat.ltb_ge _ _)) by lia.
      * by rewrite (proj2 (Nat.ltb_lt _ _)) by lia.
    + rewrite app_nil_r, (tag_free_none OPEN_TAG v) by done. cbn [fmap option_fmap option_map].
      unfold slice_from. rewrite length_app, drop_app_length. unfold non_empty_part.
      destruct v as [|c v]; cbn [length truthy].
      * by rewrite (proj2 (Nat.ltb_ge _ _)) by lia.
      * by rewrite (proj2 (Nat.ltb_lt _ _)) by lia.
  - cbn [length] in Hf.
    set (rest := render v' bs ++ tail_text tail).
    assert (pre ++ render v ((r, v') :: bs) ++ tail_text tail =
            pre ++ v ++ OPEN_TAG ++ r ++ CLOSE_TAG ++ rest) as ->.
    { unfold rest, render. cbn [map concat]. unfold block at 1. cbn [fst snd]. by rewrite <- !app_assoc. }
    cbn [think_loop]. rewrite index_of_at_app, tag_free_index by done. cbn [fmap option_fmap option_map].
    assert (index_of_at CLOSE_TAG (pre ++ v ++ OPEN_TAG ++ r ++ CLOSE_TAG ++ rest)
              (length pre + length v + 7) = Some (length pre + length v + 7 + length r)) as ->.
    { replace (pre ++ v ++ OPEN_TAG ++ r ++ CLOSE_TAG ++ rest)
        with ((pre ++ v ++ OPEN_TAG) ++ r ++ CLOSE_TAG ++ rest) by (by rewrite <- !app_assoc).
      replace (length pre + length v + 7) with (length (pre ++ v ++ OPEN_TAG))
        by (rewrite !length_app, open_len; lia).
      rewrite index_of_at_app, tag_free_index by done. done. }
    replace (think_loop fuel (pre ++ v ++ OPEN_TAG ++ r ++ CLOSE_TAG ++ rest)
               (length pre + length v + 7 + length r + 8))
      with (think_loop fuel ((pre ++ v ++ OPEN_TAG ++ r ++ CLOSE_TAG) ++ rest)
               (length (pre ++ v ++ OPEN_TAG ++ r ++ CLOSE_TAG)))
      by (f_equal; [by rewrite <- !app_assoc|rewrite !length_app, open_len, close_len; lia]).
    pose proof (IH fuel (pre ++ v ++ OPEN_TAG ++ r ++ CLOSE_TAG) v' Hv' ltac:(lia)) as IH'.
    fold rest in IH'. rewrite IH'. cbn [map fst snd concat]. f_equal. f_equal.
    + f_equal. rewrite slice_mid by lia. unfold non_empty_part.
      destruct v as [|c v]; cbn [length truthy].
      * by rewrite (proj2 (Nat.ltb_ge _ _)) by lia.
      * by rewrite (proj2 (Nat.ltb_lt _ _)) by lia.
    + cbn [app]. f_equal. replace (pre ++ v ++ OPEN_TAG ++ r ++ CLOSE_TAG ++ rest)
        with ((pre ++ v ++ OPEN_TAG) ++ r ++ CLOSE_TAG ++ rest) by (by rewrite <- !app_assoc).
      apply slice_mid; rewrite !length_app, open_len; lia.
Qed.

(** The fuel of the loop is enough: more of it changes nothing. *)
Lemma index_of_at_bounds p c pos i :
  index_of_at p c pos = Some i -> pos <= i /\ i + length p <= Nat.max pos (length c).
Proof.
  unfold index_of_at. rewrite index_of_from_shift. intros (k & Hk & ->)%fmap_Some.
  apply index_of_Some in Hk as (_ & Hl & _). rewrite length_drop in Hl. lia.
Qed.

Lemma think_loop_fuel f1 f2 c pos :
  S (length c - pos) <= f1 -> S (length c - pos) <= f2 -> think_loop f1 c pos = think_loop f2 c pos.
Proof.
  revert f2 pos. induction f1 as [|f1 IH]; intros [|f2] pos H1 H2; try lia.
  cbn [think_loop]. destruct (index_of_at OPEN_TAG c pos) as [o|] eqn:Eo; [|done].
  destruct (index_of_at CLOSE_TAG c (o + 7)) as [k|] eqn:Ek; [|done].
  apply index_of_at_bounds in Eo as [Ho1 Ho2], Ek as [Hk1 Hk2]. rewrite open_len in Ho2. rewrite close_len in Hk2.
  by rewrite (IH f2) by lia.
Qed.

Lemma includes_tail v bs r :
  includes OPEN_TAG (render v bs ++ tail_text (Some r)) = true.
Proof. apply includes_spec. exists (render v bs), r. done. Qed.

Lemma includes_block v b bs tail :
  includes OPEN_TAG (render v (b :: bs) ++ tail_text tail) = true.
Proof.
  apply includes_spec. exists v, (fst b ++ CLOSE_TAG ++ snd b ++ concat (map block bs) ++ tail_text tail).
  unfold render. cbn [map concat]. unfold block at 1. by rewrite <- !app_assoc.
Qed.

(** ** Theorems: reasoning tags *)

(** Separating reasoning from the answer: for a text made of visible parts and
    [<think>] blocks, the last possibly not closed yet, the visible content is the visible
    parts put together and trimmed, the reasoning is the blocks joined by an empty line
    and trimmed, and the flag says whether the last block is open.  A text without tags
    is left as it is. *)
Theorem think_tags_separated v bs tail :
  tag_free v -> Forall (fun b => tag_free (fst b) /\ tag_free (snd b)) bs -> tail_free tail ->
  parseThinkTags (render v bs ++ tail_text tail) =
  match bs, tail with
  | [], None => {| visibleContent := v; pt_reasoning := []; hasUnclosedTag := false |}
  | _, _ =>
      {| visibleContent := trim (concat (v :: map snd bs));
         pt_reasoning := trim (join [10%N; 10%N] (map fst bs ++ match tail with Some r => [r] | None => [] end));
         hasUnclosedTag := match tail with Some _ => true | None => false end |}
  end.
Proof.
  intros Hv Hbs Ht. unfold parseThinkTags.
  assert (length bs < S (length (render v bs ++ tail_text tail))) as Hf.
  { unfold render. rewrite !length_app. clear.
    assert (length bs <= length (concat (map block bs))) as H; [|lia].
    induction bs as [|b bs IH]; [done|]. cbn [map concat length]. rewrite length_app. unfold block at 1.
    rewrite length_app, open_len. lia. }
  pose proof (think_loop_render (S (length (render v bs ++ tail_text tail))) [] v bs tail Hv Hbs Ht Hf) as E.
  cbn [app length] in E. rewrite E, concat_parts.
  destruct bs as [|b bs], tail as [r|]; rewrite ?includes_tail, ?includes_block; cbn [negb]; [done| |done|done].
  assert (includes OPEN_TAG (render v [] ++ tail_text None) = false) as ->.
  { unfold render. cbn [map concat tail_text]. rewrite !app_nil_r. unfold includes.
    by rewrite (tag_free_none OPEN_TAG v). }
  unfold render. cbn [map concat tail_text negb]. by rewrite !app_nil_r.
Qed.

Lemma think_tags_separated_witness :
  parseThinkTags (js "A<think>one</think>B<think>two") =
  {| visibleContent := js "AB"; pt_reasoning := js "one" ++ [10%N; 10%N] ++ js "two"; hasUnclosedTag := true |}.
Proof.
  apply (think_tags_separated (js "A") [(js "one", js "B")] (Some (js "two"))).
  - vm_compute. set_solver.
  - repeat constructor; vm_compute; set_solver.
  - vm_compute. set_solver.
Defined.

(** ** Streaming *)

(** The content of a message through the operations that keep or set it. *)
Lemma content_update m c : getMessageContent (updateCurrentVersionContent m c) = c.
Proof. done. Qed.

Lemma content_complete_reasoning now m :
  getMessageContent (completeReasoningTiming now m) = getMessageContent m.
Proof. unfold completeReasoningTiming. by cases. Qed.

Lemma content_complete_timing now m :
  getMessageContent (completeAssistantTiming now m) = getMessageContent m.
Proof. unfold completeAssistantTiming. by cases. Qed.

Lemma content_process now m c :
  getMessageContent (processStreamingContent now m c) = getMessageContent m ++ c.
Proof. unfold processStreamingContent. by cases. Qed.

Lemma apply_content now m chunk :
  status m <> Some StError ->
  getMessageContent (applyStreamingChunk now m ContentChunk chunk) =
    getMessageContent m ++ getAppendableChunk (getMessageContent m) chunk /\
  status (applyStreamingChunk now m ContentChunk chunk) = Some Streaming.
Proof.
  intros H. unfold applyStreamingChunk. rewrite bool_decide_false by done. cbv zeta. split; [|done].
  transitivity (getMessageContent (processStreamingContent now m (getAppendableChunk (getMessageContent m) chunk)));
    [|apply content_process].
  destruct (default false _); [done|]. apply content_complete_reasoning.
Qed.

(** Receiving the chunks [cs], each at its time. *)
Definition stream (m : Message) (cs : list (number * jstr)) : Message :=
  foldl (fun m '(now, chunk) => applyStreamingChunk now m ContentChunk chunk) m cs.

(** No chunk starts with all the text received before it. *)
Fixpoint deltas (acc : jstr) (cs : list jstr) : Prop :=
  match cs with
  | [] => True
  | c :: t => (acc = [] \/ starts_with acc c = false) /\ deltas (acc ++ c) t
  end.

Lemma appendable_delta acc c : acc = [] \/ starts_with acc c = false -> getAppendableChunk acc c = c.
Proof.
  unfold getAppendableChunk. intros [-> | ->]; [done|]. by rewrite orb_true_r.
Qed.

Lemma stream_content m cs :
  status m <> Some StError -> deltas (getMessageContent m) (map snd cs) ->
  getMessageContent (stream m cs) = getMessageContent m ++ concat (map snd cs) /\
  status (stream m cs) <> Some StError.
Proof.
  revert m. induction cs as [|[now c] cs IH]; intros m Hs Hd; cbn [map snd deltas concat] in *.
  { by rewrite app_nil_r. }
  destruct Hd as [Hc Hd]. destruct (apply_content now m c Hs) as [E1 E2].
  rewrite appendable_delta in E1 by done.
  destruct (IH (applyStreamingChunk now m ContentChunk c)) as [I1 I2].
  - by rewrite E2.
  - by rewrite E1.
  - unfold stream in *. cbn [foldl]. split; [|done]. rewrite I1, E1. by rewrite <- app_assoc.
Qed.

(** The reasoning a message shows. *)
Definition shown_reasoning (m : Message) : jstr := default [] (r_content <$> reasoning m).

Lemma shown_complete_reasoning now m : shown_reasoning (completeReasoningTiming now m) = shown_reasoning m.
Proof. unfold completeReasoningTiming, shown_reasoning. destruct (reasoning m) as [r|] eqn:E; [|by rewrite E].
  destruct (r_durationMs r); simpl; [by rewrite E|done]. Qed.

Lemma shown_complete_timing now m : shown_reasoning (completeAssistantTiming now m) = shown_reasoning m.
Proof. unfold completeAssistantTiming. by destruct (negb _). Qed.

Lemma shown_process now m c :
  let p := parseThinkTags (getMessageContent m ++ c) in
  pt_reasoning p <> [] -> shown_reasoning (processStreamingContent now m c) = pt_reasoning p.
Proof.
  intros p Hp. unfold processStreamingContent. cbv zeta. fold p.
  destruct (includes OPEN_TAG (getMessageContent m ++ c)) eqn:Ei.
  - rewrite (proj2 (truthy_spec _) Hp). by destruct (reasoning m).
  - unfold p, parseThinkTags in Hp. by rewrite Ei in Hp.
Qed.

Lemma finalize_no_api now m :
  getMessageContent (finalizeMessage now m None) = visibleContent (parseThinkTags (getMessageContent m)) /\
  shown_reasoning (finalizeMessage now m None) =
    str_or (shown_reasoning m) (pt_reasoning (parseThinkTags (getMessageContent m))).
Proof.
  unfold finalizeMessage. cbv zeta. rewrite content_complete_reasoning, shown_complete_reasoning.
  unfold parseThinkTags. destruct (includes OPEN_TAG (getMessageContent m)) eqn:E; cbn [negb].
  - split; [done|]. destruct (think_loop _ _ _) as [[vis reas] un]. fold (shown_reasoning m). simpl.
    unfold str_or at 1. cbn [truthy]. destruct (truthy (str_or _ _)) eqn:Et; [done|].
    unfold str_or in *. destruct (truthy (shown_reasoning m)) eqn:Es; [congruence|].
    destruct (trim (join _ reas)); done.
  - split; [done|]. fold (shown_reasoning m). simpl. unfold str_or at 1. cbn [truthy].
    destruct (truthy (str_or _ _)) eqn:Et; [done|]. unfold str_or in *.
    destruct (truthy (shown_reasoning m)) eqn:Es; [congruence|done].
Qed.

(** A streamed answer is assembled whole: when no chunk starts with the text before
    it, the message that was completed after the last chunk is complete and shows the
    visible content of all the text that was sent; and its reasoning is that of the whole
    text whenever the whole text has one. *)
Theorem stream_assembled now m cs :
  from m = Assistant -> status m <> Some StError -> deltas (getMessageContent m) (map snd cs) -> cs <> [] ->
  let whole := getMessageContent m ++ concat (map snd cs) in
  let final := completeAssistantMessage now (stream m cs) in
  getMessageContent final = visibleContent (parseThinkTags whole) /\
  status final = Some StComplete /\ isAssistantMessageFinal final = true /\
  (pt_reasoning (parseThinkTags whole) <> [] ->
     shown_reasoning final = pt_reasoning (parseThinkTags whole)).
Proof.
  intros Hfrom Hs Hd Hne whole final. destruct (stream_content m cs Hs Hd) as [Hc _].
  destruct (finalize_no_api now (stream m cs)) as [F1 F2].
  assert (forall m', status (completeAssistantTiming now (with_status StComplete m')) = Some StComplete) as Hst.
  { intros m'. unfold completeAssistantTiming. by destruct (negb _). }
  unfold final, completeAssistantMessage. split; [|split; [apply Hst|split]].
  - rewrite content_complete_timing. unfold whole. rewrite <- Hc. exact F1.
  - unfold isAssistantMessageFinal. by rewrite Hst.
  - intros Hp. rewrite shown_complete_timing. transitivity (shown_reasoning (finalizeMessage now (stream m cs) None)); [done|].
    rewrite F2, Hc. fold whole.
    assert (shown_reasoning (stream m cs) = pt_reasoning (parseThinkTags whole)) as ->.
    { destruct (exists_last Hne) as (cs' & [t c] & ->). unfold whole in *.
      rewrite map_app, concat_app in *. cbn [map snd concat] in *. rewrite app_nil_r, app_assoc in *.
      assert (deltas (getMessageContent m) (map snd cs') /\
        (getMessageContent m ++ concat (map snd cs') = [] \/
         starts_with (getMessageContent m ++ concat (map snd cs')) c = false)) as [Hd' Hlast].
      { clear -Hd. revert Hd. generalize (getMessageContent m) as acc. intros acc. revert acc.
        induction cs' as [|[t' c'] cs' IH]; intros acc; cbn [map snd app deltas concat].
        - rewrite app_nil_r. tauto.
        - intros [H1 H2]. destruct (IH _ H2) as [H3 H4]. rewrite app_assoc. tauto. }
      destruct (stream_content m cs' Hs Hd') as [Hc' Hs']. unfold stream. rewrite foldl_app. cbn [foldl].
      fold (stream m cs'). unfold applyStreamingChunk. rewrite bool_decide_false by done. cbv zeta.
      rewrite Hc', appendable_delta by done.
      assert (shown_reasoning (processStreamingContent t (stream m cs') c) =
              pt_reasoning (parseThinkTags ((getMessageContent m ++ concat (map snd cs')) ++ c))) as Hsp.
      { pose proof (shown_process t (stream m cs') c) as Hq. cbv zeta in Hq. rewrite Hc' in Hq. by apply Hq. }
      destruct (default false _); [exact Hsp|]. rewrite <- Hsp. apply shown_complete_reasoning. }
    unfold str_or. by rewrite (proj2 (truthy_spec _) Hp).
Qed.

Definition ex_assistant : Message := createLoadingAssistantMessage (js "k") (js "v") n_zero.

Lemma stream_assembled_witness :
  getMessageContent (completeAssistantMessage (num_of_Z 9)
    (stream ex_assistant [(num_of_Z 1, js "<think>plan</thi"); (num_of_Z 2, js "nk>Hello")])) = js "Hello".
Proof.
  apply (stream_assembled (num_of_Z 9) ex_assistant [(num_of_Z 1, js "<think>plan</thi"); (num_of_Z 2, js "nk>Hello")]).
  - reflexivity.
  - discriminate.
  - split; [left; reflexivity|]. split; [right; reflexivity|exact I].
  - discriminate.
Defined.

(** A chunk that starts with the text received so far is taken for a repetition of it:
    its first part is dropped, so an answer that really repeats its own beginning loses
    text. *)
Theorem repeated_text_lost now m d :
  status m <> Some StError -> getMessageContent m <> [] ->
  getMessageContent (applyStreamingChunk now m ContentChunk (getMessageContent m ++ d)) =
  getMessageContent m ++ d.
Proof.
  intros Hs Hne. destruct (apply_content now m (getMessageContent m ++ d) Hs) as [-> _].
  f_equal. unfold getAppendableChunk. rewrite (proj2 (truthy_spec _) Hne), starts_with_app. cbn [negb orb].
  unfold slice_from. apply drop_app_length.
Qed.

Lemma repeated_text_lost_witness :
  getMessageContent (stream ex_assistant [(num_of_Z 1, js "ha"); (num_of_Z 2, js "ha")]) = js "ha".
Proof.
  apply (repeated_text_lost (num_of_Z 2) (stream ex_assistant [(num_of_Z 1, js "ha")]) []); [discriminate|discriminate].
Defined.

(** An empty reasoning block whose closing tag arrives in two chunks leaves the first
    piece of the tag as the reasoning of the finished message, although the whole text has
    no reasoning. *)
Theorem split_closing_tag_stays :
  let final := completeAssistantMessage (num_of_Z 3)
    (stream ex_assistant [(num_of_Z 1, js "<think></thi"); (num_of_Z 2, js "nk>Hello")]) in
  getMessageContent final = js "Hello" /\ shown_reasoning final = js "</thi" /\
  pt_reasoning (parseThinkTags (js "<think></think>Hello")) = [].
Proof. vm_compute. auto. Qed.

(** ** Loading from storage *)

Lemma last_pending_Some ms i :
  last_pending ms = Some i ->
  (exists m, ms !! i = Some m /\ isPendingAssistantMessage m = true) /\
  forall j m, i < j -> ms !! j = Some m -> isPendingAssistantMessage m = false.
Proof.
  revert i. induction ms as [|m ms IH]; intros i; simpl; [done|].
  destruct (last_pending ms) as [k|] eqn:E.
  - intros [= <-]. destruct (IH k eq_refl) as [Hk Hj]. split; [done|].
    intros [|j] m' Hlt Hm'; [lia|]. apply (Hj j); [lia|done].
  - destruct (isPendingAssistantMessage m) eqn:Ep; [|done]. intros [= <-]. split; [eauto|].
    intros [|j] m' Hlt Hm'; [lia|]. clear IH. simpl in Hm'. revert j Hlt Hm'. revert E.
    induction ms as [|x ms IHm]; intros E j Hlt Hm'; [done|]. simpl in E.
    destruct (last_pending ms) eqn:El; [done|]. destruct (isPendingAssistantMessage x) eqn:Ex; [done|].
    destruct j as [|j]; [by simplify_eq/=|]. apply (IHm eq_refl j); [lia|done].
Qed.

Lemma last_pending_None ms : last_pending ms = None -> Forall (fun m => isPendingAssistantMessage m = false) ms.
Proof.
  induction ms as [|m ms IH]; simpl; [constructor|]. destruct (last_pending ms); [done|].
  destruct (isPendingAssistantMessage m) eqn:E; [done|]. constructor; auto.
Qed.

Lemma sanitize_final t now m :
  isAssistantMessageFinal (sanitize_message t now m) = true /\
  isPendingAssistantMessage (sanitize_message t now m) = false /\
  isReasoningStreaming (sanitize_message t now m) = Some false.
Proof.
  unfold sanitize_message, isPendingAssistantMessage, completeAssistantTiming. cbv zeta.
  destruct (_ || _), (negb _); repeat split; cbn; by rewrite ?andb_false_r.
Qed.

(** A conversation loaded from storage is settled: only the last message that was
    still waiting changes, it becomes complete or an error and is no longer streaming
    reasoning, every other message stays, and when at most one message was waiting none
    is left waiting. *)
Theorem sanitize_settles t now ms :
  length (sanitizeMessagesOnLoad t now ms) = length ms /\
  (forall j m, ms !! j = Some m -> last_pending ms <> Some j ->
     sanitizeMessagesOnLoad t now ms !! j = Some m) /\
  (forall j, last_pending ms = Some j -> exists m,
     sanitizeMessagesOnLoad t now ms !! j = Some m /\ isAssistantMessageFinal m = true /\
     isReasoningStreaming m = Some false) /\
  ((forall i j m m', ms !! i = Some m -> ms !! j = Some m' -> isPendingAssistantMessage m = true ->
      isPendingAssistantMessage m' = true -> i = j) ->
   Forall (fun m => isPendingAssistantMessage m = false) (sanitizeMessagesOnLoad t now ms)).
Proof.
  unfold sanitizeMessagesOnLoad. destruct (last_pending ms) as [i|] eqn:E.
  2: { split; [done|]. split; [done|]. split; [done|]. intros _. by apply last_pending_None. }
  apply last_pending_Some in E as ((m & Hm & Hp) & Hlater). rewrite Hm.
  destruct (sanitize_final t now m) as (F1 & F2 & F3).
  assert (i < length ms) as Hlt by by eapply lookup_lt_Some.
  split; [apply length_insert|]. split; [|split].
  - intros j m' Hj Hne. rewrite list_lookup_insert_ne; [done|]. congruence.
  - intros j [= <-]. eexists. split; [by apply list_lookup_insert_eq|done].
  - intros Huniq. apply Forall_lookup. intros j x Hx.
    apply list_lookup_insert_Some in Hx as [(-> & <- & _) | (Hne & Hx)]; [done|].
    destruct (isPendingAssistantMessage x) eqn:Ex; [|done]. destruct Hne. by eapply Huniq.
Qed.

(** Only the last waiting message is repaired: with two of them, the earlier one is
    still waiting after loading. *)
Theorem sanitize_leaves_earlier_pending t now :
  exists m, sanitizeMessagesOnLoad t now [ex_assistant; ex_assistant] !! 0 = Some m /\
    isPendingAssistantMessage m = true.
Proof. exists ex_assistant. split; reflexivity. Qed.

(** ** Editing a conversation *)

Lemma find_index_spec (p : Message -> bool) ms i :
  find_index p ms = Some i ->
  (exists m, ms !! i = Some m /\ p m = true) /\ Forall (fun m => p m = false) (take i ms).
Proof.
  revert i. induction ms as [|m ms IH]; intros i; simpl; [done|].
  destruct (p m) eqn:E; [intros [= <-]; split; [eauto|constructor]|].
  destruct (find_index p ms) as [k|]; [|done]. intros [= <-]. destruct (IH k eq_refl) as [H1 H2].
  split; [done|]. by constructor.
Qed.

Lemma map_edit_prefix k f ms i :
  find_index (has_key k) ms = Some i ->
  take i (map (fun m => if has_key k m then f m else m) ms) = take i ms.
Proof.
  intros [_ H]%find_index_spec. revert i H. induction ms as [|m ms IH]; intros [|i] H; simpl in *; try done.
  inversion H; subst. rewrite H2. f_equal. by apply IH.
Qed.

(** Submitting the edit of a user message: the conversation becomes the messages
    before it, unchanged, the message itself with the new text and time, and a new
    loading answer; everything after it is dropped, and it is to be sent.  Saving
    without submitting, or editing an answer, keeps the conversation's length and sends
    nothing. *)
Theorem edit_spec now ids ms k c submit :
  match applyMessageEdit now ids ms k c submit with
  | None => Forall (fun m => has_key k m = false) ms
  | Some (ms', send) =>
      exists i m, find_index (has_key k) ms = Some i /\ ms !! i = Some m /\
      let edited := with_created (if submit then Some now else createdAt m) (updateCurrentVersionContent m c) in
      ms' !! i = Some edited /\ getMessageContent edited = c /\ take i ms' = take i ms /\
      (send = true <-> submit = true /\ from m = User) /\
      (send = true -> ms' = take i ms ++ [edited; createLoadingAssistantMessage (fst ids) (snd ids) now]) /\
      (send = false -> length ms' = length ms)
  end.
Proof.
  unfold applyMessageEdit. destruct (find_index (has_key k) ms) as [i|] eqn:E; simpl.
  2: { clear -E. induction ms as [|m ms IH]; [constructor|]. simpl in E. destruct (has_key k m) eqn:Ek; [done|].
       constructor; [done|]. apply IH. by destruct (find_index _ ms). }
  set (f := fun m => with_created (if submit then Some now else createdAt m) (updateCurrentVersionContent m c)).
  pose proof (map_edit_prefix k f ms i E) as Hpre. unfold f in Hpre at 1.
  apply find_index_spec in E as HE. destruct HE as [(m & Hm & Hk) _].
  set (upd := map _ ms) in *.
  assert (upd !! i = Some (f m)) as Hu.
  { unfold upd. change (map ?g ms) with (g <$> ms). rewrite list_lookup_fmap, Hm. simpl. by rewrite Hk. }
  rewrite Hu. simpl. assert (i < length upd) as Hlt by by eapply lookup_lt_Some.
  assert (length upd = length ms) as Hlen by (unfold upd; apply length_map).
  destruct submit, (bool_decide_reflect (from m = User)); simpl; exists i, m; (split; [done|]); (split; [done|]);
    cbv zeta.
  - assert (take (i + 1) upd = take i ms ++ [f m]) as ->.
    { rewrite Nat.add_1_r. rewrite (take_S_r _ _ (f m)) by done. by rewrite Hpre. }
    assert (length (take i ms) = i) as Hti by (rewrite length_take; lia).
    split; [rewrite <- app_assoc, lookup_app_r by lia; by rewrite Hti, Nat.sub_diag|].
    split; [done|]. split; [rewrite <- app_assoc; by rewrite take_app_length' by done|].
    split; [done|]. split; [by rewrite <- app_assoc|done].
  - split; [done|]. split; [done|]. split; [done|]. split; [naive_solver|]. done.
  - split; [done|]. split; [done|]. split; [done|]. split; [naive_solver|]. done.
  - split; [done|]. split; [done|]. split; [done|]. split; [naive_solver|]. done.
Qed.

(** What is sent after the user submits a message: the valid messages so far and the
    new user message, never the loading placeholder that waits for the answer. *)
Theorem submit_payload now ids ms c atts cfg enabled :
  let '(uk, uv, (ak, av)) := ids in
  rq_messages (buildChatCompletionPayload (appendUserMessagePair now ids ms c atts) cfg enabled) =
  rq_messages (buildChatCompletionPayload ms cfg enabled) ++
    [(User, buildMessageContent c (map att_url atts))].
Proof.
  destruct ids as [[uk uv] [ak av]]. cbn [buildChatCompletionPayload rq_messages appendUserMessagePair].
  rewrite List.filter_app, map_app. f_equal. cbn. by destruct atts.
Qed.
