(* ===== verification/ModelMapping.v ===== *)
(** * Model mapping of a channel

    [features/channels/lib/model-mapping-validation.ts]: the models list of a channel
    and its model mapping (a JSON object from requested to upstream model), and what
    the editor derives from the two; with their theorems. *)

From S2P Require Import Prelude JsString JsNumber Json.

(** ** Definitions *)

Definition parseModelsString (modelsStr : jstr) : list jstr :=
  if truthy modelsStr then bfilter truthy (map trim (split_on 44 modelsStr)) else [].

Definition formatModelsArray (ms : list jstr) : jstr := join (js ",") (dedup ms).

Definition normalizeModelName (model : jstr) : jstr := trim model.

(** [JSON.parse] to an object that is not an array. *)
Definition mapping_of (text : jstr) : option (list (jstr * jsval)) :=
  match json_parse text with
  | Some (VObj o) => Some o
  | _ => None
  end.

Definition extractMappingSourceModels (modelMapping : jstr) : list jstr :=
  let trimmed := trim modelMapping in
  if negb (truthy trimmed) then []
  else
    match mapping_of trimmed with
    | Some o => dedup (bfilter truthy (map (fun p => trim (fst p)) o))
    | None => []
    end.

(** The trimmed text of a string value. *)
Definition string_value (v : jsval) : jstr := match v with VStr s => trim s | _ => [] end.

Definition extractRedirectModels (modelMapping : jstr) : list jstr :=
  let trimmed := trim modelMapping in
  if negb (truthy trimmed) then []
  else
    match mapping_of trimmed with
    | Some o => dedup (bfilter truthy (map (fun p => string_value (snd p)) o))
    | None => []
    end.

(** The loop over indices, the lengths being equal. *)
Fixpoint lists_differ (a b : list jstr) : bool :=
  match a, b with
  | x :: a', y :: b' => negb (x =s y) || lists_differ a' b'
  | _, _ => false
  end.

Definition hasModelConfigChanged (currentModels : list jstr) (currentModelMapping : jstr)
    (initialModels : list jstr) (initialModelMapping : jstr) : bool :=
  if (length initialModels =? 0)%nat && negb (truthy initialModelMapping) then true
  else if negb (length currentModels =? length initialModels)%nat then true
  else if lists_differ currentModels initialModels then true
  else negb (trim currentModelMapping =s trim initialModelMapping).

Definition findMissingModelsInMapping (modelMapping : jstr) (currentModels : list jstr) : list jstr :=
  if negb (truthy (trim modelMapping)) then []
  else
    match mapping_of modelMapping with
    | Some o =>
        let modelSet := map normalizeModelName currentModels in
        dedup (bfilter (fun k => truthy k && negb (bool_decide (k ∈ modelSet)))
                 (map (fun p => normalizeModelName (fst p)) o))
    | None => []
    end.

(** [(valid, error)] *)
Definition validateModelMappingJson (modelMapping : jstr) : bool * option jstr :=
  if negb (truthy (trim modelMapping)) then (true, None)
  else
    match json_parse modelMapping with
    | None => (false, Some (js "Model mapping must be valid JSON format"))
    | Some (VObj o) =>
        if existsb (fun p => match snd p with VStr _ => false | _ => true end) o
        then (false, Some (js "Model mapping values must be strings"))
        else (true, None)
    | Some _ => (false, Some (js "Model mapping must be a valid JSON object"))
    end.

Definition findExposedTargetModels (modelMapping : jstr) (currentModels : list jstr) : list jstr :=
  let redirectModels := extractRedirectModels modelMapping in
  match redirectModels with
  | [] => []
  | _ =>
      let modelSet := map normalizeModelName currentModels in
      bfilter (fun m => bool_decide (normalizeModelName m ∈ modelSet)) redirectModels
  end.

Record ModelCategories := {
  normalizedCurrentModels : list jstr; normalizedRedirectModels : list jstr;
  classificationSet : list jstr; redirectOnlySet : list jstr }.

(** The sets, in insertion order. *)
Definition categorizeModelsWithRedirect (currentModels redirectModels : list jstr) : ModelCategories :=
  let cur := dedup (bfilter truthy (map normalizeModelName currentModels)) in
  let red := dedup (bfilter truthy (map normalizeModelName redirectModels)) in
  {| normalizedCurrentModels := cur; normalizedRedirectModels := red;
     classificationSet := dedup (cur ++ red);
     redirectOnlySet := bfilter (fun m => negb (bool_decide (m ∈ cur))) red |}.

(** ** Lemmas *)

Lemma missing_spec mapping ms k :
  k ∈ findMissingModelsInMapping mapping ms <->
  truthy (trim mapping) = true /\ k <> [] /\ k ∉ map trim ms /\
  exists o v key, mapping_of mapping = Some o /\ (key, v) ∈ o /\ trim key = k.
Proof.
  unfold findMissingModelsInMapping. destruct (truthy (trim mapping)); simpl; [|set_solver].
  destruct (mapping_of mapping) as [o|]; [|set_solver].
  rewrite elem_of_dedup, elem_of_bfilter, elem_of_lmap, andb_true_iff, negb_true_iff, bool_decide_eq_false, truthy_spec.
  unfold normalizeModelName. split.
  - intros ([[key v] [Hin ->]] & Hk & Hn). repeat split; try done. exists o, v, key. done.
  - intros (_ & Hk & Hn & o' & v & key & [= <-] & Hin & <-). split; [|done]. by exists (key, v).
Qed.

(** A list entry that can be stored in the comma-separated text. *)
Definition storable (m : jstr) : Prop := m <> [] /\ trim m = m /\ 44%N ∉ m.

(** ** Theorems *)

(** The models list survives being stored: reading the text of a list of trimmed,
    comma-free, non-empty names gives the list without its repetitions. *)
Theorem models_text_roundtrip ms :
  Forall storable ms -> parseModelsString (formatModelsArray ms) = dedup ms.
Proof.
  intros Hf. unfold parseModelsString, formatModelsArray.
  assert (Forall storable (dedup ms)) as Hd.
  { apply Forall_forall. intros x Hx. rewrite Forall_forall in Hf. by apply Hf, elem_of_dedup. }
  destruct (decide (dedup ms = [])) as [E|E]; [by rewrite E|].
  destruct (truthy (join (js ",") (dedup ms))) eqn:Et.
  - rewrite split_join; [|done|].
    + rewrite map_ext_in with (g := fun x => x).
      * rewrite map_id. apply bfilter_id. eapply Forall_impl; [exact Hd|]. intros x (? & _). by apply truthy_spec.
      * intros x Hx%list_elem_of_In. rewrite Forall_forall in Hd. by apply Hd.
    + eapply Forall_impl; [exact Hd|]. by intros x (_ & _ & ?).
  - apply truthy_false in Et. apply join_nil_inv in Et; [done|].
    eapply Forall_impl; [exact Hd|]. by intros x (? & _).
Qed.

Lemma models_text_roundtrip_witness :
  parseModelsString (formatModelsArray [js "gpt-4o"; js "o3"; js "gpt-4o"]) = [js "gpt-4o"; js "o3"].
Proof.
  apply (models_text_roundtrip [js "gpt-4o"; js "o3"; js "gpt-4o"]).
  repeat (apply Forall_cons; split; [repeat split; [done|apply closed_missing; reflexivity]|]). constructor.
Defined.

(** The two repairs of the editor work: after the missing source models are added no
    mapping source is missing, and after the exposed targets are removed none is exposed;
    and what is reported missing is exactly the sources, by trimmed name, the list lacks. *)
Theorem mapping_repairs mapping ms :
  findMissingModelsInMapping mapping (ms ++ findMissingModelsInMapping mapping ms) = [] /\
  findExposedTargetModels mapping
    (bfilter (fun m => negb (bool_decide (trim m ∈ findExposedTargetModels mapping ms))) ms) = [] /\
  (findMissingModelsInMapping mapping ms = [] <->
   truthy (trim mapping) = false \/
   forall o key v, mapping_of mapping = Some o -> (key, v) ∈ o -> trim key = [] \/ trim key ∈ map trim ms).
Proof.
  split; [|split].
  - apply elem_of_nil_inv. intros k (Ht & Hk & Hn & o & v & key & Ho & Hin & <-)%missing_spec.
    assert (trim key ∈ findMissingModelsInMapping mapping ms) as Hm.
    { apply missing_spec. repeat split; try done; [|by exists o, v, key].
      intros H. apply Hn. rewrite map_app, elem_of_app. by left. }
    apply Hn. rewrite map_app, elem_of_app. right. apply elem_of_lmap. exists (trim key).
    split; [done|]. by rewrite trim_idem.
  - unfold findExposedTargetModels at 1. cbv zeta. destruct (extractRedirectModels mapping) as [|r rs] eqn:E; [done|].
    apply elem_of_nil_inv. intros k [Hk Hd]%elem_of_bfilter. apply bool_decide_eq_true in Hd.
    apply elem_of_lmap in Hd as (x & [Hx Hnx]%elem_of_bfilter & Ex).
    apply negb_true_iff, bool_decide_eq_false in Hnx. apply Hnx.
    assert (trim k = k) as Htk.
    { rewrite <- E in Hk. unfold extractRedirectModels in Hk. cases; try set_solver.
      apply elem_of_dedup, elem_of_bfilter in Hk as [(p & _ & ->)%elem_of_lmap _].
      unfold string_value. destruct (snd p); try done. apply trim_idem. }
    unfold normalizeModelName in Ex. rewrite <- Ex, Htk.
    unfold findExposedTargetModels. rewrite E. apply elem_of_bfilter. split; [done|].
    apply bool_decide_eq_true, elem_of_lmap. by exists x.
  - split.
    + intros H. destruct (truthy (trim mapping)) eqn:Et; [right|by left]. intros o key v Ho Hin.
      destruct (decide (trim key = [])) as [|Hk]; [by left|]. right.
      destruct (decide (trim key ∈ map trim ms)) as [|Hn]; [done|]. exfalso.
      assert (trim key ∈ findMissingModelsInMapping mapping ms) as Hm.
      { apply missing_spec. repeat split; try done. by exists o, v, key. }
      rewrite H in Hm. by apply elem_of_nil in Hm.
    + intros H. apply elem_of_nil_inv. intros k (Ht & Hk & Hn & o & v & key & Ho & Hin & <-)%missing_spec.
      destruct H as [? | H]; [congruence|]. destruct (H o key v Ho Hin) as [? | ?]; done.
Qed.

(** The categories shown by the editor: every classified model is current or a
    redirect target, the redirect-only ones are exactly the targets that are not current,
    and no set repeats an element. *)
Theorem categories_spec cur red :
  let c := categorizeModelsWithRedirect cur red in
  (forall m, m ∈ classificationSet c <-> m ∈ normalizedCurrentModels c \/ m ∈ redirectOnlySet c) /\
  (forall m, m ∈ redirectOnlySet c <-> m ∈ normalizedRedirectModels c /\ m ∉ normalizedCurrentModels c) /\
  NoDup (classificationSet c) /\ NoDup (normalizedCurrentModels c ++ redirectOnlySet c) /\
  classificationSet c = normalizedCurrentModels c ++ redirectOnlySet c.
Proof.
  cbv zeta. unfold categorizeModelsWithRedirect. cbn [normalizedCurrentModels normalizedRedirectModels
    classificationSet redirectOnlySet].
  set (c := dedup (bfilter truthy (map normalizeModelName cur))).
  set (r := dedup (bfilter truthy (map normalizeModelName red))).
  assert (NoDup c /\ NoDup r) as [Hc Hr] by (split; apply NoDup_dedup).
  assert (dedup (c ++ r) = c ++ bfilter (fun m => negb (bool_decide (m ∈ c))) r) as E.
  { unfold dedup at 1. rewrite dedup_from_app. fold (dedup c). rewrite (dedup_fixed c) by done.
    by rewrite dedup_from_filter. }
  assert (forall m, m ∈ bfilter (fun m => negb (bool_decide (m ∈ c))) r <-> m ∈ r /\ m ∉ c) as Hf.
  { intros m. rewrite elem_of_bfilter, negb_true_iff, bool_decide_eq_false. done. }
  split; [|split; [done|split; [apply NoDup_dedup|split; [rewrite <- E; apply NoDup_dedup|done]]]].
  intros m. by rewrite E, elem_of_app.
Qed.
