(* ===== verification/ChannelUtils.v ===== *)
(** * Channel utilities

    [features/channels/lib/channel-utils.ts]: display and parsing helpers of the channel
    table, the rows that need attention, the aggregation of channels by tag and the
    clean-up of key lists. *)

From S2P Require Import Prelude JsString JsNumber Json.

(** ** Data *)

(** [multi_key_status_list] is a map from key index to status. *)
Record ChannelInfo := {
  is_multi_key : bool; multi_key_size : Z; multi_key_status_list : option (list (jstr * Z)) }.

(** The fields of a channel that the functions of this file read. *)
Record Channel := {
  ch_id : Z; ch_key : jstr; ch_name : jstr; ch_type : Z; ch_status : Z; ch_group : jstr;
  ch_used_quota : number; ch_response_time : number; ch_priority : option Z; ch_weight : option Z;
  ch_balance : number; ch_models : jstr; ch_tag : option jstr; ch_info : option ChannelInfo }.

(** ** Status *)

Definition isChannelEnabled (c : Channel) : bool := (ch_status c =? 1)%Z.

Definition isMultiKeyChannel (c : Channel) : bool :=
  match ch_info c with Some i => is_multi_key i | None => false end.

(** ** Keys *)

Definition key_lines (key : jstr) : list jstr := bfilter (fun k => truthy (trim k)) (split_on 10 key).

(** [key.slice(-n)]: the whole key when it is shorter. *)
Definition formatChannelKey (key : jstr) (isMultiKey : bool) : jstr :=
  if negb (truthy key) then []
  else if isMultiKey then show_nat (length (key_lines key)) ++ js " keys"
  else if (length key <=? 16)%nat then slice 0 4 key ++ js "..." ++ slice_last 4 key
  else slice 0 8 key ++ js "..." ++ slice_last 8 key.

Definition formatKeyPreview (key : jstr) (maxLength : nat) : jstr :=
  if negb (truthy key) then []
  else if (length key <=? maxLength)%nat then key
  else slice 0 maxLength key ++ js "...".

Definition countKeys (key : jstr) : nat := if negb (truthy key) then 0 else length (key_lines key).

(** ** Lists *)

Definition parse_list (s : jstr) : list jstr :=
  if negb (truthy s) then [] else bfilter (fun m => (0 <? length m)%nat) (map trim (split_on 44 s)).

Definition parseModelsList (models : jstr) : list jstr := parse_list models.

Section groups.
(** [a.localeCompare(b)] in the browser's locale. *)
Variable localeCompare : jstr -> jstr -> Z.

Definition DEFAULT_GROUP : jstr := js "default".

(** The comparator is not positive. *)
Definition group_le (a b : jstr) : bool :=
  if a =s DEFAULT_GROUP then true
  else if b =s DEFAULT_GROUP then false
  else (localeCompare a b <=? 0)%Z.

Definition parseGroupsList (groups : jstr) : list jstr := js_sort group_le (parse_list groups).

Definition validateGroups (groups : jstr) : bool := (0 <? length (parseGroupsList groups))%nat.
End groups.

Definition formatModelsString (models : list jstr) : jstr := join (js ",") models.
Definition formatGroupsString (groups : list jstr) : jstr := join (js ",") groups.

(** ** Settings *)

(** The parsed value, or the empty object. *)
Definition parseChannelSettings (settingStr : option jstr) : jsval :=
  match settingStr with
  | Some s => if truthy s then default (VObj []) (json_parse s) else VObj []
  | None => VObj []
  end.

Definition parseChannelOtherSettings (settingsStr : option jstr) : jsval :=
  match settingsStr with
  | Some s => if negb (truthy s) || (s =s js "{}") then VObj [] else default (VObj []) (json_parse s)
  | None => VObj []
  end.

Definition validateChannelSettings (settings : jstr) : bool :=
  if negb (truthy (trim settings)) then true
  else match json_parse settings with Some _ => true | None => false end.

(** ** Ratings *)

Inductive BalanceVariant := BvSuccess | BvWarning | BvDanger | BvNeutral.

Definition getBalanceVariant (balance : number) : BalanceVariant :=
  if n_eqb balance n_zero then BvNeutral
  else if n_ltb balance (num_of_Z 1) then BvDanger
  else if n_ltb balance (num_of_Z 10) then BvWarning
  else BvSuccess.

Inductive ResponseRating := RExcellent | RGood | RFair | RPoor | RUnknown.

Definition getResponseTimeConfig (timeMs : number) : ResponseRating :=
  if n_eqb timeMs n_zero then RUnknown
  else if n_leb timeMs (num_of_Z 500) then RExcellent
  else if n_leb timeMs (num_of_Z 1000) then RGood
  else if n_leb timeMs (num_of_Z 2000) then RFair
  else RPoor.

(** ** Display and validation *)

Definition getPriorityDisplay (priority : option Z) : jstr :=
  match priority with None => js "0" | Some p => show_Z p end.

Definition getWeightDisplay (weight : option Z) : jstr :=
  match weight with None => js "0" | Some w => show_Z w end.

Definition validateChannelName (name : jstr) : bool := (0 <? length (trim name))%nat.
Definition validateApiKey (key : jstr) : bool := (0 <? length (trim key))%nat.
Definition validateModels (models : jstr) : bool := (0 <? length (parseModelsList models))%nat.

(** ** Attention *)

Definition low_balance (c : Channel) : bool :=
  n_ltb n_zero (ch_balance c) && n_ltb (ch_balance c) (num_of_Z 1).

Definition all_keys_disabled (c : Channel) : bool :=
  match ch_info c with
  | Some i =>
      is_multi_key i &&
      match multi_key_status_list i with
      | Some l => (multi_key_size i <=? Z.of_nat (length l))%Z
      | None => false
      end
  | None => false
  end.

Definition channelNeedsAttention (c : Channel) : bool :=
  if (ch_status c =? 3)%Z then true
  else if low_balance c then true
  else if all_keys_disabled c then true
  else false.

Definition getAttentionReason (c : Channel) : option jstr :=
  if (ch_status c =? 3)%Z then Some (js "Auto-disabled")
  else if low_balance c then Some (js "Low balance")
  else if all_keys_disabled c then Some (js "All keys disabled")
  else None.

(** ** Aggregation by tag *)

(** A tag row: [row_base] is the channel it was spread from; the fields that are not
    listed here it keeps, except that its key, id and name are the tag, its type, balance
    and times are 0 and its models are empty, as the literal that creates it sets them and
    nothing changes them later.  [row_status] is [undefined] at first. *)
Record TagRow := {
  row_base : Channel; row_tag : jstr; row_status : option Z; row_group : jstr;
  row_used_quota : number; row_response_time : number; row_priority : option Z; row_weight : option Z;
  children : list Channel }.

Definition channel_tag (c : Channel) : jstr := default [] (ch_tag c).

Definition new_row (c : Channel) : TagRow :=
  {| row_base := c; row_tag := channel_tag c; row_status := None; row_group := [];
     row_used_quota := n_zero; row_response_time := n_zero; row_priority := Some (-1)%Z;
     row_weight := Some (-1)%Z; children := [] |}.

(** The same value, or [null] when it differs; -1 stands for no value yet. *)
Definition merge_value (old new : option Z) : option Z :=
  if bool_decide (old = Some (-1)%Z) then new
  else if bool_decide (old = new) then old else None.

Definition merge_group (old new : jstr) : jstr :=
  if negb (truthy old) then new
  else
    let existingGroups := bfilter truthy (split_on 44 old) in
    let newGroups := bfilter truthy (split_on 44 new) in
    old ++ concat (map (fun g => js "," ++ g)
                     (bfilter (fun g => negb (bool_decide (g ∈ existingGroups))) newGroups)).

Definition merge_status (old : option Z) (new : Z) : option Z :=
  if (new =? 1)%Z then Some 1%Z
  else match old with None => Some new | Some _ => old end.

(** The body of the loop on the row of the channel's tag. *)
Definition row_add (row : TagRow) (c : Channel) : TagRow :=
  let childCount := length (children row ++ [c]) in
  {| row_base := row_base row; row_tag := row_tag row;
     row_status := merge_status (row_status row) (ch_status c);
     row_group := merge_group (row_group row) (ch_group c);
     row_used_quota := n_add (row_used_quota row) (ch_used_quota c);
     row_response_time :=
       n_div (n_add (n_mul (row_response_time row) (num_of_Z (Z.of_nat childCount - 1)))
                    (ch_response_time c))
             (num_of_Z (Z.of_nat childCount));
     row_priority := merge_value (row_priority row) (ch_priority c);
     row_weight := merge_value (row_weight row) (ch_weight c);
     children := children row ++ [c] |}.

(** The rows are shared between the map and the result: updating the row of a tag
    updates it in the result, where a new tag goes to the end. *)
Fixpoint add_channel (c : Channel) (rows : list TagRow) : list TagRow :=
  match rows with
  | [] => [row_add (new_row c) c]
  | r :: t => if row_tag r =s channel_tag c then row_add r c :: t else r :: add_channel c t
  end.

Definition aggregateChannelsByTag (channels : list Channel) : list TagRow :=
  foldl (fun rows c => add_channel c rows) [] channels.

Definition getChannelTableRowId (row : Channel + TagRow) : jstr :=
  match row with
  | inr r => js "tag:" ++ row_tag r
  | inl c => js "channel:" ++ show_Z (ch_id c)
  end.

(** ** Key lists *)

Record DedupResult := {
  deduplicatedText : jstr; beforeCount : nat; afterCount : nat; removedCount : Z }.

Definition deduplicateKeys (keysText : jstr) : DedupResult :=
  if negb (truthy (trim keysText))
  then {| deduplicatedText := []; beforeCount := 0; afterCount := 0; removedCount := 0 |}
  else
    let keyLines := split_on 10 keysText in
    let deduplicatedKeys := dedup (bfilter truthy (map trim keyLines)) in
    {| deduplicatedText := join [10%N] deduplicatedKeys;
       beforeCount := length keyLines; afterCount := length deduplicatedKeys;
       removedCount := (Z.of_nat (length keyLines) - Z.of_nat (length deduplicatedKeys))%Z |}.
