(* ===== verification/ChannelFacts.v ===== *)
(** * Facts about channel utilities

    Tag rows partition the channels and carry the right totals, key lists are cleaned
    without losing a key, and what a masked key shows. *)

From S2P Require Import Prelude JsString JsNumber Json ChannelUtils.

(** ** Aggregation *)

Definition with_tag (tag : jstr) (c : Channel) : bool := channel_tag c =s tag.

(** The row built from its channels in order. *)
Definition row_of (cs : list Channel) : option TagRow :=
  match cs with
  | [] => None
  | c :: _ => Some (foldl row_add (new_row c) cs)
  end.

Lemma row_of_snoc cs c r : row_of cs = Some r -> row_of (cs ++ [c]) = Some (row_add r c).
Proof.
  destruct cs as [|c0 cs]; [done|]. simpl. intros [= <-]. by rewrite foldl_app.
Qed.

(** What is known of the rows after the channels [chs]. *)
Definition rows_inv (chs : list Channel) (rows : list TagRow) : Prop :=
  map row_tag rows = dedup (map channel_tag chs) /\
  Forall (fun r => row_of (bfilter (with_tag (row_tag r)) chs) = Some r) rows.

Lemma row_tag_add r c : row_tag (row_add r c) = row_tag r.
Proof. done. Qed.

Lemma add_channel_tags c rows :
  map row_tag (add_channel c rows) =
  if bool_decide (channel_tag c ∈ map row_tag rows) then map row_tag rows
  else map row_tag rows ++ [channel_tag c].
Proof.
  induction rows as [|r rows IH]; [done|]. cbn [add_channel map].
  destruct (row_tag r =s channel_tag c) eqn:E.
  - apply jeqb_eq in E. rewrite bool_decide_true by (rewrite E; left). done.
  - apply jeqb_neq in E. cbn [map]. rewrite IH. case_bool_decide as H.
    + by rewrite bool_decide_true by (by right).
    + rewrite bool_decide_false; [done|]. intros [H' | H']%elem_of_cons; [congruence|done].
Qed.

Lemma dedup_snoc {A} `{EqDecision A} (l : list A) x :
  dedup (l ++ [x]) = if bool_decide (x ∈ dedup l) then dedup l else dedup l ++ [x].
Proof.
  unfold dedup. rewrite dedup_from_app. cbn [app dedup_from].
  case_bool_decide; [by rewrite app_nil_r|done].
Qed.

Lemma filter_snoc_other tag c chs :
  channel_tag c <> tag -> bfilter (with_tag tag) (chs ++ [c]) = bfilter (with_tag tag) chs.
Proof.
  intros H. rewrite List.filter_app. cbn [List.filter]. unfold with_tag at 2.
  rewrite (proj2 (jeqb_neq _ _)) by done. apply app_nil_r.
Qed.

Lemma filter_snoc_same tag c chs :
  channel_tag c = tag -> bfilter (with_tag tag) (chs ++ [c]) = bfilter (with_tag tag) chs ++ [c].
Proof.
  intros H. rewrite List.filter_app. cbn [List.filter]. unfold with_tag at 2.
  by rewrite (proj2 (jeqb_eq _ _) H).
Qed.

Lemma rows_inv_add chs rows c :
  rows_inv chs rows -> rows_inv (chs ++ [c]) (add_channel c rows).
Proof.
  intros [Ht Hr]. split.
  { rewrite add_channel_tags, map_app. cbn [map]. by rewrite dedup_snoc, Ht. }
  assert (NoDup (map row_tag rows)) as Hnd by (rewrite Ht; apply NoDup_dedup).
  assert (channel_tag c ∉ map row_tag rows -> bfilter (with_tag (channel_tag c)) chs = []) as Hnew.
  { rewrite Ht, elem_of_dedup. intros Hn. clear -Hn. induction chs as [|x chs IH]; [done|].
    cbn [map] in Hn. apply not_elem_of_cons in Hn as [Hx Hn]. simpl. unfold with_tag at 1.
    rewrite (proj2 (jeqb_neq _ _)) by congruence. by apply IH. }
  clear Ht. revert Hr Hnd Hnew. generalize rows. clear rows. intros rows Hr.
  induction Hr as [|r rows Hrow Hr IH]; intros Hnd Hnew; cbn [add_channel].
  - apply Forall_singleton. cbn [row_add row_tag new_row].
    rewrite filter_snoc_same, Hnew by (done || by apply not_elem_of_nil). done.
  - cbn [map] in Hnd. apply NoDup_cons in Hnd as [Hni Hnd].
    destruct (row_tag r =s channel_tag c) eqn:E.
    + apply jeqb_eq in E. constructor.
      * rewrite row_tag_add, filter_snoc_same by done. by apply row_of_snoc.
      * apply Forall_forall. intros r' Hin. rewrite Forall_forall in Hr.
        rewrite filter_snoc_other; [by apply Hr|]. intros E'. apply Hni. rewrite E, E'.
        apply list_elem_of_In, in_map, list_elem_of_In. done.
    + apply jeqb_neq in E. constructor.
      * rewrite filter_snoc_other by congruence. done.
      * apply IH; [done|]. intros Hn. apply Hnew. cbn [map]. intros [H | H]%elem_of_cons; [congruence|done].
Qed.

Lemma aggregate_inv chs : rows_inv chs (aggregateChannelsByTag chs).
Proof.
  unfold aggregateChannelsByTag. induction chs as [|c chs IH] using rev_ind; [by split|].
  rewrite foldl_app. simpl. by apply rows_inv_add.
Qed.

(** ** One row *)

(** The sum in the order of the channels, rounded as numbers are. *)
Definition total_quota (cs : list Channel) : number := foldl n_add n_zero (map ch_used_quota cs).

Lemma foldl_children r cs : children (foldl row_add r cs) = children r ++ cs.
Proof.
  revert r. induction cs as [|c cs IH]; intros r; simpl; [by rewrite app_nil_r|].
  rewrite IH. simpl. by rewrite <- app_assoc.
Qed.

Lemma foldl_quota r cs :
  row_used_quota (foldl row_add r cs) = foldl n_add (row_used_quota r) (map ch_used_quota cs).
Proof. revert r. induction cs as [|c cs IH]; intros r; [done|]. cbn [foldl map]. by rewrite IH. Qed.

Lemma foldl_status r cs s :
  row_status r = Some s ->
  row_status (foldl row_add r cs) = Some (if existsb isChannelEnabled cs then 1%Z else s).
Proof.
  revert r s. induction cs as [|c cs IH]; intros r s Hs; [done|]. cbn [foldl existsb].
  unfold isChannelEnabled at 1. destruct (Z.eqb_spec (ch_status c) 1) as [E|E]; cbn [orb].
  - rewrite (IH _ 1%Z); [by destruct (existsb _ cs)|]. simpl. unfold merge_status. by rewrite (proj2 (Z.eqb_eq _ _) E).
  - rewrite (IH _ s); [done|]. simpl. unfold merge_status. by rewrite (proj2 (Z.eqb_neq _ _) E), Hs.
Qed.

(** The value all elements share. *)
Definition common (l : list (option Z)) : option Z :=
  match l with
  | [] => None
  | x :: t => if forallb (fun y => bool_decide (y = x)) t then x else None
  end.

Lemma merge_values (f : Channel -> option Z) (g : TagRow -> option Z) cs r v :
  (forall r c, g (row_add r c) = merge_value (g r) (f c)) ->
  Forall (fun c => f c <> Some (-1)%Z) cs -> g r = v -> v <> Some (-1)%Z ->
  g (foldl row_add r cs) = if forallb (fun c => bool_decide (f c = v)) cs then v else None.
Proof.
  intros Hg Hf. revert r v. induction Hf as [|c cs Hc Hf IH]; intros r v Hr Hv; [done|]. simpl.
  assert (g (row_add r c) = if bool_decide (f c = v) then v else None) as Hadd.
  { rewrite Hg, Hr. unfold merge_value. rewrite (bool_decide_false _ Hv).
    case_bool_decide as E1; case_bool_decide as E2; congruence. }
  case_bool_decide as E; simpl.
  - rewrite (IH _ v); done.
  - rewrite (IH _ None); [|done|done]. by destruct (forallb _ cs).
Qed.

(** ** Theorems *)

(** Aggregating by tag partitions the channels: there is one row per tag, in the
    order the tags first appear, and the children of a row are all the channels with its
    tag, in order; the row's quota is their sum; and it is enabled exactly when one of
    them is, showing the first channel's status otherwise. *)
Theorem aggregate_partition chs :
  map row_tag (aggregateChannelsByTag chs) = dedup (map channel_tag chs) /\
  Forall (fun r =>
    children r = bfilter (with_tag (row_tag r)) chs /\
    row_used_quota r = total_quota (children r) /\
    exists c cs, children r = c :: cs /\ row_base r = c /\
      row_status r = Some (if existsb isChannelEnabled (children r) then 1%Z else ch_status c))
    (aggregateChannelsByTag chs).
Proof.
  destruct (aggregate_inv chs) as [Ht Hr]. split; [done|]. eapply Forall_impl; [exact Hr|].
  intros r Hrow. cbn beta in Hrow. destruct (bfilter (with_tag (row_tag r)) chs) as [|c cs]; [done|].
  cbn [row_of] in Hrow. injection Hrow as Hrow.
  assert (children r = c :: cs) as Hch by (by rewrite <- Hrow, foldl_children). split; [done|].
  split; [by rewrite Hch, <- Hrow, foldl_quota|]. exists c, cs. split; [done|].
  assert (forall r0 l, row_base (foldl row_add r0 l) = row_base r0) as Hbase.
  { intros r0 l. revert r0. induction l as [|x l IH]; intros r0; [done|]. simpl. by rewrite IH. }
  split; [by rewrite <- Hrow, Hbase|]. rewrite Hch, <- Hrow. cbn [foldl existsb].
  rewrite (foldl_status _ cs (ch_status c)).
  - unfold isChannelEnabled at 2. destruct (Z.eqb_spec (ch_status c) 1) as [->|]; [|done]. by destruct (existsb _ cs).
  - simpl. unfold merge_status. destruct (Z.eqb_spec (ch_status c) 1) as [->|]; done.
Qed.

(** The priority and the weight of a tag row: when no channel of the tag uses -1,
    the row shows the value all of them share, and none when they differ. *)
Theorem aggregate_priority chs r :
  r ∈ aggregateChannelsByTag chs ->
  Forall (fun c => ch_priority c <> Some (-1)%Z /\ ch_weight c <> Some (-1)%Z) (children r) ->
  row_priority r = common (map ch_priority (children r)) /\
  row_weight r = common (map ch_weight (children r)).
Proof.
  intros Hin Hf. destruct (aggregate_inv chs) as [_ Hr]. rewrite Forall_forall in Hr. specialize (Hr r Hin).
  destruct (bfilter (with_tag (row_tag r)) chs) as [|c cs]; [done|]. cbn [row_of] in Hr. injection Hr as Hr.
  assert (children r = c :: cs) as Hch by (by rewrite <- Hr, foldl_children). rewrite Hch in *.
  inversion Hf as [|? ? [Hp Hw] Hf']; subst.
  assert (forall f : Channel -> option Z, forallb (fun y => bool_decide (y = f c)) (map f cs) =
            forallb (fun x => bool_decide (f x = f c)) cs) as Hmap.
  { intros f. clear. induction cs as [|x cs IH]; [done|]. simpl. by rewrite IH. }
  cbn [foldl map common]. rewrite !Hmap. split.
  - apply (merge_values ch_priority row_priority); [done| |done|done].
    eapply Forall_impl; [exact Hf'|]. by intros x [].
  - apply (merge_values ch_weight row_weight); [done| |done|done].
    eapply Forall_impl; [exact Hf'|]. by intros x [].
Qed.

Definition ex_channel (i : Z) (tag : jstr) (status : Z) (prio : option Z) : Channel :=
  {| ch_id := i; ch_key := js "k"; ch_name := js "n"; ch_type := 1; ch_status := status;
     ch_group := js "default"; ch_used_quota := num_of_Z 10; ch_response_time := n_zero; ch_priority := prio;
     ch_weight := Some 0%Z; ch_balance := n_zero; ch_models := []; ch_tag := Some tag; ch_info := None |}.

Lemma aggregate_priority_witness :
  exists r, r ∈ aggregateChannelsByTag [ex_channel 1 (js "t") 1 (Some 5%Z); ex_channel 2 (js "t") 2 (Some 5%Z)] /\
    row_priority r = Some 5%Z.
Proof.
  eexists. split; [left|].
  destruct (aggregate_priority [ex_channel 1 (js "t") 1 (Some 5%Z); ex_channel 2 (js "t") 2 (Some 5%Z)] _ ltac:(left))
    as [H _]; [|exact H].
  repeat (apply Forall_cons; split; [split; discriminate|]). constructor.
Defined.

(** A channel that really has priority -1 is taken for no value: channels with
    priorities -1 and 5 are shown with priority 5, as if they agreed. *)
Theorem priority_minus_one_ignored :
  row_priority <$> aggregateChannelsByTag
    [ex_channel 1 (js "t") 1 (Some (-1)%Z); ex_channel 2 (js "t") 1 (Some 5%Z)] = [Some 5%Z].
Proof. vm_compute. reflexivity. Qed.

(** ** Masked keys *)

Lemma slice_ends (k : jstr) n : slice 0 n k = take n k.
Proof. unfold slice. by rewrite Nat.sub_0_r. Qed.

(** A masked key longer than 16 units shows its first and last eight and nothing of
    what is between; one of at most eight units is shown whole: from the masked text and
    the length the key can be read off. *)
Theorem masked_key_shows k1 k2 :
  k1 <> [] -> k2 <> [] ->
  (16 < length k1 -> 16 < length k2 -> take 8 k1 = take 8 k2 ->
     drop (length k1 - 8) k1 = drop (length k2 - 8) k2 ->
     formatChannelKey k1 false = formatChannelKey k2 false) /\
  (length k1 = length k2 -> length k1 <= 8 ->
     formatChannelKey k1 false = formatChannelKey k2 false -> k1 = k2).
Proof.
  intros H1 H2. unfold formatChannelKey. rewrite (proj2 (truthy_spec _) H1), (proj2 (truthy_spec _) H2).
  cbn [negb]. unfold slice_last. rewrite !slice_ends. split.
  - intros L1 L2 Et Ed. rewrite !(proj2 (Nat.leb_gt _ 16)) by lia. by rewrite Et, Ed.
  - intros HL Hle. rewrite !(proj2 (Nat.leb_le _ 16)) by lia. intros E.
    apply app_inj_1 in E as [E1 E2]; [|rewrite !length_take; lia].
    apply app_inv_head in E2. rewrite <- HL in E2.
    rewrite <- (take_drop 4 k1), <- (take_drop 4 k2), E1. f_equal.
    assert (forall k : jstr, length k = length k1 ->
      drop 4 k = drop (4 - (length k1 - 4)) (drop (length k1 - 4) k)) as Hd.
    { intros k Hk. rewrite drop_drop. destruct (decide (4 <= length k1)).
      - f_equal. lia.
      - rewrite !drop_ge by lia. done. }
    rewrite (Hd k1), (Hd k2), E2 by lia. done.
Qed.

Lemma masked_key_shows_witness :
  formatChannelKey (js "sk-12345") false = js "sk-1...2345" /\
  (formatChannelKey (js "sk-12345") false = formatChannelKey (js "sk-12346") false ->
     js "sk-12345" = js "sk-12346").
Proof.
  split; [vm_compute; reflexivity|].
  apply (masked_key_shows (js "sk-12345") (js "sk-12346")); [discriminate|discriminate|reflexivity|vm_compute; lia].
Defined.

(** ** Key lists *)

(** A key as it is kept: not empty, trimmed and on one line. *)
Definition clean_key (k : jstr) : Prop := k <> [] /\ trim k = k /\ 10%N ∉ k.

Lemma trimmed_has_nonws k : k <> [] -> trim k = k -> exists c t, k = c :: t /\ is_ws c = false.
Proof.
  intros Hne Ht. pose proof (trim_trimmed k) as [H _]. rewrite Ht in H.
  destruct k as [|c t]; [done|]. eauto.
Qed.

Lemma join_clean_truthy ks :
  ks <> [] -> Forall clean_key ks -> truthy (trim (join [10%N] ks)) = true.
Proof.
  intros Hne Hf. destruct ks as [|k ks]; [done|]. inversion Hf as [|? ? (Hk & Ht & _) _]; subst.
  destruct (trimmed_has_nonws k Hk Ht) as (c & t & -> & Hc). apply truthy_spec, (trim_nonws _ c); [|done].
  destruct ks; cbn [join]; rewrite ?elem_of_app; [left|left; left].
Qed.

Lemma elem_of_split c s x :
  x <> c -> x ∈ s <-> exists line, line ∈ split_on c s /\ x ∈ line.
Proof.
  intros Hx. induction s as [|y s IH]; simpl.
  - split; [by intros ?%elem_of_nil|]. intros (l & Hl%list_elem_of_singleton & H). by subst.
  - rewrite elem_of_cons, IH. pose proof (split_on_not_nil c s) as Hne.
    destruct (N.eqb_spec y c) as [-> | Hy].
    + setoid_rewrite elem_of_cons. split.
      * intros [? | (l & Hl & H)]; [done|]. eauto.
      * intros (l & [-> | Hl] & H); [by apply elem_of_nil in H|]. eauto.
    + destruct (split_on c s) as [|h r]; [done|]. setoid_rewrite elem_of_cons. split.
      * intros [-> | (l & [-> | Hl] & H)]; [exists (y :: h)|exists (y :: h)|exists l];
          rewrite ?elem_of_cons; auto.
      * intros (l & [-> | Hl] & H); [|eauto]. apply elem_of_cons in H as [-> | H]; eauto.
Qed.

(** The text has a key on some line exactly when it is not blank. *)
Lemma keys_nil text :
  bfilter truthy (map trim (split_on 10 text)) = [] <-> trim text = [].
Proof.
  assert (forall s, trim s = [] <-> forall x, x ∈ s -> is_ws x = true) as Hws.
  { intros s. split.
    - intros E x Hx. destruct (is_ws x) eqn:Hw; [done|]. by destruct (trim_nonws s x Hx Hw).
    - intros H. destruct (trim s) as [|x t] eqn:E; [done|]. exfalso.
      destruct (trim_split s) as (a & b & Hs & _). pose proof (trim_trimmed s) as [Ht _]. rewrite E in Hs, Ht.
      rewrite (H x) in Ht; [done|]. rewrite Hs, !elem_of_app, elem_of_cons. auto. }
  rewrite bfilter_nil_iff, Forall_forall, Hws. setoid_rewrite truthy_false. split.
  - intros H x Hx. destruct (decide (x = 10%N)) as [-> | Hn]; [done|].
    apply (elem_of_split 10 text x Hn) in Hx as (l & Hl & Hxl). eapply Hws; [|exact Hxl].
    apply H, list_elem_of_In, in_map, list_elem_of_In, Hl.
  - intros H k Hk. apply list_elem_of_In, in_map_iff in Hk as (l & <- & Hl%list_elem_of_In).
    apply Hws. intros x Hx. apply H, (elem_of_split 10); [|by exists l]. intros ->.
    pose proof (split_on_no_sep 10 text) as Hn. rewrite Forall_forall in Hn. by apply (Hn l Hl).
Qed.

Lemma dedup_nil_iff {A} `{EqDecision A} (l : list A) : dedup l = [] <-> l = [].
Proof. destruct l as [|x l]; [done|]. by split. Qed.

Lemma clean_lines text :
  Forall clean_key (dedup (bfilter truthy (map trim (split_on 10 text)))).
Proof.
  apply Forall_forall. intros k Hk. rewrite elem_of_dedup, elem_of_bfilter in Hk. destruct Hk as [Hk Htr].
  apply list_elem_of_In, in_map_iff in Hk as (l & <- & Hl%list_elem_of_In). split.
  - by apply truthy_spec.
  - split; [apply trim_idem|]. intros Hin. destruct (trim_split l) as (a & b & Hs & _ & _).
    pose proof (split_on_no_sep 10 text) as Hn. rewrite Forall_forall in Hn. apply (Hn l Hl). rewrite Hs.
    rewrite !elem_of_app. auto.
Qed.

Lemma text_lines_back ks :
  ks <> [] -> NoDup ks -> Forall clean_key ks ->
  deduplicateKeys (join [10%N] ks) =
  {| deduplicatedText := join [10%N] ks; beforeCount := length ks; afterCount := length ks; removedCount := 0 |}.
Proof.
  intros Hne Hnd Hf.
  assert (split_on 10 (join [10%N] ks) = ks) as Hs.
  { apply split_join; [done|]. eapply Forall_impl; [exact Hf|]. by intros k (_ & _ & ?). }
  assert (bfilter truthy (map trim ks) = ks) as Hb.
  { apply bfilter_map_id. eapply Forall_impl; [exact Hf|]. intros k (? & ? & _). split; [by apply truthy_spec|done]. }
  unfold deduplicateKeys. rewrite Hs, Hb, dedup_fixed, join_clean_truthy by done. cbn [negb].
  by rewrite Z.sub_diag.
Qed.

(** Cleaning up a list of keys keeps exactly the keys that are on its lines: each
    non-blank line, trimmed, once, in the order of first appearance, counted by
    [afterCount]; and cleaning up a second time changes and removes nothing. *)
Theorem dedup_keys_spec text :
  let r := deduplicateKeys text in
  let keys := dedup (bfilter truthy (map trim (split_on 10 text))) in
  deduplicatedText r = join [10%N] keys /\ afterCount r = length keys /\ NoDup keys /\
  (forall k, k ∈ keys <-> k <> [] /\ exists line, line ∈ split_on 10 text /\ trim line = k) /\
  (removedCount r = Z.of_nat (beforeCount r) - Z.of_nat (afterCount r))%Z /\
  deduplicateKeys (deduplicatedText r) =
    {| deduplicatedText := deduplicatedText r; beforeCount := afterCount r; afterCount := afterCount r;
       removedCount := 0 |}.
Proof.
  intros r keys.
  assert (forall k, k ∈ keys <-> k <> [] /\ exists line, line ∈ split_on 10 text /\ trim line = k) as Hk.
  { intros k. unfold keys. rewrite elem_of_dedup, elem_of_bfilter, list_elem_of_In, in_map_iff, truthy_spec.
    setoid_rewrite list_elem_of_In. naive_solver. }
  pose proof (NoDup_dedup (bfilter truthy (map trim (split_on 10 text)))) as Hnd.
  pose proof (clean_lines text) as Hcl. fold keys in Hnd, Hcl.
  pose proof (keys_nil text) as Hnil. rewrite <- (dedup_nil_iff (bfilter _ _)) in Hnil. fold keys in Hnil.
  remember r as r' eqn:Hr. unfold r, deduplicateKeys in Hr. fold keys in Hr.
  destruct (truthy (trim text)) eqn:E; cbn [negb] in Hr; subst r'; cbn.
  - do 5 (split; [done|]). apply text_lines_back; [|done|done]. rewrite truthy_spec in E. by rewrite Hnil.
  - rewrite truthy_false in E. apply Hnil in E. rewrite E in *. done.
Qed.
