(* ===== verification/RatioSync.v ===== *)
(** * Synchronisation of upstream ratios

    [features/system-settings/models/upstream-ratio-sync-helpers.ts]: the administrator
    compares the prices of models with those of upstream channels and picks, per model,
    the values to take over; and the settings [performSync] of
    [upstream-ratio-sync.tsx] writes.  Objects used as tables are finite maps, with
    the names of [Object.prototype] left out; the order of their keys is only kept where
    the code reads it (the fields of a row).  Fields are their names. *)

From S2P Require Import Prelude Machine JsString JsNumber Json.
From stdpp Require Import gmap.

(** ** Data *)

(** [number | string] *)
Inductive ratio_value := RNum (n : number) | RStr (s : jstr).

#[export] Instance ratio_value_eq_dec : EqDecision ratio_value.
Proof. solve_decision. Defined.

(** A value of [upstreams] may also be missing or [null]: [None]. *)
Record RatioDifferenceEntry := {
  current : option ratio_value;
  upstreams : gmap jstr (option ratio_value);
  confidence : gmap jstr bool }.

(** The fields of a row, in [Object.keys] order. *)
Abbreviation ratio_types := (list (jstr * RatioDifferenceEntry)).
Abbreviation Differences := (gmap jstr ratio_types).
Abbreviation Resolution := (gmap jstr ratio_value).
Abbreviation ResolutionsMap := (gmap jstr Resolution).

Record ResolutionSelection := {
  sel_model : jstr; sel_type : jstr; sel_value : ratio_value; sel_source : jstr }.

#[export] Instance ResolutionSelection_eq_dec : EqDecision ResolutionSelection.
Proof. solve_decision. Defined.

Record ResolutionRemoval := { rem_model : jstr; rem_type : jstr }.
Abbreviation ResolutionRemovalPlan := (gmap jstr (gset jstr)).

Definition MODEL_PRICE : jstr := js "model_price".
Definition BILLING_MODE : jstr := js "billing_mode".
Definition BILLING_EXPR : jstr := js "billing_expr".
Definition SAME : jstr := js "same".

Definition RATIO_SYNC_FIELDS : list jstr :=
  [js "model_ratio"; js "completion_ratio"; js "cache_ratio"; js "create_cache_ratio";
   js "image_ratio"; js "audio_ratio"; js "audio_completion_ratio"].
Definition SYNC_FIELD_ORDER : list jstr := RATIO_SYNC_FIELDS ++ [MODEL_PRICE; BILLING_MODE; BILLING_EXPR].
Definition NUMERIC_SYNC_FIELDS : list jstr := RATIO_SYNC_FIELDS ++ [MODEL_PRICE].

(** ** Fields of a row *)

(** [ratioTypes[f]?.upstreams?.[sourceName]] *)
Definition upstream_value (ratioTypes : ratio_types) (f sourceName : jstr) : option ratio_value :=
  e ← prop_get f ratioTypes; mjoin (upstreams e !! sourceName).

Definition isSelectableUpstreamValue (v : option ratio_value) : bool :=
  match v with
  | Some (RStr s) => negb (s =s SAME)
  | Some (RNum _) => true
  | None => false
  end.

(** The filter, when it is set, is not the text of all fields. *)
Definition getOrderedRatioTypes (ratioTypes : ratio_types) (filter : option jstr) : list jstr :=
  let keys := map fst ratioTypes in
  let ordered := bfilter (fun f => bool_decide (f ∈ keys)) SYNC_FIELD_ORDER ++
                 bfilter (fun f => negb (bool_decide (f ∈ SYNC_FIELD_ORDER))) keys in
  match filter with
  | Some f => if negb (truthy f) || (f =s js "__all__") then ordered else bfilter (fun g => g =s f) ordered
  | None => ordered
  end.

Definition getPreferredSyncField (ratioTypes : ratio_types) (ratioType sourceName : jstr) : jstr :=
  if negb (ratioType =s BILLING_EXPR) &&
     isSelectableUpstreamValue (upstream_value ratioTypes BILLING_EXPR sourceName)
  then BILLING_EXPR else ratioType.

Definition getVisibleRatioTypesForSource (ratioTypes : ratio_types) (sourceName : jstr)
    (filter : option jstr) : list jstr :=
  bfilter (fun ratioType => getPreferredSyncField ratioTypes ratioType sourceName =s ratioType)
    (getOrderedRatioTypes ratioTypes filter).

Definition getAlignedRatioTypes (ratioTypes : ratio_types) (sourceNames : list jstr)
    (filter : option jstr) : list jstr :=
  let ordered := getOrderedRatioTypes ratioTypes filter in
  match sourceNames with
  | [] => ordered
  | _ =>
      let visible := concat (map (fun s => getVisibleRatioTypesForSource ratioTypes s filter) sourceNames) in
      bfilter (fun ratioType => bool_decide (ratioType ∈ visible)) ordered
  end.

Inductive Category := CPrice | CRatio | CTiered.

#[export] Instance Category_eq_dec : EqDecision Category.
Proof. solve_decision. Defined.

Definition getBillingCategory (ratioType : jstr) : Category :=
  if ratioType =s MODEL_PRICE then CPrice
  else if (ratioType =s BILLING_MODE) || (ratioType =s BILLING_EXPR) then CTiered
  else CRatio.

(** The names of the two presets of the server. *)
Definition OFFICIAL_CHANNEL_NAME : jstr := [23448; 26041; 20493; 29575; 39044; 35774]%N.
Definition MODELS_DEV_PRESET_NAME : jstr := js "models.dev " ++ [20215; 26684; 39044; 35774]%N.
Definition OFFICIAL_CHANNEL_ID : Z := -100.
Definition MODELS_DEV_PRESET_ID : Z := -101.

Definition getUpstreamDisplayName (sourceName : jstr) : jstr :=
  match find_first (fun '(name, i) => sourceName =s name ++ js "(" ++ show_Z i ++ js ")")
          [(OFFICIAL_CHANNEL_NAME, OFFICIAL_CHANNEL_ID); (MODELS_DEV_PRESET_NAME, MODELS_DEV_PRESET_ID)] with
  | Some (name, _) => name
  | None => sourceName
  end.

(** [Number(v)] *)
Definition value_number (v : ratio_value) : number :=
  match v with RNum n => n | RStr s => num_of_string s end.

(** [a === b] *)
Definition value_eqb (a b : ratio_value) : bool :=
  match a, b with
  | RNum x, RNum y => n_eqb x y
  | RStr s, RStr t => s =s t
  | _, _ => false
  end.

Definition isSelectedResolutionValue (resolutions : ResolutionsMap) (model ratioType : jstr)
    (upstreamValue : option ratio_value) : bool :=
  if negb (isSelectableUpstreamValue upstreamValue) then false
  else
    match resolutions !! model ≫= lookup ratioType, upstreamValue with
    | Some selected, Some v =>
        if bool_decide (ratioType ∈ NUMERIC_SYNC_FIELDS)
        then n_isFinite (value_number selected) && n_isFinite (value_number v) &&
             n_eqb (value_number selected) (value_number v)
        else value_eqb selected v
    | _, _ => false
    end.

(** ** Selecting *)

(** Upstream values of the model, empty when it has no differences. *)
Definition model_fields (differences : Differences) (model : jstr) : ratio_types :=
  default [] (differences !! model).

Definition resolveResolutionSelection (differences : Differences) (s : ResolutionSelection)
  : ResolutionSelection :=
  let diffs := model_fields differences (sel_model s) in
  let preferredType := getPreferredSyncField diffs (sel_type s) (sel_source s) in
  let preferredValue :=
    if preferredType =s sel_type s then sel_value s
    else default (sel_value s) (upstream_value diffs preferredType (sel_source s)) in
  {| sel_model := sel_model s; sel_type := preferredType; sel_value := preferredValue;
     sel_source := sel_source s |}.

(** The draft keeps a field next to a new one of category [c]. *)
Definition compatible (c : Category) (rt : jstr) : bool :=
  bool_decide (c = CTiered) || bool_decide (getBillingCategory rt = CTiered) ||
  bool_decide (getBillingCategory rt = c).

(** What a tiered price adds to the draft: the billing mode of the source, or a default
    with a price expression, and the price expression of the source. *)
Definition add_mode (diffs : ratio_types) (finalType sourceName : jstr) (draft : Resolution) : Resolution :=
  let modeVal := upstream_value diffs BILLING_MODE sourceName in
  let fallback := if finalType =s BILLING_EXPR
                  then <[BILLING_MODE := RStr (js "tiered_expr")]> draft else draft in
  match modeVal with
  | Some v => if isSelectableUpstreamValue modeVal then <[BILLING_MODE := v]> draft else fallback
  | None => fallback
  end.

Definition add_expr (diffs : ratio_types) (sourceName : jstr) (draft : Resolution) : Resolution :=
  let exprVal := upstream_value diffs BILLING_EXPR sourceName in
  match exprVal with
  | Some v => if isSelectableUpstreamValue exprVal then <[BILLING_EXPR := v]> draft else draft
  | None => draft
  end.

Definition add_tiered (diffs : ratio_types) (finalType sourceName : jstr) (draft : Resolution) : Resolution :=
  add_expr diffs sourceName (add_mode diffs finalType sourceName draft).

(** The update of one model's draft. *)
Definition select_field (differences : Differences) (s : ResolutionSelection) (draft : Resolution) : Resolution :=
  let r := resolveResolutionSelection differences s in
  let finalType := sel_type r in
  let category := getBillingCategory finalType in
  let kept := filter (fun p : jstr * ratio_value => compatible category (fst p) = true) draft in
  let draft1 := <[finalType := sel_value r]> kept in
  match differences !! sel_model s with
  | Some diffs =>
      if bool_decide (category = CTiered) then add_tiered diffs finalType (sel_source s) draft1 else draft1
  | None => draft1
  end.

Definition getDraftModelResolution (drafts resolutions : ResolutionsMap) (model : jstr) : Resolution :=
  match drafts !! model with
  | Some draft => draft
  | None => default ∅ (resolutions !! model)
  end.

Definition applyResolutionSelectionToDraft (resolutions : ResolutionsMap) (differences : Differences)
    (drafts : ResolutionsMap) (s : ResolutionSelection) : ResolutionsMap :=
  <[sel_model s := select_field differences s (getDraftModelResolution drafts resolutions (sel_model s))]> drafts.

(** A model's draft replaces its resolution, or drops it when the draft is empty. *)
Definition take_draft (draft current : option Resolution) : option Resolution :=
  match draft with
  | Some d => if bool_decide (d = ∅) then None else Some d
  | None => current
  end.

Definition applyResolutionSelections (resolutions : ResolutionsMap) (differences : Differences)
    (selections : list ResolutionSelection) : ResolutionsMap :=
  match selections with
  | [] => resolutions
  | _ =>
      let drafts := foldl (applyResolutionSelectionToDraft resolutions differences) ∅ selections in
      merge take_draft drafts resolutions
  end.

Definition applyResolutionSelection (resolutions : ResolutionsMap) (differences : Differences)
    (s : ResolutionSelection) : ResolutionsMap :=
  applyResolutionSelections resolutions differences [s].

(** *** What a bulk selection amounts to *)

(** The map from model and field to selection, as the list of its values in insertion
    order; setting a key that is present keeps its place. *)
Definition effective_key (r : ResolutionSelection) : jstr := sel_model r ++ 0%N :: sel_type r.

Definition same_key (a b : ResolutionSelection) : bool := effective_key a =s effective_key b.

Fixpoint set_effective (r : ResolutionSelection) (l : list ResolutionSelection) : list ResolutionSelection :=
  match l with
  | [] => [r]
  | x :: t => if same_key x r then r :: t else x :: set_effective r t
  end.

(** [existing] is of the same model and of the other of the two plain categories. *)
Definition displaced (r existing : ResolutionSelection) : bool :=
  (sel_model existing =s sel_model r) && negb (compatible (getBillingCategory (sel_type r)) (sel_type existing)).

Definition add_effective (differences : Differences) (l : list ResolutionSelection) (s : ResolutionSelection)
  : list ResolutionSelection :=
  let r := resolveResolutionSelection differences s in
  set_effective r (bfilter (fun x => negb (displaced r x)) l).

Definition getEffectiveResolutionSelections (differences : Differences) (selections : list ResolutionSelection)
  : list ResolutionSelection :=
  foldl (add_effective differences) [] selections.

(** ** Removing *)

Definition remove_field (draft : Resolution) (ratioType : jstr) : Resolution :=
  let d1 := delete ratioType draft in
  let d2 := if ratioType =s BILLING_EXPR then delete BILLING_MODE d1 else d1 in
  if ratioType =s BILLING_MODE then delete BILLING_EXPR d2 else d2.

Definition take_removal (ratioTypes : option (gset jstr)) (current : option Resolution) : option Resolution :=
  match ratioTypes, current with
  | Some rts, Some c => take_draft (Some (foldl remove_field c (elements rts))) None
  | _, _ => current
  end.

Definition applyResolutionRemovalPlan (resolutions : ResolutionsMap) (plan : ResolutionRemovalPlan)
  : ResolutionsMap :=
  merge take_removal plan resolutions.

Definition add_removal (plan : ResolutionRemovalPlan) (r : ResolutionRemoval) : ResolutionRemovalPlan :=
  <[rem_model r := {[rem_type r]} ∪ default ∅ (plan !! rem_model r)]> plan.

Definition applyResolutionRemovals (resolutions : ResolutionsMap) (removals : list ResolutionRemoval)
  : ResolutionsMap :=
  match removals with
  | [] => resolutions
  | _ => applyResolutionRemovalPlan resolutions (foldl add_removal ∅ removals)
  end.

Definition deleteResolutionField (resolutions : ResolutionsMap) (model ratioType : jstr) : ResolutionsMap :=
  applyResolutionRemovals resolutions [{| rem_model := model; rem_type := ratioType |}].

(** ** Writing *)

(** The settings, by option and then by model. *)
Abbreviation Settings := (gmap jstr (gmap jstr ratio_value)).

(** [word.charAt(0).toUpperCase()]: the fields start with ASCII letters. *)
Definition capitalize (word : jstr) : jstr :=
  match word with
  | c :: t => (if (97 <=? c)%N && (c <=? 122)%N then c - 32 else c)%N :: t
  | [] => []
  end.

Definition optionKeyBySyncField (ratioType : jstr) : jstr :=
  if ratioType =s BILLING_MODE then js "billing_setting.billing_mode"
  else if ratioType =s BILLING_EXPR then js "billing_setting.billing_expr"
  else concat (map capitalize (split_on 95 ratioType)).

Definition ratio_options : list jstr := map optionKeyBySyncField RATIO_SYNC_FIELDS.

Definition drop_model (model : jstr) (option : jstr) (st : Settings) : Settings :=
  alter (delete model) option st.

(** [finalRatios[optionKey][model] = value]: [None] when there is no such option, which
    throws. *)
Definition write_value (model : jstr) (acc : option Settings) (p : jstr * ratio_value) : option Settings :=
  let '(ratioType, v) := p in
  let stored := if bool_decide (ratioType ∈ NUMERIC_SYNC_FIELDS) then RNum (value_number v) else v in
  let optionKey := optionKeyBySyncField ratioType in
  st ← acc;
  values ← st !! optionKey;
  Some (<[optionKey := <[model := stored]> values]> st).

(** The body of the loop on the resolutions. *)
Definition sync_model (acc : option Settings) (p : jstr * Resolution) : option Settings :=
  let '(model, ratios) := p in
  st ← acc;
  let selected := map fst (map_to_list ratios) in
  let hasPrice := bool_decide (MODEL_PRICE ∈ selected) in
  let hasRatio := existsb (fun rt => bool_decide (rt ∈ RATIO_SYNC_FIELDS)) selected in
  let st1 := if hasPrice then foldr (drop_model model) st ratio_options else st in
  let st2 := if hasRatio then drop_model model (optionKeyBySyncField MODEL_PRICE) st1 else st1 in
  foldl (write_value model) (Some st2) (map_to_list ratios).

(** [finalRatios] of [performSync]. *)
Definition performSync (resolutions : ResolutionsMap) (currentRatios : Settings) : option Settings :=
  foldl sync_model (Some currentRatios) (map_to_list resolutions).

(** ** The page *)

(** The differences on display and what was picked from them. *)
Record SyncState := { differences : Differences; resolutions : ResolutionsMap }.

Inductive sync_event :=
  | RFetch (D : Differences)
  | RSelect (sels : list ResolutionSelection)
  | RUnselect (plan : ResolutionRemovalPlan).

(** New differences (after a fetch or a successful write) clear the choices; the fields
    of a selection are of the type [RatioType]. *)
Definition sync_step (e : sync_event) (s : SyncState) : option SyncState :=
  match e with
  | RFetch D => Some {| differences := D; resolutions := ∅ |}
  | RSelect sels =>
      if forallb (fun x => bool_decide (sel_type x ∈ SYNC_FIELD_ORDER)) sels
      then Some {| differences := differences s;
                   resolutions := applyResolutionSelections (resolutions s) (differences s) sels |}
      else None
  | RUnselect plan =>
      Some {| differences := differences s; resolutions := applyResolutionRemovalPlan (resolutions s) plan |}
  end.

Definition sync_machine : Machine SyncState sync_event :=
  {| initial s := s = {| differences := ∅; resolutions := ∅ |}; next := sync_step |}.
