(* ===== verification/RatioSyncFacts.v ===== *)
(** * Facts about the synchronisation of upstream ratios

    Picking values in bulk is the same as picking them one by one, every value of a bulk
    selection ends up picked, no reachable state mixes a fixed price with ratios, and the
    settings written from it do not either. *)

From S2P Require Import Prelude Machine JsString JsNumber Json RatioSync.
From stdpp Require Import gmap.

(** ** Selections, model by model *)

Definition of_model (m : jstr) (s : ResolutionSelection) : bool := sel_model s =s m.

(** The draft of a model after its selections. *)
Definition select_all (D : Differences) (draft : Resolution) (l : list ResolutionSelection) : Resolution :=
  foldl (fun d s => select_field D s d) draft l.

Lemma drafts_lookup D res sels m :
  foldl (applyResolutionSelectionToDraft res D) ∅ sels !! m =
  match bfilter (of_model m) sels with
  | [] => None
  | l => Some (select_all D (default ∅ (res !! m)) l)
  end.
Proof.
  induction sels as [|s sels IH] using rev_ind; [apply lookup_empty|].
  rewrite foldl_app, List.filter_app. cbn [foldl List.filter]. unfold applyResolutionSelectionToDraft at 1.
  unfold of_model at 2. destruct (sel_model s =s m) eqn:E.
  - apply jeqb_eq in E. rewrite E, lookup_insert_eq. unfold getDraftModelResolution. rewrite IH.
    destruct (bfilter (of_model m) sels) as [|x l]; [done|]. cbn [app]. unfold select_all.
    by rewrite (app_comm_cons l [s] x), foldl_app.
  - apply jeqb_neq in E. rewrite lookup_insert_ne, app_nil_r by done. exact IH.
Qed.

Lemma insert_not_empty (d : Resolution) k v : <[k := v]> d <> ∅.
Proof. apply insert_non_empty. Qed.

Lemma add_tiered_not_empty diffs ft src d : d <> ∅ -> add_tiered diffs ft src d <> ∅.
Proof. intros Hd. unfold add_tiered, add_mode, add_expr. cases; try done; apply insert_not_empty. Qed.

Lemma select_field_not_empty D s d : select_field D s d <> ∅.
Proof.
  unfold select_field. cases; try apply add_tiered_not_empty; apply insert_not_empty.
Qed.

Lemma select_all_not_empty D d l : l <> [] -> select_all D d l <> ∅.
Proof.
  intros Hl. destruct l as [|s l] using rev_ind; [done|]. unfold select_all. rewrite foldl_app.
  apply select_field_not_empty.
Qed.

Lemma apply_lookup res D sels m :
  applyResolutionSelections res D sels !! m =
  match bfilter (of_model m) sels with
  | [] => res !! m
  | l => Some (select_all D (default ∅ (res !! m)) l)
  end.
Proof.
  unfold applyResolutionSelections. destruct sels as [|s sels]; [done|].
  rewrite lookup_merge, drafts_lookup.
  destruct (bfilter (of_model m) (s :: sels)) as [|x l]; [by destruct (res !! m)|].
  assert (select_all D (default ∅ (res !! m)) (x :: l) <> ∅) as H by by apply select_all_not_empty.
  unfold diag_None. cbn [take_draft]. rewrite (bool_decide_false _ H). by destruct (res !! m).
Qed.

(** Picking values in bulk is picking them one after the other: applying a list of
    selections is applying its parts in turn, whatever models and fields they mix. *)
Theorem ratio_bulk_sequential res D a b :
  applyResolutionSelections res D (a ++ b) =
  applyResolutionSelections (applyResolutionSelections res D a) D b.
Proof.
  apply map_eq. intros m. rewrite !apply_lookup, List.filter_app.
  destruct (bfilter (of_model m) a) as [|x la]; [done|].
  destruct (bfilter (of_model m) b) as [|y lb]; cbn [app default].
  - by rewrite app_nil_r.
  - f_equal. unfold select_all. by rewrite app_comm_cons, foldl_app.
Qed.

(** ** One selection *)

Lemma category_price f : getBillingCategory f = CPrice <-> f = MODEL_PRICE.
Proof.
  unfold getBillingCategory. split; [|by intros ->]. intros H.
  destruct (f =s MODEL_PRICE) eqn:E; [by apply jeqb_eq|]. by destruct (_ || _).
Qed.

Lemma category_tiered f : getBillingCategory f = CTiered <-> f = BILLING_MODE \/ f = BILLING_EXPR.
Proof.
  unfold getBillingCategory. split; [|by intros [-> | ->]]. intros H.
  destruct (f =s MODEL_PRICE); [done|]. destruct (f =s BILLING_MODE) eqn:E1; [left; by apply jeqb_eq|].
  destruct (f =s BILLING_EXPR) eqn:E2; [right; by apply jeqb_eq|done].
Qed.

Lemma preferred_idem diffs f src :
  getPreferredSyncField diffs (getPreferredSyncField diffs f src) src = getPreferredSyncField diffs f src.
Proof.
  unfold getPreferredSyncField at 2 3. destruct (negb (f =s BILLING_EXPR) && _) eqn:E; [done|].
  unfold getPreferredSyncField. by rewrite E.
Qed.

(** The fields a selection can touch. *)
Lemma select_field_dom D s d f :
  is_Some (select_field D s d !! f) ->
  f = sel_type (resolveResolutionSelection D s) \/
  is_Some (d !! f) /\ compatible (getBillingCategory (sel_type (resolveResolutionSelection D s))) f = true \/
  getBillingCategory f = CTiered.
Proof.
  destruct (decide (getBillingCategory f = CTiered)) as [Hc|Hc]; [auto|].
  assert (f <> BILLING_MODE /\ f <> BILLING_EXPR) as [Hm He].
  { split; intros ->; by apply Hc. }
  assert (forall diffs ft src d', add_tiered diffs ft src d' !! f = d' !! f) as Hadd.
  { intros diffs ft src d'. unfold add_tiered, add_mode, add_expr. cases; by rewrite ?lookup_insert_ne by done. }
  set (r := resolveResolutionSelection D s). unfold select_field. fold r. intros [v Hv].
  assert (<[sel_type r := sel_value r]>
            (filter (fun p : jstr * ratio_value => compatible (getBillingCategory (sel_type r)) p.1 = true) d) !! f
          = Some v) as H.
  { rewrite <- Hv. cases; by rewrite ?Hadd. }
  destruct (decide (f = sel_type r)) as [->|Hne]; [auto|]. rewrite lookup_insert_ne in H by done.
  apply map_lookup_filter_Some in H as [H1 H2]. right. left. split; [by eexists|done].
Qed.

(** ** Bulk selection from one source *)

(** Two selections that can stand next to each other. *)
Definition beside (a b : ResolutionSelection) : Prop :=
  sel_model a = sel_model b ->
  sel_type a <> sel_type b /\ compatible (getBillingCategory (sel_type b)) (sel_type a) = true.

Lemma Forall_set_effective (Q : ResolutionSelection -> Prop) r l :
  Q r -> Forall Q l -> Forall Q (set_effective r l).
Proof.
  intros Hr. induction 1 as [|x l Hx Hl IH]; simpl; [by repeat constructor|].
  destruct (same_key x r); by constructor.
Qed.

(** A field name has no null unit, so that the key of a selection tells its parts. *)
Definition key_ok (r : ResolutionSelection) : Prop := 0%N ∉ sel_type r.

Lemma set_effective_beside r l :
  key_ok r -> Forall key_ok l ->
  ForallOrdPairs beside l -> Forall (fun x => displaced r x = false) l ->
  ForallOrdPairs beside (set_effective r l).
Proof.
  intros Hr Hk. induction 1 as [|x l Hx Hl IH]; intros Hd; simpl; [by repeat constructor|].
  inversion Hd as [|? ? Hdx Hd']; subst. inversion Hk as [|? ? Hkx Hk']; subst. destruct (same_key x r) eqn:E.
  - apply jeqb_eq, app_last_sep_inj in E as [E1 E2]; [|done..]. constructor; [|done].
    eapply Forall_impl; [exact Hx|]. intros y Hy. unfold beside in *. by rewrite <- E1, <- E2.
  - constructor; [|by apply IH]. apply Forall_set_effective; [|done]. intros Hm. split.
    + intros Ht. unfold same_key, effective_key in E. by rewrite Hm, Ht, jeqb_refl in E.
    + unfold displaced in Hdx. rewrite (proj2 (jeqb_eq _ _) Hm) in Hdx. by apply negb_false_iff in Hdx.
Qed.

Lemma beside_filter p l : ForallOrdPairs beside l -> ForallOrdPairs beside (bfilter p l).
Proof.
  induction 1 as [|x l Hx Hl IH]; simpl; [constructor|]. destruct (p x); [|done]. constructor; [|done].
  apply Forall_forall. intros y Hy. apply elem_of_bfilter in Hy as [Hy _]. rewrite Forall_forall in Hx. by apply Hx.
Qed.

Lemma Forall_bfilter {A} (Q : A -> Prop) p l : Forall Q l -> Forall Q (bfilter p l).
Proof. induction 1; simpl; [constructor|]. destruct (p x); [by constructor|done]. Qed.

Section bulk.
Variable D : Differences.
Variable src : jstr.

(** The value can be compared with itself: a finite number in a numeric field. *)
Definition comparable (f : jstr) (v : ratio_value) : bool :=
  if bool_decide (f ∈ NUMERIC_SYNC_FIELDS) then n_isFinite (value_number v) else value_eqb v v.

(** The values of the source are numbers where numbers are expected. *)
Hypothesis source_ok : forall m f v,
  upstream_value (model_fields D m) f src = Some v -> isSelectableUpstreamValue (Some v) = true ->
  comparable f v = true.

(** A selection of the value the source offers for the field. *)
Definition offered (s : ResolutionSelection) : Prop :=
  sel_source s = src /\ key_ok s /\
  upstream_value (model_fields D (sel_model s)) (sel_type s) src = Some (sel_value s) /\
  isSelectableUpstreamValue (Some (sel_value s)) = true.

(** What the map of effective selections keeps. *)
Definition effective_ok (l : list ResolutionSelection) : Prop :=
  Forall (fun r => offered r /\ resolveResolutionSelection D r = r) l /\ ForallOrdPairs beside l.

Lemma resolve_offered s :
  offered s -> offered (resolveResolutionSelection D s) /\
  resolveResolutionSelection D (resolveResolutionSelection D s) = resolveResolutionSelection D s.
Proof.
  intros (Hs & Hkey & Hv & Hsel). set (diffs := model_fields D (sel_model s)) in *.
  set (p := getPreferredSyncField diffs (sel_type s) src).
  assert (exists v, upstream_value diffs p src = Some v /\ isSelectableUpstreamValue (Some v) = true /\
            resolveResolutionSelection D s =
            {| sel_model := sel_model s; sel_type := p; sel_value := v; sel_source := src |})
    as (v & Hpv & Hpsel & Hr).
  { unfold resolveResolutionSelection. fold diffs. rewrite Hs. fold p. destruct (p =s sel_type s) eqn:E.
    - apply jeqb_eq in E. exists (sel_value s). by rewrite E.
    - unfold p, getPreferredSyncField in *.
      destruct (isSelectableUpstreamValue (upstream_value diffs BILLING_EXPR src)) eqn:F;
        [|by rewrite andb_false_r, jeqb_refl in E].
      destruct (sel_type s =s BILLING_EXPR) eqn:G; cbn [negb andb] in *;
        [by rewrite jeqb_refl in E|].
      destruct (upstream_value diffs BILLING_EXPR src) as [v|]; [|done]. by exists v. }
  assert (0%N ∉ p) as Hkp by (unfold p, getPreferredSyncField; destruct (_ && _); [decided|done]).
  rewrite Hr. split; [done|]. unfold resolveResolutionSelection at 1. cbn [sel_model sel_type sel_source sel_value].
  fold diffs. unfold p at 1 2. rewrite preferred_idem. fold p. by rewrite jeqb_refl.
Qed.

Lemma effective_spec sels :
  Forall offered sels -> effective_ok (getEffectiveResolutionSelections D sels).
Proof.
  unfold getEffectiveResolutionSelections. intros Hf.
  assert (forall l, effective_ok l -> effective_ok (foldl (add_effective D) l sels)) as H;
    [|apply H; split; constructor].
  induction Hf as [|s sels Hs _ IH]; intros l [Hl Hp]; [done|]. apply IH. unfold add_effective. split.
  - apply Forall_set_effective; [by apply resolve_offered|]. by apply Forall_bfilter.
  - apply set_effective_beside; [by apply resolve_offered| |by apply beside_filter|].
    { apply Forall_bfilter. eapply Forall_impl; [exact Hl|]. by intros x [(_ & ? & _) _]. } apply Forall_forall. intros x Hx.
    apply elem_of_bfilter in Hx as [_ Hx]. by apply negb_true_iff in Hx.
Qed.

(** Fields that agree with the source survive what a tiered price adds. *)
Lemma add_tiered_keeps diffs ft d f v :
  upstream_value diffs f src = Some v -> isSelectableUpstreamValue (Some v) = true ->
  d !! f = Some v -> add_tiered diffs ft src d !! f = Some v.
Proof.
  intros Hu Hsel Hd. unfold add_tiered.
  assert (forall k w (d' : Resolution), upstream_value diffs k src = Some w -> d' !! f = Some v ->
            <[k := w]> d' !! f = Some v) as Hi.
  { intros k w d' Hk Hd'. destruct (decide (k = f)) as [->|Hne]; [|by rewrite lookup_insert_ne].
    rewrite lookup_insert_eq. congruence. }
  assert (add_mode diffs ft src d !! f = Some v) as Hm.
  { unfold add_mode. destruct (upstream_value diffs BILLING_MODE src) as [w|] eqn:Em;
      [destruct (isSelectableUpstreamValue (Some w)) eqn:Es; [by apply Hi|]|];
      (destruct (ft =s BILLING_EXPR); [|done]);
      (destruct (decide (BILLING_MODE = f)) as [E|Hne]; [rewrite E in *; congruence|by rewrite lookup_insert_ne]). }
  unfold add_expr. destruct (upstream_value diffs BILLING_EXPR src) as [r|] eqn:Ee; [|done].
  destruct (isSelectableUpstreamValue (Some r)); [by apply Hi|done].
Qed.

Lemma select_gets r d f v :
  offered r -> resolveResolutionSelection D r = r ->
  upstream_value (model_fields D (sel_model r)) f src = Some v -> isSelectableUpstreamValue (Some v) = true ->
  f = sel_type r \/ d !! f = Some v /\ compatible (getBillingCategory (sel_type r)) f = true ->
  select_field D r d !! f = Some v.
Proof.
  intros (Hs & _ & Hv & _) Hr Hu Hsel Hf. unfold select_field. rewrite Hr.
  set (kept := filter _ d). assert (<[sel_type r := sel_value r]> kept !! f = Some v) as Hk.
  { destruct (decide (sel_type r = f)) as [E|Hne]; [rewrite E in *; rewrite lookup_insert_eq; congruence|].
    destruct Hf as [? | [Hd Hc]]; [by destruct Hne|]. rewrite lookup_insert_ne by done.
    by apply map_lookup_filter_Some. }
  unfold model_fields in Hu. destruct (D !! sel_model r) as [diffs|]; [|done].
  case_bool_decide; [|done]. rewrite Hs. by apply add_tiered_keeps.
Qed.

Lemma select_all_keeps l d f v m :
  Forall (fun r => offered r /\ resolveResolutionSelection D r = r) l -> Forall (fun r => sel_model r = m) l ->
  Forall (fun r => compatible (getBillingCategory (sel_type r)) f = true) l ->
  upstream_value (model_fields D m) f src = Some v -> isSelectableUpstreamValue (Some v) = true ->
  d !! f = Some v -> select_all D d l !! f = Some v.
Proof.
  intros Hl Hm Hc Hu Hs. revert d. induction Hl as [|r l [Ho Hr] _ IH]; intros d Hd; [done|].
  inversion Hm; subst. inversion Hc; subst. simpl. apply IH; [done..|].
  apply select_gets; auto.
Qed.

Lemma select_all_gets l d m r :
  effective_ok l -> Forall (fun r => sel_model r = m) l -> r ∈ l ->
  select_all D d l !! sel_type r = Some (sel_value r).
Proof.
  intros [Hl Hp] Hm Hr. revert d. induction Hp as [|x l Hx Hp IH]; intros d; [by apply elem_of_nil in Hr|].
  inversion Hl as [|? ? [Ho Hres] Hl']; subst. inversion Hm as [|? ? Hmx Hm']; subst.
  apply elem_of_cons in Hr as [-> | Hr]; simpl; [|by apply IH].
  pose proof Ho as (_ & _ & Hv & Hsel). eapply select_all_keeps; [done|done| |exact Hv|done|].
  - apply Forall_forall. intros y Hy. rewrite Forall_forall in Hx, Hm'. apply Hx; [done|]. symmetry. by apply Hm'.
  - apply select_gets; auto.
Qed.

Lemma n_eqb_finite x : n_isFinite x = true -> n_eqb x x = true.
Proof.
  unfold n_eqb, SpecFloat.SFeqb, SpecFloat.SFcompare. destruct x as [|s| |s m e]; try done. intros _.
  rewrite Z.compare_refl, Pos.compare_refl. by destruct s.
Qed.

(** Choosing a whole source: when the values the source offers are proper numbers
    where numbers are expected, applying the effective selections of its column makes
    every one of them show as picked, whatever was picked before. *)
Theorem ratio_select_all_picked res sels r :
  Forall offered sels -> r ∈ getEffectiveResolutionSelections D sels ->
  isSelectedResolutionValue
    (applyResolutionSelections res D (getEffectiveResolutionSelections D sels))
    (sel_model r) (sel_type r) (Some (sel_value r)) = true.
Proof.
  intros Hsels Hr. pose proof (effective_spec sels Hsels) as [Hl Hp].
  set (eff := getEffectiveResolutionSelections D sels) in *. pose proof Hl as Hl'.
  rewrite Forall_forall in Hl'. destruct (Hl' r Hr) as [(Hs & _ & Hv & Hsel) _].
  unfold isSelectedResolutionValue. rewrite Hsel. cbn [negb]. rewrite apply_lookup.
  assert (r ∈ bfilter (of_model (sel_model r)) eff) as Hin
    by (apply elem_of_bfilter; split; [done|apply jeqb_refl]).
  assert (effective_ok (bfilter (of_model (sel_model r)) eff)) as Hok
    by (split; [by apply Forall_bfilter|by apply beside_filter]).
  destruct (bfilter (of_model (sel_model r)) eff) as [|x l] eqn:E; [by apply elem_of_nil in Hin|].
  rewrite <- E in *. cbn [mbind option_bind]. rewrite (select_all_gets _ _ (sel_model r) r Hok); [| |done].
  - pose proof (source_ok _ _ _ Hv Hsel) as Hc. unfold comparable in Hc. case_bool_decide; [|done].
    rewrite Hc. simpl. by apply n_eqb_finite.
  - apply Forall_forall. intros y Hy. apply elem_of_bfilter in Hy as [_ Hy]. by apply jeqb_eq.
Qed.
End bulk.

(** A source that offers a ratio for one model and a tiered price for another. *)
Definition ex_entry (src : jstr) (v : ratio_value) : RatioDifferenceEntry :=
  {| current := None; upstreams := {[src := Some v]}; confidence := ∅ |}.
Definition ex_src : jstr := js "up".
Definition ex_diffs : Differences :=
  <[js "m1" := [(js "model_ratio", ex_entry ex_src (RNum (num_of_Z 2)));
                (MODEL_PRICE, ex_entry ex_src (RNum (num_of_Z 3)))]]>
  {[js "m2" := [(js "model_ratio", ex_entry ex_src (RNum (num_of_Z 4)));
                (BILLING_EXPR, ex_entry ex_src (RStr (js "p * 1")))]]}.
Definition ex_selection (m f : jstr) (v : ratio_value) : ResolutionSelection :=
  {| sel_model := m; sel_type := f; sel_value := v; sel_source := ex_src |}.
Definition ex_selections : list ResolutionSelection :=
  [ex_selection (js "m1") (js "model_ratio") (RNum (num_of_Z 2));
   ex_selection (js "m1") MODEL_PRICE (RNum (num_of_Z 3));
   ex_selection (js "m2") (js "model_ratio") (RNum (num_of_Z 4))].

Lemma ex_source_ok m f v :
  upstream_value (model_fields ex_diffs m) f ex_src = Some v -> isSelectableUpstreamValue (Some v) = true ->
  comparable f v = true.
Proof.
  unfold upstream_value, model_fields, ex_diffs.
  destruct (decide (m = js "m1")) as [->|H1].
  { rewrite lookup_insert_eq. cbn [default prop_get from_option id].
    destruct (f =s js "model_ratio") eqn:E1; [apply jeqb_eq in E1 as ->; by intros [= <-]|].
    destruct (f =s MODEL_PRICE) eqn:E2; [apply jeqb_eq in E2 as ->; by intros [= <-]|done]. }
  rewrite lookup_insert_ne by done. destruct (decide (m = js "m2")) as [->|H2].
  - rewrite lookup_singleton_eq. cbn [default prop_get from_option id].
    destruct (f =s js "model_ratio") eqn:E1; [apply jeqb_eq in E1 as ->; by intros [= <-]|].
    destruct (f =s BILLING_EXPR) eqn:E2; [apply jeqb_eq in E2 as ->; by intros [= <-]|done].
  - rewrite lookup_singleton_ne by done. done.
Qed.

Lemma ratio_select_all_picked_witness :
  isSelectedResolutionValue
    (applyResolutionSelections ∅ ex_diffs (getEffectiveResolutionSelections ex_diffs ex_selections))
    (js "m2") BILLING_EXPR (Some (RStr (js "p * 1"))) = true.
Proof.
  apply (ratio_select_all_picked ex_diffs ex_src ex_source_ok ∅ ex_selections
           (ex_selection (js "m2") BILLING_EXPR (RStr (js "p * 1")))).
  - repeat (apply Forall_cons; split; [split; [done|]; split; [decided|]; by split|]). constructor.
  - vm_compute. right. left.
Defined.

(** ** Reachable states *)

(** A resolution has known fields, at least one, not a fixed price next to a ratio, and
    a price expression only with a billing mode. *)
Definition resolution_ok (D : option ratio_types) (d : Resolution) : Prop :=
  d <> ∅ /\ (forall f, is_Some (d !! f) -> f ∈ SYNC_FIELD_ORDER) /\
  (forall f, is_Some (d !! MODEL_PRICE) -> is_Some (d !! f) -> getBillingCategory f <> CRatio) /\
  (is_Some D -> is_Some (d !! BILLING_EXPR) -> is_Some (d !! BILLING_MODE)).

(** The same without asking for a field. *)
Definition draft_ok (D : option ratio_types) (d : Resolution) : Prop := d = ∅ \/ resolution_ok D d.

Definition sync_ok (s : SyncState) : Prop :=
  map_Forall (fun m d => resolution_ok (differences s !! m) d) (resolutions s).

Lemma resolved_known D s :
  sel_type s ∈ SYNC_FIELD_ORDER -> sel_type (resolveResolutionSelection D s) ∈ SYNC_FIELD_ORDER.
Proof.
  intros H. simpl. unfold getPreferredSyncField. destruct (_ && _); [|done].
  decided.
Qed.

Lemma lookup_insert_is_Some_any (d : Resolution) k v f : is_Some (d !! f) -> is_Some (<[k := v]> d !! f).
Proof. intros H. apply lookup_insert_is_Some'. by right. Qed.

(** A tiered selection always leaves a billing mode. *)
Lemma add_tiered_mode diffs ft src d :
  ft = BILLING_EXPR \/ is_Some (d !! BILLING_MODE) -> is_Some (add_tiered diffs ft src d !! BILLING_MODE).
Proof.
  intros H. assert (is_Some (add_mode diffs ft src d !! BILLING_MODE)) as H1.
  { unfold add_mode. destruct H as [-> | H]; rewrite ?jeqb_refl; cases;
      first [done | by rewrite lookup_insert_eq | by apply lookup_insert_is_Some_any]. }
  unfold add_tiered, add_expr. cases; [by apply lookup_insert_is_Some_any|done..].
Qed.

Lemma filter_compatible_Some (c : Category) (d : Resolution) (f : jstr) :
  is_Some (filter (fun p : jstr * ratio_value => compatible c p.1 = true) d !! f) <->
  is_Some (d !! f) /\ compatible c f = true.
Proof.
  split.
  - intros [v H]. apply map_lookup_filter_Some in H as [H1 H2]. split; [by eexists|done].
  - intros [[v H1] H2]. exists v. by apply map_lookup_filter_Some.
Qed.

Lemma tiered_compatible c f : getBillingCategory f = CTiered -> compatible c f = true.
Proof. intros H. unfold compatible. rewrite H. by destruct c. Qed.

Lemma compatible_refl f : compatible (getBillingCategory f) f = true.
Proof. unfold compatible. by destruct (getBillingCategory f). Qed.

Lemma select_field_mode D s d :
  is_Some (D !! sel_model s) -> (is_Some (d !! BILLING_EXPR) -> is_Some (d !! BILLING_MODE)) ->
  is_Some (select_field D s d !! BILLING_EXPR) -> is_Some (select_field D s d !! BILLING_MODE).
Proof.
  intros [diffs HD] Hd. unfold select_field. rewrite HD. set (r := resolveResolutionSelection D s).
  case_bool_decide as Hc.
  - intros _. apply add_tiered_mode. apply category_tiered in Hc as [-> | ->]; [right|by left].
    by rewrite lookup_insert_eq.
  - intros He. apply lookup_insert_is_Some' in He as [He | He]; [by rewrite He in Hc|].
    apply filter_compatible_Some in He as [He _]. apply lookup_insert_is_Some_any, filter_compatible_Some.
    split; [by apply Hd|]. by apply tiered_compatible.
Qed.

Lemma draft_ok_parts D d :
  draft_ok D d -> (forall f, is_Some (d !! f) -> f ∈ SYNC_FIELD_ORDER) /\
  (forall f, is_Some (d !! MODEL_PRICE) -> is_Some (d !! f) -> getBillingCategory f <> CRatio) /\
  (is_Some D -> is_Some (d !! BILLING_EXPR) -> is_Some (d !! BILLING_MODE)).
Proof.
  intros [-> | (_ & H)]; [|done]. split; [|split]; intros; rewrite lookup_empty in *; by destruct_and?; try destruct H; try destruct H0.
Qed.

Lemma select_field_ok D s d :
  sel_type s ∈ SYNC_FIELD_ORDER -> draft_ok (D !! sel_model s) d ->
  resolution_ok (D !! sel_model s) (select_field D s d).
Proof.
  intros Hk Hd. apply draft_ok_parts in Hd as (Hf & Hp & Hm). split; [apply select_field_not_empty|].
  set (r := resolveResolutionSelection D s).
  split; [|split].
  - intros f H. apply select_field_dom in H as [-> | [[H _] | H]]; [by apply resolved_known|by apply Hf|].
    apply category_tiered in H as [-> | ->]; decided.
  - intros f H1 H2 Hc. apply select_field_dom in H1, H2. fold r in H1, H2.
    assert (forall g, getBillingCategory g <> CTiered ->
              g = sel_type r \/ is_Some (d !! g) /\ compatible (getBillingCategory (sel_type r)) g = true \/
              getBillingCategory g = CTiered ->
              compatible (getBillingCategory (sel_type r)) g = true /\ (sel_type r = g \/ is_Some (d !! g))) as Hg.
    { intros g Hn [E | [[? ?] | ?]]; [|by auto|done]. rewrite <- E. split; [apply compatible_refl|by left]. }
    apply Hg in H1 as [C1 H1']; [|done]. apply Hg in H2 as [C2 H2']; [|by rewrite Hc].
    unfold compatible in C1, C2. rewrite Hc in C2. change (getBillingCategory MODEL_PRICE) with CPrice in C1.
    destruct (getBillingCategory (sel_type r)) eqn:Er; try done.
    destruct H1' as [E|H1']; [by rewrite E in Er|]. destruct H2' as [E|H2']; [by rewrite E, Hc in Er|].
    by apply (Hp f).
  - intros HD. by apply select_field_mode, Hm.
Qed.

(** ** Removals *)

(** Removing [g] removes [f]: the same field, or both of a tiered price. *)
Definition unpicks (g f : jstr) : bool :=
  (g =s f) || bool_decide (getBillingCategory g = CTiered) && bool_decide (getBillingCategory f = CTiered).

Lemma remove_field_lookup d g f :
  remove_field d g !! f = if unpicks g f then None else d !! f.
Proof.
  assert (BILLING_MODE <> BILLING_EXPR) as Hne by done.
  pose proof (proj2 (jeqb_neq _ _) Hne) as F1. pose proof (proj2 (jeqb_neq _ _) (not_eq_sym Hne)) as F2.
  destruct (unpicks g f) eqn:E; unfold unpicks in E.
  - apply orb_true_iff in E as [E|E].
    + apply jeqb_eq in E as ->. unfold remove_field. destruct (f =s BILLING_EXPR), (f =s BILLING_MODE);
        by rewrite ?lookup_delete_None, ?lookup_delete_eq; auto.
    + bsplit. rewrite !bool_decide_eq_true, !category_tiered in *.
      destruct H as [-> | ->], H0 as [-> | ->]; unfold remove_field; rewrite ?jeqb_refl, ?F1, ?F2;
        rewrite !lookup_delete_None; auto.
  - bsplit. rewrite jeqb_neq in H. rewrite andb_false_iff, !bool_decide_eq_false, !category_tiered in H0.
    unfold remove_field. destruct (decide (g = BILLING_EXPR)) as [->|N1];
      [|destruct (decide (g = BILLING_MODE)) as [->|N2]].
    + rewrite jeqb_refl, F2, !lookup_delete_ne; [done|tauto|intros <-; tauto].
    + rewrite jeqb_refl, F1, !lookup_delete_ne; [done|tauto|intros <-; tauto].
    + rewrite !(proj2 (jeqb_neq _ _)), lookup_delete_ne by done. done.
Qed.

Lemma remove_fields_lookup l d f :
  foldl remove_field d l !! f = if existsb (fun g => unpicks g f) l then None else d !! f.
Proof.
  revert d. induction l as [|g l IH]; intros d; [done|]. simpl. rewrite IH, remove_field_lookup.
  destruct (unpicks g f), (existsb _ l); done.
Qed.

Lemma plan_lookup removals m g :
  g ∈ default ∅ (foldl add_removal ∅ removals !! m) <->
  exists r, r ∈ removals /\ rem_model r = m /\ rem_type r = g.
Proof.
  induction removals as [|r l IH] using rev_ind.
  { simpl. rewrite lookup_empty. simpl. setoid_rewrite elem_of_nil. set_solver. }
  rewrite foldl_app. simpl. unfold add_removal at 1. setoid_rewrite elem_of_app.
  setoid_rewrite list_elem_of_singleton. destruct (decide (rem_model r = m)) as [<-|Hne].
  - rewrite lookup_insert_eq. simpl. rewrite elem_of_union, elem_of_singleton, IH. naive_solver.
  - rewrite lookup_insert_ne by done. rewrite IH. naive_solver.
Qed.

(** Undoing choices: exactly the named fields of the named models go, the two fields
    of a tiered price together, and every other choice stays; a model whose last field
    goes is dropped. *)
Theorem ratio_removal_spec res removals m f :
  (applyResolutionRemovals res removals !! m ≫= lookup f) =
    (if existsb (fun r => (rem_model r =s m) && unpicks (rem_type r) f) removals then None
     else res !! m ≫= lookup f) /\
  (res !! m <> Some ∅ -> applyResolutionRemovals res removals !! m <> Some ∅).
Proof.
  unfold applyResolutionRemovals. destruct removals as [|r0 l0]; [done|].
  remember (r0 :: l0) as removals eqn:Hne. clear Hne. unfold applyResolutionRemovalPlan. rewrite lookup_merge.
  pose proof (plan_lookup removals m) as Hplan. set (plan := foldl add_removal ∅ removals) in *.
  assert (forall rts, plan !! m = Some rts ->
     existsb (fun g => unpicks g f) (elements rts) =
     existsb (fun r => (rem_model r =s m) && unpicks (rem_type r) f) removals) as Hex.
  { intros rts E. rewrite E in Hplan. cbn [default from_option id] in Hplan. apply Bool.eq_iff_eq_true.
    rewrite !existsb_elem. setoid_rewrite elem_of_elements. setoid_rewrite Hplan.
    setoid_rewrite andb_true_iff. setoid_rewrite jeqb_eq. naive_solver. }
  destruct (plan !! m) as [rts|] eqn:E.
  - rewrite <- (Hex rts eq_refl). destruct (res !! m) as [c|]; simpl; [|split; [by repeat case_match|done]].
    case_bool_decide as Hemp; simpl.
    + rewrite <- remove_fields_lookup, Hemp, lookup_empty. done.
    + rewrite remove_fields_lookup. split; [done|]. congruence.
  - assert (existsb (fun r => (rem_model r =s m) && unpicks (rem_type r) f) removals = false) as ->.
    { apply existsb_none. intros r Hr. destruct (rem_model r =s m) eqn:Em; [|done]. exfalso.
      apply jeqb_eq in Em. assert (rem_type r ∈ (∅ : gset jstr)) as H by (apply Hplan; eauto).
      by apply not_elem_of_empty in H. }
    by destruct (res !! m).
Qed.

(** ** The invariant *)

Lemma select_all_ok D m l d :
  Forall (fun s => sel_model s = m /\ sel_type s ∈ SYNC_FIELD_ORDER) l -> draft_ok (D !! m) d ->
  draft_ok (D !! m) (select_all D d l).
Proof.
  intros Hl. revert d. induction Hl as [|s l [<- Hk] _ IH]; intros d Hd; [done|].
  apply IH. right. by apply select_field_ok.
Qed.

Lemma removal_ok D d l :
  resolution_ok D d -> foldl remove_field d l <> ∅ -> resolution_ok D (foldl remove_field d l).
Proof.
  intros (_ & Hf & Hp & Hm) Hne. split; [done|].
  assert (forall f, is_Some (foldl remove_field d l !! f) ->
            is_Some (d !! f) /\ existsb (fun g => unpicks g f) l = false) as H.
  { intros f. rewrite remove_fields_lookup. destruct (existsb _ l); [by intros []|done]. }
  split; [|split].
  - intros f Hs. by apply Hf, H.
  - intros f H1 H2. apply Hp; by apply H.
  - intros HD He. apply H in He as [He Hx]. specialize (Hm HD He). rewrite remove_fields_lookup.
    replace (existsb (fun g => unpicks g BILLING_MODE) l) with false; [done|]. symmetry.
    apply existsb_none. intros g Hg. rewrite existsb_none in Hx. specialize (Hx g Hg). unfold unpicks in *.
    destruct (decide (getBillingCategory g = CTiered)) as [Hc|Hc].
    + rewrite (bool_decide_true _ Hc), orb_true_r in Hx. done.
    + rewrite (bool_decide_false _ Hc), orb_false_r. apply jeqb_neq. intros ->. by apply Hc.
Qed.

Lemma sync_step_ok e s s' : sync_step e s = Some s' -> sync_ok s -> sync_ok s'.
Proof.
  intros Hs Hok. destruct e as [D|sels|plan]; simpl in Hs.
  - simplify_eq. apply map_Forall_empty.
  - destruct (forallb _ sels) eqn:Hk; simplify_eq. intros m d. simpl. rewrite apply_lookup.
    destruct (bfilter (of_model m) sels) as [|x l] eqn:E; [apply Hok|]. intros [= <-].
    destruct (select_all_ok (differences s) m (x :: l) (default ∅ (resolutions s !! m))) as [H|H]; [| | |exact H].
    + apply Forall_forall. intros y Hy. rewrite <- E in Hy. apply elem_of_bfilter in Hy as [Hy Hm]. split; [by apply jeqb_eq|].
      apply forallb_Forall' in Hk. rewrite Forall_forall in Hk. by apply (bool_decide_eq_true _), Hk.
    + destruct (resolutions s !! m) as [d|] eqn:F; [right; by apply Hok|by left].
    + by apply select_all_not_empty in H.
  - simplify_eq. intros m d. simpl. unfold applyResolutionRemovalPlan. rewrite lookup_merge.
    destruct (plan !! m) as [rts|], (resolutions s !! m) as [c|] eqn:F; simpl; try done.
    + case_bool_decide as Hemp; [done|]. intros [= <-]. apply removal_ok; [by apply Hok|done].
    + intros [= <-]. by apply Hok.
Qed.

Lemma sync_reaches_ok s : reaches sync_machine s -> sync_ok s.
Proof.
  apply reaches_invariant; [intros ? ->; apply map_Forall_empty|]. intros e s1 s2. apply sync_step_ok.
Qed.

(** C36. In every reachable state each picked model has at least one field, all of them
    known; a fixed price is never picked next to a ratio of the same model; and a price
    expression never without a billing mode. *)
Theorem ratio_reachable_ok s : reaches sync_machine s -> sync_ok s.
Proof. apply sync_reaches_ok. Qed.

(** ** Writing the settings *)

Definition value_of (st : Settings) (f m : jstr) : option ratio_value :=
  st !! optionKeyBySyncField f ≫= lookup m.

(** The ten options are there. *)
Definition settings_full (st : Settings) : Prop :=
  Forall (fun f => is_Some (st !! optionKeyBySyncField f)) SYNC_FIELD_ORDER.

Definition stored (f : jstr) (v : ratio_value) : ratio_value :=
  if bool_decide (f ∈ NUMERIC_SYNC_FIELDS) then RNum (value_number v) else v.

Lemma option_key_inj f g :
  f ∈ SYNC_FIELD_ORDER -> g ∈ SYNC_FIELD_ORDER -> optionKeyBySyncField f = optionKeyBySyncField g -> f = g.
Proof.
  intros Hf Hg E.
  assert (NoDup (map optionKeyBySyncField SYNC_FIELD_ORDER)) as Hnd
    by (decided).
  apply list_elem_of_lookup in Hf as [i Hi], Hg as [j Hj].
  assert (i = j) as ->; [|congruence].
  eapply (NoDup_lookup _ i j (optionKeyBySyncField f)); [exact Hnd| |]; rewrite list_lookup_fmap, ?Hi, ?Hj; simpl;
    congruence.
Qed.

Lemma drop_model_value m g st f m' :
  f ∈ SYNC_FIELD_ORDER -> g ∈ SYNC_FIELD_ORDER ->
  value_of (drop_model m (optionKeyBySyncField g) st) f m' =
  if bool_decide (m' = m) && bool_decide (f = g) then None else value_of st f m'.
Proof.
  intros Hf Hg. unfold value_of, drop_model. destruct (decide (f = g)) as [->|Hne].
  - rewrite lookup_alter_eq, (bool_decide_true (g = g)), andb_true_r by done.
    destruct (st !! optionKeyBySyncField g) as [o|]; simpl; [|by case_bool_decide].
    case_bool_decide as E; [subst; apply lookup_delete_eq|by rewrite lookup_delete_ne].
  - rewrite (bool_decide_false (f = g)), andb_false_r by done. rewrite lookup_alter_ne; [done|].
    intros E. by apply Hne, option_key_inj.
Qed.

Lemma drop_model_full m k st : settings_full st -> settings_full (drop_model m k st).
Proof.
  intros H. eapply Forall_impl; [exact H|]. intros f Hf. unfold drop_model.
  destruct (decide (k = optionKeyBySyncField f)) as [->|Hne].
  - rewrite lookup_alter_eq. by apply fmap_is_Some.
  - by rewrite lookup_alter_ne.
Qed.

Lemma drop_models_value m gs st f m' :
  f ∈ SYNC_FIELD_ORDER -> Forall (fun g => g ∈ SYNC_FIELD_ORDER) gs ->
  value_of (foldr (drop_model m) st (map optionKeyBySyncField gs)) f m' =
  if bool_decide (m' = m) && bool_decide (f ∈ gs) then None else value_of st f m'.
Proof.
  intros Hf. induction 1 as [|g gs Hg _ IH]; simpl.
  - by rewrite andb_false_r.
  - rewrite drop_model_value, IH by done. repeat case_bool_decide; try done; rewrite elem_of_cons in *; tauto.
Qed.

Lemma drop_models_full m ks st : settings_full st -> settings_full (foldr (drop_model m) st ks).
Proof. intros H. induction ks; simpl; [done|]. by apply drop_model_full. Qed.

Lemma write_all m l st :
  settings_full st -> Forall (fun p => p.1 ∈ SYNC_FIELD_ORDER) l -> NoDup l.*1 ->
  exists st', foldl (write_value m) (Some st) l = Some st' /\ settings_full st' /\
    forall f m', f ∈ SYNC_FIELD_ORDER ->
      value_of st' f m' =
      if bool_decide (m' = m)
      then match (list_to_map l : Resolution) !! f with
           | Some v => Some (stored f v)
           | None => value_of st f m'
           end
      else value_of st f m'.
Proof.
  intros Hst Hl. revert st Hst. induction Hl as [|[g v] l Hg Hl IH]; intros st Hst Hnd.
  { exists st. split; [done|]. split; [done|]. intros f m' _. simpl. by case_bool_decide. }
  cbn [fmap list_fmap] in Hnd. apply NoDup_cons in Hnd as [Hni Hnd].
  pose proof Hst as Hst0. unfold settings_full in Hst0. rewrite Forall_forall in Hst0.
  destruct (Hst0 g Hg) as [o Ho]. cbn [fst] in Ho.
  set (st1 := <[optionKeyBySyncField g := <[m := stored g v]> o]> st).
  destruct (IH st1) as (st' & Hf & Hfull & Hv); [|done|].
  { eapply Forall_impl; [exact Hst|]. intros f Hs. unfold st1. apply lookup_insert_is_Some'. by right. }
  exists st'. split; [|split; [done|]].
  { simpl. unfold mbind, option_bind. rewrite Ho. exact Hf. }
  intros f m' Hk. rewrite Hv by done. clear Hv Hf. cbn [list_to_map foldr].
  assert (value_of st1 f m' = if bool_decide (m' = m) && bool_decide (f = g) then Some (stored g v)
                              else value_of st f m') as ->.
  { unfold value_of, st1. destruct (decide (f = g)) as [->|Hne].
    - rewrite lookup_insert_eq, Ho, (bool_decide_true (g = g)), andb_true_r by done. simpl.
      case_bool_decide as E; [subst; apply lookup_insert_eq|by rewrite lookup_insert_ne].
    - rewrite (bool_decide_false (f = g)), andb_false_r, lookup_insert_ne; [done| |done].
      intros E. by apply Hne, option_key_inj. }
  case_bool_decide as Em; [|done]. cbn [andb]. destruct (decide (f = g)) as [->|Hne].
  - rewrite lookup_insert_eq, (proj1 (not_elem_of_list_to_map l g)) by done. by rewrite bool_decide_true.
  - rewrite lookup_insert_ne, bool_decide_false by done. done.
Qed.

(** The write drops the value of the field for the model: ratios when a price was picked
    and the price when a ratio was. *)
Definition dropped (d : Resolution) (f : jstr) : bool :=
  bool_decide (is_Some (d !! MODEL_PRICE)) && bool_decide (f ∈ RATIO_SYNC_FIELDS) ||
  existsb (fun g => bool_decide (is_Some (d !! g))) RATIO_SYNC_FIELDS && (f =s MODEL_PRICE).

(** The setting of a field after the write, from the one before. *)
Definition synced (d : Resolution) (f : jstr) (old : option ratio_value) : option ratio_value :=
  match d !! f with
  | Some v => Some (stored f v)
  | None => if dropped d f then None else old
  end.

Lemma selected_spec (d : Resolution) f : f ∈ map fst (map_to_list d) <-> is_Some (d !! f).
Proof.
  rewrite elem_of_lmap. split.
  - intros ([g v] & Hin & ->). apply elem_of_map_to_list in Hin. by eexists.
  - intros [v Hv]. exists (f, v). split; [by apply elem_of_map_to_list|done].
Qed.

Lemma sync_model_spec st m d :
  settings_full st -> (forall f, is_Some (d !! f) -> f ∈ SYNC_FIELD_ORDER) ->
  exists st', sync_model (Some st) (m, d) = Some st' /\ settings_full st' /\
    forall f m', f ∈ SYNC_FIELD_ORDER ->
      value_of st' f m' = if bool_decide (m' = m) then synced d f (value_of st f m') else value_of st f m'.
Proof.
  intros Hst Hd. unfold sync_model. unfold mbind at 1, option_bind.
  set (hasPrice := bool_decide (MODEL_PRICE ∈ _)). set (hasRatio := existsb _ _).
  set (st1 := if hasPrice then _ else st). set (st2 := if hasRatio then _ else st1).
  assert (Forall (fun g => g ∈ SYNC_FIELD_ORDER) RATIO_SYNC_FIELDS) as HR by (decided).
  assert (MODEL_PRICE ∈ SYNC_FIELD_ORDER) as HP by (decided).
  assert (settings_full st2) as Hst2.
  { unfold st2, st1. destruct hasPrice, hasRatio; auto using drop_model_full, drop_models_full. }
  destruct (write_all m (map_to_list d) st2) as (st' & Hw & Hfull & Hv); [done| | |].
  { apply Forall_forall. intros [f v] Hin. apply elem_of_map_to_list in Hin. apply Hd. by eexists. }
  { apply NoDup_fst_map_to_list. }
  exists st'. split; [exact Hw|]. split; [done|]. intros f m' Hf. rewrite Hv by done. rewrite list_to_map_to_list.
  assert (value_of st2 f m' = if bool_decide (m' = m) && dropped d f then None else value_of st f m') as ->.
  { assert (hasPrice = bool_decide (is_Some (d !! MODEL_PRICE))) as EP
      by (apply bool_decide_ext, selected_spec).
    assert (hasRatio = existsb (fun g => bool_decide (is_Some (d !! g))) RATIO_SYNC_FIELDS) as ER.
    { apply Bool.eq_iff_eq_true. unfold hasRatio. rewrite !existsb_elem. setoid_rewrite bool_decide_eq_true.
      setoid_rewrite selected_spec. naive_solver. }
    unfold dropped. rewrite <- EP, <- ER. unfold st2, st1, ratio_options.
    destruct hasPrice, hasRatio; rewrite ?drop_model_value, ?drop_models_value by done;
      unfold jeqb; repeat case_bool_decide; done. }
  unfold synced. case_bool_decide; [|done]. by destruct (d !! f).
Qed.

Lemma sync_all l st :
  settings_full st -> NoDup l.*1 ->
  Forall (fun p => forall f, is_Some (p.2 !! f) -> f ∈ SYNC_FIELD_ORDER) l ->
  exists st', foldl sync_model (Some st) l = Some st' /\ settings_full st' /\
    forall f m, f ∈ SYNC_FIELD_ORDER ->
      value_of st' f m = match (list_to_map l : ResolutionsMap) !! m with
                         | Some d => synced d f (value_of st f m)
                         | None => value_of st f m
                         end.
Proof.
  intros Hst Hnd Hl. revert st Hst Hnd. induction Hl as [|[m d] l Hd Hl IH]; intros st Hst Hnd.
  { exists st. done. }
  cbn [fmap list_fmap] in Hnd. apply NoDup_cons in Hnd as [Hni Hnd].
  destruct (sync_model_spec st m d Hst Hd) as (st1 & H1 & Hfull1 & Hv1).
  destruct (IH st1 Hfull1 Hnd) as (st' & H' & Hfull' & Hv'). exists st'.
  split; [cbn [foldl]; by rewrite H1|]. split; [done|]. intros f m' Hf. rewrite Hv', Hv1 by done.
  cbn [list_to_map foldr]. destruct (decide (m' = m)) as [->|Hne].
  - rewrite lookup_insert_eq, (proj1 (not_elem_of_list_to_map l m)) by done. by rewrite bool_decide_true.
  - rewrite lookup_insert_ne, bool_decide_false by done. done.
Qed.

(** C35. Writing the settings from a reachable state does not fail: every picked value is
    stored under its option (as a number where numbers are expected), a picked price
    removes the ratios of the model and a picked ratio its price, everything else stays;
    so a model whose price or ratio was picked does not end up with both.  One of which
    only the billing mode or expression was picked keeps the price and ratios it had. *)
Theorem ratio_sync_written s st :
  reaches sync_machine s -> settings_full st ->
  exists st', performSync (resolutions s) st = Some st' /\
    (forall f m, f ∈ SYNC_FIELD_ORDER ->
       value_of st' f m = match resolutions s !! m with
                          | Some d => synced d f (value_of st f m)
                          | None => value_of st f m
                          end) /\
    (forall m d f g, resolutions s !! m = Some d -> is_Some (d !! g) ->
       getBillingCategory g <> CTiered -> f ∈ RATIO_SYNC_FIELDS ->
       value_of st' MODEL_PRICE m = None \/ value_of st' f m = None).
Proof.
  intros Hs Hst. apply sync_reaches_ok in Hs as Hok.
  destruct (sync_all (map_to_list (resolutions s)) st) as (st' & H & _ & Hv); [done| | |].
  { apply NoDup_fst_map_to_list. }
  { apply Forall_forall. intros [m d] Hin. apply elem_of_map_to_list in Hin. by apply (Hok m d). }
  rewrite list_to_map_to_list in Hv. exists st'. split; [done|]. split; [done|].
  intros m d f g Hd Hg Hc Hf. destruct (Hok m d Hd) as (_ & Hk & Hp & _).
  assert (Forall (fun g => getBillingCategory g = CRatio /\ g ∈ SYNC_FIELD_ORDER) RATIO_SYNC_FIELDS) as HR
    by (decided).
  rewrite Forall_forall in HR. destruct (HR f Hf) as [Hfc Hfk].
  rewrite !Hv, Hd by (done || decided). unfold synced, dropped.
  destruct (d !! MODEL_PRICE) as [v|] eqn:EP.
  - right. destruct (d !! f) eqn:Ef; [exfalso; by apply (Hp f)|]. by rewrite (bool_decide_true _ Hf).
  - left. assert (g ∈ RATIO_SYNC_FIELDS) as Hgr.
    { assert (Forall (fun g => g ∈ RATIO_SYNC_FIELDS \/ g = MODEL_PRICE \/ getBillingCategory g = CTiered)
                SYNC_FIELD_ORDER) as HS by (decided).
      rewrite Forall_forall in HS. destruct (HS g (Hk g Hg)) as [? | [-> | ?]]; [done| |done].
      rewrite EP in Hg. by destruct Hg. }
    assert (existsb (fun g => bool_decide (is_Some (d !! g))) RATIO_SYNC_FIELDS = true) as ->
      by (apply existsb_elem; exists g; split; [done|by apply bool_decide_eq_true]).
    by rewrite orb_true_r.
Qed.

(** A state in which the whole example source was chosen, and settings that have a price
    for its first model. *)
Definition ex_sync : SyncState :=
  default {| differences := ∅; resolutions := ∅ |}
    (exec sync_machine [RFetch ex_diffs; RSelect ex_selections] {| differences := ∅; resolutions := ∅ |}).
Definition ex_settings : Settings :=
  list_to_map (map (fun f => (optionKeyBySyncField f, {[js "m1" := RNum (num_of_Z 9)]})) SYNC_FIELD_ORDER).

Lemma ex_sync_reached : reaches sync_machine ex_sync.
Proof.
  exists {| differences := ∅; resolutions := ∅ |}, [RFetch ex_diffs; RSelect ex_selections].
  split; [done|]. apply exec_runs. vm_compute. reflexivity.
Qed.

Lemma ratio_reachable_ok_witness :
  sync_ok ex_sync /\ (resolutions ex_sync !! js "m1" ≫= lookup MODEL_PRICE) = Some (RNum (num_of_Z 3)).
Proof. split; [exact (ratio_reachable_ok ex_sync ex_sync_reached)|vm_compute; reflexivity]. Defined.

Lemma ex_settings_full : settings_full ex_settings.
Proof. decided. Qed.

Lemma ratio_sync_written_witness :
  exists st', performSync (resolutions ex_sync) ex_settings = Some st' /\
    value_of st' (js "model_ratio") (js "m1") = None /\
    value_of st' MODEL_PRICE (js "m1") = Some (RNum (num_of_Z 3)).
Proof.
  destruct (ratio_sync_written ex_sync ex_settings) as (st' & H & Hv & _).
  - exact ex_sync_reached.
  - exact ex_settings_full.
  - exists st'. split; [exact H|]. rewrite !Hv by (decided).
    split; vm_compute; reflexivity.
Defined.
