(* ===== verification/Redirects.v ===== *)
(** * Redirects

    Where the client sends the browser: [features/auth/lib/auth-redirect.ts] (the target
    after a sign-in, and the language saved with the user) and [lib/legacy-route.ts]
    (addresses of the former console).  URLs are parsed and printed by the browser: its
    URL objects are an interface, [URL_ops], whose documented behaviour is [URL_laws]. *)

From S2P Require Import Prelude JsString JsNumber Json.

(** ** URL objects *)

(** [new URL(input, base)], the components read by the code, and the two updates it
    makes. *)
Class URL_ops (URL : Type) := {
  new_URL : jstr -> option jstr -> option URL;
  protocol : URL -> jstr;
  origin : URL -> jstr;
  pathname : URL -> jstr;
  search : URL -> jstr;
  hash : URL -> jstr;
  searchParams : URL -> list (jstr * jstr);
  append : jstr -> jstr -> URL -> URL;
  set_hash : jstr -> URL -> URL }.

(** [`${u.pathname}${u.search}${u.hash}`] *)
Definition url_path {URL} `{URL_ops URL} (u : URL) : jstr := pathname u ++ search u ++ hash u.

(** A letter, a digit or one of [-_~]: a unit that stays as it is in a path. *)
Definition path_unit (c : N) : bool :=
  (is_digit c || ((97 <=? c) && (c <=? 122)) || ((65 <=? c) && (c <=? 90)) ||
   (c =? 45) || (c =? 95) || (c =? 126))%N.

(** An absolute path of non-empty segments of such units. *)
Definition plain_path (p : jstr) : bool :=
  match p with
  | c :: t => (c =? 47)%N && forallb (fun s => truthy s && forallb path_unit s) (split_on 47 t)
  | [] => false
  end.

Definition allowedRedirectProtocols : list jstr := [js "http:"; js "https:"].
Definition legacyOrigin : jstr := js "https://legacy-route.invalid".

(** The URL came out of [new URL] or an update. *)
Inductive made {URL} `{URL_ops URL} : URL -> Prop :=
  | made_new i b u : new_URL i b = Some u -> made u
  | made_append k v u : made u -> made (append k v u)
  | made_hash h u : made u -> made (set_hash h u).

(** A web address. *)
Definition web {URL} `{URL_ops URL} (u : URL) : Prop := made u /\ protocol u ∈ allowedRedirectProtocols.

Class URL_laws (URL : Type) `{URL_ops URL} := {
  (** The updates change the query and the fragment only. *)
  append_keeps : forall k v u, pathname (append k v u) = pathname u /\
    protocol (append k v u) = protocol u /\ hash (append k v u) = hash u;
  append_params : forall k v u, searchParams (append k v u) = searchParams u ++ [(k, v)];
  set_hash_keeps : forall h u, pathname (set_hash h u) = pathname u /\
    protocol (set_hash h u) = protocol u /\ searchParams (set_hash h u) = searchParams u;
  set_hash_hash : forall u v, made u -> hash (set_hash (hash u) v) = hash u;
  (** A plain path resolves to itself. *)
  plain_url : forall p, plain_path p = true ->
    exists t, new_URL p (Some legacyOrigin) = Some t /\ web t /\ pathname t = p /\ searchParams t = [];
  (** The end of the path of a web address, after a plain path, is kept. *)
  moved_url : forall u a s w p, web u -> pathname u = a ++ js "/" ++ s ++ w ->
    Forall (eq 47%N) w -> plain_path p = true ->
    exists t, new_URL (p ++ js "/" ++ s) (Some legacyOrigin) = Some t /\ web t /\
              pathname t = p ++ js "/" ++ s /\ searchParams t = [];
  (** The path of a web address starts with a slash. *)
  web_path : forall u, web u -> starts_with (js "/") (pathname u) = true;
  (** Path, query and fragment of a web address read back with the same path. *)
  reread_url : forall u, web u -> starts_with (js "//") (pathname u) = false ->
    exists t, new_URL (url_path u) (Some legacyOrigin) = Some t /\ web t /\ pathname t = pathname u }.

(** ** After a sign-in *)

(** [v?.language] when it is a string. *)
Definition language_of (v : jsval) : option jstr :=
  match get (js "language") v with VStr s => Some s | _ => None end.

Definition getSavedLanguage (user : jsval) : option jstr :=
  match language_of user with
  | Some s => Some s
  | None =>
      match get (js "setting") user with
      | VObj o => language_of (VObj o)
      | VStr s => match json_parse s with Some v => language_of v | None => None end
      | _ => None
      end
  end.

Section redirects.
Context {URL : Type} `{URL_ops URL}.

Definition sanitizeAuthRedirect (value : jsval) (origin_text : jstr) : option jstr :=
  match value with
  | VStr v =>
      let target := trim v in
      if negb (truthy target) || includes [92%N] target || starts_with (js "//") target then None
      else
        trustedOrigin ← new_URL origin_text None;
        if negb (bool_decide (protocol trustedOrigin ∈ allowedRedirectProtocols)) then None
        else
          redirectURL ←
            (if starts_with (js "/") target then new_URL target (Some (origin trustedOrigin))
             else new_URL target None);
          if negb (bool_decide (protocol redirectURL ∈ allowedRedirectProtocols)) ||
             negb (origin redirectURL =s origin trustedOrigin)
          then None
          else Some (url_path redirectURL)
  | _ => None
  end.

(** ** Former addresses *)

Definition legacyConsoleRoutes : list (jstr * jstr) :=
  [(js "/console", js "/dashboard");
   (js "/console/models", js "/models");
   (js "/console/deployment", js "/models/deployments");
   (js "/console/subscription", js "/subscriptions");
   (js "/console/channel", js "/channels");
   (js "/console/token", js "/keys");
   (js "/console/playground", js "/playground");
   (js "/console/redemption", js "/redemption-codes");
   (js "/console/user", js "/users");
   (js "/console/personal", js "/profile");
   (js "/console/log", js "/usage-logs");
   (js "/console/midjourney", js "/usage-logs/drawing");
   (js "/console/task", js "/usage-logs/task")].

Definition legacySettingsTabs : list (jstr * jstr) :=
  [(js "operation", js "/system-settings/operations/behavior");
   (js "dashboard", js "/system-settings/content/dashboard");
   (js "chats", js "/system-settings/content/chat");
   (js "drawing", js "/system-settings/content/drawing");
   (js "payment", js "/system-settings/billing/payment");
   (js "ratio", js "/system-settings/billing/model-pricing");
   (js "ratelimit", js "/system-settings/security/rate-limit");
   (js "models", js "/system-settings/models/global");
   (js "model-deployment", js "/system-settings/models/model-deployment");
   (js "performance", js "/system-settings/operations/performance");
   (js "system", js "/system-settings/site/system-info");
   (js "other", js "/system-settings/site/system-info")].

(** [pathname.replace(/\/+$/, '')] unless it is the root *)
Definition strip_slashes (s : jstr) : jstr := rev (snd (span (N.eqb 47) (rev s))).

Definition normalizeLegacyPath (p : jstr) : jstr := if p =s js "/" then p else strip_slashes p.

(** [searchParams.get(key)] *)
Definition param (k : jstr) (u : URL) : option jstr :=
  snd <$> find_first (fun '(k', _) => k' =s k) (searchParams u).

(** The names every plain object inherits, with the text of what is inherited: of a
    function, but for the last one, written as the engine does. *)
Definition OBJECT_PROTOTYPE_NAMES : list jstr :=
  [js "constructor"; js "hasOwnProperty"; js "isPrototypeOf"; js "propertyIsEnumerable"; js "toLocaleString";
   js "toString"; js "valueOf"; js "__defineGetter__"; js "__defineSetter__"; js "__lookupGetter__";
   js "__lookupSetter__"; js "__proto__"].

Variable inherited_text : jstr -> jstr.

(** [record[k]] as a text, [None] for [undefined]. *)
Definition record_text (k : jstr) (record : list (jstr * jstr)) : option jstr :=
  match prop_get k record with
  | Some v => Some v
  | None => if bool_decide (k ∈ OBJECT_PROTOTYPE_NAMES) then Some (inherited_text k) else None
  end.

(** [None] when [new URL] throws. *)
Definition buildTargetHref (targetPath : jstr) (source : URL) : option jstr :=
  target ← new_URL targetPath (Some legacyOrigin);
  let with_params := foldl (fun u '(k, v) => append k v u) target (searchParams source) in
  Some (url_path (set_hash (hash source) with_params)).

(** The new address of a former path, [None] for any other path. *)
Definition legacy_target (p : jstr) (source : URL) : option jstr :=
  if p =s js "/login" then Some (js "/sign-in")
  else if p =s js "/forbidden" then Some (js "/403")
  else if p =s js "/console/topup" then Some (js "/wallet")
  else if p =s js "/console/setting"
  then Some (default (js "/system-settings") (record_text (default [] (param (js "tab") source)) legacySettingsTabs))
  else if p =s js "/console/chat" then Some (js "/dashboard")
  else if starts_with (js "/console/chat/") p
  then
    let chatID := slice_from (length (js "/console/chat/")) p in
    Some (if truthy chatID then js "/chat/" ++ chatID else js "/dashboard")
  else
    match record_text p legacyConsoleRoutes with
    | Some target => Some target
    | None => if starts_with (js "/console/") p then Some (js "/dashboard") else None
    end.

(** [inl tt]: an exception; [inr None]: [null]. *)
Definition resolveLegacyRoute (rawHref : jstr) : unit + option jstr :=
  match new_URL rawHref (Some legacyOrigin) with
  | None => inr None
  | Some source =>
      match legacy_target (normalizeLegacyPath (pathname source)) source with
      | None => inr None
      | Some target =>
          match buildTargetHref target source with Some href => inr (Some href) | None => inl tt end
      end
  end.
End redirects.
