(* ===== verification/RedirectFacts.v ===== *)
(** * Facts about redirects

    A former address is sent to a current one in one step, with its query and fragment;
    the target after a sign-in is on the same origin, with one gap. *)

From S2P Require Import Prelude JsString JsNumber Json Redirects.

(** ** Former addresses *)

(** The paths the client no longer has. *)
Definition is_legacy (p : jstr) : bool :=
  (p =s js "/login") || (p =s js "/forbidden") || (p =s js "/console") || starts_with (js "/console/") p.

Lemma strip_split s : exists w, s = strip_slashes s ++ w /\ Forall (eq 47%N) w.
Proof.
  unfold strip_slashes. pose proof (span_app (N.eqb 47) (rev s)) as H.
  destruct (span (N.eqb 47) (rev s)) as [a b] eqn:E. exists (rev a). split.
  - rewrite <- rev_app_distr. simpl. rewrite <- H. by rewrite rev_involutive.
  - apply Forall_rev. clear H. revert E. generalize (rev s). intros l. revert a b. clear.
    induction l as [|x l IH]; intros a b; cbn [span]; [intros E; simplify_eq; constructor|].
    destruct (47 =? x)%N eqn:Ex; [|intros E; simplify_eq; constructor]. apply N.eqb_eq in Ex.
    destruct (span (N.eqb 47) l) as [a' b']. intros E. simplify_eq. constructor; [done|]. by eapply IH.
Qed.

Lemma normalize_split p : exists w, p = normalizeLegacyPath p ++ w /\ Forall (eq 47%N) w.
Proof.
  unfold normalizeLegacyPath. destruct (p =s js "/"); [|apply strip_split].
  exists []. by rewrite app_nil_r.
Qed.

(** The addresses in the tables. *)
Definition fixed_targets : list jstr :=
  [js "/sign-in"; js "/403"; js "/wallet"; js "/system-settings"; js "/dashboard"] ++
  map snd legacySettingsTabs ++ map snd legacyConsoleRoutes.

Lemma prop_get_snd {A} k (o : list (jstr * A)) v : prop_get k o = Some v -> v ∈ map snd o.
Proof.
  induction o as [|[k' v'] o IH]; simpl; [done|]. destruct (k =s k'); [intros [= ->]; left|].
  intros H. right. by apply IH.
Qed.

Lemma fixed_targets_plain : Forall (fun p => plain_path p = true /\ is_legacy (normalizeLegacyPath p) = false /\
  starts_with (js "//") p = false) fixed_targets.
Proof. decided. Qed.

Lemma legacy_console t : is_legacy (js "/console/" ++ t) = true.
Proof. unfold is_legacy. rewrite starts_with_app. apply orb_true_r. Qed.

(** The tab of the address is no name that objects inherit. *)
Definition own_tab {URL} `{URL_ops URL} (u : URL) : Prop := default [] (param (js "tab") u) ∉ OBJECT_PROTOTYPE_NAMES.

Lemma record_own f k o : k ∉ OBJECT_PROTOTYPE_NAMES -> record_text f k o = prop_get k o.
Proof. intros Hk. unfold record_text. rewrite bool_decide_false by done. by destruct (prop_get k o). Qed.

(** A path is no such name. *)
Lemma path_not_inherited p : starts_with (js "/") p = true -> normalizeLegacyPath p ∉ OBJECT_PROTOTYPE_NAMES.
Proof.
  intros Hs. destruct (normalize_split p) as (w & Hp & _). intros Hin.
  assert (Forall (fun k => match k with c :: _ => (c =? 47)%N = false | [] => False end) OBJECT_PROTOTYPE_NAMES) as HF
    by (repeat constructor).
  rewrite Forall_forall in HF. specialize (HF _ Hin). destruct (normalizeLegacyPath p) as [|c q]; [done|].
  apply starts_with_spec in Hs as [t E]. rewrite E in Hp. injection Hp as <- _. done.
Qed.

Section targets.
Context {URL : Type} `{URL_ops URL} (inherited_text : jstr -> jstr).

(** Only former paths have a target. *)
Lemma legacy_target_legacy p (u : URL) t :
  p ∉ OBJECT_PROTOTYPE_NAMES -> legacy_target inherited_text p u = Some t -> is_legacy p = true.
Proof.
  intros Hp. unfold legacy_target. rewrite (record_own _ p) by done. intros Ht.
  destruct (p =s js "/login") eqn:E1; [by apply jeqb_eq in E1 as ->|].
  destruct (p =s js "/forbidden") eqn:E2; [by apply jeqb_eq in E2 as ->|].
  destruct (p =s js "/console/topup") eqn:E3; [by apply jeqb_eq in E3 as ->|].
  destruct (p =s js "/console/setting") eqn:E4; [by apply jeqb_eq in E4 as ->|].
  destruct (p =s js "/console/chat") eqn:E5; [by apply jeqb_eq in E5 as ->|].
  destruct (starts_with (js "/console/chat/") p) eqn:E6.
  { apply starts_with_spec in E6 as [c ->]. apply (legacy_console (js "chat/" ++ c)). }
  destruct (prop_get p legacyConsoleRoutes) as [v|] eqn:E7.
  - assert (p ∈ map fst legacyConsoleRoutes) as Hin.
    { destruct (decide (p ∈ map fst legacyConsoleRoutes)) as [|Hn]; [done|]. apply prop_get_None_iff in Hn. congruence. }
    assert (Forall (fun q => is_legacy q = true) (map fst legacyConsoleRoutes)) as HF by (decided).
    rewrite Forall_forall in HF. by apply HF.
  - destruct (starts_with (js "/console/") p) eqn:E8; [|done]. apply starts_with_spec in E8 as [c ->]. apply legacy_console.
Qed.

Lemma legacy_target_None p (u : URL) :
  p ∉ OBJECT_PROTOTYPE_NAMES -> legacy_target inherited_text p u = None <-> is_legacy p = false.
Proof.
  intros Hp. split.
  - intros Hn. destruct (is_legacy p) eqn:E; [|done]. exfalso. revert Hn. unfold is_legacy in E. unfold legacy_target.
    repeat case_match; try done. rewrite !orb_true_iff in E. destruct E as [[[E | E] | E] | E]; try congruence.
    apply jeqb_eq in E as ->. done.
  - intros E. destruct (legacy_target inherited_text p u) as [t|] eqn:Et; [|done].
    apply legacy_target_legacy in Et; [congruence|done].
Qed.

(** What an address resolves to: a fixed one or a chat. *)
Lemma legacy_target_cases p (u : URL) t :
  p ∉ OBJECT_PROTOTYPE_NAMES -> own_tab u -> legacy_target inherited_text p u = Some t ->
  t ∈ fixed_targets \/ exists c, c <> [] /\ p = js "/console/chat/" ++ c /\ t = js "/chat/" ++ c.
Proof.
  intros Hp Htab. unfold legacy_target. rewrite !record_own by done. intros Ht.
  destruct (p =s js "/login"); [injection Ht as <-; left; decided|].
  destruct (p =s js "/forbidden"); [injection Ht as <-; left; decided|].
  destruct (p =s js "/console/topup"); [injection Ht as <-; left; decided|].
  destruct (p =s js "/console/setting").
  { left. unfold fixed_targets.
    destruct (prop_get (default [] (param (js "tab") u)) legacySettingsTabs) as [v|] eqn:E; cbn in Ht.
    - injection Ht as ->. apply prop_get_snd in E. rewrite !elem_of_app. auto.
    - injection Ht as <-. decided. }
  destruct (p =s js "/console/chat"); [injection Ht as <-; left; decided|].
  destruct (starts_with (js "/console/chat/") p) eqn:E6.
  { apply starts_with_spec in E6 as [c ->]. unfold slice_from in Ht. rewrite drop_app_length in Ht.
    destruct (truthy c) eqn:Ec; injection Ht as <-.
    - right. exists c. split; [by apply truthy_spec|done].
    - left. decided. }
  destruct (prop_get p legacyConsoleRoutes) as [v|] eqn:E7.
  - injection Ht as <-. left. apply prop_get_snd in E7. unfold fixed_targets. rewrite !elem_of_app. auto.
  - destruct (starts_with (js "/console/") p); [|done]. injection Ht as <-. left. decided.
Qed.

(** A tab with a name that objects inherit is found in the table: the target is made from
    the text of a function. *)
Theorem inherited_tab_text (u : URL) tab :
  tab ∈ OBJECT_PROTOTYPE_NAMES -> param (js "tab") u = Some tab ->
  legacy_target inherited_text (js "/console/setting") u = Some (inherited_text tab).
Proof.
  intros Ht Hp. unfold legacy_target.
  change (js "/console/setting" =s js "/login") with false. change (js "/console/setting" =s js "/forbidden") with false.
  change (js "/console/setting" =s js "/console/topup") with false. change (js "/console/setting" =s js "/console/setting") with true.
  cbv iota. rewrite Hp. cbn [default from_option id]. unfold record_text. rewrite bool_decide_true by done.
  assert (prop_get tab legacySettingsTabs = None) as ->; [|done]. apply prop_get_None_iff. intros Hin.
  assert (Forall (fun k => k ∉ OBJECT_PROTOTYPE_NAMES) (map fst legacySettingsTabs)) as HF by (decided).
  rewrite Forall_forall in HF. by apply (HF tab).
Qed.
End targets.

(** A chat is not a former address. *)
Lemma chat_not_legacy c : is_legacy (normalizeLegacyPath (js "/chat/" ++ c)) = false.
Proof.
  destruct (normalize_split (js "/chat/" ++ c)) as (w & Hw & _).
  destruct (is_legacy _) eqn:E; [|done]. exfalso. unfold is_legacy in E. rewrite !orb_true_iff, !jeqb_eq in E.
  destruct E as [[[E | E] | E] | E]; [rewrite E in Hw; discriminate..|].
  apply starts_with_spec in E as [t E]. rewrite E in Hw. discriminate.
Qed.

Section laws.
Context {URL : Type} `{URL_laws URL} (inherited_text : jstr -> jstr).

Lemma append_all u l :
  let u' := foldl (fun u '(k, v) => append k v u) u l in
  pathname u' = pathname u /\ protocol u' = protocol u /\ searchParams u' = searchParams u ++ l /\
  (made u -> made u').
Proof.
  revert u. induction l as [|[k v] l IH]; intros u; simpl; [by rewrite app_nil_r|].
  destruct (IH (append k v u)) as (-> & -> & -> & Hm). destruct (append_keeps k v u) as (-> & -> & _).
  rewrite append_params, <- app_assoc. repeat split. intros Hu. by apply Hm, made_append.
Qed.

Lemma build_spec t target source :
  new_URL t (Some legacyOrigin) = Some target -> web target -> pathname target = t -> searchParams target = [] ->
  made source ->
  exists f, buildTargetHref t source = Some (url_path f) /\ web f /\ pathname f = t /\
    searchParams f = searchParams source /\ hash f = hash source.
Proof.
  intros Hn [Hm Hp] Ht Hs Hsrc. unfold buildTargetHref. rewrite Hn. cbn [mbind option_bind].
  destruct (append_all target (searchParams source)) as (A1 & A2 & A3 & A4).
  set (f := foldl _ target (searchParams source)) in *. exists (set_hash (hash source) f).
  destruct (set_hash_keeps (hash source) f) as (B1 & B2 & B3).
  split; [done|]. split; [split; [by apply made_hash, A4|by rewrite B2, A2]|].
  split; [congruence|]. split; [by rewrite B3, A3, Hs|]. by apply set_hash_hash.
Qed.

Lemma resolve_current u :
  web u -> starts_with (js "//") (pathname u) = false -> is_legacy (normalizeLegacyPath (pathname u)) = false ->
  resolveLegacyRoute inherited_text (url_path u) = inr None.
Proof.
  intros Hw Hs Hl. destruct (reread_url u Hw Hs) as (t & Ht & Hwt & Hp). unfold resolveLegacyRoute.
  rewrite Ht, (proj2 (legacy_target_None _ _ t (path_not_inherited _ (web_path t Hwt)))); [done|]. by rewrite Hp.
Qed.

(** C37. Former addresses move in one step: a web address of the former client whose tab,
    if it has one, is no name that every object inherits, resolves with its query and
    fragment to an address that is not a former one, so following it does not redirect
    again; a web address that is not a former one is left alone. *)
Theorem legacy_one_step h u :
  new_URL h (Some legacyOrigin) = Some u -> web u -> own_tab u ->
  if is_legacy (normalizeLegacyPath (pathname u)) then
    exists t, resolveLegacyRoute inherited_text h = inr (Some (url_path t)) /\
      searchParams t = searchParams u /\ hash t = hash u /\
      is_legacy (normalizeLegacyPath (pathname t)) = false /\
      resolveLegacyRoute inherited_text (url_path t) = inr None
  else resolveLegacyRoute inherited_text h = inr None.
Proof.
  intros Hu Hw Htab. unfold resolveLegacyRoute at 1 3. rewrite Hu. set (p := normalizeLegacyPath (pathname u)).
  pose proof (path_not_inherited _ (web_path u Hw)) as Hpn. fold p in Hpn.
  destruct (legacy_target inherited_text p u) as [t|] eqn:Et.
  2:{ apply legacy_target_None in Et; [|done]. by rewrite Et. }
  rewrite (legacy_target_legacy _ p u t Hpn Et). apply legacy_target_cases in Et as Ht; [|done|done].
  assert (exists target, new_URL t (Some legacyOrigin) = Some target /\ web target /\ pathname target = t /\
            searchParams target = [] /\ is_legacy (normalizeLegacyPath t) = false /\
            starts_with (js "//") t = false) as (target & H1 & H2 & H3 & H4 & H5 & H6).
  { destruct Ht as [Hin | (c & _ & Hp & ->)].
    - pose proof fixed_targets_plain as HF. rewrite Forall_forall in HF. destruct (HF t Hin) as (P1 & P2 & P3).
      destruct (plain_url t P1) as (target & ? & ? & ? & ?). exists target. done.
    - destruct (normalize_split (pathname u)) as (w & Hpath & Hsl). fold p in Hpath. rewrite Hp in Hpath.
      destruct (moved_url u (js "/console/chat") c w (js "/chat") Hw) as (target & ? & ? & ? & ?);
        [exact Hpath|done|reflexivity|]. exists target. repeat (split; [done|]). split; [apply chat_not_legacy|done]. }
  destruct (build_spec t target u H1 H2 H3 H4 (proj1 Hw)) as (f & B1 & B2 & B3 & B4 & B5).
  exists f. rewrite B1. repeat (split; [done|]). split; [by rewrite B3|]. apply resolve_current; by rewrite ?B3.
Qed.

(** ** After a sign-in *)

Lemma sanitize_sound v o r :
  sanitizeAuthRedirect (VStr v) o = Some r ->
  exists base u, new_URL o None = Some base /\ made u /\ r = url_path u /\ origin u = origin base /\
    protocol base ∈ allowedRedirectProtocols /\ protocol u ∈ allowedRedirectProtocols.
Proof.
  unfold sanitizeAuthRedirect. destruct (_ || _); [done|].
  destruct (new_URL o None) as [base|]; [|done]. cbn [mbind option_bind].
  case_bool_decide as Hb; cbn [negb]; [|done].
  destruct (if starts_with (js "/") (trim v) then _ else _) as [u|] eqn:E; [|done]. cbn [mbind option_bind].
  case_bool_decide as Hp; cbn [negb orb]; [|done]. destruct (origin u =s origin base) eqn:Eo; cbn [negb]; [|done].
  intros [= <-]. exists base, u. split; [done|]. apply jeqb_eq in Eo.
  split; [destruct (starts_with _ _); by eapply made_new|]. done.
Qed.

(** The target after a sign-in is the path, query and fragment of an address on the
    trusted origin; but the path itself is not checked: the origin followed by a path
    that starts with two slashes is accepted and answered as that path, which the
    function refuses when it is given it, as it names another host. *)
Theorem redirect_double_slash o p base u :
  new_URL o None = Some base -> protocol base ∈ allowedRedirectProtocols -> origin base = o ->
  new_URL (o ++ p) None = Some u -> protocol u ∈ allowedRedirectProtocols -> origin u = o -> url_path u = p ->
  trimmed (o ++ p) -> 92%N ∉ o ++ p -> starts_with (js "/") o = false -> o <> [] ->
  starts_with (js "//") p = true ->
  sanitizeAuthRedirect (VStr (o ++ p)) o = Some p /\ sanitizeAuthRedirect (VStr p) o = None.
Proof.
  intros Hb Hbp Hbo Hu Hup Huo Hpath Ht Hbs Hs Hne Hp. unfold sanitizeAuthRedirect. split.
  - rewrite (trim_id _ Ht).
    assert (starts_with (js "//") (o ++ p) = false) as ->.
    { destruct (starts_with (js "//") (o ++ p)) eqn:E; [|done]. apply starts_with_spec in E as [t E].
      destruct o as [|c o]; [done|]. injection E as -> _. done. }
    assert (starts_with (js "/") (o ++ p) = false) as -> by (destruct o as [|c o]; [done|]; exact Hs).
    rewrite (proj2 (truthy_spec (o ++ p))) by (by destruct o).
    assert (includes [92%N] (o ++ p) = false) as ->.
    { destruct (includes [92%N] (o ++ p)) eqn:E; [|done]. apply includes_spec in E as (a & b & E). exfalso.
      apply Hbs. rewrite E, !elem_of_app. right. left. left. }
    cbn [negb orb]. rewrite Hb. cbn [mbind option_bind]. rewrite (bool_decide_true _ Hbp), Hu. cbn [negb].
    cbn [mbind option_bind]. rewrite (bool_decide_true _ Hup), Huo, Hbo, jeqb_refl. cbn. by rewrite Hpath.
  - assert (trim p = p) as ->.
    { apply trim_id. destruct Ht as [_ Ht]. apply starts_with_spec in Hp as [t ->]. split; [done|].
      rewrite !rev_app_distr in Ht. rewrite rev_app_distr. by destruct (rev t). }
    rewrite Hp, orb_true_r. done.
Qed.
End laws.

(** ** An implementation of the interface

    Secure web addresses, and paths relative to an origin; the query is written in a
    form of its own, which is all the laws ask for. *)

Record simple_url := {
  u_origin : jstr; u_path : jstr; u_params : list (jstr * jstr); u_hash : jstr }.

Definition encode_param (s : jstr) : jstr := concat (map (fun c => show_N c ++ js ".") s).
Definition simple_search (l : list (jstr * jstr)) : jstr :=
  match l with
  | [] => []
  | _ => js "?" ++ concat (map (fun '(k, v) => encode_param k ++ js "=" ++ encode_param v ++ js "&") l)
  end.

Definition not_unit (c x : N) : bool := negb (x =? c)%N.

(** What follows the host. *)
Definition simple_tail (o t : jstr) : simple_url :=
  let '(pq, h) := span (not_unit 35) t in
  let '(p, q) := span (not_unit 63) pq in
  {| u_origin := o; u_path := if starts_with (js "/") p then p else js "/" ++ p;
     u_params := if truthy q then [(js "q", drop 1 q)] else []; u_hash := h |}.

Definition simple_absolute (t : jstr) : simple_url :=
  let '(host, tail) := span (not_unit 47) t in simple_tail (js "https://" ++ host) tail.

Definition simple_new (i : jstr) (b : option jstr) : option simple_url :=
  if starts_with (js "https://") i then Some (simple_absolute (drop 8 i))
  else
    o ← b;
    if starts_with (js "//") i then Some (simple_absolute (drop 2 i))
    else if starts_with (js "/") i then Some (simple_tail o i) else None.

#[export] Instance simple_ops : URL_ops simple_url := {
  new_URL := simple_new;
  protocol _ := js "https:";
  origin := u_origin;
  pathname := u_path;
  search u := simple_search (u_params u);
  hash := u_hash;
  searchParams := u_params;
  append k v u := {| u_origin := u_origin u; u_path := u_path u; u_params := u_params u ++ [(k, v)];
                     u_hash := u_hash u |};
  set_hash h u := {| u_origin := u_origin u; u_path := u_path u; u_params := u_params u;
                     u_hash := if truthy h && negb (starts_with (js "#") h) then js "#" ++ h else h |} }.

(** What holds of every address the implementation makes. *)
Definition simple_ok (u : simple_url) : Prop :=
  starts_with (js "/") (u_path u) = true /\ Forall (fun c => c <> 35%N /\ c <> 63%N) (u_path u) /\
  (u_hash u = [] \/ starts_with (js "#") (u_hash u) = true).

Lemma span_spec (p : N -> bool) l :
  Forall (fun x => p x = true) (fst (span p l)) /\
  match snd (span p l) with [] => True | x :: _ => p x = false end.
Proof.
  induction l as [|x l [IH1 IH2]]; cbn [span]; [by split|]. destruct (p x) eqn:E; [|by split].
  destruct (span p l) as [a b]. simpl in *. split; [by constructor|done].
Qed.

Lemma simple_tail_ok o t : simple_ok (simple_tail o t).
Proof.
  unfold simple_tail, simple_ok. destruct (span_spec (not_unit 35) t) as [H1 H2].
  destruct (span (not_unit 35) t) as [pq h]. simpl in H1, H2.
  destruct (span_spec (not_unit 63) pq) as [H3 _]. pose proof (span_app (not_unit 63) pq) as Happ.
  destruct (span (not_unit 63) pq) as [p q]. cbn [fst snd u_path u_hash] in *. subst pq. apply Forall_app in H1 as [H1 _].
  assert (Forall (fun c => c <> 35%N /\ c <> 63%N) p) as Hp.
  { clear -H1 H3. induction H1 as [|c p Hc _ IH]; [constructor|]. inversion H3; subst. constructor; [|by apply IH].
    unfold not_unit in *. lia. }
  split; [|split].
  - destruct (starts_with (js "/") p) eqn:E; [done|reflexivity].
  - destruct (starts_with (js "/") p); [done|]. by constructor.
  - destruct h as [|c h]; [by left|]. right. unfold not_unit in H2. apply negb_false_iff, N.eqb_eq in H2 as ->. reflexivity.
Qed.

Lemma simple_made u : made u -> simple_ok u.
Proof.
  induction 1 as [i b u Hn|k v u _ IH|h u _ IH]; [|exact IH|].
  - cbn [new_URL simple_ops] in Hn. unfold simple_new, simple_absolute in Hn. destruct (starts_with (js "https://") i).
    { destruct (span _ (drop 8 i)). simplify_eq. apply simple_tail_ok. }
    destruct b as [o|]; cbn [mbind option_bind] in Hn; [|done]. destruct (starts_with (js "//") i).
    { destruct (span _ (drop 2 i)). simplify_eq. apply simple_tail_ok. }
    destruct (starts_with (js "/") i); simplify_eq. apply simple_tail_ok.
  - destruct IH as (I1 & I2 & _). split; [done|]. split; [done|]. cbn [u_hash set_hash simple_ops].
    destruct h as [|c h]; [by left|]. right. cbn [truthy]. destruct (starts_with (js "#") (c :: h)) eqn:E; [done|reflexivity].
Qed.

(** Reading a path that has neither query nor fragment in it, and what follows. *)
Lemma simple_read p q h o :
  starts_with (js "/") p = true -> starts_with (js "//") p = false ->
  Forall (fun c => c <> 35%N /\ c <> 63%N) p ->
  q = [] \/ (exists t, q = 63%N :: t /\ 35%N ∉ t) -> h = [] \/ starts_with (js "#") h = true ->
  simple_new (p ++ q ++ h) (Some o) =
  Some {| u_origin := o; u_path := p; u_params := if truthy q then [(js "q", drop 1 q)] else []; u_hash := h |}.
Proof.
  intros H1 H2 Hp Hq Hh. unfold simple_new. pose proof H1 as H1'. apply starts_with_spec in H1' as [t ->].
  change (starts_with (js "https://") ((js "/" ++ t) ++ q ++ h)) with false. cbn [mbind option_bind].
  assert (starts_with (js "//") ((js "/" ++ t) ++ q ++ h) = false) as ->.
  { destruct t as [|c t]; [|exact H2]. destruct Hq as [-> | (t' & -> & _)]; [|reflexivity].
    destruct Hh as [-> | Hh]; [reflexivity|]. apply starts_with_spec in Hh as [t' ->]. reflexivity. }
  change (starts_with (js "/") ((js "/" ++ t) ++ q ++ h)) with true. cbn iota. f_equal. unfold simple_tail.
  remember (js "/" ++ t) as p eqn:Ep.
  rewrite app_assoc, span_exact.
  - rewrite span_exact, H1; [done| |].
    + eapply Forall_impl; [exact Hp|]. intros c [_ Hc]. unfold not_unit. lia.
    + destruct Hq as [-> | (t' & -> & _)]; [done|reflexivity].
  - apply Forall_app. split; [eapply Forall_impl; [exact Hp|]; intros c [Hc _]; unfold not_unit; lia|].
    destruct Hq as [-> | (t' & -> & Ht)]; [constructor|]. constructor; [reflexivity|]. apply Forall_forall.
    intros c Hc. unfold not_unit. apply negb_true_iff, N.eqb_neq. by intros ->.
  - destruct Hh as [-> | Hh]; [done|]. apply starts_with_spec in Hh as [t' ->]. reflexivity.
Qed.

(** The query the implementation writes has no fragment in it. *)
Lemma simple_search_shape l :
  simple_search l = [] \/ exists t, simple_search l = 63%N :: t /\ 35%N ∉ t.
Proof.
  destruct l as [|x l]; [by left|]. right. eexists. split; [reflexivity|]. generalize (x :: l). clear.
  assert (forall s, 35%N ∉ encode_param s) as He.
  { intros s. unfold encode_param. induction s as [|c s IH]; [apply not_elem_of_nil|]. cbn [map concat].
    rewrite !not_elem_of_app. split; [split; [|decided]|exact IH]. intros Hin.
    pose proof (show_N_digits c) as Hd. rewrite Forall_forall in Hd. apply Hd in Hin. discriminate. }
  intros l. induction l as [|[k v] l IH]; [apply not_elem_of_nil|]. cbn [map concat].
  rewrite !not_elem_of_app. repeat split; try decided; try apply He. exact IH.
Qed.

Lemma not_double_slash c t : c <> 47%N -> starts_with (js "//") (47%N :: c :: t) = false.
Proof.
  intros Hc. destruct (starts_with (js "//") (47%N :: c :: t)) eqn:E; [|done].
  apply starts_with_spec in E as [x E]. injection E as -> _. done.
Qed.

(** A plain path, and what makes it one that is read as it is. *)
Lemma plain_path_units p :
  plain_path p = true ->
  starts_with (js "/") p = true /\ starts_with (js "//") p = false /\
  Forall (fun c => c <> 35%N /\ c <> 63%N) p /\ exists c t, p = 47%N :: c :: t /\ c <> 47%N.
Proof.
  destruct p as [|c0 t]; [done|]. cbn [plain_path]. intros H. apply andb_true_iff in H as [H0 Hs].
  apply N.eqb_eq in H0 as ->. apply forallb_Forall' in Hs.
  assert (exists c t', t = c :: t' /\ c <> 47%N) as (c & t' & -> & Hc).
  { destruct t as [|c t']; [by apply Forall_inv in Hs|]. exists c, t'. split; [done|]. intros ->.
    by apply Forall_inv in Hs. }
  split; [done|]. split; [|split; [|by exists c, t']].
  - by apply not_double_slash.
  - rewrite <- (join_split 47 (c :: t')). constructor; [done|]. revert Hs. generalize (split_on 47 (c :: t')). clear.
    intros l Hs. induction Hs as [|s l Hs _ IH]; [constructor|].
    assert (Forall (fun c => c <> 35%N /\ c <> 63%N) s) as Hf.
    { apply andb_true_iff in Hs as [_ Hs]. apply forallb_Forall' in Hs. eapply Forall_impl; [exact Hs|].
      intros x Hx. cbn beta in Hx. split; intros ->; discriminate. }
    destruct l as [|s' l]; [done|]. rewrite join_cons by done. apply Forall_app. split; [done|]. by constructor.
Qed.

#[export] Instance simple_laws : URL_laws simple_url.
Proof.
  split; try done.
  - intros u v Hu. cbn [hash set_hash simple_ops u_hash]. destruct (simple_made u Hu) as (_ & _ & [-> | Hh]); [done|].
    rewrite Hh. by rewrite andb_false_r.
  - intros p Hp. destruct (plain_path_units p Hp) as (H1 & H2 & H3 & _). eexists. split.
    { cbn [new_URL simple_ops]. rewrite <- (app_nil_r p) at 1. apply (simple_read p [] []); auto. }
    split; [|done]. split; [|decided]. eapply made_new. cbn [new_URL simple_ops].
    apply (simple_read p [] [] legacyOrigin); auto.
  - intros u a s w p [Hu _] Hpath _ Hp. destruct (simple_made u Hu) as (_ & Hf & _).
    cbn [pathname simple_ops] in Hpath. rewrite Hpath, !Forall_app in Hf. destruct Hf as (_ & _ & Hs & _).
    destruct (plain_path_units p Hp) as (_ & _ & H3 & c & t & -> & Hc).
    assert (simple_new ((47%N :: c :: t) ++ js "/" ++ s) (Some legacyOrigin) = Some
      {| u_origin := legacyOrigin; u_path := (47%N :: c :: t) ++ js "/" ++ s; u_params := []; u_hash := [] |}) as E.
    { rewrite <- (app_nil_r (_ ++ js "/" ++ s)) at 1. apply (simple_read _ [] [] legacyOrigin); auto.
      - by apply not_double_slash.
      - apply Forall_app. split; [done|]. by constructor. }
    eexists. split; [exact E|]. split; [|done]. split; [exact (@made_new _ simple_ops _ _ _ E)|decided].
  - intros u [Hu _]. exact (proj1 (simple_made u Hu)).
  - intros u [Hu _] Hs. destruct (simple_made u Hu) as (H1 & H2 & H3). eexists.
    assert (simple_new (url_path u) (Some legacyOrigin) = Some _) as E
      by (apply (simple_read (u_path u) (simple_search (u_params u)) (u_hash u) legacyOrigin);
          auto using simple_search_shape).
    split; [exact E|]. split; [|done]. split; [exact (@made_new _ simple_ops _ _ _ E)|decided].
Qed.

(** The texts of an engine. *)
Definition ex_inherited (k : jstr) : jstr :=
  if k =s js "__proto__" then js "[object Object]"
  else js "function " ++ (if k =s js "constructor" then js "Object" else k) ++ js "() { [native code] }".

Lemma legacy_one_step_witness :
  exists t : simple_url,
    resolveLegacyRoute ex_inherited (js "/console/chat/42?a=1#x") = inr (Some (url_path t)) /\
    pathname t = js "/chat/42" /\ hash t = js "#x" /\ resolveLegacyRoute ex_inherited (url_path t) = inr None.
Proof.
  destruct (legacy_one_step (URL := simple_url) ex_inherited (js "/console/chat/42?a=1#x")
              (simple_tail legacyOrigin (js "/console/chat/42?a=1#x"))) as (t & H1 & H2 & H3 & H4 & H5).
  - vm_compute. reflexivity.
  - split; [apply (made_new (js "/console/chat/42?a=1#x") (Some legacyOrigin)); vm_compute; reflexivity|decided].
  - unfold own_tab. decided.
  - exists (set_hash (js "#x") (append (js "q") (js "a=1") (simple_tail legacyOrigin (js "/chat/42")))).
    split; [vm_compute; reflexivity|]. split; [vm_compute; reflexivity|]. split; [vm_compute; reflexivity|].
    assert (url_path (set_hash (js "#x") (append (js "q") (js "a=1") (simple_tail legacyOrigin (js "/chat/42")))) =
            url_path t) as ->; [|exact H5].
    assert (Some (url_path t) = Some (url_path (set_hash (js "#x") (append (js "q") (js "a=1")
              (simple_tail legacyOrigin (js "/chat/42")))))) as E; [|congruence].
    apply (f_equal (fun x : unit + option jstr => match x with inr y => y | _ => None end)) in H1. rewrite <- H1.
    vm_compute. reflexivity.
Defined.

Lemma redirect_double_slash_witness :
  sanitizeAuthRedirect (URL := simple_url) (VStr (js "https://app.test//evil.test/x")) (js "https://app.test") =
  Some (js "//evil.test/x").
Proof.
  apply (redirect_double_slash (js "https://app.test") (js "//evil.test/x")
           (simple_absolute (js "app.test")) (simple_absolute (js "app.test//evil.test/x")));
    first [decided | vm_compute; reflexivity | vm_compute; congruence].
Defined.
