(* ===== verification/Permissions.v ===== *)
(** * Administrator permissions

    [lib/admin-permissions.ts]: what an administrator may do, and the matrix the
    permission editor shows, filled from the baseline of the admin role.  Matrices are
    finite maps from resource and action to a flag; the catalog comes from the server. *)

From S2P Require Import Prelude JsString JsNumber Json.
From stdpp Require Import gmap.

Abbreviation AdminPermissionMatrix := (gmap jstr (gmap jstr bool)).

Definition ADMIN_ROLE_KEY : jstr := js "admin".
Definition SUPER_ADMIN : Z := 100.

Record PermissionActionDef := { action : jstr; action_label : jstr; action_description : jstr }.
Record PermissionResourceDef := {
  resource : jstr; resource_label : jstr; actions : list PermissionActionDef }.
Record PermissionRoleDef := {
  role_key : jstr; role_name : jstr; built_in : bool; superuser : bool; grants : AdminPermissionMatrix }.
Record PermissionCatalog := { resources : list PermissionResourceDef; roles : list PermissionRoleDef }.

Definition EMPTY_PERMISSION_CATALOG : PermissionCatalog := {| resources := []; roles := [] |}.

(** The user as it came from the server; [None] when there is none. *)
Definition hasPermission (user : option jsval) (res act : jstr) : bool :=
  match user with
  | None => false
  | Some u =>
      match get (js "role") u with VNum n => n_eqb n (num_of_Z SUPER_ADMIN) | _ => false end ||
      match get act (get res (get (js "admin_permissions") (get (js "permissions") u))) with
      | VBool b => b
      | _ => false
      end
  end.

Definition roleGrants (catalog : PermissionCatalog) (roleKey : jstr) : AdminPermissionMatrix :=
  match find_first (fun r => role_key r =s roleKey) (roles catalog) with
  | Some r => grants r
  | None => ∅
  end.

(** [m?.[r]?.[a]] *)
Definition granted (m : AdminPermissionMatrix) (r a : jstr) : option bool := m !! r ≫= lookup a.

Definition action_value (value baseline : AdminPermissionMatrix) (r a : jstr) : bool :=
  default (default false (granted baseline r a)) (granted value r a).

(** The loop on the actions of one resource. *)
Definition resource_actions (value baseline : AdminPermissionMatrix) (r : PermissionResourceDef) : gmap jstr bool :=
  foldl (fun m a => <[action a := action_value value baseline (resource r) (action a)]> m) ∅ (actions r).

Definition normalizeAdminPermissions (value : option AdminPermissionMatrix) (catalog : PermissionCatalog)
  : AdminPermissionMatrix :=
  let baseline := roleGrants catalog ADMIN_ROLE_KEY in
  foldl (fun m r => <[resource r := resource_actions (default ∅ value) baseline r]> m) ∅ (resources catalog).

(** ** Facts *)

Lemma resource_actions_lookup v b r a :
  resource_actions v b r !! a =
  if existsb (fun d => action d =s a) (actions r) then Some (action_value v b (resource r) a) else None.
Proof.
  unfold resource_actions. induction (actions r) as [|d l IH] using rev_ind; [apply lookup_empty|].
  rewrite foldl_app, existsb_app. cbn [foldl existsb]. rewrite orb_false_r.
  destruct (action d =s a) eqn:E; [|apply jeqb_neq in E; by rewrite orb_false_r, lookup_insert_ne].
  apply jeqb_eq in E as ->. by rewrite orb_true_r, lookup_insert_eq.
Qed.

(** The definition of a resource that counts when a catalog repeats it: the last. *)
Definition resource_def (catalog : PermissionCatalog) (r : jstr) : option PermissionResourceDef :=
  last (bfilter (fun d => resource d =s r) (resources catalog)).

Lemma normalize_lookup v c r :
  normalizeAdminPermissions v c !! r =
  resource_actions (default ∅ v) (roleGrants c ADMIN_ROLE_KEY) <$> resource_def c r.
Proof.
  unfold normalizeAdminPermissions, resource_def.
  induction (resources c) as [|d l IH] using rev_ind; [apply lookup_empty|].
  rewrite foldl_app, List.filter_app. cbn [foldl List.filter]. destruct (resource d =s r) eqn:E.
  - apply jeqb_eq in E as <-. by rewrite lookup_insert_eq, last_snoc.
  - apply jeqb_neq in E. by rewrite lookup_insert_ne, app_nil_r.
Qed.

(** The catalog lists the action for the resource. *)
Definition listed (c : PermissionCatalog) (r a : jstr) : bool :=
  match resource_def c r with
  | Some d => existsb (fun x => action x =s a) (actions d)
  | None => false
  end.

Lemma resource_def_name c r d : resource_def c r = Some d -> resource d = r.
Proof.
  intros H. apply last_Some_elem_of, elem_of_bfilter in H as [_ H]. by apply jeqb_eq.
Qed.

Lemma normalize_granted v c r a :
  granted (normalizeAdminPermissions v c) r a =
  if listed c r a then Some (action_value (default ∅ v) (roleGrants c ADMIN_ROLE_KEY) r a) else None.
Proof.
  unfold granted, listed. rewrite normalize_lookup. destruct (resource_def c r) as [d|] eqn:E; [|done]. simpl.
  rewrite resource_actions_lookup. by rewrite (resource_def_name c r d E).
Qed.

(** The permission matrix of the editor: it has exactly the actions of the catalog,
    each with the stored flag, or the baseline of the admin role, or not granted; and
    normalising it again changes nothing. *)
Theorem permissions_normalized v c :
  (forall r a, granted (normalizeAdminPermissions v c) r a =
     if listed c r a then
       Some (match granted (default ∅ v) r a with
             | Some b => b
             | None => default false (granted (roleGrants c ADMIN_ROLE_KEY) r a)
             end)
     else None) /\
  normalizeAdminPermissions (Some (normalizeAdminPermissions v c)) c = normalizeAdminPermissions v c.
Proof.
  split.
  - intros r a. rewrite normalize_granted. unfold action_value. destruct (listed c r a); [|done].
    by destruct (granted (default ∅ v) r a).
  - apply map_eq. intros r. rewrite !normalize_lookup. destruct (resource_def c r) as [d|] eqn:E; [|done]. simpl.
    f_equal. apply map_eq. intros a. rewrite !resource_actions_lookup.
    destruct (existsb (fun x => action x =s a) (actions d)) eqn:Ea; [|done]. f_equal.
    unfold action_value at 1. rewrite normalize_granted. unfold listed.
    by rewrite (resource_def_name c r d E), E, Ea.
Qed.
