(* ===== verification/ChannelGuards.v ===== *)
(** * Guards and delayed edits of channels

    [features/channels/lib/channel-field-update.ts], the delayed update of a number in
    the channel table; [status-code-risk-guard.ts], the check on redirected status
    codes; [upstream-update-utils.ts], the pending updates of a channel's models. *)

From S2P Require Import Prelude Machine JsString JsNumber JsRegex Json.

(** ** Delayed updates *)

Definition CHANNEL_FIELD_UPDATE_DELAY_MS : Z := 800.

(** The variables of [createChannelFieldUpdateScheduler] with the timers it was given:
    [active] are the timers that are set, with the time each is due.  [updates] are the
    arguments of [onUpdate], latest first. *)
Record Scheduler := {
  timeoutId : option nat; pendingValue : option Z; active : list (nat * Z); nextId : nat;
  updates : list Z }.

Definition new_scheduler : Scheduler :=
  {| timeoutId := None; pendingValue := None; active := []; nextId := 0; updates := [] |}.

Definition clearPendingTimer (s : Scheduler) : Scheduler :=
  match timeoutId s with
  | None => s
  | Some id =>
      {| timeoutId := None; pendingValue := pendingValue s;
         active := bfilter (fun t => negb (fst t =? id)%nat) (active s); nextId := nextId s;
         updates := updates s |}
  end.

Definition commitPendingValue (s : Scheduler) : Scheduler :=
  let s1 := clearPendingTimer s in
  match pendingValue s1 with
  | None => s1
  | Some value =>
      {| timeoutId := timeoutId s1; pendingValue := None; active := active s1; nextId := nextId s1;
         updates := value :: updates s1 |}
  end.

Definition schedule (now : Z) (value : Z) (s : Scheduler) : Scheduler :=
  let s1 := clearPendingTimer s in
  {| timeoutId := Some (nextId s1); pendingValue := Some value;
     active := (nextId s1, now + CHANNEL_FIELD_UPDATE_DELAY_MS)%Z :: active s1; nextId := S (nextId s1);
     updates := updates s1 |}.

Inductive scheduler_event := SchSet (now value : Z) | SchFlush | SchFire (now : Z) (id : nat).

(** A timer that is set and due fires: it is no longer set, then its callback runs. *)
Definition scheduler_step (e : scheduler_event) (s : Scheduler) : option Scheduler :=
  match e with
  | SchSet now value => Some (schedule now value s)
  | SchFlush => Some (commitPendingValue s)
  | SchFire now id =>
      t ← find_first (fun t => (fst t =? id)%nat) (active s);
      if (snd t <=? now)%Z
      then Some (commitPendingValue
             {| timeoutId := timeoutId s; pendingValue := pendingValue s;
                active := bfilter (fun t => negb (fst t =? id)%nat) (active s); nextId := nextId s;
                updates := updates s |})
      else None
  end.

Definition scheduler_machine : Machine Scheduler scheduler_event :=
  {| initial s := s = new_scheduler; next := scheduler_step |}.

(** *** What it promises

    One value waits at a time, with the time it is due.  A new value takes its place
    and starts its delay again; the value is handed on when it is due or at once on a
    flush. *)
Record Waiting := { waiting : option (Z * Z); handed : list Z }.

Definition hand_on (w : Waiting) : Waiting :=
  match waiting w with
  | Some (v, _) => {| waiting := None; handed := v :: handed w |}
  | None => w
  end.

Definition waiting_step (e : scheduler_event) (w : Waiting) : option Waiting :=
  match e with
  | SchSet now v => Some {| waiting := Some (v, now + CHANNEL_FIELD_UPDATE_DELAY_MS)%Z; handed := handed w |}
  | SchFlush => Some (hand_on w)
  | SchFire now _ =>
      match waiting w with
      | Some (_, due) => if (due <=? now)%Z then Some (hand_on w) else None
      | None => None
      end
  end.

Definition waiting_machine : Machine Waiting scheduler_event :=
  {| initial w := w = {| waiting := None; handed := [] |}; next := waiting_step |}.

(** The only timer that is set is the one the scheduler knows, and it is set exactly
    while a value waits. *)
Definition simulates (s : Scheduler) (w : Waiting) : Prop :=
  updates s = handed w /\
  match waiting w with
  | Some (v, due) => pendingValue s = Some v /\
      exists id, timeoutId s = Some id /\ active s = [(id, due)]
  | None => pendingValue s = None /\ timeoutId s = None /\ active s = []
  end.

Lemma clear_simulates s w :
  simulates s w ->
  timeoutId (clearPendingTimer s) = None /\ active (clearPendingTimer s) = [] /\
  pendingValue (clearPendingTimer s) = pendingValue s /\ updates (clearPendingTimer s) = updates s.
Proof.
  intros [_ H]. unfold clearPendingTimer. destruct (waiting w) as [[v due]|].
  - destruct H as (_ & id & -> & ->). simpl. by rewrite Nat.eqb_refl.
  - destruct H as (_ & E1 & E2). by rewrite E1.
Qed.

Lemma commit_simulates s w :
  pendingValue s = fst <$> waiting w -> updates s = handed w ->
  timeoutId (clearPendingTimer s) = None /\ active (clearPendingTimer s) = [] ->
  simulates (commitPendingValue s) (hand_on w).
Proof.
  intros Hp Hu [Ht Ha]. unfold commitPendingValue, hand_on.
  assert (pendingValue (clearPendingTimer s) = pendingValue s /\ updates (clearPendingTimer s) = updates s) as [E1 E2].
  { unfold clearPendingTimer. by destruct (timeoutId s). }
  rewrite E1, Hp. unfold simulates. destruct (waiting w) as [[v due]|] eqn:E; simpl.
  - by rewrite E2, Hu, Ht, Ha.
  - by rewrite E, E1, E2, Hp, Hu, Ht, Ha.
Qed.

Lemma step_simulates e s s' w :
  simulates s w -> scheduler_step e s = Some s' ->
  exists w', waiting_step e w = Some w' /\ simulates s' w'.
Proof.
  intros Hs Hstep. pose proof (clear_simulates s w Hs) as (C1 & C2 & C3 & C4). pose proof Hs as [Hu Hw].
  destruct e as [now v| |now id]; simpl in Hstep.
  - injection Hstep as <-. eexists. split; [done|]. unfold schedule, simulates. simpl.
    rewrite C2, C4. split; [done|]. split; [done|]. by eexists.
  - injection Hstep as <-. eexists. split; [done|]. apply commit_simulates; [|done|done].
    destruct (waiting w) as [[v due]|]; [by destruct Hw|by destruct Hw].
  - apply bind_Some in Hstep as (t & Ht & Hstep). destruct (waiting w) as [[v due]|] eqn:E; simpl; rewrite E.
    + destruct Hw as (Hp & id' & Hid & Ha). rewrite Ha in Ht. simpl in Ht.
      destruct (id' =? id)%nat eqn:Ei; [|done]. injection Ht as <-. simpl in Hstep.
      destruct (due <=? now)%Z; [|done]. injection Hstep as <-. eexists. split; [done|].
      apply commit_simulates; simpl; [by rewrite E, Hp|done|].
      unfold clearPendingTimer. simpl. rewrite Hid, Ha. simpl. by rewrite Ei.
    + destruct Hw as (_ & _ & Ha). by rewrite Ha in Ht.
Qed.

(** C38. The scheduler keeps its promise: every run of it, with the timers it sets and
    clears, is a run of the simple description with the same updates handed on, so an
    update is the latest value set, at least 800 ms after it was set or on a flush, no
    value is handed on twice, and no timer is left behind. *)
Theorem scheduler_refines es s :
  runs scheduler_machine new_scheduler es s ->
  exists w, runs waiting_machine {| waiting := None; handed := [] |} es w /\ simulates s w.
Proof.
  assert (forall s0 w0, simulates s0 w0 -> runs scheduler_machine s0 es s ->
    exists w, runs waiting_machine w0 es w /\ simulates s w) as H.
  { intros s0 w0 H0 Hr. revert w0 H0. induction Hr as [s0|s0 e s1 es s2 Hn _ IH]; intros w0 H0.
    - exists w0. split; [constructor|done].
    - destruct (step_simulates e s0 s1 w0 H0 Hn) as (w1 & Hw1 & Hs1). destruct (IH w1 Hs1) as (w & Hr & Hs).
      exists w. split; [econstructor; eauto|done]. }
  intros Hr. eapply H; [|exact Hr]. by repeat split.
Qed.

Lemma scheduler_refines_witness :
  exists w, runs waiting_machine {| waiting := None; handed := [] |}
    [SchSet 0 1; SchSet 100 2; SchFire 900 1; SchFlush] w /\ handed w = [2%Z].
Proof.
  destruct (scheduler_refines [SchSet 0 1; SchSet 100 2; SchFire 900 1; SchFlush]
    {| timeoutId := None; pendingValue := None; active := []; nextId := 2; updates := [2%Z] |}) as (w & Hr & [Hu _]).
  - apply exec_runs. reflexivity.
  - exists w. split; [exact Hr|]. symmetry. exact Hu.
Defined.

(** ** Redirected status codes *)

Definition NON_REDIRECTABLE_STATUS_CODES : list N := [504; 524]%N.

(** [/^[1-5]\d{2}$/] *)
Definition three_digit_code (s : jstr) : bool :=
  match s with
  | [a; b; c] => (49 <=? a)%N && (a <=? 53)%N && is_digit b && is_digit c
  | _ => false
  end.

Definition parseStatusCodeKey (rawKey : jstr) : option N :=
  let normalized := trim rawKey in
  if negb (three_digit_code normalized) then None else Some (dec_val normalized).

(** The integer a number denotes. *)
Definition integer_value (x : number) : Z :=
  match x with
  | SpecFloat.S754_finite s m e =>
      let a := if (0 <=? e)%Z then (Z.pos m * 2 ^ e)%Z else (Z.pos m / 2 ^ (- e))%Z in if s then (- a)%Z else a
  | _ => 0%Z
  end.

Definition parseStatusCodeMappingTarget (rawValue : jsval) : option N :=
  match rawValue with
  | VNum x =>
      if n_isInteger x && n_leb (num_of_Z 100) x && n_leb x (num_of_Z 599)
      then Some (Z.to_N (integer_value x)) else None
  | VStr s =>
      let normalized := trim s in
      if negb (three_digit_code normalized) then None
      else let code := dec_val normalized in
           if (100 <=? code)%N && (code <=? 599)%N then Some code else None
  | _ => None
  end.

(** The entries of the mapping; none when the text is blank or no JSON object. *)
Definition mapping_entries (statusCodeMappingStr : jstr) : list (jstr * jsval) :=
  if negb (truthy (trim statusCodeMappingStr)) then []
  else match json_parse statusCodeMappingStr with Some (VObj o) => o | _ => [] end.

Definition entry_codes (p : jstr * jsval) : option (N * N) :=
  a ← parseStatusCodeKey (fst p); b ← parseStatusCodeMappingTarget (snd p); Some (a, b).

Definition collectInvalidStatusCodeEntries (statusCodeMappingStr : jstr) : list jstr :=
  map (fun p => fst p ++ [32; 8594; 32]%N ++ to_string (snd p))
    (bfilter (fun p => match entry_codes p with None => true | Some _ => false end)
       (mapping_entries statusCodeMappingStr)).

Definition risky_text (p : N * N) : jstr := show_N (fst p) ++ js " -> " ++ show_N (snd p).

(** The body of the loop: the text pushed for an entry, if any. *)
Definition risky_entry (p : jstr * jsval) : option jstr :=
  '(fromCode, toCode) ← entry_codes p;
  if negb (bool_decide (fromCode ∈ NON_REDIRECTABLE_STATUS_CODES)) then None
  else if (fromCode =? toCode)%N then None
  else Some (risky_text (fromCode, toCode)).

(** The default order of [sort]: by code units. *)
Fixpoint text_le (a b : jstr) : bool :=
  match a, b with
  | [], _ => true
  | _, [] => false
  | x :: a', y :: b' => (x <? y)%N || (x =? y)%N && text_le a' b'
  end.

Definition collectDisallowedStatusCodeRedirects (statusCodeMappingStr : jstr) : list jstr :=
  js_sort text_le (dedup (omap risky_entry (mapping_entries statusCodeMappingStr))).

Definition collectNewDisallowedStatusCodeRedirects (originalStr currentStr : jstr) : list jstr :=
  let currentRisky := collectDisallowedStatusCodeRedirects currentStr in
  match currentRisky with
  | [] => []
  | _ =>
      let original := collectDisallowedStatusCodeRedirects originalStr in
      bfilter (fun mapping => negb (bool_decide (mapping ∈ original))) currentRisky
  end.

Lemma text_le_total a b : text_le a b = true \/ text_le b a = true.
Proof. revert b. induction a as [|x a IH]; intros [|y b]; simpl; auto. destruct (IH b) as [-> | ->]; lia. Qed.

Lemma text_le_trans a b c : text_le a b = true -> text_le b c = true -> text_le a c = true.
Proof.
  revert b c. induction a as [|x a IH]; intros [|y b] [|z c]; simpl; try done.
  specialize (IH b c). destruct (text_le a b), (text_le b c), (text_le a c); try lia.
Qed.

Lemma risky_entry_Some p x :
  risky_entry p = Some x <->
  exists a b, entry_codes p = Some (a, b) /\ a ∈ NON_REDIRECTABLE_STATUS_CODES /\ a <> b /\ x = risky_text (a, b).
Proof.
  unfold risky_entry. split.
  - intros H. apply bind_Some in H as ([a b] & E & H). exists a, b. case_bool_decide; [|done]. simpl in H.
    destruct (a =? b)%N eqn:Eab; [done|]. injection H as <-. repeat split; [done..|]. lia.
  - intros (a & b & -> & Ha & Hab & ->). cbn [mbind option_bind]. rewrite bool_decide_true by done. simpl.
    by rewrite (proj2 (N.eqb_neq a b)).
Qed.

(** The guard lists exactly the redirects of 504 and 524 to another code, each once
    and in order, whatever the spelling of the codes; a redirect is reported as new
    exactly when it was not in the mapping before. *)
Theorem risky_redirects_exact original current :
  (forall x, x ∈ collectDisallowedStatusCodeRedirects current <->
    exists k v a b, (k, v) ∈ mapping_entries current /\ parseStatusCodeKey k = Some a /\
      parseStatusCodeMappingTarget v = Some b /\ a ∈ NON_REDIRECTABLE_STATUS_CODES /\ a <> b /\
      x = risky_text (a, b)) /\
  NoDup (collectDisallowedStatusCodeRedirects current) /\
  StronglySorted (fun a b => text_le a b = true) (collectDisallowedStatusCodeRedirects current) /\
  (forall x, x ∈ collectNewDisallowedStatusCodeRedirects original current <->
    x ∈ collectDisallowedStatusCodeRedirects current /\ x ∉ collectDisallowedStatusCodeRedirects original).
Proof.
  split; [|split; [|split]].
  - intros x. unfold collectDisallowedStatusCodeRedirects. rewrite elem_of_js_sort, elem_of_dedup, list_elem_of_omap.
    split.
    + intros ([k v] & Hin & (a & b & He & Ha & Hab & ->)%risky_entry_Some).
      apply bind_Some in He as (a' & Hk & He). apply bind_Some in He as (b' & Hv & [= -> ->]). eauto 10.
    + intros (k & v & a & b & Hin & Hk & Hv & Ha & Hab & ->). exists (k, v). split; [done|].
      apply risky_entry_Some. exists a, b. unfold entry_codes. simpl. by rewrite Hk, Hv.
  - unfold collectDisallowedStatusCodeRedirects. rewrite js_sort_perm. apply NoDup_dedup.
  - apply js_sort_sorted; [apply text_le_total|apply text_le_trans].
  - intros x. unfold collectNewDisallowedStatusCodeRedirects. cbv zeta.
    destruct (collectDisallowedStatusCodeRedirects current) as [|y l] eqn:E; [set_solver|].
    rewrite elem_of_bfilter, negb_true_iff, bool_decide_eq_false. done.
Qed.

Example risky_example :
  collectNewDisallowedStatusCodeRedirects (jsq "{`504`:500}")
    (jsq "{` 524 `:`200`,`504`:500,`400`:500,`504 `:503}") = [js "504 -> 503"; js "524 -> 200"].
Proof. vm_compute. reflexivity. Qed.

(** ** Pending updates of models *)

Definition normalizeModelList (models : list jsval) : list jstr :=
  dedup (bfilter truthy (map (fun m => trim (to_string (if v_truthy m then m else VStr []))) models)).

(** [(enabled, (pendingAddModels, pendingRemoveModels))]; [None] when a list of models is
    another truthy value, whose [map] is no function. *)
Definition parseUpstreamUpdateMeta (settings : jsval) : option (bool * (list jstr * list jstr)) :=
  let parsed := match settings with
                | VObj _ => settings
                | VStr s => default VNull (json_parse s)
                | _ => VNull
                end in
  let list_of (v : jsval) : option (list jsval) :=
    if v_truthy v then match v with VArr l => Some l | _ => None end else Some [] in
  if negb (is_record parsed) then Some (false, ([], []))
  else
    added ← list_of (get (js "upstream_model_update_last_detected_models") parsed);
    removed ← list_of (get (js "upstream_model_update_last_removed_models") parsed);
    Some (match get (js "upstream_model_update_check_enabled") parsed with VBool b => b | _ => false end,
          (normalizeModelList added, normalizeModelList removed)).
