(* ===== verification/ChatHandler.v ===== *)
(** * The playground conversation

    [features/playground/hooks/use-chat-handler.ts], [use-playground-conversation.ts] and
    [use-playground-state.ts], composed as [features/playground/index.tsx] composes them:
    the conversation on screen, the requests that fill its last message, and the copy
    of it that is saved.  The stream controller of [StreamController] is a component of
    the state; its callbacks are delivered to the handlers of this file.

    A state update handed to React is a function that runs at the next render, in the
    order of the calls; React may also run the first update after a render at once and
    keep its result.  Events therefore carry [eager], whether React does so, and the
    time [now] their handlers read. *)

From S2P Require Import Prelude Machine JsString JsNumber Json PlaygroundMessages StreamController.

(** ** State *)

Record PendingStreamChunks := {
  p_generation : Z; p_content : jstr; p_reasoning : jstr }.

(** The references and the state of [useChatHandler].  [flushTimer] is the timer
    reference: the generation its callback closes over, and whether it is still to
    fire.  [abortController] is an index into [aborted]. *)
Record Handler := {
  requestGeneration : Z; pendingStreamChunks : PendingStreamChunks;
  flushTimer : option (Z * bool); abortController : option nat; isRequesting : bool }.

(** The updates handed to [onMessageUpdate] and [updateMessages], one constructor per
    closure of the source with the values it captures. *)
Inductive Update :=
  | UFlush (g : Z) (reasoningText contentText : jstr)
  | UComplete (g : Z)
  | UFail (g : Z) (displayError : jstr) (code : option jstr) (title : jstr)
  | UChoices (g : Z) (choices : list ChatCompletionChoice)
  | UImages (g : Z) (images : list GeneratedImage)
  | UStopped (g : Z)
  | USet (ms : list Message)
  | URemove (messageKey : jstr)
  | ULoaded (ms : list Message).

(** An entry of the React queue: an update to run, or the result of an eager one. *)
Inductive Queued := QRun (u : Update) | QDone (ms : list Message).

(** The state of [usePlaygroundState]: [shown] is [messages] as of the last render.
    [saves] are the arguments of the calls of [saveMessages], latest first. *)
Record View := {
  shown : list Message; queue : list Queued; latestMessages : list Message;
  hasLoaded : bool; saveTimer : bool; saves : list (list Message) }.

Record ImageGenerationRequest := { ir_model : jstr; ir_prompt : jstr }.

Inductive Request :=
  | RStream (payload : ChatCompletionRequest)
  | RChat (payload : ChatCompletionRequest)
  | RImage (payload : ImageGenerationRequest).

(** A call of [sendChatCompletion] or [sendImageGeneration] that has not settled. *)
Record Call := { call_gen : Z; call_signal : nat; call_image : bool }.

(** [owners]: the generation of this hook each controller request was sent for, as its
    callbacks close over it.  [sent]: the requests made, latest first. *)
Record Chat := {
  hook : Handler; view : View; ctl : Controller; isStreaming : bool; owners : list (Z * Z);
  aborted : list bool; calls : list Call; sent : list (Z * Request); toasts : list jstr;
  editingKey : option jstr; mounted : bool }.

Definition no_chunks (g : Z) : PendingStreamChunks :=
  {| p_generation := g; p_content := []; p_reasoning := [] |}.

Definition new_chat : Chat :=
  {| hook := {| requestGeneration := 0; pendingStreamChunks := no_chunks 0; flushTimer := None;
                abortController := None; isRequesting := false |};
     view := {| shown := []; queue := []; latestMessages := []; hasLoaded := false;
                saveTimer := false; saves := [] |};
     ctl := new_controller; isStreaming := false; owners := []; aborted := []; calls := [];
     sent := []; toasts := []; editingKey := None; mounted := true |}.

(** Assignments *)
Definition on_hook (f : Handler -> Handler) (s : Chat) : Chat :=
  {| hook := f (hook s); view := view s; ctl := ctl s; isStreaming := isStreaming s;
     owners := owners s; aborted := aborted s; calls := calls s; sent := sent s;
     toasts := toasts s; editingKey := editingKey s; mounted := mounted s |}.

Definition set_generation_ref (g : Z) : Chat -> Chat := on_hook (fun h =>
  {| requestGeneration := g; pendingStreamChunks := pendingStreamChunks h;
     flushTimer := flushTimer h; abortController := abortController h;
     isRequesting := isRequesting h |}).
Definition set_chunks (p : PendingStreamChunks) : Chat -> Chat := on_hook (fun h =>
  {| requestGeneration := requestGeneration h; pendingStreamChunks := p;
     flushTimer := flushTimer h; abortController := abortController h;
     isRequesting := isRequesting h |}).
Definition set_timer (t : option (Z * bool)) : Chat -> Chat := on_hook (fun h =>
  {| requestGeneration := requestGeneration h; pendingStreamChunks := pendingStreamChunks h;
     flushTimer := t; abortController := abortController h; isRequesting := isRequesting h |}).
Definition set_abort (a : option nat) : Chat -> Chat := on_hook (fun h =>
  {| requestGeneration := requestGeneration h; pendingStreamChunks := pendingStreamChunks h;
     flushTimer := flushTimer h; abortController := a; isRequesting := isRequesting h |}).
Definition setIsRequesting (b : bool) : Chat -> Chat := on_hook (fun h =>
  {| requestGeneration := requestGeneration h; pendingStreamChunks := pendingStreamChunks h;
     flushTimer := flushTimer h; abortController := abortController h; isRequesting := b |}).

Definition on_view (f : View -> View) (s : Chat) : Chat :=
  {| hook := hook s; view := f (view s); ctl := ctl s; isStreaming := isStreaming s;
     owners := owners s; aborted := aborted s; calls := calls s; sent := sent s;
     toasts := toasts s; editingKey := editingKey s; mounted := mounted s |}.

(** What the requests keep outside the two hooks. *)
Definition on_net (c : Controller) (st : bool) (ow : list (Z * Z)) (ab : list bool)
    (cs : list Call) (rq : list (Z * Request)) (s : Chat) : Chat :=
  {| hook := hook s; view := view s; ctl := c; isStreaming := st; owners := ow; aborted := ab;
     calls := cs; sent := rq; toasts := toasts s; editingKey := editingKey s;
     mounted := mounted s |}.

Definition set_ctl (c : Controller) (s : Chat) : Chat :=
  on_net c (isStreaming s) (owners s) (aborted s) (calls s) (sent s) s.
Definition setIsStreaming (b : bool) (s : Chat) : Chat :=
  on_net (ctl s) b (owners s) (aborted s) (calls s) (sent s) s.
Definition set_owners (ow : list (Z * Z)) (s : Chat) : Chat :=
  on_net (ctl s) (isStreaming s) ow (aborted s) (calls s) (sent s) s.
Definition set_aborted (ab : list bool) (s : Chat) : Chat :=
  on_net (ctl s) (isStreaming s) (owners s) ab (calls s) (sent s) s.
Definition set_calls (cs : list Call) (s : Chat) : Chat :=
  on_net (ctl s) (isStreaming s) (owners s) (aborted s) cs (sent s) s.
Definition record_request (r : Z * Request) (s : Chat) : Chat :=
  on_net (ctl s) (isStreaming s) (owners s) (aborted s) (calls s) (r :: sent s) s.

Definition on_ui (ts : list jstr) (k : option jstr) (mnt : bool) (s : Chat) : Chat :=
  {| hook := hook s; view := view s; ctl := ctl s; isStreaming := isStreaming s;
     owners := owners s; aborted := aborted s; calls := calls s; sent := sent s;
     toasts := ts; editingKey := k; mounted := mnt |}.

Definition toast_error (msg : jstr) (s : Chat) : Chat :=
  on_ui (toasts s ++ [msg]) (editingKey s) (mounted s) s.
Definition setEditingMessageKey (k : option jstr) (s : Chat) : Chat :=
  on_ui (toasts s) k (mounted s) s.

Definition gen (s : Chat) : Z := requestGeneration (hook s).
Definition chunks (s : Chat) : PendingStreamChunks := pendingStreamChunks (hook s).

(** ** Updates of the conversation *)

Definition flush_message (now : number) (r c : jstr) (m : Message) : Message :=
  let m1 := if truthy r then applyStreamingChunk now m ReasoningChunk r else m in
  if truthy c then applyStreamingChunk now m1 ContentChunk c else m1.

(** The body of each closure; [g] is [requestGenerationRef.current] when it runs. *)
Definition run_update (now : number) (g : Z) (u : Update) (prev : list Message) : list Message :=
  match u with
  | UFlush g' r c =>
      if negb (g' =? g)%Z then prev else updateLastAssistantMessage prev (flush_message now r c)
  | UComplete g' =>
      if negb (g' =? g)%Z then prev
      else updateLastAssistantMessage prev (fun m =>
             if isAssistantMessageFinal m then m else completeAssistantMessage now m)
  | UFail g' displayError code title =>
      if negb (g' =? g)%Z then prev
      else updateAssistantMessageWithError now prev displayError code title
  | UChoices g' choices =>
      if negb (g' =? g)%Z then prev
      else updateLastAssistantMessage prev (fun m =>
             default m (applyChatCompletionResponse now m choices))
  | UImages g' images =>
      if negb (g' =? g)%Z then prev
      else updateLastAssistantMessage prev (fun m =>
             default m (applyImageGenerationResponse now m images))
  | UStopped g' =>
      if negb (g' =? g)%Z then prev
      else updateLastAssistantMessage prev (fun m =>
             if isAssistantMessagePending m then completeAssistantMessage now m else m)
  | USet ms => ms
  | URemove k => removeMessageByKey prev k
  | ULoaded ms => ms
  end.

(** Every update but the one that loads the conversation goes through
    [updateMessages], whose updater also persists the result. *)
Definition persists (u : Update) : bool := match u with ULoaded _ => false | _ => true end.

Definition persistMessages (ms : list Message) (v : View) : View :=
  {| shown := shown v; queue := queue v; latestMessages := ms; hasLoaded := hasLoaded v;
     saveTimer := hasLoaded v || saveTimer v; saves := saves v |}.

Definition set_queue (q : list Queued) (v : View) : View :=
  {| shown := shown v; queue := q; latestMessages := latestMessages v; hasLoaded := hasLoaded v;
     saveTimer := saveTimer v; saves := saves v |}.

Definition set_shown (ms : list Message) (v : View) : View :=
  {| shown := ms; queue := queue v; latestMessages := latestMessages v; hasLoaded := hasLoaded v;
     saveTimer := saveTimer v; saves := saves v |}.

Definition run_persisting (now : number) (g : Z) (u : Update) (prev : list Message) (v : View)
  : list Message * View :=
  let ms := run_update now g u prev in
  (ms, if persists u then persistMessages ms v else v).

(** [setMessages(updater)] *)
Definition dispatch (now : number) (eager : bool) (u : Update) (s : Chat) : Chat :=
  on_view (fun v =>
    match queue v with
    | [] =>
        if eager then
          let '(ms, v1) := run_persisting now (gen s) u (shown v) v in set_queue [QDone ms] v1
        else set_queue [QRun u] v
    | q => set_queue (q ++ [QRun u]) v
    end) s.

(** A render of the component runs the queue. *)
Fixpoint drain (now : number) (g : Z) (q : list Queued) (ms : list Message) (v : View) : list Message * View :=
  match q with
  | [] => (ms, v)
  | QDone ms' :: q' => drain now g q' ms' v
  | QRun u :: q' => let '(ms', v') := run_persisting now g u ms v in drain now g q' ms' v'
  end.

Definition render_view (now : number) (s : Chat) : Chat :=
  on_view (fun v =>
    let '(ms, v1) := drain now (gen s) (queue v) (shown v) v in
    set_shown ms (set_queue [] v1)) s.

(** ** [useChatHandler] *)

Section handler.
Variable t : jstr -> jstr. (* the translation of a message *)

(** No code unit outside ASCII lowers to a prefix of what the name is compared with, so
    lowering ASCII decides the test. *)
Definition isImageGenerationModel (model : jstr) : bool :=
  starts_with (js "gpt-image-") (ascii_lower (trim model)).

Definition mergePendingStreamChunk (currentChunk nextChunk : jstr) : jstr :=
  if negb (truthy currentChunk) || negb (starts_with currentChunk nextChunk)
  then currentChunk ++ nextChunk
  else nextChunk.

Definition discardPendingStreamUpdates (g : Z) (s : Chat) : Chat :=
  set_chunks (no_chunks g) (set_timer None s).

Definition flushStreamUpdates (now : number) (eager : bool) (g : Z) (s : Chat) : Chat :=
  if negb (g =? gen s)%Z then s
  else
    let s1 := set_timer None s in
    let p := chunks s1 in
    if negb (p_generation p =? g)%Z then s1
    else if negb (truthy (p_reasoning p)) && negb (truthy (p_content p)) then s1
    else dispatch now eager (UFlush g (p_reasoning p) (p_content p)) (set_chunks (no_chunks g) s1).

Definition scheduleStreamFlush (g : Z) (s : Chat) : Chat :=
  if negb (g =? gen s)%Z then s
  else match flushTimer (hook s) with
       | Some _ => s
       | None => set_timer (Some (g, true)) s
       end.

Definition KNOWN_ERROR_MESSAGES : list jstr :=
  [API_REQUEST_ERROR; NETWORK_ERROR; PARSE_ERROR; STREAM_START_ERROR; CONNECTION_CLOSED; INTERRUPTED].

Definition getDisplayError (error : jstr) : jstr :=
  if bool_decide (error ∈ KNOWN_ERROR_MESSAGES) then t error
  else if ends_with (js ": " ++ CONNECTION_CLOSED) error
  then take (length error - length CONNECTION_CLOSED) error ++ t CONNECTION_CLOSED
  else error.

Definition handleStreamUpdate (g : Z) (ty : StreamChunkType) (chunk : jstr) (s : Chat) : Chat :=
  if negb (g =? gen s)%Z then s
  else
    let p := chunks s in
    if negb (p_generation p =? g)%Z then s
    else
      scheduleStreamFlush g
        (set_chunks
          (match ty with
           | ContentChunk =>
               {| p_generation := p_generation p;
                  p_content := mergePendingStreamChunk (p_content p) chunk;
                  p_reasoning := p_reasoning p |}
           | ReasoningChunk =>
               {| p_generation := p_generation p; p_content := p_content p;
                  p_reasoning := mergePendingStreamChunk (p_reasoning p) chunk |}
           end) s).

Definition handleStreamComplete (now : number) (eager : bool) (g : Z) (s : Chat) : Chat :=
  if negb (g =? gen s)%Z then s
  else
    dispatch now eager (UComplete g) (setIsRequesting false (flushStreamUpdates now eager g s)).

Definition handleStreamError (now : number) (eager : bool) (g : Z) (error : jstr) (code : option jstr)
    (s : Chat) : Chat :=
  if negb (g =? gen s)%Z then s
  else
    let displayError := getDisplayError error in
    dispatch now eager (UFail g displayError code (t API_REQUEST_ERROR))
      (toast_error displayError (setIsRequesting false (flushStreamUpdates now eager g s))).

(** What the controller calls back: the handlers of the request's generation. *)
Definition owner (cg : Z) (s : Chat) : option Z :=
  snd <$> find_first (fun p => (fst p =? cg)%Z) (owners s).

Definition deliver (now : number) (eager : bool) (o : output) (s : Chat) : Chat :=
  match o with
  | OUpdate cg ty chunk =>
      match owner cg s with Some g => handleStreamUpdate g ty chunk s | None => s end
  | OComplete cg =>
      match owner cg s with Some g => handleStreamComplete now eager g s | None => s end
  | OError cg msg code =>
      match owner cg s with Some g => handleStreamError now eager g msg code s | None => s end
  | OStreaming b => setIsStreaming b s
  | OOpen _ _ | OStart _ | OClose _ _ => s
  end.

(** A step of the controller, its new callbacks delivered in order.  None of the
    handlers calls the controller, so delivering after the step is delivering during it. *)
Definition run_ctl (now : number) (eager : bool) (c : Controller) (s : Chat) : Chat :=
  foldl (fun s' o => deliver now eager o s') (set_ctl c s) (drop (length (out (ctl s))) (out c)).

Definition stopStream (now : number) (eager : bool) (s : Chat) : Chat :=
  run_ctl now eager (cancel true (ctl s)) s.

(** [abortControllerRef.current?.abort()] *)
Definition abort_current (s : Chat) : Chat :=
  match abortController (hook s) with
  | Some i => set_aborted (<[i := true]> (aborted s)) s
  | None => s
  end.

Definition sendStreamingChat (now : number) (eager : bool) (cfg : PlaygroundConfig)
    (enabled : ParameterEnabled) (messages : list Message) (s : Chat) : Chat :=
  let g := (gen s + 1)%Z in
  let s1 := set_abort None (abort_current (set_generation_ref g s)) in
  let s2 := setIsRequesting true (discardPendingStreamUpdates g s1) in
  let s3 := record_request (g, RStream (buildChatCompletionPayload messages cfg enabled)) s2 in
  let s4 := set_owners ((generation (ctl s3) + 1, g)%Z :: owners s3) s3 in
  run_ctl now eager (send_start (selectedTokenId cfg) (ctl s4)) s4.

(** What [sendNonStreamingChat] and [sendImage] do before their [await]. *)
Definition start_call (now : number) (eager : bool) (image : bool) (r : Request) (s : Chat) : Chat :=
  let g := (gen s + 1)%Z in
  let s1 := set_generation_ref g s in
  let s2 := discardPendingStreamUpdates g (stopStream now eager s1) in
  let s3 := abort_current s2 in
  let i := length (aborted s3) in
  let s4 := set_abort (Some i) (set_aborted (aborted s3 ++ [false]) s3) in
  let s5 := setIsRequesting true s4 in
  set_calls (calls s5 ++ [{| call_gen := g; call_signal := i; call_image := image |}])
    (record_request (g, r) s5).

Definition sendNonStreamingChat (now : number) (eager : bool) (cfg : PlaygroundConfig)
    (enabled : ParameterEnabled) (messages : list Message) (s : Chat) : Chat :=
  start_call now eager false (RChat (buildChatCompletionPayload messages cfg enabled)) s.

Definition buildImageGenerationPayload (messages : list Message) (cfg : PlaygroundConfig)
  : ImageGenerationRequest :=
  {| ir_model := cfg_model cfg; ir_prompt := image_prompt messages |}.

Definition sendImage (now : number) (eager : bool) (cfg : PlaygroundConfig) (messages : list Message)
    (s : Chat) : Chat :=
  start_call now eager true (RImage (buildImageGenerationPayload messages cfg)) s.

(** How a call settles. *)
Inductive Outcome :=
  | ChatAnswer (choices : list ChatCompletionChoice)
  | ImageAnswer (images : list GeneratedImage)
  | Failed (error : jsval).

Definition has_image (i : GeneratedImage) : bool :=
  match b64_json i with Some b => truthy b | None => false end ||
  match image_url i with Some u => truthy u | None => false end.

Definition finish_call (now : number) (eager : bool) (g : Z) (o : Outcome) (s : Chat) : Chat :=
  match o with
  | ChatAnswer choices =>
      if negb (hasChatCompletionChoice choices)
      then handleStreamError now eager g API_REQUEST_ERROR None s
      else dispatch now eager (UChoices g choices) s
  | ImageAnswer images =>
      if negb (existsb has_image images)
      then handleStreamError now eager g API_REQUEST_ERROR None s
      else dispatch now eager (UImages g images) s
  | Failed error =>
      let '(code, msg) := parseRequestErrorDetails error in
      handleStreamError now eager g msg code s
  end.

Definition is_aborted (i : nat) (s : Chat) : bool := default false (aborted s !! i).

(** The rest of [sendNonStreamingChat] and [sendImage], the [finally] block included. *)
Definition settle_call (now : number) (eager : bool) (c : Call) (o : Outcome) (s : Chat) : Chat :=
  let g := call_gen c in
  let s1 := if is_aborted (call_signal c) s || negb (gen s =? g)%Z then s
            else finish_call now eager g o s in
  if (gen s1 =? g)%Z then setIsRequesting false (set_abort None s1) else s1.

Definition sendChat (now : number) (eager : bool) (cfg : PlaygroundConfig)
    (enabled : ParameterEnabled) (messages : list Message) (s : Chat) : Chat :=
  if isImageGenerationModel (cfg_model cfg) then sendImage now eager cfg messages s
  else if cfg_stream cfg then sendStreamingChat now eager cfg enabled messages s
  else sendNonStreamingChat now eager cfg enabled messages s.

Definition stopGeneration (now : number) (eager : bool) (s : Chat) : Chat :=
  let stoppedGeneration := gen s in
  let s1 := flushStreamUpdates now eager stoppedGeneration s in
  let idleGeneration := (stoppedGeneration + 1)%Z in
  let s2 := discardPendingStreamUpdates idleGeneration (set_generation_ref idleGeneration s1) in
  let s3 := stopStream now eager s2 in
  let s4 := setIsRequesting false (set_abort None (abort_current s3)) in
  dispatch now eager (UStopped idleGeneration) s4.

Definition isGenerating (s : Chat) : bool := isStreaming s || isRequesting (hook s).

(** ** [usePlaygroundState]: loading, saving, leaving the page *)

Definition load_messages (now : number) (eager : bool) (loaded : list Message) (s : Chat) : Chat :=
  dispatch now eager (ULoaded loaded)
    (on_view (fun v => {| shown := shown v; queue := queue v; latestMessages := loaded;
                          hasLoaded := true; saveTimer := saveTimer v; saves := saves v |}) s).

Definition save_now (s : Chat) : Chat :=
  on_view (fun v => {| shown := shown v; queue := queue v; latestMessages := latestMessages v;
                       hasLoaded := hasLoaded v; saveTimer := false;
                       saves := latestMessages v :: saves v |}) s.

(** The three cleanups, in the order the hooks are called. *)
Definition unmount (now : number) (eager : bool) (s : Chat) : Chat :=
  let s1 := if saveTimer (view s) then save_now s else s in
  let s2 := run_ctl now eager (cancel false (ctl s1)) s1 in
  let s3 := set_generation_ref (gen s2 + 1) s2 in
  let s4 := match flushTimer (hook s3) with
            | Some (g, _) => set_timer (Some (g, false)) s3
            | None => s3
            end in
  let s5 := set_abort None (abort_current s4) in
  on_ui (toasts s5) (editingKey s5) false s5.

(** ** [usePlaygroundConversation] *)

(** What a handler of the page reads: the time, React's choice, the settings. *)
Record Env := {
  env_now : number; env_eager : bool; env_cfg : PlaygroundConfig; env_enabled : ParameterEnabled }.

Definition send_messages (e : Env) (ms : list Message) (s : Chat) : Chat :=
  sendChat (env_now e) (env_eager e) (env_cfg e) (env_enabled e) ms
    (dispatch (env_now e) (env_eager e) (USet ms) s).

Definition handleSendMessage (e : Env) (ids : jstr * jstr * (jstr * jstr)) (text : jstr)
    (atts : list MessageAttachment) (s : Chat) : Chat :=
  send_messages e (appendUserMessagePair (env_now e) ids (shown (view s)) text atts) s.

Definition handleRegenerateMessage (e : Env) (ids : jstr * jstr) (messageKey : jstr) (s : Chat) : Chat :=
  match createRegeneratedMessages (env_now e) ids (shown (view s)) messageKey with
  | None => s
  | Some nextMessages => send_messages e nextMessages s
  end.

Definition applyEdit (e : Env) (ids : jstr * jstr) (newContent : jstr) (shouldSubmit : bool) (s : Chat)
  : Chat :=
  match editingKey s with
  | None => s
  | Some k =>
      if negb (truthy k) then s
      else
        match applyMessageEdit (env_now e) ids (shown (view s)) k newContent shouldSubmit with
        | None => s
        | Some (ms, shouldSend) =>
            let s1 := setEditingMessageKey None s in
            if shouldSend then send_messages e ms s1
            else dispatch (env_now e) (env_eager e) (USet ms) s1
        end
  end.

Definition handleDeleteMessage (e : Env) (messageKey : jstr) (s : Chat) : Chat :=
  dispatch (env_now e) (env_eager e) (URemove messageKey) s.

Definition handleClearMessages (e : Env) (s : Chat) : Chat :=
  dispatch (env_now e) (env_eager e) (USet []) (setEditingMessageKey None s).

(** ** Transitions *)

Inductive chat_event :=
  | ESend (e : Env) (ids : jstr * jstr * (jstr * jstr)) (text : jstr) (atts : list MessageAttachment)
  | ERegenerate (e : Env) (ids : jstr * jstr) (messageKey : jstr)
  | EEditing (k : option jstr)
  | EEdit (e : Env) (ids : jstr * jstr) (newContent : jstr) (shouldSubmit : bool)
  | EDelete (e : Env) (messageKey : jstr)
  | EClear (e : Env)
  | EStop (now : number) (eager : bool)
  | ENet (now : number) (eager : bool) (e : ctl_event)
  | ESettle (now : number) (eager : bool) (g : Z) (o : Outcome)
  | EFlush (now : number) (eager : bool)
  | ERender (now : number)
  | ELoad (now : number) (eager : bool) (loaded : list Message)
  | ESave
  | EUnmount (now : number) (eager : bool).

(** The events of the controller that come from outside: its callers are above. *)
Definition from_network (e : ctl_event) : bool :=
  match e with CSend _ | CStop | CDispose => false | _ => true end.

Definition answers (image : bool) (o : Outcome) : bool :=
  match o with ChatAnswer _ => negb image | ImageAnswer _ => image | Failed _ => true end.

(** [None]: the event cannot happen.  The page's own events need it mounted; answers
    from the network arrive whenever they do. *)
Definition chat_step (ev : chat_event) (s : Chat) : option Chat :=
  let page (s' : Chat) := if mounted s then Some s' else None in
  match ev with
  | ESend e ids text atts => page (handleSendMessage e ids text atts s)
  | ERegenerate e ids k => page (handleRegenerateMessage e ids k s)
  | EEditing k => page (setEditingMessageKey k s)
  | EEdit e ids c b => page (applyEdit e ids c b s)
  | EDelete e k => page (handleDeleteMessage e k s)
  | EClear e => page (handleClearMessages e s)
  | EStop now eager => page (stopGeneration now eager s)
  | ENet now eager e =>
      if from_network e then c ← ctl_step e (ctl s); Some (run_ctl now eager c s) else None
  | ESettle now eager g o =>
      c ← find_first (fun c => (call_gen c =? g)%Z) (calls s);
      if answers (call_image c) o
      then Some (settle_call now eager c o
             (set_calls (bfilter (fun c => negb (call_gen c =? g)%Z) (calls s)) s))
      else None
  | EFlush now eager =>
      match flushTimer (hook s) with
      | Some (g, true) => Some (flushStreamUpdates now eager g s)
      | _ => None
      end
  | ERender now => page (render_view now s)
  | ELoad now eager ms => if hasLoaded (view s) then None else page (load_messages now eager ms s)
  | ESave => if saveTimer (view s) then page (save_now s) else None
  | EUnmount now eager => page (unmount now eager s)
  end.

Definition chat_machine : Machine Chat chat_event :=
  {| initial s := s = new_chat; next := chat_step |}.
End handler.

Definition chat_reachable (t : jstr -> jstr) : Chat -> Prop := reaches (chat_machine t).
