(* ===== verification/ChatFacts.v ===== *)
(** * Facts about the playground conversation

    The invariant of [ChatHandler]: whatever is shown as being generated has a request
    that can still end it, and only the current request can change what is shown; how a
    generation ends; and the text that batched chunks add up to. *)

From S2P Require Import Prelude Machine JsString JsNumber Json PlaygroundMessages StreamController.
From S2P Require Import StreamFacts PlaygroundFacts ChatHandler.

(** ** What an event from the network does to the controller *)

(** The current request waits for its headers or has a source. *)
Definition open_now (c : Controller) : Prop :=
  generation c ∈ map fst (pending c) \/ is_Some (source c).

Definition terminal (o : output) : bool :=
  match o with OComplete _ | OError _ _ _ => true | _ => false end.

Definition streaming_after (b : bool) (l : list output) : bool :=
  foldl (fun b o => match o with OStreaming b' => b' | _ => b end) b l.

Record net_step (c c' : Controller) (l : list output) : Prop := {
  ns_out : out c' = out c ++ l;
  ns_gen : generation c' = generation c;
  ns_callback : forall o g, o ∈ l -> cb_gen o = Some g -> g = generation c /\ open_now c;
  ns_open : existsb terminal l = false -> open_now c -> open_now c';
  ns_was : open_now c' -> open_now c;
  ns_end : existsb terminal l = true -> ~ open_now c';
  ns_streaming : streaming_after (bool_decide (is_Some (source c))) l =
                 bool_decide (is_Some (source c')) }.

Lemma net_step_refl c : net_step c c [].
Proof. split; try done; [by rewrite app_nil_r|]. intros o g H. by apply elem_of_nil in H. Qed.

Lemma net_step_trans c1 c2 c3 l1 l2 :
  net_step c1 c2 l1 -> net_step c2 c3 l2 -> net_step c1 c3 (l1 ++ l2).
Proof.
  intros [O1 G1 C1 P1 W1 D1 S1] [O2 G2 C2 P2 W2 D2 S2]. split.
  - by rewrite O2, O1, app_assoc.
  - congruence.
  - intros o g [Ho | Ho]%elem_of_app Hg; [eauto|]. destruct (C2 o g Ho Hg) as [-> ?]. eauto.
  - rewrite existsb_app. intros [? ?]%orb_false_iff. auto.
  - auto.
  - rewrite existsb_app. intros [? | ?]%orb_true_iff ?; [by apply D1; auto|by apply D2].
  - unfold streaming_after in *. by rewrite foldl_app, S1.
Qed.

(** Output that is neither a callback nor a change of the streaming flag. *)
Lemma net_step_say c l :
  Forall (fun o => cb_gen o = None /\ match o with OStreaming _ => False | _ => True end) l ->
  net_step c (say l c) l.
Proof.
  intros Hl. rewrite Forall_forall in Hl. split; try done.
  - intros o g Ho Hg. destruct (Hl o Ho). congruence.
  - intros (o & Ho & Ht)%existsb_elem. destruct (Hl o Ho). by destruct o.
  - cbn [say source]. generalize (bool_decide (is_Some (source c))). unfold streaming_after.
    induction l as [|o l IH]; intros b; [done|]. simpl.
    destruct (Hl o) as [_ H]; [left|]. destruct o; try done; apply IH; intros; apply Hl; by right.
Qed.

Lemma net_step_finished c id l :
  generation c ∉ map fst (pending c) ->
  live id c = true -> Forall (fun o => cb_gen o = None \/ cb_gen o = Some (gen_of id c)) l ->
  existsb terminal l = true -> streaming_after true l = false ->
  net_step c (finished c id l) l.
Proof.
  intros Hp Hl Hcb Ht Hs. rewrite Forall_forall in Hcb. pose proof Hl as (s & _ & _ & Hsrc & _)%live_spec.
  assert (open_now c) as Ho by (right; by eexists). split; try done.
  - intros o g Hin Hg. rewrite <- (live_gen id c Hl). destruct (Hcb o Hin); split; congruence.
  - congruence.
  - intros _ [? | [? ?]]; done.
  - rewrite Hsrc. cbn [finished source]. rewrite bool_decide_true by by eexists. done.
Qed.

Lemma net_step_error id msg code c :
  generation c ∉ map fst (pending c) -> exists l, net_step c (handleError id msg code c) l.
Proof.
  intros Hp.
  destruct (live id c) eqn:Hl; [|unfold handleError; rewrite Hl; eauto using net_step_refl].
  rewrite handle_error_live by done. eexists. apply net_step_finished; [done|done| |done|done].
  repeat (apply Forall_cons; split; [by (left + right)|]). constructor.
Qed.

Lemma net_step_updates id c us :
  live id c = true ->
  net_step c (say (map (fun '(ty, chunk) => OUpdate (gen_of id c) ty chunk) us) c)
    (map (fun '(ty, chunk) => OUpdate (gen_of id c) ty chunk) us).
Proof.
  intros Hl. pose proof Hl as (s & _ & _ & Hsrc & _)%live_spec. split; try done.
  - intros o g ([ty ch] & _ & ->)%elem_of_lmap [= <-]. split; [by apply live_gen|]. right. by eexists.
  - intros (o & ([ty ch] & _ & ->)%elem_of_lmap & Ht)%existsb_elem. done.
  - cbn [say source]. rewrite Hsrc. induction us as [|[ty ch] us IH]; [done|exact IH].
Qed.

Lemma forget_pending g g' c :
  g' ∈ map fst (pending (forget g c)) <-> g' ∈ map fst (pending c) /\ g' <> g.
Proof.
  unfold forget. cbn [set_pending pending]. rewrite !elem_of_lmap. split.
  - intros ([x k] & [Hp Hn]%elem_of_bfilter & ->). simpl in *. split; [by exists (x, k)|lia].
  - intros [([x k] & Hp & ->) Hn]. exists (x, k). rewrite elem_of_bfilter. simpl in *. repeat split; auto. lia.
Qed.

Lemma net_step_forget g c : g <> generation c -> net_step c (forget g c) [].
Proof.
  intros Hg. assert (open_now (forget g c) <-> open_now c) as E.
  { unfold open_now. rewrite forget_pending. cbn. naive_solver. }
  split; try done; [by rewrite app_nil_r| |tauto|tauto]. intros o g' H. by apply elem_of_nil in H.
Qed.

Lemma net_step_headers g tokenId headers starts c :
  g ∈ map fst (pending c) -> exists l, net_step c (headers_ready g tokenId headers starts c) l.
Proof.
  intros Hg. unfold headers_ready. cbv zeta.
  destruct (decide (generation c = g)) as [<- | Hne];
    [|eexists; rewrite (proj2 (Z.eqb_neq _ _)) by done; by apply net_step_forget].
  cbn [forget set_pending generation]. rewrite Z.eqb_refl. cbn [negb].
  set (c3 := say [OStreaming true] _).
  assert (net_step c c3 [OOpen (length (srcs c)) (withPlaygroundTokenHeader headers tokenId); OStreaming true]) as H3.
  { split; try done.
    - cbn. by rewrite <- app_assoc.
    - intros o g [-> | [-> | []%elem_of_nil]%elem_of_cons]%elem_of_cons; done.
    - right. by eexists.
    - by left. }
  assert (generation c3 ∉ map fst (pending c3)) as Hp.
  { change (generation c3) with (generation c). change (pending c3) with (pending (forget (generation c) c)).
    rewrite forget_pending. tauto. }
  destruct starts.
  - eexists. eapply net_step_trans; [exact H3|]. apply net_step_say. by repeat constructor.
  - destruct (net_step_error (length (srcs c)) STREAM_START_ERROR None c3 Hp) as [l Hl].
    eexists. eapply net_step_trans; [exact H3|exact Hl].
Qed.

(** A request with a source does not wait for headers. *)
Lemma source_not_waiting c : ctl_ok c -> is_Some (source c) -> generation c ∉ map fst (pending c).
Proof.
  intros [H1 H2 H3 H4 H5 H6] [id Hid]. destruct (H3 id Hid) as (s & Hs & <- & _).
  unfold gens in H1. apply NoDup_app in H1 as (_ & Hn & _). intros Hp. apply (Hn _ Hp).
  apply elem_of_lmap. exists s. split; [by eapply list_elem_of_lookup_2|done].
Qed.

Lemma net_step_headers_failed g msg c :
  ctl_ok c -> g ∈ map fst (pending c) -> exists l, net_step c (headers_failed g msg c) l.
Proof.
  intros Hc Hg. unfold headers_failed. cbv zeta.
  destruct (decide (generation c = g)) as [<- | Hne];
    [|eexists; rewrite (proj2 (Z.eqb_neq _ _)) by done; by apply net_step_forget].
  cbn [forget set_pending generation]. rewrite Z.eqb_refl. cbn [negb].
  eexists. split; try done.
  - intros o g Ho%list_elem_of_singleton. subst. intros [= <-]. split; [done|by left].
  - by left.
  - intros _ [H | H]; [by apply forget_pending in H as [_ ?]|]. by apply (source_not_waiting c Hc H).
Qed.

Lemma net_step_of e c c' :
  ctl_ok c -> from_network e = true -> ctl_step e c = Some c' -> exists l, net_step c c' l.
Proof.
  intros Hok He Hs.
  assert (forall id, live id c = true -> generation c ∉ map fst (pending c)) as Hnw.
  { intros id (s & _ & _ & Hsrc & _)%live_spec. apply source_not_waiting; [done|by eexists]. }
  destruct e; try done; simpl in Hs.
  - apply bind_Some in Hs as (tok & Ht%pending_token_elem & [= <-]). by apply net_step_headers.
  - apply bind_Some in Hs as (tok & Ht%pending_token_elem & [= <-]). by apply net_step_headers_failed.
  - injection Hs as <-. unfold on_message. destruct (live id c) eqn:Hl; [|eauto using net_step_refl].
    cbn [negb]. cbv zeta. destruct (isStreamDoneMessage _).
    + rewrite done_live by done. eexists. apply net_step_finished; [by eapply Hnw|done| |done|done].
      repeat (apply Forall_cons; split; [by (left + right)|]). constructor.
    + destruct (parseStreamMessageUpdates _) as [us|]; [|by eapply net_step_error, Hnw].
      eexists. by apply net_step_updates.
  - injection Hs as <-. unfold on_error. destruct (live id c) eqn:Hl; [|eauto using net_step_refl]. cbn [negb].
    destruct (negb _); [|eauto using net_step_refl]. destruct (parseStreamErrorDetails _). by eapply net_step_error, Hnw.
  - injection Hs as <-. unfold on_ready_state. destruct (live id c) eqn:Hl; [|eauto using net_step_refl]. cbn [negb].
    destruct (getStreamReadyStateError _ _); [by eapply net_step_error, Hnw|eauto using net_step_refl].
Qed.

(** ** The two calls of the handler on the controller *)

Lemma send_start_effect tokenId c :
  exists l, out (send_start tokenId c) = out c ++ l /\ Forall (fun o => cb_gen o = None) l /\
    (forall b, streaming_after b l = false) /\
    generation (send_start tokenId c) = (generation c + 1)%Z /\ source (send_start tokenId c) = None /\
    open_now (send_start tokenId c).
Proof.
  unfold send_start. set (c1 := set_source None (set_generation (generation c + 1) c)).
  destruct (close_previous_same (source c) c1) as (E1 & E2 & E3 & E4).
  destruct (close_previous_out (source c) c1) as (l & Ho & Hn & _).
  exists (l ++ [OStreaming false]). cbn [set_pending say out generation source pending]. rewrite Ho, E1, E2.
  split; [by rewrite <- app_assoc|]. split; [apply Forall_app; by repeat constructor|].
  split; [intros b; unfold streaming_after; by rewrite foldl_app|]. split; [done|]. split; [done|].
  left. cbn [set_pending say generation pending]. rewrite E1, E3, map_app. apply elem_of_app. right. left.
Qed.

Lemma cancel_effect notify c :
  ctl_ok c ->
  exists l, out (cancel notify c) = out c ++ l /\ Forall (fun o => cb_gen o = None) l /\
    (notify = true -> forall b, streaming_after b l = false) /\
    generation (cancel notify c) = (generation c + 1)%Z /\ source (cancel notify c) = None /\
    ~ open_now (cancel notify c).
Proof.
  intros [_ Hle _ _ _ _]. unfold cancel. set (c1 := set_source None (set_generation (generation c + 1) c)).
  destruct (close_previous_same (source c) c1) as (E1 & E2 & E3 & E4).
  destruct (close_previous_out (source c) c1) as (l & Ho & Hn & _).
  assert (forall x, generation x = generation c1 -> source x = source c1 -> pending x = pending c1 ->
    ~ open_now x) as Hno.
  { intros x Hg Hs Hp. unfold open_now. rewrite Hg, Hs, Hp. cbn. intros [H | [? ?]]; [|done].
    unfold gens in Hle. rewrite Forall_app, Forall_forall in Hle. destruct Hle as [Hle _].
    apply Hle in H. lia. }
  assert (~ open_now (say [OStreaming false] (close_previous (source c) c1))) as N1 by by apply Hno.
  assert (~ open_now (close_previous (source c) c1)) as N2 by by apply Hno.
  destruct notify.
  - exists (l ++ [OStreaming false]). cbn [say out generation source]. rewrite Ho, E1, E2.
    split; [by rewrite <- app_assoc|]. split; [apply Forall_app; by repeat constructor|].
    split; [intros _ b; unfold streaming_after; by rewrite foldl_app|done].
  - exists l. rewrite Ho, E1, E2. done.
Qed.

Section chat.
Variable t : jstr -> jstr.
Implicit Types (s : Chat) (l : list output).

(** Output without callbacks only moves the streaming flag. *)
Lemma deliver_quiet now eager l s :
  Forall (fun o => cb_gen o = None) l ->
  foldl (fun s' o => deliver t now eager o s') s l = setIsStreaming (streaming_after (isStreaming s) l) s.
Proof.
  intros Hl. revert s. induction Hl as [|o l Ho _ IH]; intros s; [by destruct s|].
  simpl. rewrite IH. by destruct s, o.
Qed.

Lemma run_ctl_quiet now eager c s l :
  out c = out (ctl s) ++ l -> Forall (fun o => cb_gen o = None) l ->
  run_ctl t now eager c s = setIsStreaming (streaming_after (isStreaming s) l) (set_ctl c s).
Proof. intros Ho Hl. unfold run_ctl. by rewrite Ho, drop_app_length, deliver_quiet. Qed.

Lemma stopStream_eq now eager s :
  ctl_ok (ctl s) -> stopStream t now eager s = setIsStreaming false (set_ctl (cancel true (ctl s)) s).
Proof.
  intros (l & Ho & Hn & Hb & _)%(cancel_effect true). unfold stopStream.
  rewrite (run_ctl_quiet _ _ _ _ l) by done. by rewrite Hb.
Qed.

(** ** Invariant *)

(** What the handlers of a request leave alone. *)
Definition outside s :=
  (ctl s, owners s, aborted s, calls s, sent s, mounted s, editingKey s, gen s,
   abortController (hook s)).

Definition upd_gen (u : Update) : option Z :=
  match u with
  | UFlush g _ _ | UComplete g | UFail g _ _ _ | UChoices g _ | UImages g _ | UStopped g => Some g
  | USet _ | URemove _ | ULoaded _ => None
  end.

Definition queued_le (g : Z) (q : Queued) : Prop :=
  match q with QRun u => forall g', upd_gen u = Some g' -> (g' <= g)%Z | QDone _ => True end.

(** Chunks are those of the current generation and, when there are any, a timer is set
    to flush them. *)
Record inner_ok s : Prop := {
  in_chunks : mounted s = true <-> p_generation (chunks s) = gen s;
  in_timer : forall g a, flushTimer (hook s) = Some (g, a) -> mounted s = true -> g = gen s /\ a = true;
  in_armed : forall g, flushTimer (hook s) = Some (g, true) -> mounted s = true;
  in_text : mounted s = true -> p_content (chunks s) <> [] \/ p_reasoning (chunks s) <> [] ->
    is_Some (flushTimer (hook s));
  in_queue : Forall (queued_le (gen s)) (queue (view s)) }.

Record outer_ok s : Prop := {
  ou_ctl : ctl_ok (ctl s);
  ou_calls : NoDup (map call_gen (calls s));
  ou_call_le : Forall (fun c => (call_gen c <= gen s)%Z) (calls s);
  ou_current : forall c, c ∈ calls s -> call_gen c = gen s ->
    abortController (hook s) = Some (call_signal c) /\ aborted s !! call_signal c = Some false;
  ou_alone : forall c, c ∈ calls s -> call_gen c = gen s -> ~ open_now (ctl s);
  ou_owners : Forall (fun p => (fst p <= generation (ctl s))%Z /\ (snd p <= gen s)%Z) (owners s);
  ou_owner : open_now (ctl s) -> owner (generation (ctl s)) s = Some (gen s) }.

(** The flags the page shows: each has what will end it. *)
Record flags_ok s : Prop := {
  fl_streaming : mounted s = true -> isStreaming s = bool_decide (is_Some (source (ctl s)));
  fl_requesting : mounted s = true -> isRequesting (hook s) = true ->
    (exists c, c ∈ calls s /\ call_gen c = gen s) \/ open_now (ctl s);
  fl_open : mounted s = true -> open_now (ctl s) -> isRequesting (hook s) = true }.

Record chat_ok s : Prop := { ok_inner : inner_ok s; ok_outer : outer_ok s; ok_flags : flags_ok s }.

Lemma new_chat_ok : chat_ok new_chat.
Proof.
  assert (~ open_now new_controller) as Hno.
  { intros [H | [? ?]]; [by apply elem_of_nil in H|done]. }
  split; split; try done; try constructor; cbn in *; try naive_solver; try (intros; by apply elem_of_nil in H).
  apply new_controller_ok.
Qed.

(** ** The handlers of a request *)

Lemma dispatch_hook now eager u s :
  hook (dispatch now eager u s) = hook s /\ outside (dispatch now eager u s) = outside s /\
  isStreaming (dispatch now eager u s) = isStreaming s.
Proof. by destruct s. Qed.

Lemma dispatch_queue now eager u s :
  queue (view (dispatch now eager u s)) = queue (view s) ++ [QRun u] \/
  queue (view s) = [] /\ queue (view (dispatch now eager u s)) = [QDone (run_update now (gen s) u (shown (view s)))].
Proof.
  unfold dispatch. cbn [on_view view]. destruct (queue (view s)) as [|q qs] eqn:E; [|by left].
  destruct eager; [|by left]. right. split; [done|]. by unfold run_persisting.
Qed.

Lemma dispatch_inner now eager u s :
  inner_ok s -> (forall g, upd_gen u = Some g -> (g <= gen s)%Z) -> inner_ok (dispatch now eager u s).
Proof.
  intros [H1 H2 H3 H4 H5] Hu. split; try done.
  change (gen (dispatch now eager u s)) with (gen s).
  destruct (dispatch_queue now eager u s) as [-> | [_ ->]]; [|by repeat constructor].
  apply Forall_app. split; [done|]. by repeat constructor.
Qed.

Lemma inner_view s s' :
  hook s' = hook s -> mounted s' = mounted s -> queue (view s') = queue (view s) -> inner_ok s -> inner_ok s'.
Proof.
  unfold chunks. intros Hh Hm Hq [H1 H2 H3 H4 H5]. unfold gen, chunks in *.
  split; unfold gen, chunks; rewrite ?Hh, ?Hm, ?Hq; done.
Qed.

Lemma flush_inner now eager g s : inner_ok s -> inner_ok (flushStreamUpdates now eager g s).
Proof.
  intros H. pose proof H as [H1 H2 H3 H4 H5]. unfold flushStreamUpdates.
  destruct (g =? gen s)%Z eqn:Eg; [|done]. apply Z.eqb_eq in Eg as ->. cbn [negb].
  change (chunks (set_timer None s)) with (chunks s).
  destruct (p_generation (chunks s) =? gen s)%Z eqn:Ep; cbn [negb].
  - destruct (negb _ && negb _) eqn:Et.
    + apply andb_true_iff in Et as [Et1 Et2]. apply negb_true_iff, truthy_false in Et1, Et2.
      split; try done. cbn. unfold chunks in *. intros _ [? | ?]; congruence.
    + apply Z.eqb_eq in Ep. apply dispatch_inner; [|intros ? [= <-]; done].
      split; try done; cbn; [tauto|]. intros _ [? | ?]; done.
  - split; try done. cbn. intros Hm _. apply Z.eqb_neq in Ep. unfold chunks in *. tauto.
Qed.

Lemma flush_outside now eager g s :
  outside (flushStreamUpdates now eager g s) = outside s /\
  isStreaming (flushStreamUpdates now eager g s) = isStreaming s /\
  isRequesting (hook (flushStreamUpdates now eager g s)) = isRequesting (hook s).
Proof. unfold flushStreamUpdates. cbv zeta. by cases. Qed.

Lemma update_inner g ty chunk s : inner_ok s -> inner_ok (handleStreamUpdate g ty chunk s).
Proof.
  intros H. pose proof H as [H1 H2 H3 H4 H5]. unfold handleStreamUpdate, scheduleStreamFlush.
  destruct (g =? gen s)%Z eqn:Eg; [|done]. apply Z.eqb_eq in Eg as ->. cbn [negb]. cbv zeta.
  destruct (p_generation (chunks s) =? gen s)%Z eqn:Ep; [|done]. cbn [negb].
  change (gen (set_chunks _ s)) with (gen s). rewrite Z.eqb_refl. cbn [negb].
  change (flushTimer (hook (set_chunks _ s))) with (flushTimer (hook s)). apply Z.eqb_eq in Ep.
  destruct (flushTimer (hook s)) as [[g0 a0]|] eqn:Ef; split; try done; cbn; rewrite ?Ef in *; try done;
    try (by destruct ty); try (intros; by eexists); naive_solver.
Qed.

Lemma outside_gen s s' : outside s' = outside s -> gen s' = gen s /\ mounted s' = mounted s /\ owners s' = owners s.
Proof. unfold outside. intros [=]. auto. Qed.

Lemma set_requesting_inner b s : inner_ok s -> inner_ok (setIsRequesting b s).
Proof. intros [H1 H2 H3 H4 H5]. by split. Qed.

Lemma set_requesting_outside b s :
  outside (setIsRequesting b s) = outside s /\ isStreaming (setIsRequesting b s) = isStreaming s.
Proof. by destruct s. Qed.

(** The end of a request, shared by its three handlers: the batched text goes first. *)
Lemma ended_effect now eager u f s :
  (forall x, hook (f x) = hook x /\ view (f x) = view x /\ outside (f x) = outside x /\
             isStreaming (f x) = isStreaming x) ->
  inner_ok s -> upd_gen u = Some (gen s) ->
  let s' := dispatch now eager u (f (setIsRequesting false (flushStreamUpdates now eager (gen s) s))) in
  inner_ok s' /\ outside s' = outside s /\ isStreaming s' = isStreaming s /\ isRequesting (hook s') = false.
Proof.
  intros Hf Hs Hu. destruct (flush_outside now eager (gen s) s) as (F1 & F2 & F3).
  set (s1 := setIsRequesting false (flushStreamUpdates now eager (gen s) s)).
  destruct (Hf s1) as (E1 & E2 & E3 & E4). destruct (dispatch_hook now eager u (f s1)) as (D1 & D2 & D3).
  assert (outside s1 = outside s) as Ho by (rewrite <- F1; apply set_requesting_outside).
  destruct (outside_gen _ _ (eq_trans E3 Ho)) as (Hg & Hm & _).
  cbv zeta. rewrite D1, D2, D3, E1, E3, E4. split; [|split; [done|by rewrite <- F2]].
  apply dispatch_inner; [|intros g; rewrite Hu, Hg; intros [= <-]; done].
  apply (inner_view s1); [done| |by rewrite E2|]; [by apply outside_gen in E3 as (_ & ? & _)|].
  by apply set_requesting_inner, flush_inner.
Qed.

Lemma complete_effect now eager s :
  inner_ok s ->
  let s' := handleStreamComplete now eager (gen s) s in
  inner_ok s' /\ outside s' = outside s /\ isStreaming s' = isStreaming s /\ isRequesting (hook s') = false.
Proof.
  intros Hs. unfold handleStreamComplete. rewrite Z.eqb_refl. cbn [negb].
  by apply (ended_effect now eager (UComplete (gen s)) (fun x => x)).
Qed.

Lemma error_effect now eager msg code s :
  inner_ok s ->
  let s' := handleStreamError t now eager (gen s) msg code s in
  inner_ok s' /\ outside s' = outside s /\ isStreaming s' = isStreaming s /\ isRequesting (hook s') = false.
Proof.
  intros Hs. unfold handleStreamError. rewrite Z.eqb_refl. cbn [negb]. cbv zeta.
  by apply (ended_effect now eager (UFail (gen s) _ _ _) (toast_error (getDisplayError t msg))).
Qed.

Lemma update_outside g ty chunk s :
  outside (handleStreamUpdate g ty chunk s) = outside s /\
  isStreaming (handleStreamUpdate g ty chunk s) = isStreaming s /\
  isRequesting (hook (handleStreamUpdate g ty chunk s)) = isRequesting (hook s).
Proof. unfold handleStreamUpdate, scheduleStreamFlush. cbv zeta. destruct ty; by cases. Qed.

Lemma deliver_effect now eager o s :
  inner_ok s -> (forall cg, cb_gen o = Some cg -> owner cg s = Some (gen s)) ->
  let s' := deliver t now eager o s in
  inner_ok s' /\ outside s' = outside s /\ isStreaming s' = streaming_after (isStreaming s) [o] /\
  isRequesting (hook s') = if terminal o then false else isRequesting (hook s).
Proof.
  intros Hs Ho. destruct o as [cg ty ch|cg|cg msg code| b | | |]; cbn [deliver terminal];
    try (by split); try (rewrite (Ho cg) by done).
  - split; [by apply update_inner|apply update_outside].
  - by apply complete_effect.
  - by apply error_effect.
  - split; [|by destruct s]. destruct Hs as [H1 H2 H3 H4 H5]. by split.
Qed.

Lemma delivered_effect now eager l s :
  inner_ok s -> (forall o cg, o ∈ l -> cb_gen o = Some cg -> owner cg s = Some (gen s)) ->
  let s' := foldl (fun s' o => deliver t now eager o s') s l in
  inner_ok s' /\ outside s' = outside s /\ isStreaming s' = streaming_after (isStreaming s) l /\
  isRequesting (hook s') = if existsb terminal l then false else isRequesting (hook s).
Proof.
  cbv zeta. revert s. induction l as [|o l IH]; intros s Hs Ho; [done|]. simpl.
  destruct (deliver_effect now eager o s Hs) as (D1 & D2 & D3 & D4); [intros; apply (Ho o); [left|done]|].
  destruct (outside_gen _ _ D2) as (Dg & _ & Dw).
  destruct (IH (deliver t now eager o s) D1) as (I1 & I2 & I3 & I4).
  - intros o' cg Hin Hcg. unfold owner. rewrite Dw, Dg. apply (Ho o'); [by right|done].
  - split; [done|]. split; [by rewrite I2|]. rewrite I3, D3, I4, D4. split; [done|].
    destruct (terminal o), (existsb terminal l); done.
Qed.

(** ** Every step keeps the invariant *)

Lemma net_outer c l s :
  outer_ok s -> net_step (ctl s) c l -> ctl_ok c -> outer_ok (set_ctl c s).
Proof.
  intros [O1 O2 O3 O4 Oa O5 O6] [N1 N2 N3 N4 N5 Ne N6] Hc. split; try done.
  - intros c0 H1 H2 H3. by apply (Oa c0 H1 H2), N5.
  - cbn [ctl set_ctl on_net]. by rewrite N2.
  - cbn [ctl set_ctl on_net]. rewrite N2. intros H. by apply O6, N5.
Qed.

Lemma outer_outside s s' : outside s' = outside s -> outer_ok s -> outer_ok s'.
Proof.
  unfold outside. intros [= E1 E2 E3 E4 E5 E6 E7 E8 E9] [O1 O2 O3 O4 Oa O5 O6].
  split; unfold owner in *; rewrite ?E1, ?E2, ?E3, ?E4, ?E8, ?E9; done.
Qed.

Lemma net_ok now eager e c s :
  from_network e = true -> ctl_step e (ctl s) = Some c -> chat_ok s -> chat_ok (run_ctl t now eager c s).
Proof.
  intros He Hc [Hin Hou Hfl]. destruct (net_step_of e _ _ (ou_ctl s Hou) He Hc) as [l Hl].
  assert (ctl_ok c) as Hcok by (eapply ctl_step_ok; [exact Hc|apply Hou]).
  pose proof (net_outer c l s Hou Hl Hcok) as Hou'. pose proof Hl as [N1 N2 N3 N4 N5 Ne N6].
  unfold run_ctl. rewrite N1, drop_app_length.
  destruct (delivered_effect now eager l (set_ctl c s)) as (D1 & D2 & D3 & D4).
  { by apply (inner_view s). }
  { intros o cg Ho Hg. destruct (N3 o cg Ho Hg) as [-> Hopen]. by apply (ou_owner s Hou). }
  revert D1 D2 D3 D4. generalize (foldl (fun s' o => deliver t now eager o s') (set_ctl c s) l). intros s' D1 D2 D3 D4.
  split; [done|by apply (outer_outside (set_ctl c s))|].
  unfold outside in D2. injection D2 as E1 E2 E3 E4 E5 E6 E7 E8 E9. destruct Hfl as [F1 F2 F3].
  split; rewrite E6; intros Hm.
  - rewrite D3, E1. cbn [set_ctl on_net isStreaming ctl]. by rewrite (F1 Hm).
  - rewrite D4, E1, E4, E8. destruct (existsb terminal l); [done|]. intros Hr.
    destruct (F2 Hm Hr) as [? | ?]; [by left|]. right. by apply N4.
  - rewrite D4, E1. intros Hop. destruct (existsb terminal l); [by destruct Ne|]. apply (F3 Hm), N5, Hop.
Qed.

Lemma queued_le_mono g g' (q : list Queued) :
  (g <= g')%Z -> Forall (queued_le g) q -> Forall (queued_le g') q.
Proof.
  intros Hg Hq. eapply Forall_impl; [exact Hq|]. intros [u|ms]; [|done]. intros Hu x Hx. specialize (Hu x Hx). lia.
Qed.

(** A new generation with nothing pending, the page mounted. *)
Lemma fresh_inner g s s' :
  inner_ok s -> mounted s' = true -> (gen s <= g)%Z -> gen s' = g -> chunks s' = no_chunks g ->
  flushTimer (hook s') = None -> queue (view s') = queue (view s) -> inner_ok s'.
Proof.
  intros [H1 H2 H3 H4 H5] Hm Hg Eg Ec Ef Eq. split; rewrite ?Eg, ?Ec, ?Ef, ?Eq; cbn; try done.
  - by intros _ [? | ?].
  - by apply (queued_le_mono (gen s)).
Qed.

(** The calls and owners of earlier generations stay below a new one. *)
Lemma older_calls s g :
  outer_ok s -> (gen s < g)%Z ->
  Forall (fun c => (call_gen c <= g)%Z) (calls s) /\ (forall c, c ∈ calls s -> call_gen c <> g) /\
  Forall (fun p => (fst p <= generation (ctl s))%Z /\ (snd p <= g)%Z) (owners s).
Proof.
  intros [O1 O2 O3 O4 Oa O5 O6] Hg. split; [|split].
  - eapply Forall_impl; [exact O3|]. simpl. lia.
  - intros c Hc. rewrite Forall_forall in O3. specialize (O3 c Hc). simpl in O3. lia.
  - eapply Forall_impl; [exact O5|]. simpl. lia.
Qed.

Lemma owners_ctl (g1 g2 g : Z) (ow : list (Z * Z)) :
  (g1 <= g2)%Z -> Forall (fun p => (fst p <= g1)%Z /\ (snd p <= g)%Z) ow ->
  Forall (fun p => (fst p <= g2)%Z /\ (snd p <= g)%Z) ow.
Proof. intros Hg Ho. eapply Forall_impl; [exact Ho|]. simpl. lia. Qed.

Lemma abort_current_same s :
  hook (abort_current s) = hook s /\ view (abort_current s) = view s /\ ctl (abort_current s) = ctl s /\
  owners (abort_current s) = owners s /\ calls (abort_current s) = calls s /\
  isStreaming (abort_current s) = isStreaming s /\ mounted (abort_current s) = mounted s.
Proof. unfold abort_current. by destruct (abortController (hook s)). Qed.

Lemma streaming_ok now eager cfg enabled ms s :
  mounted s = true -> chat_ok s -> chat_ok (sendStreamingChat t now eager cfg enabled ms s).
Proof.
  intros Hm [Hin Hou Hfl]. unfold sendStreamingChat. cbv zeta.
  set (g := (gen s + 1)%Z).
  destruct (abort_current_same (set_generation_ref g s)) as (A1 & A2 & A3 & A4 & A5 & A6 & A7).
  set (s1 := abort_current (set_generation_ref g s)) in *.
  destruct (send_start_effect (selectedTokenId cfg) (ctl s)) as (l & Ho & Hn & Hb & Hg & Hsrc & Hop).
  cbn in A3, A4, A5, A7.
  match goal with |- context [run_ctl t now eager _ ?x] => set (s4 := x) end.
  assert (ctl s4 = ctl s) as E4 by exact A3.
  rewrite (run_ctl_quiet _ _ _ s4 l) by (by rewrite ?E4). rewrite Hb, E4.
  destruct (older_calls s g Hou) as (C1 & C2 & C3); [lia|].
  assert (ctl_ok (send_start (selectedTokenId cfg) (ctl s))) as Hc by apply send_start_ok, Hou.
  revert Hc Hg Hsrc Hop. generalize (send_start (selectedTokenId cfg) (ctl s)). intros c' Hc Hg Hsrc Hop.
  split.
  - eapply (fresh_inner g s); [done|cbn; by rewrite A7| | | | |]; try done; cbn; try lia; [by rewrite A1|by rewrite A2].
  - split; unfold gen; cbn; rewrite ?A1, ?A3, ?A4, ?A5, ?Hg; cbn.
    + done.
    + apply Hou.
    + done.
    + intros c Hin2 Ec. by destruct (C2 c Hin2).
    + intros c Hin2 Ec. by destruct (C2 c Hin2).
    + constructor; [cbn; lia|]. by apply (owners_ctl (generation (ctl s))); [lia|].
    + intros _. unfold owner. cbn. by rewrite ?A3, Z.eqb_refl.
  - split; cbn; rewrite ?Hsrc; [done| |done]. intros _ _. by right.
Qed.

Lemma call_ok now eager image r s :
  mounted s = true -> chat_ok s -> chat_ok (start_call t now eager image r s).
Proof.
  intros Hm [Hin Hou Hfl]. unfold start_call. cbv zeta.
  set (g := (gen s + 1)%Z). rewrite stopStream_eq by apply Hou.
  match goal with |- context [abort_current ?x] => set (s2 := x) end.
  destruct (abort_current_same s2) as (A1 & A2 & A3 & A4 & A5 & A6 & A7).
  set (s3 := abort_current s2) in *.
  destruct (cancel_effect true (ctl s)) as (l & Ho & Hn & Hb & Hg & Hsrc & Hop); [apply Hou|].
  destruct (older_calls s g Hou) as (C1 & C2 & C3); [lia|]. cbn in A4, A5, A6, A7.
  change (ctl s2) with (cancel true (ctl s)) in A3.
  assert (ctl_ok (cancel true (ctl s))) as Hc by apply cancel_ok, Hou.
  revert A3 Hc Hg Hsrc Hop. generalize (cancel true (ctl s)). intros c' A3 Hc Hg Hsrc Hop.
  split.
  - eapply (fresh_inner g s); [done|cbn; by rewrite A7| | | | |]; try done; unfold gen, chunks; cbn;
      rewrite ?A1, ?A2; cbn; try done. unfold g, gen; lia.
  - split; unfold gen; cbn; rewrite ?A1, ?A3, ?A4, ?A5, ?Hg; cbn.
    + done.
    + rewrite map_app. apply NoDup_app. split; [apply Hou|]. split; [|apply NoDup_singleton].
      intros x (c & Hin2 & ->)%elem_of_lmap Hx%list_elem_of_singleton. by destruct (C2 c Hin2).
    + apply Forall_app. split; [done|]. by repeat constructor.
    + intros c [Hin2 | Hin2]%elem_of_app Ec; [by destruct (C2 c Hin2)|].
      apply list_elem_of_singleton in Hin2 as ->. split; [done|]. cbn. by rewrite lookup_app_r, Nat.sub_diag by done.
    + done.
    + by apply (owners_ctl (generation (ctl s))); [lia|].
    + done.
  - split; cbn; rewrite ?A3, ?A6, ?Hsrc; [done| |done]. intros _ _. left.
    eexists. split; [rewrite elem_of_app; right; left|]. unfold gen. cbn. by rewrite A1.
Qed.

Lemma dispatch_ok now eager u s :
  chat_ok s -> (forall g, upd_gen u = Some g -> (g <= gen s)%Z) -> chat_ok (dispatch now eager u s).
Proof.
  intros [Hin Hou [F1 F2 F3]] Hu. split; [by apply dispatch_inner|by apply (outer_outside s)|by split].
Qed.

Lemma stop_ok now eager s : mounted s = true -> chat_ok s -> chat_ok (stopGeneration t now eager s).
Proof.
  intros Hm [Hin Hou Hfl]. unfold stopGeneration. cbv zeta.
  pose proof (flush_inner now eager (gen s) s Hin) as Hin1.
  destruct (flush_outside now eager (gen s) s) as (F1 & _ & _).
  pose proof (outer_outside _ _ F1 Hou) as Hou1. pose proof (outside_gen _ _ F1) as (Eg & Em & _).
  revert Hin1 Hou1 Eg Em. generalize (flushStreamUpdates now eager (gen s) s). intros s1 Hin1 Hou1 Eg Em.
  rewrite <- Eg, stopStream_eq by apply Hou1. set (g := (gen s1 + 1)%Z).
  match goal with |- context [abort_current ?x] => set (s3 := x) end.
  destruct (abort_current_same s3) as (A1 & A2 & A3 & A4 & A5 & A6 & A7).
  destruct (cancel_effect true (ctl s1)) as (l & _ & _ & _ & Hg & Hsrc & Hop); [apply Hou1|].
  change (ctl s3) with (cancel true (ctl s1)) in A3.
  assert (ctl_ok (cancel true (ctl s1))) as Hc by apply cancel_ok, Hou1.
  revert A3 Hc Hg Hsrc Hop. generalize (cancel true (ctl s1)). intros c' A3 Hc Hg Hsrc Hop.
  destruct (older_calls s1 g Hou1) as (C1 & C2 & C3); [lia|]. cbn in A4, A5, A6, A7.
  apply dispatch_ok; [|intros g' [= <-]; unfold gen; cbn; by rewrite A1].
  split.
  - eapply (fresh_inner g s1); [done|cbn; by rewrite A7, Em| | | | |]; try done; unfold gen, chunks; cbn;
      rewrite ?A1, ?A2; cbn; try done. unfold g, gen; lia.
  - split; unfold gen; cbn; rewrite ?A1, ?A3, ?A4, ?A5, ?Hg; cbn; try done.
    + apply Hou1.
    + intros c Hin2 Ec. by destruct (C2 c Hin2).
    + by apply (owners_ctl (generation (ctl s1))); [lia|].
  - split; cbn; rewrite ?A3, ?A6, ?Hsrc; done.
Qed.

Lemma finish_effect now eager o s :
  inner_ok s ->
  let s' := finish_call t now eager (gen s) o s in
  inner_ok s' /\ outside s' = outside s /\ isStreaming s' = isStreaming s.
Proof.
  intros Hs. destruct (error_effect now eager API_REQUEST_ERROR None s Hs) as (E1 & E2 & E3 & _).
  destruct o as [choices|images|error]; cbn [finish_call]; cbv zeta.
  - destruct (negb _); [done|]. split; [by apply dispatch_inner; [|intros ? [= <-]]|done].
  - destruct (negb _); [done|]. split; [by apply dispatch_inner; [|intros ? [= <-]]|done].
  - destruct (parseRequestErrorDetails error) as [code msg].
    destruct (error_effect now eager msg code s Hs) as (? & ? & ? & _). done.
Qed.

Lemma settled_calls g s (cs := bfilter (fun c => negb (call_gen c =? g)%Z) (calls s)) :
  outer_ok s -> outer_ok (set_calls cs s) /\ forall c, c ∈ cs <-> c ∈ calls s /\ call_gen c <> g.
Proof.
  assert (forall c, c ∈ cs <-> c ∈ calls s /\ call_gen c <> g) as E.
  { intros c. unfold cs. rewrite elem_of_bfilter, negb_true_iff, Z.eqb_neq. done. }
  intros [O1 O2 O3 O4 Oa O5 O6]. split; [|done]. split; try done; cbn.
  - by apply NoDup_map_filter.
  - rewrite Forall_forall in *. intros c [? ?]%E. auto.
  - intros c [? ?]%E. auto.
  - intros c [? ?]%E. by apply Oa.
Qed.

Lemma settle_call_ok now eager c o s :
  c ∈ calls s -> chat_ok s ->
  chat_ok (settle_call t now eager c o
    (set_calls (bfilter (fun c' => negb (call_gen c' =? call_gen c)%Z) (calls s)) s)).
Proof.
  intros Hcs [Hin Hou [F1 F2 F3]]. destruct (settled_calls (call_gen c) s Hou) as [Hou' Hel].
  set (cs := bfilter _ _) in *. unfold settle_call. cbv zeta.
  assert (inner_ok (set_calls cs s)) as Hin' by by apply (inner_view s).
  change (gen (set_calls cs s)) with (gen s).
  destruct (decide (gen s = call_gen c)) as [Eg | Ng].
  - destruct (ou_current s Hou c Hcs (eq_sym Eg)) as [_ Hab].
    unfold is_aborted. cbn [set_calls on_net aborted]. rewrite Hab. rewrite (proj2 (Z.eqb_eq _ _) Eg).
    change (default false (Some false) || negb true) with false. cbv iota. rewrite <- Eg.
    destruct (finish_effect now eager o (set_calls cs s) Hin') as (E1 & E2 & E3).
    change (gen (set_calls cs s)) with (gen s) in *. revert E1 E2 E3.
    generalize (finish_call t now eager (gen s) o (set_calls cs s)). intros s1 E1 E2 E3.
    destruct (outside_gen _ _ E2) as (G1 & G2 & _). rewrite G1. change (gen (set_calls cs s)) with (gen s).
    rewrite Z.eqb_refl. pose proof (outer_outside _ _ E2 Hou') as [P1 P2 P3 P4 Pa P5 P6].
    unfold outside in E2. injection E2 as X1 X2 X3 X4 X5 X6 X7 X8 X9. cbn in X4.
    assert (forall c', c' ∈ calls s1 -> call_gen c' <> gen s1) as Hnone.
    { rewrite X4. intros c' [_ Hn]%Hel. rewrite X8. change (gen (set_calls cs s)) with (gen s). congruence. }
    split; [by apply set_requesting_inner; destruct E1; split| |].
    + split; try done; intros c' Hc' Eg'; by destruct (Hnone c').
    + split; cbn; [|done|].
      * rewrite E3, X1, X6. cbn. done.
      * rewrite X1, X6. cbn. intros _ Hop. by destruct (ou_alone s Hou c Hcs).
  - rewrite (proj2 (Z.eqb_neq _ _) Ng). rewrite orb_true_r. change (gen (set_calls cs s)) with (gen s).
    rewrite (proj2 (Z.eqb_neq _ _) Ng). split; [done|done|]. split; [done| |done]. cbn.
    intros Hm Hr. destruct (F2 Hm Hr) as [(c' & Hc' & Hg') | ?]; [|by right]. left. exists c'. rewrite Hel.
    unfold gen. cbn. split; [split; [done|]|done]. unfold gen in *. congruence.
Qed.

Lemma unmount_ok now eager s : mounted s = true -> chat_ok s -> chat_ok (unmount t now eager s).
Proof.
  intros Hm [Hin Hou Hfl]. unfold unmount. cbv zeta.
  set (s1 := if saveTimer (view s) then save_now s else s).
  assert (hook s1 = hook s /\ outside s1 = outside s /\ queue (view s1) = queue (view s)) as (H1 & O1 & Q1).
  { unfold s1. destruct (saveTimer (view s)); by destruct s. }
  pose proof (outer_outside _ _ O1 Hou) as Hou1.
  assert (inner_ok s1) as Hin1 by (apply (inner_view s); [done|apply (outside_gen _ _ O1)|done|done]).
  assert (mounted s1 = true) as Hm1 by (rewrite <- Hm; apply (outside_gen _ _ O1)).
  clearbody s1. clear H1 O1 Q1 Hm Hin Hou Hfl s. rename s1 into s.
  destruct (cancel_effect false (ctl s)) as (l & Ho & Hn & _ & Hg & Hsrc & Hop); [apply Hou1|].
  rewrite (run_ctl_quiet _ _ _ s l) by done.
  assert (ctl_ok (cancel false (ctl s))) as Hc by apply cancel_ok, Hou1.
  revert Hc Hg Hsrc Hop. generalize (cancel false (ctl s)). intros c' Hc Hg Hsrc Hop.
  destruct (older_calls s (gen s + 1) Hou1) as (C1 & C2 & C3); [lia|].
  match goal with |- context [abort_current ?x] => set (s4 := x) end.
  destruct (abort_current_same s4) as (A1 & A2 & A3 & A4 & A5 & A6 & A7).
  assert (gen s4 = (gen s + 1)%Z /\ chunks s4 = chunks s /\ view s4 = view s /\ ctl s4 = c' /\
    owners s4 = owners s /\ calls s4 = calls s /\
    (forall g, flushTimer (hook s4) <> Some (g, true))) as (B1 & B2 & B3 & B4 & B5 & B6 & B7).
  { unfold s4. cbn. destruct (flushTimer (hook s)) as [[g a]|] eqn:Ef; cbn; [done|]. unfold gen. cbn. by rewrite Ef. }
  unfold gen, chunks in B1, B2. rewrite B3 in A2. rewrite B4 in A3. rewrite B5 in A4. rewrite B6 in A5.
  pose proof Hin1 as [I1 I2 I3 I4 I5]. unfold gen, chunks in I1.
  split.
  - split; unfold gen, chunks; cbn; rewrite ?A1, ?A2, ?B1, ?B2; cbn; try done.
    + split; [done|]. intros E. exfalso. rewrite (proj1 I1 Hm1) in E. lia.
    + intros g Ef. by destruct (B7 g).
    + apply (queued_le_mono (gen s)); [unfold gen; lia|done].
  - split; unfold gen; cbn; rewrite ?A1, ?A3, ?A4, ?A5, ?B1, ?Hg; cbn; try done.
    + apply Hou1.
    + intros c Hin2 Ec. by destruct (C2 c Hin2).
    + by apply (owners_ctl (generation (ctl s))); [lia|].
  - by split; cbn.
Qed.

Lemma drain_queue now g q ms v : queue (snd (drain now g q ms v)) = queue v.
Proof.
  revert ms v. induction q as [|[u|ms'] q IH]; intros ms v; [done| |apply IH].
  simpl. rewrite IH. by destruct (persists u).
Qed.

Lemma render_ok now s : chat_ok s -> chat_ok (render_view now s).
Proof.
  intros [Hin Hou [F1 F2 F3]]. unfold render_view.
  assert (inner_ok (on_view (fun v => set_queue [] v) s)) as H0.
  { destruct Hin as [H1 H2 H3 H4 H5]. split; try done. }
  split; [|by apply (outer_outside s)|by split].
  eapply inner_view; [| | |exact H0]; try done. cbn. by destruct (drain _ _ _ _ _).
Qed.

Lemma send_ok now eager cfg enabled ms s :
  mounted s = true -> chat_ok s -> chat_ok (sendChat t now eager cfg enabled ms s).
Proof.
  intros Hm Hs. unfold sendChat. destruct (isImageGenerationModel _); [by apply call_ok|].
  destruct (cfg_stream cfg); [by apply streaming_ok|by apply call_ok].
Qed.

Lemma send_messages_ok e ms s : mounted s = true -> chat_ok s -> chat_ok (send_messages t e ms s).
Proof. intros Hm Hs. apply send_ok; [done|]. by apply dispatch_ok. Qed.

Lemma editing_ok k s : chat_ok s -> chat_ok (setEditingMessageKey k s).
Proof.
  intros [[I1 I2 I3 I4 I5] [O1 O2 O3 O4 Oa O5 O6] [F1 F2 F3]]. by split; split.
Qed.

Lemma chat_step_ok ev s s' : chat_step t ev s = Some s' -> chat_ok s -> chat_ok s'.
Proof.
  intros Hs Hok.
  assert (forall x, (if mounted s then Some x else None) = Some s' -> mounted s = true /\ x = s') as Hpage.
  { intros x. by destruct (mounted s); [intros [= ->]|]. }
  destruct ev; cbn [chat_step] in Hs; try (apply Hpage in Hs as [Hm <-]).
  - by apply send_messages_ok.
  - unfold handleRegenerateMessage. destruct (createRegeneratedMessages _ _ _ _); [by apply send_messages_ok|done].
  - by apply editing_ok.
  - unfold applyEdit. destruct (editingKey s) as [k|]; [|done]. destruct (negb _); [done|].
    destruct (applyMessageEdit _ _ _ _ _ _) as [[ms b]|]; [|done]. cbv zeta.
    pose proof (editing_ok None s Hok). destruct b; [by apply send_messages_ok|by apply dispatch_ok].
  - by apply dispatch_ok.
  - apply dispatch_ok; [by apply editing_ok|done].
  - by apply stop_ok.
  - destruct (from_network e) eqn:He; [|done]. apply bind_Some in Hs as (c & Hc & [= <-]). by apply (net_ok _ _ e).
  - apply bind_Some in Hs as (c & [Hg Hc]%find_first_Some & Hs). apply Z.eqb_eq in Hg as <-.
    destruct (answers _ _); [|done]. injection Hs as <-. by apply settle_call_ok.
  - destruct (flushTimer (hook s)) as [[g [|]]|] eqn:Ef; try done. injection Hs as <-.
    destruct (flush_outside now eager g s) as (F1 & F2 & F3). destruct Hok as [Hin Hou [L1 L2 L3]].
    split; [by apply flush_inner|by apply (outer_outside s)|].
    unfold outside in F1. injection F1 as X1 X2 X3 X4 X5 X6 X7 X8 X9. split; rewrite ?F2, ?F3, ?X1, ?X4, ?X6, ?X8; done.
  - by apply render_ok.
  - destruct (hasLoaded (view s)); [done|]. apply Hpage in Hs as [Hm <-]. apply dispatch_ok; [|done].
    destruct Hok as [Hin Hou [L1 L2 L3]]. split; [by apply (inner_view s)|by apply (outer_outside s)|by split].
  - destruct (saveTimer (view s)); [|done]. apply Hpage in Hs as [Hm <-].
    destruct Hok as [Hin Hou [L1 L2 L3]]. split; [by apply (inner_view s)|by apply (outer_outside s)|by split].
  - by apply unmount_ok.
Qed.

Lemma chat_reachable_ok s : chat_reachable t s -> chat_ok s.
Proof.
  apply reaches_invariant; [intros ? ->; apply new_chat_ok|]. intros e s1 s2. apply chat_step_ok.
Qed.

(** ** Only the current request is seen *)

(** The request an event answers, by the generation it was sent for. *)
Definition ctl_request (e : ctl_event) (c : Controller) : option Z :=
  match e with
  | CHeaders g _ _ | CHeadersFailed g _ => Some g
  | CMessage id _ | CError id _ _ | CReadyState id _ _ => src_gen <$> srcs c !! id
  | CSend _ | CStop | CDispose => None
  end.

Definition request_of (ev : chat_event) s : option Z :=
  match ev with
  | ENet _ _ e => cg ← ctl_request e (ctl s); owner cg s
  | ESettle _ _ g _ => Some g
  | _ => None
  end.

(** What the user can see, now or after a render, and what is going to be saved. *)
Definition seen s := (view s, hook s, isStreaming s, toasts s).

Lemma ctl_stale e c c' cg :
  ctl_step e c = Some c' -> ctl_request e c = Some cg -> ~ (cg = generation c /\ open_now c) ->
  out c' = out c.
Proof.
  intros Hs Hr Hn.
  assert (forall id, src_gen <$> srcs c !! id = Some cg -> live id c = false) as Hdead.
  { intros id Hid. apply not_true_iff_false. intros (s & Hl & Hg & Hsrc & _)%live_spec.
    rewrite Hl in Hid. injection Hid as <-. apply Hn. split; [done|]. right. by eexists. }
  assert (cg ∈ map fst (pending c) -> (generation c =? cg)%Z = false) as Hlate.
  { intros Hp. apply Z.eqb_neq. intros E. subst cg. apply Hn. split; [done|by left]. }
  destruct e; simpl in Hr, Hs; try done.
  - apply bind_Some in Hs as (tok & Ht%pending_token_elem & [= <-]). injection Hr as ->.
    unfold headers_ready. cbn [forget set_pending generation]. by rewrite Hlate.
  - apply bind_Some in Hs as (tok & Ht%pending_token_elem & [= <-]). injection Hr as ->.
    unfold headers_failed. cbn [forget set_pending generation]. by rewrite Hlate.
  - injection Hs as <-. unfold on_message. by rewrite Hdead.
  - injection Hs as <-. unfold on_error. by rewrite Hdead.
  - injection Hs as <-. unfold on_ready_state. by rewrite Hdead.
Qed.

Lemma stale_inert ev s s' g :
  chat_ok s -> request_of ev s = Some g -> g <> gen s -> chat_step t ev s = Some s' -> seen s' = seen s.
Proof.
  intros [Hin Hou Hfl] Hr Hg Hs. destruct ev as [| | | | | | |now eager e|now eager g' o| | | | |]; try done; cbn in Hr, Hs.
  - destruct (from_network e); [|done]. apply bind_Some in Hs as (c & Hc & [= <-]).
    apply bind_Some in Hr as (cg & Hcg & Ho).
    rewrite (run_ctl_quiet _ _ _ _ []); [done| |constructor].
    rewrite app_nil_r. apply (ctl_stale _ _ _ _ Hc Hcg). intros [-> Hop]. rewrite (ou_owner s Hou Hop) in Ho. congruence.
  - injection Hr as ->. apply bind_Some in Hs as (c & [Ec Hc]%find_first_Some & Hs). apply Z.eqb_eq in Ec.
    destruct (answers _ _); [|done]. injection Hs as <-. unfold settle_call. rewrite Ec.
    assert ((gen s =? g)%Z = false) as Hf by (by apply Z.eqb_neq). cbv zeta. change (gen (set_calls _ s)) with (gen s).
    rewrite Hf, orb_true_r. change (gen (set_calls _ s)) with (gen s). by rewrite Hf.
Qed.

Lemma deliver_gen now eager o s : gen (deliver t now eager o s) = gen s.
Proof.
  assert (forall g, gen (flushStreamUpdates now eager g s) = gen s) as Hf.
  { intros g. apply (outside_gen _ _ (proj1 (flush_outside now eager g s))). }
  destruct o as [cg ty ch|cg|cg msg code| b | | |]; cbn [deliver]; try done; destruct (owner cg s) as [g|]; try done.
  - apply (outside_gen _ _ (proj1 (update_outside g ty ch s))).
  - unfold handleStreamComplete. destruct (negb _); [done|]. apply Hf.
  - unfold handleStreamError. destruct (negb _); [done|]. apply Hf.
Qed.

Lemma run_ctl_gen now eager c s : gen (run_ctl t now eager c s) = gen s.
Proof.
  unfold run_ctl. change (gen s) with (gen (set_ctl c s)). generalize (set_ctl c s).
  induction (drop _ _) as [|o l IH]; intros s0; [done|]. simpl. by rewrite IH, deliver_gen.
Qed.

Lemma error_gen now eager g msg code s : gen (handleStreamError t now eager g msg code s) = gen s.
Proof.
  unfold handleStreamError. destruct (negb _); [done|].
  apply (outside_gen _ _ (proj1 (flush_outside now eager g s))).
Qed.

Lemma finish_gen now eager g o s : gen (finish_call t now eager g o s) = gen s.
Proof.
  destruct o as [choices|images|error]; cbn [finish_call].
  - destruct (negb _); [apply error_gen|done].
  - destruct (negb _); [apply error_gen|done].
  - destruct (parseRequestErrorDetails error). apply error_gen.
Qed.

Lemma abort_gen s : gen (abort_current s) = gen s.
Proof. unfold gen. by rewrite (proj1 (abort_current_same s)). Qed.

Lemma send_gen now eager cfg enabled ms s : gen (sendChat t now eager cfg enabled ms s) = (gen s + 1)%Z.
Proof.
  assert (forall image r, gen (start_call t now eager image r s) = (gen s + 1)%Z) as Hcall.
  { intros image r. unfold start_call. cbv zeta. unfold gen. cbn.
    match goal with |- requestGeneration (hook (abort_current ?x)) = _ => change (gen (abort_current x) = (gen s + 1)%Z) end.
    rewrite abort_gen. unfold gen. cbn. apply (run_ctl_gen now eager _ (set_generation_ref (gen s + 1) s)). }
  unfold sendChat. destruct (isImageGenerationModel _); [apply Hcall|]. destruct (cfg_stream cfg); [|apply Hcall].
  unfold sendStreamingChat. cbv zeta. rewrite run_ctl_gen. unfold gen. cbn.
  exact (abort_gen (set_generation_ref (gen s + 1) s)).
Qed.

Lemma stop_gen now eager s : gen (stopGeneration t now eager s) = (gen s + 1)%Z.
Proof.
  unfold stopGeneration. cbv zeta. unfold gen at 1. cbn.
  match goal with |- requestGeneration (hook (abort_current ?x)) = _ => change (gen (abort_current x) = (gen s + 1)%Z) end.
  rewrite abort_gen. unfold stopStream. by rewrite run_ctl_gen.
Qed.

Lemma unmount_gen now eager s : gen (unmount t now eager s) = (gen s + 1)%Z.
Proof.
  unfold unmount. cbv zeta. unfold gen at 1. cbn.
  match goal with |- requestGeneration (hook (abort_current ?x)) = _ => change (gen (abort_current x) = (gen s + 1)%Z) end.
  rewrite abort_gen. set (s1 := if saveTimer (view s) then save_now s else s).
  assert (gen s1 = gen s) as E by (unfold s1; by destruct (saveTimer (view s))).
  destruct (flushTimer _) as [[? ?]|]; unfold gen at 1; cbn; by rewrite run_ctl_gen, E.
Qed.

Lemma step_gen ev s s' : chat_step t ev s = Some s' -> (gen s <= gen s')%Z.
Proof.
  intros Hs.
  assert (forall x, (if mounted s then Some x else None) = Some s' -> x = s') as Hpage.
  { intros x. by destruct (mounted s); [intros [= ->]|]. }
  assert (forall e ms s0, (gen s0 <= gen (send_messages t e ms s0))%Z) as Hsend.
  { intros e ms s0. unfold send_messages. rewrite send_gen. change (gen (dispatch _ _ _ s0)) with (gen s0). lia. }
  destruct ev; cbn [chat_step] in Hs; try (apply Hpage in Hs as <-); try done.
  - apply Hsend.
  - unfold handleRegenerateMessage. destruct (createRegeneratedMessages _ _ _ _); [apply Hsend|done].
  - clear Hpage. unfold applyEdit. cases; try done. change (gen s) with (gen (setEditingMessageKey None s)). apply Hsend.
  - rewrite stop_gen. lia.
  - destruct (from_network e); [|done]. apply bind_Some in Hs as (c & _ & [= <-]). by rewrite run_ctl_gen.
  - apply bind_Some in Hs as (c & _ & Hs). destruct (answers _ _); [|done]. injection Hs as <-.
    unfold settle_call. cbv zeta. set (cs := bfilter _ _). change (gen s) with (gen (set_calls cs s)).
    destruct (_ || _); destruct (_ =? _)%Z; try done; [rewrite <- (finish_gen now eager (call_gen c) o)|rewrite finish_gen]; done.
  - destruct (flushTimer (hook s)) as [[g0 [|]]|]; try done. injection Hs as <-.
    by rewrite (proj1 (outside_gen _ _ (proj1 (flush_outside now eager g0 s)))).
  - destruct (hasLoaded (view s)); [done|]. by apply Hpage in Hs as <-.
  - destruct (saveTimer (view s)); [|done]. by apply Hpage in Hs as <-.
  - rewrite unmount_gen. lia.
Qed.

Lemma runs_gen s es s' : runs (chat_machine t) s es s' -> (gen s <= gen s')%Z.
Proof.
  assert (PreOrder (fun a b => (gen a <= gen b)%Z)) by (split; [intros x; lia|intros x y z; lia]).
  apply (runs_preorder (chat_machine t) (fun a b => (gen a <= gen b)%Z)). intros ev a b. apply step_gen.
Qed.

(** ** How a generation ends *)

(** The last message, when it is the assistant's, is not left pending. *)
Definition settled (ms : list Message) : Prop :=
  forall m, last ms = Some m -> from m = Assistant -> isAssistantMessagePending m = false.

Definition ends (g : Z) (u : Update) : Prop :=
  match u with
  | UComplete g' | UFail g' _ _ _ | UStopped g' => g' = g
  | UChoices g' choices => g' = g /\ hasChatCompletionChoice choices = true
  | UImages g' images => g' = g /\ existsb has_image images = true
  | _ => False
  end.

Lemma last_update ms f :
  (forall m, from (f m) = from m) -> (forall m, isAssistantMessagePending (f m) = false) ->
  settled (updateLastAssistantMessage ms f).
Proof.
  intros Hf Hp m. unfold updateLastAssistantMessage. destruct (last ms) as [m0|] eqn:El; [|by rewrite El].
  apply last_Some in El as [ms' ->]. case_bool_decide as Ha.
  - rewrite length_app. simpl. replace (length ms' + 1 - 1) with (length ms' + 0) by lia.
    rewrite insert_app_r. simpl. rewrite last_snoc. intros [= <-] _. apply Hp.
  - rewrite last_snoc. intros [= <-] ?. done.
Qed.

Lemma timing_same now m :
  from (completeAssistantTiming now m) = from m /\ status (completeAssistantTiming now m) = status m.
Proof. unfold completeAssistantTiming. by cases. Qed.

Lemma finalize_from now m api : from (finalizeMessage now m api) = from m.
Proof. unfold finalizeMessage, completeReasoningTiming. cbv zeta. by cases. Qed.

Definition pending_status (st : MessageStatus) : bool :=
  match st with Loading | Streaming => true | _ => false end.

Lemma not_pending m st : status m = Some st -> isAssistantMessagePending m = pending_status st.
Proof. unfold isAssistantMessagePending. intros ->. by destruct st. Qed.

Lemma final_not_pending m : isAssistantMessageFinal m = true -> isAssistantMessagePending m = false.
Proof. unfold isAssistantMessageFinal, isAssistantMessagePending. by destruct (status m) as [[]|]. Qed.

Lemma image_answer now m images :
  existsb has_image images = true -> exists m', applyImageGenerationResponse now m images = Some m'.
Proof.
  intros (i & Hi & Hh)%existsb_elem. unfold applyImageGenerationResponse.
  assert (exists a, a ∈ omap id (imap image_attachment images)) as [a Ha].
  { apply list_elem_of_lookup_1 in Hi as [k Hk].
    assert (exists a, image_attachment k i = Some a) as [a Ha].
    { unfold image_attachment, has_image in *. cbv zeta.
      match goal with |- exists a, (if truthy ?u then _ else _) = _ => assert (truthy u = true) as -> end; [|eauto].
      destruct (b64_json i) as [b|]; [destruct (truthy b); [reflexivity|]|];
        (destruct (image_url i); [exact Hh|discriminate Hh]). }
    exists a. apply list_elem_of_omap. exists (Some a). split; [|done].
    apply list_elem_of_lookup_2 with k. by rewrite list_lookup_imap, Hk, <- Ha. }
  destruct (omap _ _) as [|x l]; [by apply elem_of_nil in Ha|]. eauto.
Qed.

Lemma ends_settled now g u prev : ends g u -> settled (run_update now g u prev).
Proof.
  assert (forall m st m', status m' = Some st -> from m' = from m ->
    from (completeAssistantTiming now m') = from m /\
    isAssistantMessagePending (completeAssistantTiming now m') = pending_status st) as Ht.
  { intros m st m' Hs Hf. destruct (timing_same now m') as [E1 E2]. rewrite E1. split; [done|].
    apply not_pending. by rewrite E2. }
  assert (forall m, from (completeAssistantMessage now m) = from m /\
    isAssistantMessagePending (completeAssistantMessage now m) = false) as Hc.
  { intros m. apply (Ht m StComplete); [done|]. apply finalize_from. }
  destruct u as [|g'|g' msg code title|g' choices|g' images|g'| | |]; cbn [ends run_update]; try done.
  - intros ->. rewrite Z.eqb_refl. cbn [negb]. apply last_update; intros m; destruct (isAssistantMessageFinal m) eqn:E;
      try done; [apply Hc|by apply final_not_pending|apply Hc].
  - intros ->. rewrite Z.eqb_refl. cbn [negb]. unfold updateAssistantMessageWithError.
    apply last_update; intros m; by apply (Ht m StError).
  - intros [-> Hch]. rewrite Z.eqb_refl. cbn [negb]. destruct choices as [|c cs]; [done|]. cbn [applyChatCompletionResponse].
    apply last_update; intros m; apply (Ht m StComplete); try done;
      apply (finalize_from now (updateCurrentVersionContent m (default [] (choice_content c)))).
  - intros [-> Him]. rewrite Z.eqb_refl. cbn [negb].
    assert (forall m, from (default m (applyImageGenerationResponse now m images)) = from m /\
      isAssistantMessagePending (default m (applyImageGenerationResponse now m images)) = false) as Hi.
    { intros m. destruct (image_answer now m images Him) as [m' Hm']. rewrite Hm'. simpl.
      unfold applyImageGenerationResponse in Hm'. destruct (omap _ _) as [|a l]; [done|]. injection Hm' as <-.
      by apply (Ht m StComplete). }
    apply last_update; intros m; apply Hi.
  - intros ->. rewrite Z.eqb_refl. cbn [negb]. apply last_update; intros m;
      destruct (isAssistantMessagePending m) eqn:E; try done; apply Hc.
Qed.

(** The last update waiting for a render settles the conversation. *)
Definition settling s : Prop :=
  match last (queue (view s)) with
  | Some (QRun u) => ends (gen s) u
  | Some (QDone ms) => settled ms
  | None => False
  end.

Lemma dispatch_settling now eager u s : ends (gen s) u -> settling (dispatch now eager u s).
Proof.
  intros Hu. unfold settling. change (gen (dispatch now eager u s)) with (gen s).
  destruct (dispatch_queue now eager u s) as [-> | [_ ->]]; [by rewrite last_snoc|]. by apply ends_settled.
Qed.

Lemma settling_view s s' : view s' = view s -> gen s' = gen s -> settling s -> settling s'.
Proof. unfold settling. by intros -> ->. Qed.

Lemma drain_app now g q1 q2 ms v :
  drain now g (q1 ++ q2) ms v = let '(ms', v') := drain now g q1 ms v in drain now g q2 ms' v'.
Proof.
  revert ms v. induction q1 as [|[u|x] q1 IH]; intros ms v; [done| |apply IH].
  cbn [drain app]. destruct (run_persisting now g u ms v). apply IH.
Qed.

Lemma settling_render now s : settling s -> settled (shown (view (render_view now s))).
Proof.
  unfold settling. destruct (last (queue (view s))) as [x|] eqn:El; [|done].
  apply last_Some in El as [q Eq]. intros Hx. unfold render_view. cbn [on_view view]. rewrite Eq, drain_app.
  destruct (drain now (gen s) q (shown (view s)) (view s)) as [ms v]. destruct x as [u|ms']; cbn [drain].
  - unfold run_persisting. cbn [drain]. cbv zeta. cbn [set_shown shown]. by apply ends_settled.
  - done.
Qed.

Lemma end_settling now eager o s :
  terminal o = true -> (forall cg, cb_gen o = Some cg -> owner cg s = Some (gen s)) ->
  settling (deliver t now eager o s).
Proof.
  intros Ht Ho. pose proof (outside_gen _ _ (proj1 (flush_outside now eager (gen s) s))) as (Hg & _ & _).
  destruct o as [| cg|cg msg code| | | |]; try done; cbn [deliver]; rewrite (Ho cg) by done.
  - unfold handleStreamComplete. rewrite Z.eqb_refl. cbn [negb]. apply dispatch_settling. exact (eq_sym Hg).
  - unfold handleStreamError. rewrite Z.eqb_refl. cbn [negb]. apply dispatch_settling. exact (eq_sym Hg).
Qed.

Lemma update_view g ty chunk s : view (handleStreamUpdate g ty chunk s) = view s.
Proof. unfold handleStreamUpdate, scheduleStreamFlush. cbv zeta. destruct ty; by cases. Qed.

Lemma deliver_settling now eager o s :
  (forall cg, cb_gen o = Some cg -> owner cg s = Some (gen s)) ->
  settling s -> settling (deliver t now eager o s).
Proof.
  intros Ho Hs. destruct (terminal o) eqn:Ht; [by apply end_settling|].
  apply (settling_view s); [|apply deliver_gen|done].
  destruct o as [cg ty ch| | | | | |]; try done. cbn [deliver]. destruct (owner cg s); [apply update_view|done].
Qed.

Lemma delivered_settling now eager l s :
  inner_ok s -> (forall o cg, o ∈ l -> cb_gen o = Some cg -> owner cg s = Some (gen s)) ->
  settling s \/ existsb terminal l = true ->
  settling (foldl (fun s' o => deliver t now eager o s') s l).
Proof.
  revert s. induction l as [|o l IH]; intros s Hs Ho Hor; [by destruct Hor|]. simpl.
  assert (forall cg, cb_gen o = Some cg -> owner cg s = Some (gen s)) as Ho0 by (intros; apply (Ho o); [left|done]).
  destruct (deliver_effect now eager o s Hs Ho0) as (D1 & D2 & _ & _).
  destruct (outside_gen _ _ D2) as (Dg & _ & Dw).
  apply IH; [done| |].
  - intros o' cg Hin Hcg. unfold owner. rewrite Dw, Dg. apply (Ho o'); [by right|done].
  - destruct Hor as [Hor | Hor]; [left; by apply deliver_settling|]. simpl in Hor.
    destruct (terminal o) eqn:Et; [left; by apply end_settling|by right].
Qed.

Lemma net_settling now eager e c s :
  mounted s = true -> chat_ok s -> from_network e = true -> ctl_step e (ctl s) = Some c ->
  isGenerating s = true -> isGenerating (run_ctl t now eager c s) = false ->
  settling (run_ctl t now eager c s).
Proof.
  intros Hm [Hin Hou [F1 F2 F3]] He Hc Hg Hg'.
  destruct (net_step_of e _ _ (ou_ctl s Hou) He Hc) as [l Hl]. pose proof Hl as [N1 N2 N3 N4 N5 Ne N6].
  unfold run_ctl in *. rewrite N1, drop_app_length in *.
  assert (inner_ok (set_ctl c s)) as Hin' by by apply (inner_view s).
  assert (forall o cg, o ∈ l -> cb_gen o = Some cg -> owner cg (set_ctl c s) = Some (gen (set_ctl c s))) as Ho.
  { intros o cg Ho Hcg. destruct (N3 o cg Ho Hcg) as [-> Hopen]. by apply (ou_owner s Hou). }
  apply delivered_settling; [done..|]. right.
  destruct (delivered_effect now eager l (set_ctl c s) Hin' Ho) as (_ & _ & _ & D4).
  apply orb_false_iff in Hg' as [_ Hr]. rewrite D4 in Hr. destruct (existsb terminal l); [done|]. exfalso.
  cbn [set_ctl on_net hook] in Hr.
  apply orb_true_iff in Hg as [Hst | Hrq]; [|congruence]. rewrite (F1 Hm), bool_decide_eq_true in Hst.
  rewrite F3 in Hr; [done..|by right].
Qed.

Lemma finish_settling now eager o s : settling (finish_call t now eager (gen s) o s).
Proof.
  pose proof (outside_gen _ _ (proj1 (flush_outside now eager (gen s) s))) as (Hg & _ & _).
  assert (forall msg code, settling (handleStreamError t now eager (gen s) msg code s)) as He.
  { intros msg code. unfold handleStreamError. rewrite Z.eqb_refl. apply dispatch_settling. exact (eq_sym Hg). }
  destruct o as [choices|images|error]; cbn [finish_call].
  - destruct (hasChatCompletionChoice choices) eqn:E; [by apply dispatch_settling|apply He].
  - destruct (existsb has_image images) eqn:E; [by apply dispatch_settling|apply He].
  - destruct (parseRequestErrorDetails error). apply He.
Qed.

Lemma send_requesting now eager cfg enabled ms s :
  isGenerating (sendChat t now eager cfg enabled ms s) = true.
Proof.
  assert (forall image r, isGenerating (start_call t now eager image r s) = true) as Hcall.
  { intros image r. unfold isGenerating. cbn. by rewrite orb_true_r. }
  unfold sendChat. destruct (isImageGenerationModel _); [apply Hcall|]. destruct (cfg_stream cfg); [|apply Hcall].
  unfold sendStreamingChat. cbv zeta. set (g := (gen s + 1)%Z).
  match goal with |- context [run_ctl t now eager _ ?x] => set (s4 := x) end.
  destruct (send_start_effect (selectedTokenId cfg) (ctl s4)) as (l & Ho & Hn & _).
  rewrite (run_ctl_quiet _ _ _ s4 l) by done. unfold isGenerating. cbn. by rewrite orb_true_r.
Qed.

Lemma step_settling ev s s' :
  mounted s = true -> chat_ok s -> chat_step t ev s = Some s' ->
  isGenerating s = true -> isGenerating s' = false -> settling s'.
Proof.
  intros Hm Hok Hs Hg Hg'.
  assert (forall x, (if mounted s then Some x else None) = Some s' -> x = s') as Hpage.
  { intros x. by destruct (mounted s); [intros [= ->]|]. }
  assert (forall e ms s0, isGenerating (send_messages t e ms s0) = true) as Hsend by (intros; apply send_requesting).
  destruct ev; cbn [chat_step] in Hs; try (apply Hpage in Hs as <-; clear Hpage).
  - unfold handleSendMessage in Hg'. by rewrite Hsend in Hg'.
  - unfold handleRegenerateMessage in *. destruct (createRegeneratedMessages _ _ _ _); [|congruence].
    by rewrite Hsend in Hg'.
  - change (isGenerating s = false) in Hg'. congruence.
  - exfalso. revert Hg'. unfold applyEdit. cases; rewrite ?Hsend; try congruence.
    change (isGenerating s = false -> False). congruence.
  - change (isGenerating s = false) in Hg'. congruence.
  - change (isGenerating s = false) in Hg'. congruence.
  - unfold stopGeneration. apply dispatch_settling. unfold gen at 2. cbn.
    match goal with |- _ = requestGeneration (hook (abort_current ?x)) => change ((gen s + 1)%Z = gen (abort_current x)) end.
    rewrite abort_gen. unfold stopStream. by rewrite run_ctl_gen.
  - destruct (from_network e) eqn:He; [|done]. apply bind_Some in Hs as (c & Hc & [= <-]). by apply (net_settling _ _ e).
  - apply bind_Some in Hs as (c & [Ec Hc]%find_first_Some & Hs). apply Z.eqb_eq in Ec as <-.
    destruct (answers _ _); [|done]. injection Hs as <-. revert Hg'. unfold settle_call. cbv zeta.
    set (cs := bfilter _ _). change (gen (set_calls cs s)) with (gen s).
    destruct (decide (gen s = call_gen c)) as [Eg | Ng].
    + destruct (ou_current s (ok_outer s Hok) c Hc (eq_sym Eg)) as [_ Hab].
      unfold is_aborted. cbn [set_calls on_net aborted]. rewrite Hab, (proj2 (Z.eqb_eq _ _) Eg).
      change (default false (Some false) || negb true) with false. cbv iota. rewrite <- Eg.
      pose proof (finish_settling now eager o (set_calls cs s)) as Hfin.
      change (gen (set_calls cs s)) with (gen s) in Hfin. rewrite finish_gen.
      change (gen (set_calls cs s)) with (gen s). rewrite Z.eqb_refl. intros _.
      by eapply settling_view; [| |exact Hfin].
    + rewrite (proj2 (Z.eqb_neq _ _) Ng), orb_true_r. change (gen (set_calls cs s)) with (gen s).
      rewrite (proj2 (Z.eqb_neq _ _) Ng). change (isGenerating (set_calls cs s)) with (isGenerating s). congruence.
  - destruct (flushTimer (hook s)) as [[g [|]]|]; try done. injection Hs as <-. exfalso. revert Hg'.
    unfold isGenerating in *. destruct (flush_outside now eager g s) as (_ & -> & ->). congruence.
  - change (isGenerating s = false) in Hg'. congruence.
  - destruct (hasLoaded (view s)); [done|]. apply Hpage in Hs as <-. change (isGenerating s = false) in Hg'. congruence.
  - destruct (saveTimer (view s)); [|done]. apply Hpage in Hs as <-. change (isGenerating s = false) in Hg'. congruence.
  - exfalso. revert Hg'. unfold unmount. cbv zeta. set (s1 := if saveTimer (view s) then save_now s else s).
    assert (isGenerating s1 = true /\ ctl s1 = ctl s /\ isStreaming s1 = isStreaming s /\ hook s1 = hook s) as (G1 & C1 & S1 & H1).
    { unfold s1. by destruct (saveTimer (view s)). }
    destruct Hok as [Hin Hou [F1 F2 F3]].
    destruct (cancel_effect false (ctl s)) as (l & Ho & Hn & _); [apply Hou|].
    rewrite <- C1 in Ho. rewrite (run_ctl_quiet _ _ _ s1 l) by done.
    match goal with |- context [abort_current ?x] => set (s4 := x) end.
    destruct (abort_current_same s4) as (A1 & _ & _ & _ & _ & A6 & _).
    assert (isRequesting (hook s) = true) as Hr.
    { apply orb_true_iff in Hg as [Hst | ?]; [|done]. rewrite (F1 Hm), bool_decide_eq_true in Hst. apply F3; [done|by right]. }
    assert (isRequesting (hook s4) = true) as Hr4.
    { unfold s4. rewrite <- Hr, <- H1. by destruct (flushTimer _) as [[? ?]|]. }
    unfold isGenerating. cbn. rewrite A1, Hr4, orb_true_r. done.
Qed.

(** An answer that ends the current request, whatever state it is in. *)
Lemma net_ends now eager e c l s :
  mounted s = true -> chat_ok s -> from_network e = true -> ctl_step e (ctl s) = Some c ->
  open_now (ctl s) -> out c = out (ctl s) ++ l -> Forall (fun o => cb_gen o = None \/ cb_gen o = Some (generation (ctl s))) l ->
  existsb terminal l = true -> streaming_after (isStreaming s) l = false ->
  chat_step t (ENet now eager e) s = Some (run_ctl t now eager c s) /\ isGenerating (run_ctl t now eager c s) = false.
Proof.
  intros Hm [Hin Hou Hfl] He Hc Hop Ho Hcb Ht Hs. rewrite Forall_forall in Hcb. split.
  - cbn [chat_step]. by rewrite He, Hc.
  - unfold run_ctl. rewrite Ho, drop_app_length.
    destruct (delivered_effect now eager l (set_ctl c s)) as (_ & _ & D3 & D4).
    + by apply (inner_view s).
    + intros o cg Hin' Hcg. destruct (Hcb o Hin') as [? | E]; [congruence|]. rewrite E in Hcg. injection Hcg as <-.
      by apply (ou_owner s Hou).
    + unfold isGenerating. rewrite D3, D4, Ht. cbn [set_ctl on_net isStreaming]. by rewrite Hs.
Qed.

Lemma current_can_end (now : number) (eager : bool) s :
  mounted s = true -> chat_ok s -> isGenerating s = true ->
  exists ev s', request_of ev s = Some (gen s) /\ chat_step t ev s = Some s' /\ isGenerating s' = false.
Proof.
  intros Hm Hok Hg. pose proof Hok as [Hin Hou [F1 F2 F3]].
  destruct (source (ctl s)) as [id|] eqn:Esrc.
  { destruct (ok_source _ (ou_ctl s Hou) id Esrc) as (src & Hsrc & Hgen & Hcomp).
    assert (live id (ctl s) = true) as Hl by (apply live_spec; by exists src).
    assert (open_now (ctl s)) as Hop by (right; by eexists).
    exists (ENet now eager (CMessage id (Some (js "[DONE]")))). eexists. split.
    { cbn. rewrite Hsrc. cbn. rewrite Hgen. by apply ou_owner. }
    apply (net_ends now eager _
             (finished (ctl s) id [OClose id true; OStreaming false; OComplete (gen_of id (ctl s))])
             [OClose id true; OStreaming false; OComplete (gen_of id (ctl s))]);
      [done|done|done| |done|done| |done|done].
    - cbn [ctl_step]. rewrite <- done_live by done. unfold on_message. by rewrite Hl.
    - rewrite live_gen by done. repeat (apply Forall_cons; split; [by (left + right)|]). constructor. }
  assert (isStreaming s = false) as Hst by (by rewrite (F1 Hm)).
  assert (isRequesting (hook s) = true) as Hr by (unfold isGenerating in Hg; by rewrite Hst in Hg).
  destruct (F2 Hm Hr) as [(c & Hc & Ec) | Hop].
  - assert (exists c', find_first (fun c0 => (call_gen c0 =? gen s)%Z) (calls s) = Some c') as [c' Hf].
    { destruct (find_first _ _) eqn:E; [by eexists|]. rewrite find_first_None in E. specialize (E c Hc). lia. }
    exists (ESettle now eager (gen s) (Failed VUndef)). eexists. split; [done|].
    cbn [chat_step]. rewrite Hf. cbn [mbind option_bind answers]. split; [done|].
    apply find_first_Some in Hf as [Eg%Z.eqb_eq _]. unfold settle_call. rewrite Eg. cbv zeta.
    set (cs := bfilter _ _). change (gen (set_calls cs s)) with (gen s).
    assert (gen (if is_aborted (call_signal c') (set_calls cs s) || negb (gen s =? gen s)%Z then set_calls cs s
      else finish_call t now eager (gen s) (Failed VUndef) (set_calls cs s)) = gen s) as E.
    { destruct (_ || _); [done|]. by rewrite finish_gen. }
    rewrite E, Z.eqb_refl. unfold isGenerating. cbn [setIsRequesting on_hook hook isRequesting isStreaming set_abort].
    rewrite orb_false_r. clear E. destruct (is_aborted _ _ || negb true); [exact Hst|].
    destruct (finish_effect now eager (Failed VUndef) (set_calls cs s)) as (_ & _ & E3); [by apply (inner_view s)|].
    change (gen (set_calls cs s)) with (gen s) in E3. rewrite E3. exact Hst.
  - destruct Hop as [Hw | [id Hid]]; [|congruence].
    assert (open_now (ctl s)) as Hop by by left.
    exists (ENet now eager (CHeadersFailed (generation (ctl s)) None)).
    assert (exists tok, pending_token (generation (ctl s)) (ctl s) = Some tok) as [tok Htok].
    { apply elem_of_lmap in Hw as ([g0 k] & Hp & Eg). unfold pending_token.
      destruct (find_first _ _) eqn:E; [by eexists|]. rewrite find_first_None in E. specialize (E _ Hp). simpl in *. lia. }
    eexists. split; [cbn; by apply ou_owner|].
    apply (net_ends now eager _ (headers_failed (generation (ctl s)) None (ctl s))
             [OError (generation (ctl s)) STREAM_START_ERROR None]); [done|done|done| |done| | |done|done].
    + cbn [ctl_step]. by rewrite Htok.
    + unfold headers_failed. cbn [forget set_pending generation]. by rewrite Z.eqb_refl.
    + by repeat constructor; right.
Qed.

(** ** Theorems *)

(** C7. Once a conversation has moved on, by a new request, a stop or leaving the page,
    nothing that arrives for the requests it had before has an effect the user can see:
    a stream event, late headers, an answer or a failure of theirs, at any later time,
    leaves the messages, the queued updates, what is to be saved, the flags and the
    toasts as they are. *)
Theorem chat_superseded_inert ev0 s s1 es s2 ev s3 g :
  chat_reachable t s -> chat_step t ev0 s = Some s1 -> (gen s < gen s1)%Z ->
  runs (chat_machine t) s1 es s2 -> request_of ev s2 = Some g -> (g <= gen s)%Z ->
  chat_step t ev s2 = Some s3 -> seen s3 = seen s2.
Proof.
  intros (s0 & es0 & H0 & Hr0) H1 Hlt Hr Hq Hg Hs.
  assert (chat_reachable t s) as Hok0 by by exists s0, es0.
  assert (chat_ok s2) as Hok2.
  { eapply (runs_invariant (chat_machine t) chat_ok); [intros e a b; apply chat_step_ok|exact Hr|].
    eapply chat_step_ok; [exact H1|by apply chat_reachable_ok]. }
  eapply stale_inert; [done|done| |done]. pose proof (runs_gen _ _ _ Hr). lia.
Qed.

(** C8. The page never shows for good that it is generating: while it does, an answer to
    the current request can still arrive that ends it. *)
Theorem generating_can_end s :
  chat_reachable t s -> mounted s = true -> isGenerating s = true ->
  exists ev s', request_of ev s = Some (gen s) /\ chat_step t ev s = Some s' /\ isGenerating s' = false.
Proof. intros Hr Hm Hg. apply (current_can_end n_zero false); [done|by apply chat_reachable_ok|done]. Qed.

(** C9. Whatever ends a generation, the end of the stream, an error, an answer or the stop
    button, the next render leaves no assistant message pending at the end of the
    conversation. *)
Theorem generation_end_settles ev s s' now :
  chat_reachable t s -> mounted s = true -> chat_step t ev s = Some s' ->
  isGenerating s = true -> isGenerating s' = false ->
  settled (shown (view (render_view now s'))).
Proof.
  intros Hr Hm Hs Hg Hg'. apply settling_render. eapply step_settling; try done. by apply chat_reachable_ok.
Qed.
End chat.
