(* ===== verification/ChatBatching.v ===== *)
(** * Batched chunks

    The chat handler does not apply each chunk of a stream as it arrives: it merges what
    arrives within 50 ms and applies the result once.  This file says when the text
    shown is the text received, and when it is not. *)

From S2P Require Import Prelude Machine JsString JsNumber Json PlaygroundMessages StreamController.
From S2P Require Import StreamFacts PlaygroundFacts ChatHandler ChatFacts.

(** Chunks of one batch, then the flush and a render. *)
Definition receive (g : Z) (cs : list jstr) (s : Chat) : Chat :=
  foldl (fun s c => handleStreamUpdate g ContentChunk c s) s cs.

Definition batch (g : Z) (s : Chat) (b : number * list jstr) : Chat :=
  render_view (fst b) (flushStreamUpdates (fst b) false g (receive g (snd b) s)).

Definition batches (g : Z) (bs : list (number * list jstr)) (s : Chat) : Chat := foldl (batch g) s bs.

(** The same chunks, one by one. *)
Definition unbatched (bs : list (number * list jstr)) : list (number * jstr) :=
  concat (map (fun b => map (pair (fst b)) (snd b)) bs).

Definition batch_text (b : number * list jstr) : jstr := concat (snd b).

(** No chunk of a batch starts with the text of the batch so far, and no batch with
    the text shown so far. *)
Fixpoint batch_deltas (acc : jstr) (bs : list (number * list jstr)) : Prop :=
  match bs with
  | [] => True
  | b :: bs' =>
      deltas [] (snd b) /\ (acc = [] \/ starts_with acc (batch_text b) = false) /\
      batch_deltas (acc ++ batch_text b) bs'
  end.

(** A stream in progress: nothing pending or queued, the last message the assistant's. *)
Record streaming_to (g : Z) (ms : list Message) (m : Message) (s : Chat) : Prop := {
  st_gen : gen s = g;
  st_chunks : chunks s = no_chunks g;
  st_queue : queue (view s) = [];
  st_shown : shown (view s) = ms ++ [m];
  st_from : from m = Assistant;
  st_status : status m <> Some StError }.

Lemma merge_delta acc c : acc = [] \/ starts_with acc c = false -> mergePendingStreamChunk acc c = acc ++ c.
Proof.
  unfold mergePendingStreamChunk. intros [-> | ->]; [done|]. by rewrite orb_true_r.
Qed.

Lemma merge_deltas acc cs : deltas acc cs -> foldl mergePendingStreamChunk acc cs = acc ++ concat cs.
Proof.
  revert acc. induction cs as [|c cs IH]; intros acc; simpl; [by rewrite app_nil_r|].
  intros [H1 H2]. rewrite merge_delta, IH, <- app_assoc by done. done.
Qed.

Lemma receive_chunks g cs s :
  gen s = g -> p_generation (chunks s) = g ->
  gen (receive g cs s) = g /\ view (receive g cs s) = view s /\
  chunks (receive g cs s) =
    {| p_generation := g; p_content := foldl mergePendingStreamChunk (p_content (chunks s)) cs;
       p_reasoning := p_reasoning (chunks s) |}.
Proof.
  revert s. induction cs as [|c cs IH]; intros s Hg Hp; simpl.
  - split; [done|]. split; [done|]. rewrite <- Hp. by destruct (chunks s).
  - assert (gen (handleStreamUpdate g ContentChunk c s) = g /\ view (handleStreamUpdate g ContentChunk c s) = view s /\
      chunks (handleStreamUpdate g ContentChunk c s) =
      {| p_generation := g; p_content := mergePendingStreamChunk (p_content (chunks s)) c;
         p_reasoning := p_reasoning (chunks s) |}) as (E1 & E2 & E3).
    { unfold handleStreamUpdate. rewrite Hg, Hp, Z.eqb_refl. cbn [negb]. unfold scheduleStreamFlush.
      change (gen (set_chunks _ s)) with (gen s). rewrite Hg, Z.eqb_refl. cbn [negb].
      by destruct (flushTimer _). }
    destruct (IH (handleStreamUpdate g ContentChunk c s)) as (I1 & I2 & I3); [done|by rewrite E3|].
    rewrite E3 in I3. rewrite I2, E2. done.
Qed.

Lemma last_replaced ms m f :
  from m = Assistant -> updateLastAssistantMessage (ms ++ [m]) f = ms ++ [f m].
Proof.
  intros Hm. unfold updateLastAssistantMessage. rewrite last_snoc, bool_decide_true by done.
  rewrite length_app. simpl. replace (length ms + 1 - 1) with (length ms + 0) by lia. by rewrite insert_app_r.
Qed.

Lemma apply_content_from now m c : from (applyStreamingChunk now m ContentChunk c) = from m.
Proof.
  unfold applyStreamingChunk, processStreamingContent, completeReasoningTiming. cbv zeta. by cases.
Qed.

Lemma flush_content now c m :
  status m <> Some StError ->
  from (flush_message now [] c m) = from m /\ status (flush_message now [] c m) <> Some StError /\
  getMessageContent (flush_message now [] c m) = getMessageContent m ++ getAppendableChunk (getMessageContent m) c.
Proof.
  intros Hs. unfold flush_message. cbn [truthy]. destruct (truthy c) eqn:Et.
  - destruct (apply_content now m c Hs) as [E1 E2]. rewrite E2. split; [apply apply_content_from|done].
  - apply truthy_false in Et as ->. split; [done|]. split; [done|]. unfold getAppendableChunk.
    destruct (negb _ || negb _); [by rewrite app_nil_r|]. unfold slice_from. by rewrite drop_nil, app_nil_r.
Qed.

Lemma render_queue now s : queue (view (render_view now s)) = [].
Proof. unfold render_view. cbn. by destruct (drain _ _ _ _ _). Qed.

Lemma batch_effect g ms m s b :
  streaming_to g ms m s ->
  streaming_to g ms (flush_message (fst b) [] (foldl mergePendingStreamChunk [] (snd b)) m) (batch g s b).
Proof.
  intros [H1 H2 H3 H4 H5 H6]. destruct b as [now cs]. unfold batch. cbn [fst snd].
  destruct (receive_chunks g cs s) as (R1 & R2 & R3); [done|by rewrite H2|].
  rewrite H2 in R3. cbn [no_chunks p_content p_reasoning] in R3.
  destruct (flush_content now (foldl mergePendingStreamChunk [] cs) m H6) as (F1 & F2 & _).
  revert R1 R2 R3 F1 F2. generalize (receive g cs s) (foldl mergePendingStreamChunk [] cs). intros s1 T R1 R2 R3 F1 F2.
  unfold flushStreamUpdates. rewrite R1, Z.eqb_refl. cbn [negb].
  change (chunks (set_timer None s1)) with (chunks s1). rewrite R3. cbn [p_generation p_reasoning p_content truthy].
  rewrite Z.eqb_refl. cbn [negb andb].
  destruct (truthy T) eqn:Et; cbn [negb].
  - split; try done; try congruence; [apply render_queue|].
    unfold dispatch, render_view. cbn. rewrite R2, H3. cbn. unfold gen in *. cbn. rewrite R1, Z.eqb_refl. cbn. rewrite H4.
    by apply last_replaced.
  - unfold flush_message in *. cbn [truthy] in *. rewrite Et in *.
    split; try done; [|apply render_queue|unfold render_view; cbn; by rewrite R2, H3].
    change (chunks (render_view now (set_timer None s1))) with (chunks s1). rewrite R3. apply truthy_false in Et. by subst.
Qed.

Lemma batches_effect g ms m s bs :
  streaming_to g ms m s -> batch_deltas (getMessageContent m) bs ->
  exists m', streaming_to g ms m' (batches g bs s) /\
    getMessageContent m' = getMessageContent m ++ concat (map batch_text bs).
Proof.
  revert m s. induction bs as [|b bs IH]; intros m s Hs Hb.
  - exists m. by rewrite app_nil_r.
  - destruct Hb as (H1 & H2 & H3). pose proof (batch_effect g ms m s b Hs) as Hb.
    rewrite merge_deltas in Hb by done. change ([] ++ concat (snd b)) with (batch_text b) in Hb.
    destruct (flush_content (fst b) (batch_text b) m (st_status _ _ _ _ Hs)) as (_ & _ & E).
    rewrite appendable_delta in E by done.
    destruct (IH _ (batch g s b) Hb) as (m' & I1 & I2); [by rewrite E|].
    exists m'. split; [done|]. rewrite I2, E. simpl. by rewrite <- app_assoc.
Qed.

(** ** Theorems *)

(** C10. For content chunks that are deltas, batching shows the text that applying every
    chunk by itself would show, and the rest of the conversation is untouched.  Deltas:
    no chunk starts with the text of its batch so far, nor with the whole text before
    it, and no batch starts with the text shown so far.  Without that the two ways can
    differ, see [batched_repetition_lost]. *)
Theorem batching_equivalent g ms m s bs :
  streaming_to g ms m s ->
  batch_deltas (getMessageContent m) bs -> deltas (getMessageContent m) (map snd (unbatched bs)) ->
  exists m', shown (view (batches g bs s)) = ms ++ [m'] /\
    getMessageContent m' = getMessageContent (stream m (unbatched bs)).
Proof.
  intros Hs Hb Hd. destruct (batches_effect g ms m s bs Hs Hb) as (m' & H1 & H2).
  exists m'. split; [apply H1|]. destruct (stream_content m (unbatched bs)) as [-> _]; [apply Hs|done|].
  rewrite H2. f_equal. clear. unfold unbatched. induction bs as [|[now cs] bs IH]; [done|].
  cbn [map concat fst snd]. rewrite map_app, concat_app, <- IH. unfold batch_text at 1. cbn [snd]. f_equal.
  induction cs as [|c cs IHc]; [done|]. simpl. by rewrite <- IHc.
Qed.

(** Snapshots: each chunk repeats the whole text so far and extends it. *)
Fixpoint snapshots (acc : jstr) (cs : list jstr) : Prop :=
  match cs with
  | [] => True
  | c :: t => starts_with acc c = true /\ snapshots c t
  end.

Lemma last_cons_default {A} (c d : A) cs : List.last (c :: cs) d = List.last cs c.
Proof.
  revert c d. induction cs as [|x cs IH]; intros c d; [done|].
  change (List.last (c :: x :: cs) d) with (List.last (x :: cs) d). by rewrite !IH.
Qed.

Lemma merge_snapshots acc cs :
  snapshots acc cs -> foldl mergePendingStreamChunk acc cs = List.last cs acc.
Proof.
  revert acc. induction cs as [|c cs IH]; intros acc; [done|]. intros [H1 H2]. cbn [foldl].
  assert (mergePendingStreamChunk acc c = c) as ->.
  { unfold mergePendingStreamChunk. rewrite H1. by destruct acc. }
  by rewrite IH, last_cons_default.
Qed.

(** An upstream that sends the whole text so far with every chunk is shown as it
    is: after a batch the message is the last text sent. *)
Theorem batched_snapshots g ms m s now cs :
  streaming_to g ms m s -> cs <> [] -> snapshots (getMessageContent m) cs ->
  exists m', shown (view (batch g s (now, cs))) = ms ++ [m'] /\
    getMessageContent m' = List.last cs (getMessageContent m).
Proof.
  intros Hs Hne Hc. pose proof (batch_effect g ms m s (now, cs) Hs) as Hb. eexists. split; [apply Hb|]. cbn [fst snd].
  destruct (flush_content now (foldl mergePendingStreamChunk [] cs) m (st_status _ _ _ _ Hs)) as (_ & _ & ->).
  destruct cs as [|c cs]; [done|]. destruct Hc as [H1 H2]. cbn [foldl].
  change (mergePendingStreamChunk [] c) with c. rewrite merge_snapshots by done.
  assert (starts_with (getMessageContent m) (List.last cs c) = true) as (r & Hr)%starts_with_spec.
  { clear -H1 H2. revert c H1 H2. induction cs as [|d cs IH]; intros c H1 H2; [done|]. destruct H2 as [H2 H3].
    rewrite last_cons_default. apply IH; [|done]. apply starts_with_spec in H1 as [r1 ->], H2 as [r2 ->]. rewrite <- app_assoc. apply starts_with_app. }
  rewrite last_cons_default, Hr. unfold getAppendableChunk. rewrite starts_with_app. cbn [negb]. rewrite orb_false_r.
  destruct (getMessageContent m) as [|x l] eqn:E; [done|]. cbn [truthy negb]. unfold slice_from. by rewrite drop_app_length.
Qed.

(** A chunk that repeats the batch before it is lost: of two equal chunks of text that
    arrive within one flush interval, only one is shown, although the chunks applied one
    by one would show both. *)
Theorem batched_repetition_lost g ms m s now c :
  streaming_to g ms m s -> getMessageContent m <> [] -> c <> [] ->
  starts_with (getMessageContent m) c = false -> starts_with (getMessageContent m ++ c) c = false ->
  exists m', shown (view (batch g s (now, [c; c]))) = ms ++ [m'] /\
    getMessageContent m' = getMessageContent m ++ c /\
    getMessageContent (stream m [(now, c); (now, c)]) = getMessageContent m ++ c ++ c.
Proof.
  intros Hs Hne Hc H1 H2. pose proof (batch_effect g ms m s (now, [c; c]) Hs) as Hb. eexists. split; [apply Hb|].
  cbn [fst snd foldl].
  assert (mergePendingStreamChunk (mergePendingStreamChunk [] c) c = c) as ->.
  { change (mergePendingStreamChunk [] c) with c. unfold mergePendingStreamChunk.
    assert (starts_with c c = true) as -> by (pose proof (starts_with_app c []) as E; by rewrite app_nil_r in E).
    by destruct c. }
  destruct (flush_content now c m (st_status _ _ _ _ Hs)) as (_ & _ & ->).
  rewrite appendable_delta by (by right). split; [done|].
  destruct (stream_content m [(now, c); (now, c)]) as [-> _]; [apply Hs|by split; [right|split; [right|]]|].
  simpl. by rewrite app_nil_r.
Qed.

(** ** Stopping *)

Definition run_queued (now : number) (g : Z) (ms : list Message) (q : Queued) : list Message :=
  match q with QRun u => run_update now g u ms | QDone ms' => ms' end.

Lemma drain_shown now g q ms v : fst (drain now g q ms v) = foldl (run_queued now g) ms q.
Proof.
  revert ms v. induction q as [|[u|ms'] q IH]; intros ms v; [done| |apply IH]. cbn. apply IH.
Qed.

Lemma render_shown now s :
  shown (view (render_view now s)) = foldl (run_queued now (gen s)) (shown (view s)) (queue (view s)).
Proof. unfold render_view. cbn. rewrite <- (drain_shown now _ _ _ (view s)). by destruct (drain _ _ _ _ _). Qed.

(** React runs the update later: another one is waiting, or it does not choose to run it now. *)
Definition deferred (eager : bool) (s : Chat) : Prop := queue (view s) <> [] \/ eager = false.

Lemma dispatch_deferred now eager u s :
  deferred eager s -> queue (view (dispatch now eager u s)) = queue (view s) ++ [QRun u] /\
  shown (view (dispatch now eager u s)) = shown (view s) /\ deferred eager (dispatch now eager u s).
Proof.
  unfold deferred, dispatch. intros H. cbn. destruct (queue (view s)) as [|q qs] eqn:E.
  - destruct H as [? | ->]; [done|]. split; [done|]. split; [done|by right].
  - split; [done|]. split; [done|]. left. cbn. by destruct qs.
Qed.

Lemma flush_deferred now eager s :
  deferred eager s ->
  exists l, queue (view (flushStreamUpdates now eager (gen s) s)) = queue (view s) ++ l /\
    shown (view (flushStreamUpdates now eager (gen s) s)) = shown (view s) /\
    deferred eager (flushStreamUpdates now eager (gen s) s) /\
    Forall (fun q => exists r c, q = QRun (UFlush (gen s) r c)) l.
Proof.
  intros H. unfold flushStreamUpdates. rewrite Z.eqb_refl. cbn [negb]. cbv zeta.
  destruct (negb _); [exists []; by rewrite app_nil_r|].
  destruct (negb _ && negb _); [exists []; by rewrite app_nil_r|].
  match goal with |- context [dispatch _ _ ?u ?x] => destruct (dispatch_deferred now eager u x H) as (E1 & E2 & E3) end.
  eexists. split; [exact E1|]. split; [exact E2|]. split; [exact E3|]. repeat constructor. by eexists _, _.
Qed.

Section stop.
Variable t : jstr -> jstr.

Lemma stop_deferred now eager s :
  ctl_ok (ctl s) -> deferred eager s ->
  exists l, queue (view (stopGeneration t now eager s)) = queue (view s) ++ l ++ [QRun (UStopped (gen s + 1))] /\
    shown (view (stopGeneration t now eager s)) = shown (view s) /\
    Forall (fun q => exists r c, q = QRun (UFlush (gen s) r c)) l.
Proof.
  intros Hc Hd. destruct (flush_deferred now eager s Hd) as (l & F1 & F2 & F3 & F4).
  destruct (flush_outside now eager (gen s) s) as (Fo & _). unfold outside in Fo. injection Fo as Ec _ _ _ _ _ _ _ _.
  unfold stopGeneration. cbv zeta. rewrite stopStream_eq by (cbn; by rewrite Ec).
  match goal with |- context [abort_current ?x] => set (s3 := x) end.
  destruct (abort_current_same s3) as (_ & A2 & _).
  match goal with |- context [dispatch _ _ ?u ?x] => set (s4 := x); destruct (dispatch_deferred now eager u s4) as (E1 & E2 & _) end.
  { unfold deferred, s4. cbn. rewrite A2. exact F3. }
  assert (view s4 = view (flushStreamUpdates now eager (gen s) s)) as E4 by exact A2.
  exists l. rewrite E1, E2, E4, F1, F2, <- app_assoc. done.
Qed.

(** C40. Stopping drops the batch it is meant to flush: unless React happens to run the
    flush at once, the conversation shown after a stop is the one that a stop without
    any pending text gives, because the flush only applies to the generation that the
    stop has just ended. *)
Theorem stop_drops_pending_text now now' eager s :
  chat_reachable t s -> deferred eager s ->
  shown (view (render_view now' (stopGeneration t now eager s))) =
  shown (view (render_view now' (stopGeneration t now eager (discardPendingStreamUpdates (gen s) s)))).
Proof.
  intros Hr Hd. pose proof (ou_ctl s (ok_outer s (chat_reachable_ok t s Hr))) as Hc.
  assert (forall s0, ctl_ok (ctl s0) -> deferred eager s0 ->
    shown (view (render_view now' (stopGeneration t now eager s0))) =
    run_update now' (gen s0 + 1) (UStopped (gen s0 + 1))
      (foldl (run_queued now' (gen s0 + 1)) (shown (view s0)) (queue (view s0)))) as Hs.
  { intros s0 H1 H2. destruct (stop_deferred now eager s0 H1 H2) as (l & E1 & E2 & Hl).
    rewrite render_shown, stop_gen, E1, E2, !foldl_app. cbn [foldl run_queued]. f_equal.
    clear E1 E2. generalize (foldl (run_queued now' (gen s0 + 1)) (shown (view s0)) (queue (view s0))).
    induction Hl as [|q l (r & c & ->) _ IH]; intros ms; [done|]. cbn [foldl run_queued run_update].
    rewrite (proj2 (Z.eqb_neq _ _)) by lia. cbn [negb]. apply IH. }
  rewrite !Hs by done. done.
Qed.
End stop.

(** ** Witnesses *)

Definition ex_cfg (streamed : bool) : PlaygroundConfig :=
  {| cfg_model := js "gpt"; selectedTokenId := None; cfg_temperature := n_zero; cfg_top_p := n_zero;
     cfg_max_tokens := n_zero; cfg_frequency_penalty := n_zero; cfg_presence_penalty := n_zero;
     cfg_seed := None; cfg_stream := streamed |}.
Definition ex_enabled : ParameterEnabled :=
  {| en_temperature := false; en_top_p := false; en_max_tokens := false; en_frequency_penalty := false;
     en_presence_penalty := false; en_seed := false |}.
Definition ex_env (streamed : bool) : Env :=
  {| env_now := num_of_Z 1; env_eager := false; env_cfg := ex_cfg streamed; env_enabled := ex_enabled |}.
Definition ex_ids : jstr * jstr * (jstr * jstr) := (js "u", js "uv", (js "a", js "av")).

(** A streamed request whose source is open and has sent some text. *)
Definition ex_open : list chat_event :=
  [ELoad (num_of_Z 0) false []; ERender (num_of_Z 0); ESend (ex_env true) ex_ids (js "hello") []; ERender (num_of_Z 1);
   ENet (num_of_Z 2) false (CHeaders 1 [] true); ENet (num_of_Z 3) false (CMessage 0 (Some ex_chunk))].

Definition ex_state (es : list chat_event) : Chat :=
  default new_chat (exec (chat_machine (fun s => s)) es new_chat).

Lemma ex_reachable es : is_Some (exec (chat_machine (fun s => s)) es new_chat) ->
  chat_reachable (fun s => s) (ex_state es).
Proof.
  intros [s Hs]. exists new_chat, es. split; [done|]. apply exec_runs. unfold ex_state. by rewrite Hs.
Qed.

Lemma ex_open_reachable : chat_reachable (fun s => s) (ex_state ex_open).
Proof. apply ex_reachable. eexists. vm_compute. reflexivity. Defined.

(** The first request is stopped; its stream goes on. *)
Lemma chat_superseded_inert_witness :
  let s := ex_state ex_open in
  let s1 := ex_state (ex_open ++ [EStop (num_of_Z 4) false]) in
  let s3 := ex_state (ex_open ++ [EStop (num_of_Z 4) false; ENet (num_of_Z 5) false (CMessage 0 (Some ex_chunk))]) in
  request_of (ENet (num_of_Z 5) false (CMessage 0 (Some ex_chunk))) s1 = Some (gen s) /\ seen s3 = seen s1.
Proof.
  cbv zeta. split; [vm_compute; reflexivity|].
  apply (chat_superseded_inert (fun s => s) (EStop (num_of_Z 4) false) (ex_state ex_open)
           (ex_state (ex_open ++ [EStop (num_of_Z 4) false])) [] (ex_state (ex_open ++ [EStop (num_of_Z 4) false]))
           (ENet (num_of_Z 5) false (CMessage 0 (Some ex_chunk))) _ 1).
  - exact ex_open_reachable.
  - vm_compute. reflexivity.
  - vm_compute. reflexivity.
  - constructor.
  - vm_compute. reflexivity.
  - vm_compute. discriminate.
  - vm_compute. reflexivity.
Defined.

Lemma generating_can_end_witness :
  isGenerating (ex_state ex_open) = true /\
  exists ev s', request_of ev (ex_state ex_open) = Some (gen (ex_state ex_open)) /\
    chat_step (fun s => s) ev (ex_state ex_open) = Some s' /\ isGenerating s' = false.
Proof.
  split; [vm_compute; reflexivity|].
  apply (generating_can_end (fun s => s)); [exact ex_open_reachable|vm_compute; reflexivity|vm_compute; reflexivity].
Defined.

Lemma generation_end_settles_witness :
  settled (shown (view (render_view (num_of_Z 6) (ex_state (ex_open ++ [ENet (num_of_Z 5) false (CMessage 0 (Some (js "[DONE]")))]))))).
Proof.
  apply (generation_end_settles (fun s => s) (ENet (num_of_Z 5) false (CMessage 0 (Some (js "[DONE]")))) (ex_state ex_open) _ (num_of_Z 6)).
  - exact ex_open_reachable.
  - vm_compute; reflexivity.
  - vm_compute; reflexivity.
  - vm_compute; reflexivity.
  - vm_compute; reflexivity.
Defined.

(** The conversation of [ex_open] once its first text is shown. *)
Definition ex_streaming : Chat := ex_state (ex_open ++ [EFlush (num_of_Z 4) false; ERender (num_of_Z 4)]).

Definition ex_before : list Message := take 1 (shown (view ex_streaming)).
Definition ex_last : Message := List.last (shown (view ex_streaming)) ex_assistant.

Lemma ex_streaming_to : streaming_to 1 ex_before ex_last ex_streaming.
Proof. split; vm_compute; try reflexivity; discriminate. Defined.

Lemma batching_equivalent_witness :
  exists m', shown (view (batches 1 [(num_of_Z 5, [js " a"; js "b"]); (num_of_Z 6, [js "c"])] ex_streaming)) = ex_before ++ [m'] /\
    getMessageContent m' = getMessageContent (stream ex_last (unbatched [(num_of_Z 5, [js " a"; js "b"]); (num_of_Z 6, [js "c"])])).
Proof.
  apply (batching_equivalent 1 ex_before ex_last); [exact ex_streaming_to| |]; vm_compute; intuition discriminate.
Defined.

Lemma batched_snapshots_witness :
  exists m', shown (view (batch 1 ex_streaming (num_of_Z 5, [js "Hi t"; js "Hi there"]))) = ex_before ++ [m'] /\
    getMessageContent m' = List.last [js "Hi t"; js "Hi there"] (getMessageContent ex_last).
Proof.
  apply (batched_snapshots 1 ex_before ex_last); [exact ex_streaming_to|discriminate|]. vm_compute. auto.
Defined.

Lemma batched_repetition_lost_witness :
  exists m', shown (view (batch 1 ex_streaming (num_of_Z 5, [js "ha"; js "ha"]))) = ex_before ++ [m'] /\
    getMessageContent m' = getMessageContent ex_last ++ js "ha" /\
    getMessageContent (stream ex_last [(num_of_Z 5, js "ha"); (num_of_Z 5, js "ha")]) = getMessageContent ex_last ++ js "ha" ++ js "ha".
Proof.
  apply (batched_repetition_lost 1 ex_before ex_last);
    [exact ex_streaming_to|vm_compute; discriminate|discriminate|vm_compute; reflexivity|vm_compute; reflexivity].
Defined.

(** The text of [ex_open] is still pending when the user stops. *)
Lemma stop_drops_pending_text_witness :
  p_content (chunks (ex_state ex_open)) = js "Hi" /\
  shown (view (render_view (num_of_Z 5) (stopGeneration (fun s => s) (num_of_Z 4) false (ex_state ex_open)))) =
  shown (view (render_view (num_of_Z 5) (stopGeneration (fun s => s) (num_of_Z 4) false
    (discardPendingStreamUpdates (gen (ex_state ex_open)) (ex_state ex_open))))).
Proof.
  split; [vm_compute; reflexivity|].
  apply (stop_drops_pending_text (fun s => s)); [exact ex_open_reachable|by right].
Defined.
