(* ===== verification/PlaygroundStorage.v ===== *)
(** * Saved conversations

    [features/playground/lib/storage/storage.ts]: the conversation and the settings kept
    in the browser's local storage, what is trimmed before it is written and what is
    repaired when it is read.  The schemas of [storage-schema.ts] are written with the checks of a library,
    which are the interface [Zod] with the documented behaviour of each as its laws.
    Whether the storage accepts a text is an argument, and so is the translation [t]. *)

From stdpp Require Import gmap.
From S2P Require Import Prelude JsString JsNumber JsInteger JsMath JsRegex Json JsonText PlaygroundMessages.

Open Scope nat_scope.

Abbreviation Storage := (gmap jstr jstr).

(** [STORAGE_KEYS] *)
Definition CONFIG_KEY : jstr := js "playground_config".
Definition MESSAGES_KEY : jstr := js "playground_messages".
Definition PARAMETER_ENABLED_KEY : jstr := js "playground_parameter_enabled".

Definition STORAGE_VERSION : Z := 1.
Definition MAX_STORED_MESSAGES : nat := 100.
Definition MAX_STORED_MESSAGES_BYTES : N := 1048576.
Definition MAX_LOADED_MESSAGES_CHARS : N := 120000.
Definition MAX_LOADED_MESSAGE_CHARS : N := 40000.

Definition TRUNCATED_CONTENT_SUFFIX : jstr := [10; 10; 91; 46; 46; 46; 93]%N.
Definition MIN_PREFIX_COLLAPSE_LENGTH : N := 2000.
Definition MIN_REPEATED_SECTION_COUNT : nat := 3.

(** [s.length] *)
Definition len (s : jstr) : N := N.of_nat (length s).

(** ** Sizes *)

(** [slice(-n)] *)
Definition slice_end {A} (n : nat) (l : list A) : list A := drop (length l - n) l.

Definition trimMessages (messages : list Message) : list Message :=
  if (length messages <=? MAX_STORED_MESSAGES)%nat then messages
  else slice_end MAX_STORED_MESSAGES messages.

Definition getMessageSize (m : Message) : N :=
  (fold_left (fun total v => total + len (content v)) (versions m) 0 +
   match reasoning m with Some r => len (r_content r) | None => 0 end)%N.

Definition truncateText (text : jstr) (maxLength : N) : jstr :=
  if (len text <=? maxLength)%N then text
  else if (maxLength <=? len TRUNCATED_CONTENT_SUFFIX)%N then take (N.to_nat maxLength) text
  else take (N.to_nat (maxLength - len TRUNCATED_CONTENT_SUFFIX)) text ++ TRUNCATED_CONTENT_SUFFIX.

(** The loop of [trimMessagesByContentSize], on the messages from the last one back;
    [kept] is [result], latest first. *)
Fixpoint size_loop (back : list Message) (totalSize : N) (kept : list Message) : list Message :=
  match back with
  | [] => kept
  | m :: t =>
      let messageSize := getMessageSize m in
      if (0 <? length kept)%nat && (MAX_LOADED_MESSAGES_CHARS <? totalSize + messageSize)%N then kept
      else size_loop t (totalSize + messageSize) (m :: kept)
  end.

Definition trimMessagesByContentSize (messages : list Message) : list Message :=
  size_loop (rev messages) 0 [].

(** ** Repeated sections *)

(** [/^#{2,6}\s+\d+\.\s+.+$/gm] *)
Definition SECTION_HEADING_LINE_PATTERN : regex :=
  RSeqs [RLineStart; RLit (js "##"); ROpt (RChar 35); ROpt (RChar 35); ROpt (RChar 35); ROpt (RChar 35);
         RPlus (RSet c_space); RPlus (RSet c_digit); RChar 46; RPlus (RSet c_space); RPlus (RSet c_dot);
         RLineEnd].

Record SectionOccurrence := { heading : jstr; occ_index : nat }.

(** The successive matches with the position each starts at. *)
Fixpoint match_all (fuel : nat) (r : regex) (before after : jstr) : list SectionOccurrence :=
  match fuel with
  | O => []
  | S f =>
      match search_from r before after with
      | None => []
      | Some (s0, s1) =>
          if (length (post s1) <? length after)%nat
          then {| heading := take (length (post s0) - length (post s1)) (post s0);
                  occ_index := length (pre s0) |} :: match_all f r (pre s1) (post s1)
          else []
      end
  end.

Definition getSectionOccurrences (text : jstr) : list SectionOccurrence :=
  match_all (S (length text)) SECTION_HEADING_LINE_PATTERN [] text.

(** [getHeadingCounts(..).get(h) ?? 0] *)
Definition heading_count (os : list SectionOccurrence) (h : jstr) : nat :=
  length (bfilter (fun o => heading o =s h) os).

(** The loop of [findLastRepeatedSectionRunStart], from the last occurrence back. *)
Fixpoint last_repeated (os back : list SectionOccurrence) (seen : list jstr) : list nat :=
  match back with
  | [] => []
  | o :: t =>
      if (heading_count os (heading o) <? MIN_REPEATED_SECTION_COUNT)%nat
         || bool_decide (heading o ∈ seen)
      then last_repeated os t seen
      else occ_index o :: last_repeated os t (heading o :: seen)
  end.

(** [None] is -1. *)
Definition findLastRepeatedSectionRunStart (text : jstr) : option nat :=
  let os := getSectionOccurrences text in
  match last_repeated os (rev os) [] with
  | [] => None
  | i :: t => Some (fold_left Nat.min t i)
  end.

Definition collapseRepeatedSectionSnapshots (text : jstr) : jstr :=
  if (len text <? MIN_PREFIX_COLLAPSE_LENGTH)%N then text
  else match findLastRepeatedSectionRunStart text with
       | None => text
       | Some i => slice_from i text
       end.

(** ** Repairing a message *)

Definition loaded_text (text : jstr) : jstr :=
  truncateText (collapseRepeatedSectionSnapshots text) MAX_LOADED_MESSAGE_CHARS.

Definition load_version (v : MessageVersion) : MessageVersion :=
  {| version_id := version_id v; content := loaded_text (content v) |}.

(** A new version object is made unless both steps leave the text as it is. *)
Definition version_changed (v : MessageVersion) : bool :=
  negb ((loaded_text (content v) =s content v) &&
        (collapseRepeatedSectionSnapshots (content v) =s content v)).

Definition load_reasoning (r : Reasoning) : Reasoning :=
  reasoning_with (truncateText (r_content r) MAX_LOADED_MESSAGE_CHARS) r.

Definition reasoning_changed (m : Message) : bool :=
  match reasoning m with
  | Some r => negb (r_content (load_reasoning r) =s r_content r)
  | None => false
  end.

(** The message, and whether it is a new object. *)
Definition normalizeStoredMessageForLoad (now : number) (m : Message) : Message * bool :=
  let changed := existsb version_changed (versions m) || reasoning_changed m in
  let normalized :=
    if changed
    then with_reasoning (load_reasoning <$> reasoning m) (with_versions (map load_version (versions m)) m)
    else m in
  if negb (isAssistantMessagePending normalized) then (normalized, changed)
  else if negb (hasMessageContent normalized) &&
          negb (truthy (trim (default [] (r_content <$> reasoning normalized))))
  then (normalized, changed)
  else
    let completed :=
      match completedAt normalized, reasoning normalized ≫= r_completedAt, startedAt normalized,
            createdAt normalized with
      | Some x, _, _, _ => x
      | None, Some x, _, _ => x
      | None, None, Some x, _ => x
      | None, None, None, Some x => x
      | None, None, None, None => now
      end in
    (completeAssistantTiming completed
       (with_streaming false (with_status StComplete (finalizeMessage now normalized None))), true).

(** ** Writing *)

(** An object with the fields that are there: absent ones are left out. *)
Definition present (fields : list (jstr * option jsval)) : list (jstr * jsval) :=
  omap (fun '(k, x) => pair k <$> x) fields.

Definition role_value (r : MessageRole) : jsval :=
  VStr (match r with User => js "user" | Assistant => js "assistant" | System => js "system" end).

Definition status_value (s : MessageStatus) : jsval :=
  VStr (match s with
        | Loading => js "loading" | Streaming => js "streaming"
        | StComplete => js "complete" | StError => js "error"
        end).

Definition version_value (v : MessageVersion) : jsval :=
  VObj [(js "id", VStr (version_id v)); (js "content", VStr (content v))].

Definition reasoning_fields (r : Reasoning) : list (jstr * option jsval) :=
  [(js "content", Some (VStr (r_content r))); (js "duration", Some (VNum (r_duration r)));
   (js "startedAt", VNum <$> r_startedAt r); (js "completedAt", VNum <$> r_completedAt r);
   (js "durationMs", VNum <$> r_durationMs r)].

Definition reasoning_value (r : Reasoning) : jsval := VObj (present (reasoning_fields r)).

Definition source_value (s : jstr * jstr) : jsval :=
  VObj [(js "href", VStr (fst s)); (js "title", VStr (snd s))].

Definition code_value (c : option jstr) : jsval := match c with Some s => VStr s | None => VNull end.

Definition message_fields (m : Message) : list (jstr * option jsval) :=
  [(js "key", Some (VStr (key m))); (js "from", Some (role_value (from m)));
   (js "versions", Some (VArr (map version_value (versions m))));
   (js "createdAt", VNum <$> createdAt m); (js "startedAt", VNum <$> startedAt m);
   (js "completedAt", VNum <$> completedAt m); (js "durationMs", VNum <$> durationMs m);
   (js "sources", (fun l => VArr (map source_value l)) <$> sources m);
   (js "reasoning", reasoning_value <$> reasoning m);
   (js "isReasoningStreaming", VBool <$> isReasoningStreaming m);
   (js "isReasoningComplete", VBool <$> isReasoningComplete m);
   (js "isContentComplete", VBool <$> isContentComplete m);
   (js "status", status_value <$> status m); (js "errorCode", code_value <$> errorCode m)].

Definition message_value (m : Message) : jsval := VObj (present (message_fields m)).

Definition messages_value (ms : list Message) : jsval := VArr (map message_value ms).

(** [StoredEnvelope] *)
Definition envelope (data : jsval) : jsval :=
  VObj [(js "version", VNum (num_of_Z STORAGE_VERSION)); (js "data", data)].

Definition unwrapStoredValue (value : jsval) : jsval :=
  match value with
  | VObj o =>
      match prop_get (js "version") o, prop_get (js "data") o with
      | Some _, Some d => d
      | _, _ => value
      end
  | _ => value
  end.

(** [({ attachments, ...message }) => message] *)
Definition without_attachments (m : Message) : Message :=
  {| key := key m; from := from m; versions := versions m; createdAt := createdAt m;
     startedAt := startedAt m; completedAt := completedAt m; durationMs := durationMs m;
     sources := sources m; reasoning := reasoning m; isReasoningStreaming := isReasoningStreaming m;
     isReasoningComplete := isReasoningComplete m; isContentComplete := isContentComplete m;
     status := status m; errorCode := errorCode m; attachments := None |}.

(** ** The settings *)

(** [Partial<PlaygroundConfig>] and [Partial<ParameterEnabled>]; the inner [None] is
    [null]. *)
Record PartialConfig := {
  pc_model : option jstr; pc_selectedTokenId : option (option number); pc_temperature : option number;
  pc_top_p : option number; pc_max_tokens : option number; pc_frequency_penalty : option number;
  pc_presence_penalty : option number; pc_seed : option (option number); pc_stream : option bool }.

Record PartialEnabled := {
  pe_temperature : option bool; pe_top_p : option bool; pe_max_tokens : option bool;
  pe_frequency_penalty : option bool; pe_presence_penalty : option bool; pe_seed : option bool }.

Definition empty_config : PartialConfig :=
  {| pc_model := None; pc_selectedTokenId := None; pc_temperature := None; pc_top_p := None; pc_max_tokens := None;
     pc_frequency_penalty := None; pc_presence_penalty := None; pc_seed := None; pc_stream := None |}.

Definition empty_enabled : PartialEnabled :=
  {| pe_temperature := None; pe_top_p := None; pe_max_tokens := None; pe_frequency_penalty := None;
     pe_presence_penalty := None; pe_seed := None |}.

(** A whole configuration as a partial one. *)
Definition whole_config (c : PlaygroundConfig) : PartialConfig :=
  {| pc_model := Some (cfg_model c); pc_selectedTokenId := Some (num_of_Z <$> selectedTokenId c);
     pc_temperature := Some (cfg_temperature c); pc_top_p := Some (cfg_top_p c);
     pc_max_tokens := Some (cfg_max_tokens c); pc_frequency_penalty := Some (cfg_frequency_penalty c);
     pc_presence_penalty := Some (cfg_presence_penalty c); pc_seed := Some (cfg_seed c);
     pc_stream := Some (cfg_stream c) |}.

Definition whole_enabled (e : ParameterEnabled) : PartialEnabled :=
  {| pe_temperature := Some (en_temperature e); pe_top_p := Some (en_top_p e); pe_max_tokens := Some (en_max_tokens e);
     pe_frequency_penalty := Some (en_frequency_penalty e); pe_presence_penalty := Some (en_presence_penalty e);
     pe_seed := Some (en_seed e) |}.

Definition DEFAULT_CONFIG : PlaygroundConfig :=
  {| cfg_model := js "acu-auto"; selectedTokenId := None; cfg_temperature := dec (js "0.7");
     cfg_top_p := num_of_Z 1; cfg_max_tokens := num_of_Z 4096; cfg_frequency_penalty := n_zero;
     cfg_presence_penalty := n_zero; cfg_seed := None; cfg_stream := true |}.

Definition DEFAULT_PARAMETER_ENABLED : ParameterEnabled :=
  {| en_temperature := true; en_top_p := true; en_max_tokens := false; en_frequency_penalty := true;
     en_presence_penalty := true; en_seed := false |}.

Definition null_or_number (x : option number) : jsval := match x with Some n => VNum n | None => VNull end.

Definition config_fields (c : PartialConfig) : list (jstr * option jsval) :=
  [(js "model", VStr <$> pc_model c); (js "selectedTokenId", null_or_number <$> pc_selectedTokenId c);
   (js "temperature", VNum <$> pc_temperature c); (js "top_p", VNum <$> pc_top_p c);
   (js "max_tokens", VNum <$> pc_max_tokens c); (js "frequency_penalty", VNum <$> pc_frequency_penalty c);
   (js "presence_penalty", VNum <$> pc_presence_penalty c); (js "seed", null_or_number <$> pc_seed c);
   (js "stream", VBool <$> pc_stream c)].

Definition config_value (c : PartialConfig) : jsval := VObj (present (config_fields c)).

Definition enabled_fields (e : PartialEnabled) : list (jstr * option jsval) :=
  [(js "temperature", VBool <$> pe_temperature e); (js "top_p", VBool <$> pe_top_p e);
   (js "max_tokens", VBool <$> pe_max_tokens e); (js "frequency_penalty", VBool <$> pe_frequency_penalty e);
   (js "presence_penalty", VBool <$> pe_presence_penalty e); (js "seed", VBool <$> pe_seed e)].

Definition enabled_value (e : PartialEnabled) : jsval := VObj (present (enabled_fields e)).

(** ** The schema *)

(** The checks of the library: each answers the value it accepts, or nothing when it
    throws.  [z_object] hands an object to the reader of its fields; a field that is not
    there reads as [undefined]. *)
Class Zod := {
  z_string : jsval -> option jstr;
  z_number : jsval -> option number;
  z_int : (jsval -> option number) -> jsval -> option number;
  z_positive : (jsval -> option number) -> jsval -> option number;
  z_boolean : jsval -> option bool;
  z_enum : list jstr -> jsval -> option jstr;
  z_array : forall {A}, (jsval -> option A) -> jsval -> option (list A);
  z_min : forall {A}, nat -> (jsval -> option (list A)) -> jsval -> option (list A);
  z_object : forall {A}, (jsval -> option A) -> jsval -> option A;
  z_optional : forall {A}, (jsval -> option A) -> jsval -> option (option A);
  z_nullable : forall {A}, (jsval -> option A) -> jsval -> option (option A);
  z_string_ok : forall s, z_string (VStr s) = Some s;
  z_number_ok : forall x, n_isFinite x = true -> z_number (VNum x) = Some x;
  z_int_ok : forall f v z, f v = Some (num_of_Z z) -> safe z -> z_int f v = Some (num_of_Z z);
  z_positive_ok : forall f v x, f v = Some x -> n_positive x = true -> z_positive f v = Some x;
  z_boolean_ok : forall b, z_boolean (VBool b) = Some b;
  z_enum_ok : forall l s, s ∈ l -> z_enum l (VStr s) = Some s;
  z_array_ok : forall A (f : jsval -> option A) l, z_array f (VArr l) = mapM f l;
  z_min_ok : forall A n (f : jsval -> option (list A)) v l, f v = Some l -> n <= length l -> z_min n f v = Some l;
  z_object_ok : forall A (f : jsval -> option A) o, z_object f (VObj o) = f (VObj o);
  z_optional_none : forall A (f : jsval -> option A), z_optional f VUndef = Some None;
  z_optional_ok : forall A (f : jsval -> option A) v, v <> VUndef -> z_optional f v = Some <$> f v;
  z_nullable_null : forall A (f : jsval -> option A), z_nullable f VNull = Some None;
  z_nullable_ok : forall A (f : jsval -> option A) v, v <> VNull -> z_nullable f v = Some <$> f v }.

Arguments z_string : simpl never.
Arguments z_number : simpl never.
Arguments z_int : simpl never.
Arguments z_positive : simpl never.
Arguments z_boolean : simpl never.
Arguments z_array : simpl never.
Arguments z_nullable : simpl never.

Definition role_of (s : jstr) : option MessageRole :=
  if s =s js "user" then Some User else if s =s js "assistant" then Some Assistant
  else if s =s js "system" then Some System else None.

Definition status_of (s : jstr) : option MessageStatus :=
  if s =s js "loading" then Some Loading else if s =s js "streaming" then Some Streaming
  else if s =s js "complete" then Some StComplete else if s =s js "error" then Some StError else None.

Section schema.
Context {zod : Zod}.

Definition messageRoleSchema (v : jsval) : option MessageRole :=
  z_enum [js "user"; js "assistant"; js "system"] v ≫= role_of.

Definition messageStatusSchema (v : jsval) : option MessageStatus :=
  z_enum [js "loading"; js "streaming"; js "complete"; js "error"] v ≫= status_of.

Definition messageVersionSchema : jsval -> option MessageVersion := z_object (fun v =>
  i ← z_string (get (js "id") v); c ← z_string (get (js "content") v);
  Some {| version_id := i; content := c |}).

Definition sourceSchema : jsval -> option (jstr * jstr) := z_object (fun v =>
  h ← z_string (get (js "href") v); t ← z_string (get (js "title") v); Some (h, t)).

Definition reasoningSchema : jsval -> option Reasoning := z_object (fun v =>
  c ← z_string (get (js "content") v); d ← z_number (get (js "duration") v);
  s ← z_optional z_number (get (js "startedAt") v); e ← z_optional z_number (get (js "completedAt") v);
  dm ← z_optional z_number (get (js "durationMs") v);
  Some {| r_content := c; r_duration := d; r_startedAt := s; r_completedAt := e; r_durationMs := dm |}).

(** The attachments are no field of the schema, so they are left out of what it answers. *)
Definition messageSchema : jsval -> option Message := z_object (fun v =>
  k ← z_string (get (js "key") v); f ← messageRoleSchema (get (js "from") v);
  vs ← z_min 1 (z_array messageVersionSchema) (get (js "versions") v);
  ca ← z_optional z_number (get (js "createdAt") v); sa ← z_optional z_number (get (js "startedAt") v);
  oa ← z_optional z_number (get (js "completedAt") v); dm ← z_optional z_number (get (js "durationMs") v);
  so ← z_optional (z_array sourceSchema) (get (js "sources") v);
  re ← z_optional reasoningSchema (get (js "reasoning") v);
  rs ← z_optional z_boolean (get (js "isReasoningStreaming") v);
  rc ← z_optional z_boolean (get (js "isReasoningComplete") v);
  cc ← z_optional z_boolean (get (js "isContentComplete") v);
  st ← z_optional messageStatusSchema (get (js "status") v);
  ec ← z_optional (z_nullable z_string) (get (js "errorCode") v);
  Some {| key := k; from := f; versions := vs; createdAt := ca; startedAt := sa; completedAt := oa;
          durationMs := dm; sources := so; reasoning := re; isReasoningStreaming := rs;
          isReasoningComplete := rc; isContentComplete := cc; status := st; errorCode := ec;
          attachments := None |}).

Definition messagesSchema : jsval -> option (list Message) := z_array messageSchema.

Definition playgroundConfigSchema : jsval -> option PartialConfig := z_object (fun v =>
  m ← z_optional z_string (get (js "model") v);
  i ← z_optional (z_nullable (z_positive (z_int z_number))) (get (js "selectedTokenId") v);
  te ← z_optional z_number (get (js "temperature") v); tp ← z_optional z_number (get (js "top_p") v);
  mt ← z_optional z_number (get (js "max_tokens") v); fp ← z_optional z_number (get (js "frequency_penalty") v);
  pp ← z_optional z_number (get (js "presence_penalty") v);
  se ← z_optional (z_nullable z_number) (get (js "seed") v); st ← z_optional z_boolean (get (js "stream") v);
  Some {| pc_model := m; pc_selectedTokenId := i; pc_temperature := te; pc_top_p := tp; pc_max_tokens := mt;
          pc_frequency_penalty := fp; pc_presence_penalty := pp; pc_seed := se; pc_stream := st |}).

Definition parameterEnabledSchema : jsval -> option PartialEnabled := z_object (fun v =>
  te ← z_optional z_boolean (get (js "temperature") v); tp ← z_optional z_boolean (get (js "top_p") v);
  mt ← z_optional z_boolean (get (js "max_tokens") v); fp ← z_optional z_boolean (get (js "frequency_penalty") v);
  pp ← z_optional z_boolean (get (js "presence_penalty") v); se ← z_optional z_boolean (get (js "seed") v);
  Some {| pe_temperature := te; pe_top_p := tp; pe_max_tokens := mt; pe_frequency_penalty := fp;
          pe_presence_penalty := pp; pe_seed := se |}).
End schema.

Section storage.
Context {zod : Zod}.
Variable t : jstr -> jstr. (* the translation of a text *)
Variable accepts : jstr -> bool. (* whether localStorage.setItem accepts the text *)

Definition writeStoredValue (k : jstr) (data : jsval) (st : Storage) : Storage :=
  match stringify (envelope data) with
  | Some text => if accepts text then <[k := text]> st else st
  | None => st
  end.

(** Every failure is caught and leaves the storage as it is. *)
Definition saveMessages (messages : list Message) (st : Storage) : Storage :=
  let serializable := map without_attachments (trimMessages messages) in
  match messagesSchema (messages_value serializable) with
  | Some parsed => writeStoredValue MESSAGES_KEY (messages_value parsed) st
  | None => st
  end.

(** [inl] is [null], or the [SyntaxError] that [loadMessages] catches. *)
Definition readStoredMessagesValue (st : Storage) : option jsval * Storage :=
  match st !! MESSAGES_KEY with
  | None | Some [] => (None, st)
  | Some saved =>
      if (MAX_STORED_MESSAGES_BYTES <? len saved)%N then (None, delete MESSAGES_KEY st)
      else (json_parse saved, st)
  end.

(** [trimMessagesByContentSize] returns a new array every time, so the last comparison
    of arrays always finds a difference and the repaired messages are always saved. *)
Definition loadMessages (now : number) (st : Storage) : option (list Message) * Storage :=
  let '(saved, st1) := readStoredMessagesValue st in
  match saved with
  | None => (None, st1)
  | Some v =>
      if negb (v_truthy v) then (None, st1)
      else
        match messagesSchema (unwrapStoredValue v) with
        | None => (None, st1)
        | Some parsed =>
            let normalized := map (fun m => fst (normalizeStoredMessageForLoad now m)) parsed in
            let sizeTrimmed := trimMessagesByContentSize (trimMessages normalized) in
            let sanitized := sanitizeMessagesOnLoad t now sizeTrimmed in
            (Some sanitized, saveMessages sanitized st1)
        end
  end.

(** The outer [None] is the [SyntaxError] that the callers catch. *)
Definition readStoredValue (k : jstr) (st : Storage) : option jsval :=
  match st !! k with None | Some [] => Some VNull | Some saved => json_parse saved end.

Definition loadConfig (st : Storage) : PartialConfig :=
  match readStoredValue CONFIG_KEY st with
  | Some v => if negb (v_truthy v) then empty_config
              else default empty_config (playgroundConfigSchema (unwrapStoredValue v))
  | None => empty_config
  end.

Definition saveConfig (c : PartialConfig) (st : Storage) : Storage :=
  match playgroundConfigSchema (config_value c) with
  | Some parsed => writeStoredValue CONFIG_KEY (config_value parsed) st
  | None => st
  end.

Definition loadParameterEnabled (st : Storage) : PartialEnabled :=
  match readStoredValue PARAMETER_ENABLED_KEY st with
  | Some v => if negb (v_truthy v) then empty_enabled
              else default empty_enabled (parameterEnabledSchema (unwrapStoredValue v))
  | None => empty_enabled
  end.

Definition saveParameterEnabled (e : PartialEnabled) (st : Storage) : Storage :=
  match parameterEnabledSchema (enabled_value e) with
  | Some parsed => writeStoredValue PARAMETER_ENABLED_KEY (enabled_value parsed) st
  | None => st
  end.

(** [{ ...DEFAULT_CONFIG, ...loadConfig() }] *)
Definition getInitialPlaygroundConfig (st : Storage) : PlaygroundConfig :=
  let c := loadConfig st in
  {| cfg_model := default (cfg_model DEFAULT_CONFIG) (pc_model c);
     selectedTokenId := match pc_selectedTokenId c with
                        | Some x => int_value <$> x
                        | None => selectedTokenId DEFAULT_CONFIG
                        end;
     cfg_temperature := default (cfg_temperature DEFAULT_CONFIG) (pc_temperature c);
     cfg_top_p := default (cfg_top_p DEFAULT_CONFIG) (pc_top_p c);
     cfg_max_tokens := default (cfg_max_tokens DEFAULT_CONFIG) (pc_max_tokens c);
     cfg_frequency_penalty := default (cfg_frequency_penalty DEFAULT_CONFIG) (pc_frequency_penalty c);
     cfg_presence_penalty := default (cfg_presence_penalty DEFAULT_CONFIG) (pc_presence_penalty c);
     cfg_seed := default (cfg_seed DEFAULT_CONFIG) (pc_seed c);
     cfg_stream := default (cfg_stream DEFAULT_CONFIG) (pc_stream c) |}.

Definition getInitialParameterEnabled (st : Storage) : ParameterEnabled :=
  let e := loadParameterEnabled st in
  let d := DEFAULT_PARAMETER_ENABLED in
  {| en_temperature := default (en_temperature d) (pe_temperature e); en_top_p := default (en_top_p d) (pe_top_p e);
     en_max_tokens := default (en_max_tokens d) (pe_max_tokens e);
     en_frequency_penalty := default (en_frequency_penalty d) (pe_frequency_penalty e);
     en_presence_penalty := default (en_presence_penalty d) (pe_presence_penalty e);
     en_seed := default (en_seed d) (pe_seed e) |}.

Definition getInitialMessages (now : number) (st : Storage) : list Message * Storage :=
  let '(ms, st') := loadMessages now st in (default [] ms, st').

End storage.

Definition clearPlaygroundData (st : Storage) : Storage :=
  delete MESSAGES_KEY (delete PARAMETER_ENABLED_KEY (delete CONFIG_KEY st)).
