(* ===== verification/StorageFacts.v ===== *)
(** * Facts about saved conversations

    How much a loaded conversation can hold, that saving and loading a finished
    conversation returns it, and that saved settings are those the page opens with. *)

From stdpp Require Import gmap.
From S2P Require Import Prelude JsString JsNumber JsInteger JsMath Json JsonText PlaygroundMessages PlaygroundFacts PlaygroundStorage.

Open Scope nat_scope.

(** ** Lengths *)

Lemma len_app a b : len (a ++ b) = (len a + len b)%N.
Proof. unfold len. rewrite length_app. lia. Qed.

Lemma len_take n s : (len (take (N.to_nat n) s) <= n)%N.
Proof. unfold len. rewrite length_take. lia. Qed.

Lemma truncate_len text n : (len (truncateText text n) <= n)%N.
Proof.
  unfold truncateText. destruct (N.leb_spec (len text) n); [done|].
  destruct (N.leb_spec n (len TRUNCATED_CONTENT_SUFFIX)); [apply len_take|].
  rewrite len_app. pose proof (len_take (n - len TRUNCATED_CONTENT_SUFFIX) text). lia.
Qed.

(** A shortened text is the text, or a prefix of it and the mark. *)
Lemma truncate_short text n : (len text <= n)%N -> truncateText text n = text.
Proof. intros H. unfold truncateText. by rewrite (proj2 (N.leb_le _ _) H). Qed.

(** ** Reasoning blocks do not grow a message *)

Definition joined (parts : list jstr) : nat := length (join [10%N; 10%N] parts).

Lemma joined_cons x parts : joined (x :: parts) <= length x + 2 + joined parts.
Proof.
  unfold joined. destruct parts as [|y parts]; [simpl; lia|]. rewrite join_cons by done. rewrite !length_app. simpl. lia.
Qed.

(** Text between positions [pos] and the end, as the loop splits it. *)
Lemma think_loop_length f c pos :
  pos <= length c ->
  let '(vis, reas, _) := think_loop f c pos in
  length (concat vis) + joined reas + match reas with [] => 0 | _ => 5 end <= length c - pos.
Proof.
  revert pos. induction f as [|f IH]; intros pos Hpos; cbn [think_loop]; [simpl; unfold joined; simpl; lia|].
  destruct (index_of_at OPEN_TAG c pos) as [o|] eqn:Eo.
  - destruct (index_of_at_bounds _ _ _ _ Eo) as [B1 B2]. rewrite open_len in B2.
    assert (length (concat (if (pos <? o)%nat then [slice pos o c] else [])) <= o - pos) as Hb.
    { destruct (pos <? o)%nat; [|simpl; lia]. cbn [concat]. rewrite app_nil_r. unfold slice. rewrite length_take. lia. }
    destruct (index_of_at CLOSE_TAG c (o + 7)) as [cl|] eqn:Ec.
    + destruct (index_of_at_bounds _ _ _ _ Ec) as [D1 D2]. rewrite close_len in D2.
      specialize (IH (cl + 8) ltac:(lia)). destruct (think_loop f c (cl + 8)) as [[vis reas] u].
      pose proof (joined_cons (slice (o + 7) cl c) reas) as Hj.
      assert (length (slice (o + 7) cl c) <= cl - (o + 7)) by (unfold slice; rewrite length_take; lia).
      rewrite concat_app, length_app. destruct reas; lia.
    + unfold joined, slice_from. cbn [join]. rewrite length_drop. lia.
  - unfold joined. cbn [join length]. destruct (pos <? length c)%nat; simpl; [|lia].
    rewrite app_nil_r. unfold slice_from. rewrite length_drop. lia.
Qed.

Lemma think_tags_length c :
  (len (visibleContent (parseThinkTags c)) + len (pt_reasoning (parseThinkTags c)) <= len c)%N.
Proof.
  unfold parseThinkTags. destruct (includes OPEN_TAG c); cbn [negb]; [|cbn [visibleContent pt_reasoning]; unfold len; simpl; lia].
  pose proof (think_loop_length (S (length c)) c 0 ltac:(lia)) as H.
  destruct (think_loop (S (length c)) c 0) as [[vis reas] u]. cbn [visibleContent pt_reasoning].
  pose proof (trim_length (concat vis)). pose proof (trim_length (join [10%N; 10%N] reas)).
  unfold len, joined in *. lia.
Qed.

(** ** Sizes of messages *)

Definition reasoning_len (m : Message) : N :=
  match reasoning m with Some r => len (r_content r) | None => 0%N end.

Definition versions_len (vs : list MessageVersion) : N :=
  foldr (fun v n => (len (content v) + n)%N) 0%N vs.

Lemma message_size m : getMessageSize m = (versions_len (versions m) + reasoning_len m)%N.
Proof.
  unfold getMessageSize, reasoning_len. f_equal.
  assert (forall vs acc, fold_left (fun total v => (total + len (content v))%N) vs acc = (acc + versions_len vs)%N) as H.
  { induction vs as [|v vs IH]; intros acc; simpl; [lia|]. rewrite IH. lia. }
  rewrite H. lia.
Qed.

Lemma content_size m : (len (getMessageContent m) <= versions_len (versions m))%N.
Proof. unfold getMessageContent, getCurrentVersion. destruct (versions m); simpl; unfold len; simpl; lia. Qed.

(** Every text of the message fits. *)
Definition small (m : Message) : Prop :=
  Forall (fun v => (len (content v) <= MAX_LOADED_MESSAGE_CHARS)%N) (versions m) /\
  (reasoning_len m <= MAX_LOADED_MESSAGE_CHARS)%N.

Lemma small_content m : small m -> (len (getMessageContent m) <= MAX_LOADED_MESSAGE_CHARS)%N.
Proof.
  intros [H _]. unfold getMessageContent, getCurrentVersion. destruct H; [|done]. by vm_compute.
Qed.

Lemma reasoning_complete_len now m : reasoning_len (completeReasoningTiming now m) = reasoning_len m.
Proof.
  unfold completeReasoningTiming, reasoning_len. destruct (reasoning m) as [r|] eqn:E; [|by rewrite E].
  destruct (r_durationMs r); cbn; [by rewrite E|done].
Qed.

(** What completing a message keeps and shows. *)
Lemma finalize_parts now m :
  let c := getMessageContent m in
  versions (finalizeMessage now m None) =
    [{| version_id := version_id (getCurrentVersion m); content := visibleContent (parseThinkTags c) |}] /\
  reasoning_len (finalizeMessage now m None) =
    if (0 <? reasoning_len m)%N then reasoning_len m else len (pt_reasoning (parseThinkTags c)).
Proof.
  cbv zeta. unfold finalizeMessage. cbv zeta. rewrite reasoning_complete_len.
  assert (forall x, versions (completeReasoningTiming now x) = versions x) as ->.
  { intros x. unfold completeReasoningTiming. by cases. }
  assert (visibleContent (parseThinkTags (getMessageContent m)) =
    match (if includes OPEN_TAG (getMessageContent m) then Some (parseThinkTags (getMessageContent m)) else None) with
    | Some p => visibleContent p | None => getMessageContent m end) as ->.
  { unfold parseThinkTags. by destruct (includes OPEN_TAG (getMessageContent m)). }
  split; [done|]. unfold str_or. cbn [default from_option truthy].
  assert (pt_reasoning (parseThinkTags (getMessageContent m)) =
    default [] (pt_reasoning <$> (if includes OPEN_TAG (getMessageContent m)
                                  then Some (parseThinkTags (getMessageContent m)) else None))) as ->.
  { unfold parseThinkTags. by destruct (includes OPEN_TAG (getMessageContent m)). }
  set (pr := default [] (pt_reasoning <$> _)). unfold reasoning_len at 2 3.
  destruct (reasoning m) as [r|]; cbn [fmap option_fmap option_map default from_option].
  - destruct (r_content r) as [|x t] eqn:Er; cbn [truthy id].
    + change (0 <? len [])%N with false. cbv iota. destruct pr as [|y u] eqn:Ep; [done|]. cbn. done.
    + cbn. done.
  - change (0 <? 0)%N with false. cbv iota. destruct pr; done.
Qed.

Lemma finalize_size now m : (getMessageSize (finalizeMessage now m None) <= getMessageSize m)%N.
Proof.
  destruct (finalize_parts now m) as [Hv Hr]. rewrite !message_size, Hv, Hr. cbn [versions_len foldr content].
  pose proof (think_tags_length (getMessageContent m)). pose proof (content_size m).
  destruct (N.ltb_spec 0 (reasoning_len m)); lia.
Qed.

Lemma finalize_small now m : small m -> small (finalizeMessage now m None).
Proof.
  intros Hs. destruct (finalize_parts now m) as [Hv Hr]. unfold small. rewrite Hv, Hr.
  pose proof (think_tags_length (getMessageContent m)). pose proof (small_content m Hs). destruct Hs as [_ Hs].
  split; [constructor; [cbn; lia|constructor]|]. destruct (N.ltb_spec 0 (reasoning_len m)); lia.
Qed.

(** Only the times of a message, its status and its flags change. *)
Lemma timing_size now m :
  getMessageSize (completeAssistantTiming now m) = getMessageSize m /\
  (small (completeAssistantTiming now m) <-> small m).
Proof. unfold completeAssistantTiming. by cases. Qed.

Lemma normalized_small now m : small (fst (normalizeStoredMessageForLoad now m)).
Proof.
  unfold normalizeStoredMessageForLoad. cbv zeta.
  set (changed := existsb version_changed (versions m) || reasoning_changed m).
  set (normalized := if changed then _ else m).
  assert (small normalized) as Hn.
  { unfold normalized, changed, small, reasoning_len. destruct (existsb version_changed (versions m) || reasoning_changed m) eqn:E.
    - cbn [with_reasoning with_versions versions reasoning]. split.
      + rewrite Forall_map. apply Forall_true. intros v. apply truncate_len.
      + destruct (reasoning m) as [r|]; cbn; [|by vm_compute]. apply truncate_len.
    - apply orb_false_iff in E as [E1 E2]. rewrite existsb_none in E1. split.
      + rewrite Forall_forall. intros v Hv. specialize (E1 v Hv). unfold version_changed in E1.
        apply negb_false_iff, andb_true_iff in E1 as [<-%jeqb_eq _]. apply truncate_len.
      + unfold reasoning_changed in E2. destruct (reasoning m) as [r|]; [|by vm_compute].
        apply negb_false_iff, jeqb_eq in E2. rewrite <- E2. apply truncate_len. }
  clearbody normalized. destruct (negb (isAssistantMessagePending normalized)); [done|].
  destruct (negb _ && negb _); [done|]. cbn [fst]. apply timing_size.
  exact (finalize_small now normalized Hn).
Qed.

(** ** Trimming *)

Definition total_size (ms : list Message) : N := foldr (fun m n => (getMessageSize m + n)%N) 0%N ms.

Lemma total_size_app a b : total_size (a ++ b) = (total_size a + total_size b)%N.
Proof. induction a as [|m a IH]; simpl; [lia|]. rewrite IH. lia. Qed.

Lemma slice_end_suffix {A} n (l : list A) : slice_end n l `suffix_of` l /\ length (slice_end n l) <= n.
Proof.
  unfold slice_end. split; [exists (take (length l - n) l); by rewrite take_drop|]. rewrite length_drop. lia.
Qed.

Lemma trim_suffix ms : trimMessages ms `suffix_of` ms /\ length (trimMessages ms) <= MAX_STORED_MESSAGES.
Proof.
  unfold trimMessages. destruct (Nat.leb_spec (length ms) MAX_STORED_MESSAGES); [done|]. apply slice_end_suffix.
Qed.

(** The loop adds messages in front while they fit; the last message is always kept. *)
Lemma size_loop_spec back total kept :
  total = total_size kept -> (total <= MAX_LOADED_MESSAGES_CHARS)%N \/ length kept <= 1 ->
  let r := size_loop back total kept in
  (exists l, r = l ++ kept /\ l `suffix_of` rev back) /\
  ((total_size r <= MAX_LOADED_MESSAGES_CHARS)%N \/ length r <= 1).
Proof.
  cbv zeta. revert total kept. induction back as [|m back IH]; intros total kept -> Hk; cbn [size_loop].
  - split; [by exists []|done].
  - destruct ((0 <? length kept)%nat && (MAX_LOADED_MESSAGES_CHARS <? total_size kept + getMessageSize m)%N) eqn:E.
    + split; [|done]. exists []. split; [done|]. apply suffix_nil.
    + destruct (IH (total_size kept + getMessageSize m)%N (m :: kept)) as [(l & El & Hl) Hr]; [simpl; lia| |].
      { apply andb_false_iff in E as [E | E]; [|left; by apply N.ltb_ge].
        right. destruct kept; [simpl; lia|done]. }
      rewrite El in *. split; [|done]. exists (l ++ [m]). rewrite <- app_assoc. split; [done|].
      simpl. by apply suffix_app.
Qed.

Lemma size_trim_spec ms :
  trimMessagesByContentSize ms `suffix_of` ms /\
  ((total_size (trimMessagesByContentSize ms) <= MAX_LOADED_MESSAGES_CHARS)%N \/
   length (trimMessagesByContentSize ms) <= 1).
Proof.
  unfold trimMessagesByContentSize.
  destruct (size_loop_spec (rev ms) 0 []) as [(l & -> & Hl) Hr]; [done|right; simpl; lia|].
  rewrite rev_involutive in Hl. rewrite app_nil_r in *. done.
Qed.

Lemma size_loop_all back total kept :
  total = total_size kept -> (total + total_size back <= MAX_LOADED_MESSAGES_CHARS)%N ->
  size_loop back total kept = rev back ++ kept.
Proof.
  revert total kept. induction back as [|m back IH]; intros total kept -> Hk; [done|]. cbn [size_loop rev].
  simpl in Hk. rewrite (proj2 (N.ltb_ge _ _)), andb_false_r by lia.
  rewrite IH; [by rewrite <- app_assoc|simpl; lia|lia].
Qed.

Lemma total_size_rev ms : total_size (rev ms) = total_size ms.
Proof. induction ms as [|m ms IH]; [done|]. simpl. rewrite total_size_app, IH. simpl. lia. Qed.

(** ** Settling the last message *)

Section settling.
Variable t : jstr -> jstr.

Definition interrupted_text : jstr := t API_REQUEST_ERROR ++ js ": " ++ t INTERRUPTED.

(** Every text fits, or the message shows the notice of an interrupted answer instead,
    in the language of the page and as long as it is there. *)
Definition fits (m : Message) : Prop :=
  small m \/
  map content (versions m) = [interrupted_text] /\ (reasoning_len m <= MAX_LOADED_MESSAGE_CHARS)%N.

Lemma sanitized_message now m :
  (getMessageSize (sanitize_message t now m) <= getMessageSize m + len interrupted_text)%N /\
  (small m -> fits (sanitize_message t now m)).
Proof.
  unfold sanitize_message. cbv zeta. fold interrupted_text. set (x := finalizeMessage now m None).
  pose proof (finalize_size now m) as Hs. pose proof (finalize_small now m) as Hm. fold x in Hs, Hm.
  destruct (_ || _).
  - destruct (timing_size now (with_streaming false (with_status StComplete x))) as [-> _].
    change (getMessageSize (with_streaming false (with_status StComplete x))) with (getMessageSize x). split; [lia|].
    intros H. left. apply timing_size. by apply Hm.
  - set (y := with_streaming false _). destruct (timing_size now y) as [-> _]. unfold fits.
    assert (map content (versions (completeAssistantTiming now y)) = map content (versions y) /\
            reasoning_len (completeAssistantTiming now y) = reasoning_len y) as [-> ->]
      by (unfold completeAssistantTiming; by cases). unfold y.
    rewrite !message_size in *. cbn [with_streaming with_status updateCurrentVersionContent with_versions versions versions_len foldr content].
    change (reasoning_len (with_streaming _ _)) with (reasoning_len x). split; [lia|].
    intros Hsm. specialize (Hm Hsm) as [_ Hr]. by right.
Qed.

Lemma total_size_insert ms i m m' :
  ms !! i = Some m -> (total_size (<[i := m']> ms) + getMessageSize m = total_size ms + getMessageSize m')%N.
Proof.
  revert i. induction ms as [|x ms IH]; intros [|i] H; simpl in *; simplify_eq; [lia|].
  specialize (IH i H). lia.
Qed.

Lemma small_fits ms : Forall small ms -> Forall fits ms.
Proof. intros H. eapply Forall_impl; [exact H|]. intros m Hm. by left. Qed.

Lemma sanitize_bounds now ms :
  length (sanitizeMessagesOnLoad t now ms) = length ms /\
  (total_size (sanitizeMessagesOnLoad t now ms) <= total_size ms + len interrupted_text)%N /\
  (Forall small ms -> Forall fits (sanitizeMessagesOnLoad t now ms)).
Proof.
  unfold sanitizeMessagesOnLoad. destruct (last_pending ms) as [i|]; [|split; [done|]; split; [lia|by apply small_fits]].
  destruct (ms !! i) as [m|] eqn:Em; [|split; [done|]; split; [lia|by apply small_fits]].
  destruct (sanitized_message now m) as [Hz Hsm]. pose proof (total_size_insert ms i m (sanitize_message t now m) Em).
  split; [by rewrite length_insert|]. split; [lia|]. intros Hf. apply Forall_insert; [by apply small_fits|]. apply Hsm.
  eapply Forall_lookup_1; eauto.
Qed.

End settling.

(** What the schema accepts as it is: the fields it knows, at least one version, and
    data that JSON keeps. *)
Definition valid_message (m : Message) : bool :=
  match versions m with [] => false | _ => true end &&
  match attachments m with None => true | Some _ => false end &&
  plain_value (message_value m).

(** ** The schema keeps what it accepts *)

Lemma prop_get_present k fields :
  NoDup (map fst fields) -> prop_get k (present fields) = mjoin (prop_get k fields).
Proof.
  induction fields as [|[k' x] fields IH]; intros Hn; [done|]. cbn [map fst] in Hn. apply NoDup_cons in Hn as [Hk Hn].
  unfold present in *. csimpl. unfold jeqb. destruct (decide (k = k')) as [-> | Hne].
  - rewrite bool_decide_true by done. destruct x as [v|]; cbn; [by rewrite jeqb_refl|].
    rewrite IH by done. by rewrite (proj2 (prop_get_None_iff k' fields) Hk).
  - rewrite bool_decide_false by done. destruct x as [v|]; cbn; [|by apply IH].
    unfold jeqb. rewrite bool_decide_false by done. by apply IH.
Qed.

Lemma get_reasoning k r : get k (reasoning_value r) = default VUndef (mjoin (prop_get k (reasoning_fields r))).
Proof.
  unfold reasoning_value, get. rewrite prop_get_present; [done|]. unfold reasoning_fields. cbn [map fst]. decided.
Qed.

Lemma get_message k m : get k (message_value m) = default VUndef (mjoin (prop_get k (message_fields m))).
Proof.
  unfold message_value, get. rewrite prop_get_present; [done|]. unfold message_fields. cbn [map fst]. decided.
Qed.

Lemma mapM_map {A B} (f : A -> B) (g : B -> option A) l :
  (forall a, g (f a) = Some a) -> mapM g (map f l) = Some l.
Proof. intros H. induction l as [|a l IH]; [done|]. cbn. by rewrite H, IH. Qed.

(** A field of data that JSON keeps is such data. *)
Lemma plain_get k v : plain_value v = true -> get k v <> VUndef -> plain_value (get k v) = true.
Proof.
  destruct v as [| | | | | |o]; try done. intros Hp. unfold get. destruct (prop_get k o) as [x|] eqn:E; [|done]. intros _.
  apply plain_object in Hp as [_ Hp]. rewrite Forall_forall in Hp. specialize (Hp _ (prop_get_in _ _ _ E)).
  unfold plain_pair in Hp. by apply andb_true_iff in Hp as [_ Hp].
Qed.

Section schema.
Context {zod : Zod}.

(** An optional field: the value it was written as, or left out. *)
Lemma optional_field {A} k (f : A -> jsval) g (x : option A) v :
  get k v = default VUndef (f <$> x) -> (forall a, x = Some a -> g (f a) = Some a /\ f a <> VUndef) ->
  z_optional g (get k v) = Some x.
Proof.
  intros -> Hx. destruct x as [a|]; [|apply z_optional_none]. destruct (Hx a eq_refl) as [E N].
  cbn. by rewrite z_optional_ok, E.
Qed.

Lemma finite_field k v x : plain_value v = true -> get k v = VNum x -> z_number (VNum x) = Some x.
Proof.
  intros Hp Hk. apply z_number_ok. pose proof (plain_get k v Hp) as Hx. rewrite Hk in Hx. specialize (Hx ltac:(done)).
  cbn in Hx. unfold reads_back in Hx. by apply andb_true_iff in Hx as [Hx _].
Qed.

Lemma time_field k x v :
  plain_value v = true -> get k v = default VUndef (VNum <$> x) -> z_optional z_number (get k v) = Some x.
Proof.
  intros Hp Hk. apply (optional_field k VNum); [done|]. intros a ->. split; [|done]. by apply (finite_field k v).
Qed.

Lemma flag_field k x v :
  get k v = default VUndef (VBool <$> x) -> z_optional z_boolean (get k v) = Some x.
Proof. intros Hk. apply (optional_field k VBool); [done|]. intros a _. split; [apply z_boolean_ok|done]. Qed.

Lemma role_kept r : messageRoleSchema (role_value r) = Some r.
Proof. unfold messageRoleSchema, role_value. destruct r; (rewrite z_enum_ok by decided); reflexivity. Qed.

Lemma status_kept st : messageStatusSchema (status_value st) = Some st.
Proof. unfold messageStatusSchema, status_value. destruct st; (rewrite z_enum_ok by decided); reflexivity. Qed.

Lemma version_kept v : messageVersionSchema (version_value v) = Some v.
Proof.
  unfold messageVersionSchema, version_value. rewrite z_object_ok. fold (version_value v).
  change (get (js "id") (version_value v)) with (VStr (version_id v)).
  change (get (js "content") (version_value v)) with (VStr (content v)). rewrite !z_string_ok. by destruct v.
Qed.

Lemma source_kept s : sourceSchema (source_value s) = Some s.
Proof.
  unfold sourceSchema, source_value. rewrite z_object_ok. fold (source_value s).
  change (get (js "href") (source_value s)) with (VStr (fst s)).
  change (get (js "title") (source_value s)) with (VStr (snd s)). rewrite !z_string_ok. by destruct s.
Qed.

Lemma code_kept c : z_nullable z_string (code_value c) = Some c.
Proof. destruct c; cbn; [rewrite z_nullable_ok, z_string_ok by done; done|apply z_nullable_null]. Qed.

Lemma reasoning_kept r : plain_value (reasoning_value r) = true -> reasoningSchema (reasoning_value r) = Some r.
Proof.
  intros Hp. unfold reasoningSchema. change (reasoning_value r) with (VObj (present (reasoning_fields r))) at 1.
  rewrite z_object_ok. fold (reasoning_value r).
  rewrite (time_field (js "startedAt") (r_startedAt r) _ Hp (get_reasoning _ r)),
    (time_field (js "completedAt") (r_completedAt r) _ Hp (get_reasoning _ r)),
    (time_field (js "durationMs") (r_durationMs r) _ Hp (get_reasoning _ r)).
  assert (get (js "duration") (reasoning_value r) = VNum (r_duration r)) as Ed by apply get_reasoning.
  rewrite (get_reasoning (js "content")), Ed, (finite_field _ _ _ Hp Ed).
  change (mjoin (prop_get (js "content") (reasoning_fields r))) with (Some (VStr (r_content r))).
  cbn [default from_option id]. rewrite z_string_ok. by destruct r.
Qed.

Lemma message_kept m : valid_message m = true -> messageSchema (message_value m) = Some m.
Proof.
  unfold valid_message. rewrite !andb_true_iff. intros [[Hv Ha] Hp].
  unfold messageSchema. change (message_value m) with (VObj (present (message_fields m))) at 1.
  rewrite z_object_ok. fold (message_value m).
  rewrite (get_message (js "key")), (get_message (js "from")), (get_message (js "versions")).
  change (mjoin (prop_get (js "key") (message_fields m))) with (Some (VStr (key m))).
  change (mjoin (prop_get (js "from") (message_fields m))) with (Some (role_value (from m))).
  change (mjoin (prop_get (js "versions") (message_fields m))) with (Some (VArr (map version_value (versions m)))).
  cbn [default from_option id]. rewrite z_string_ok, role_kept. cbn [mbind option_bind].
  rewrite (z_min_ok _ _ _ _ (versions m)); [|rewrite z_array_ok; apply mapM_map, version_kept|
    destruct (versions m); [done|simpl; lia]]. cbn [mbind option_bind].
  rewrite (time_field (js "createdAt") (createdAt m) _ Hp (get_message _ m)),
    (time_field (js "startedAt") (startedAt m) _ Hp (get_message _ m)),
    (time_field (js "completedAt") (completedAt m) _ Hp (get_message _ m)),
    (time_field (js "durationMs") (durationMs m) _ Hp (get_message _ m)).
  rewrite (optional_field (js "sources") (fun l => VArr (map source_value l)) _ (sources m) _ (get_message _ m));
    [|intros a _; split; [|done]; rewrite z_array_ok; apply mapM_map, source_kept].
  rewrite (optional_field (js "reasoning") reasoning_value _ (reasoning m) _ (get_message _ m)).
  2:{ intros r Er. split; [|done]. apply reasoning_kept. pose proof (plain_get (js "reasoning") _ Hp) as Hr.
      rewrite get_message in Hr. cbn in Hr. rewrite Er in Hr. by apply Hr. }
  rewrite (flag_field (js "isReasoningStreaming") (isReasoningStreaming m) _ (get_message _ m)),
    (flag_field (js "isReasoningComplete") (isReasoningComplete m) _ (get_message _ m)),
    (flag_field (js "isContentComplete") (isContentComplete m) _ (get_message _ m)).
  rewrite (optional_field (js "status") status_value _ (status m) _ (get_message _ m));
    [|intros a _; split; [apply status_kept|by destruct a]].
  rewrite (optional_field (js "errorCode") code_value _ (errorCode m) _ (get_message _ m));
    [|intros a _; split; [apply code_kept|by destruct a]].
  cbn [mbind option_bind].
  assert (attachments m = None) as Ea by (by destruct (attachments m)). clear -Ea. destruct m. simpl in Ea. by subst.
Qed.

Lemma messages_schema_keeps ms : forallb valid_message ms = true -> messagesSchema (messages_value ms) = Some ms.
Proof.
  rewrite forallb_Forall'. intros Hv. unfold messagesSchema, messages_value. rewrite z_array_ok.
  induction Hv as [|m ms Hm _ IH]; [done|]. cbn [map mapM]. simpl in Hm. rewrite (message_kept m Hm). cbn. by rewrite IH.
Qed.
End schema.

(** ** The settings *)

Section settings.
Context {zod : Zod}.

Lemma get_config k c : get k (config_value c) = default VUndef (mjoin (prop_get k (config_fields c))).
Proof. unfold config_value, get. rewrite prop_get_present; [done|]. unfold config_fields. cbn [map fst]. decided. Qed.

Lemma get_enabled k e : get k (enabled_value e) = default VUndef (mjoin (prop_get k (enabled_fields e))).
Proof. unfold enabled_value, get. rewrite prop_get_present; [done|]. unfold enabled_fields. cbn [map fst]. decided. Qed.

(** A field that may be [null]. *)
Lemma nullable_field k (g : jsval -> option number) x v :
  get k v = default VUndef (null_or_number <$> x) -> (forall n, x = Some (Some n) -> g (VNum n) = Some n) ->
  z_optional (z_nullable g) (get k v) = Some x.
Proof.
  intros Hk Hg. apply (optional_field k null_or_number); [done|]. intros [n|] ->; (split; [|done]); cbn.
  - by rewrite z_nullable_ok, Hg.
  - apply z_nullable_null.
Qed.

Lemma text_field k x v : get k v = default VUndef (VStr <$> x) -> z_optional z_string (get k v) = Some x.
Proof. intros Hk. apply (optional_field k VStr); [done|]. intros a _. split; [apply z_string_ok|done]. Qed.

(** What the schema of the settings keeps: data JSON keeps, and as the chosen key a
    positive integer. *)
Definition valid_config (c : PlaygroundConfig) : Prop :=
  plain_value (config_value (whole_config c)) = true /\
  forall i, selectedTokenId c = Some i -> (0 < i)%Z /\ safe i.

Lemma config_kept c : valid_config c ->
  playgroundConfigSchema (config_value (whole_config c)) = Some (whole_config c).
Proof.
  intros [Hp Hi]. unfold playgroundConfigSchema. set (pc := whole_config c) in *.
  change (config_value pc) with (VObj (present (config_fields pc))) at 1. rewrite z_object_ok. fold (config_value pc).
  rewrite (text_field (js "model") (pc_model pc) _ (get_config _ pc)).
  assert (forall k n, get k (config_value pc) = VNum n -> z_number (VNum n) = Some n) as Hn by (intros k n; by apply finite_field).
  rewrite (nullable_field (js "selectedTokenId") _ (pc_selectedTokenId pc) _ (get_config _ pc)).
  2:{ intros n E. unfold pc in E. cbn in E. destruct (selectedTokenId c) as [i|] eqn:Et; [|done]. injection E as <-.
      destruct (Hi i eq_refl) as [H0 Hs]. apply z_positive_ok; [apply z_int_ok; [|done]|].
      - apply (Hn (js "selectedTokenId")). rewrite get_config. unfold pc. cbn. by rewrite Et.
      - unfold n_positive. rewrite positive_exact by done. lia. }
  rewrite (time_field (js "temperature") (pc_temperature pc) _ Hp (get_config _ pc)),
    (time_field (js "top_p") (pc_top_p pc) _ Hp (get_config _ pc)),
    (time_field (js "max_tokens") (pc_max_tokens pc) _ Hp (get_config _ pc)),
    (time_field (js "frequency_penalty") (pc_frequency_penalty pc) _ Hp (get_config _ pc)),
    (time_field (js "presence_penalty") (pc_presence_penalty pc) _ Hp (get_config _ pc)).
  rewrite (nullable_field (js "seed") _ (pc_seed pc) _ (get_config _ pc)).
  2:{ intros n E. apply (Hn (js "seed")). rewrite get_config. cbn -[pc]. by rewrite E. }
  by rewrite (flag_field (js "stream") (pc_stream pc) _ (get_config _ pc)).
Qed.

Lemma enabled_kept e : parameterEnabledSchema (enabled_value (whole_enabled e)) = Some (whole_enabled e).
Proof.
  unfold parameterEnabledSchema. set (pe := whole_enabled e).
  change (enabled_value pe) with (VObj (present (enabled_fields pe))) at 1. rewrite z_object_ok. fold (enabled_value pe).
  by rewrite (flag_field (js "temperature") (pe_temperature pe) _ (get_enabled _ pe)),
    (flag_field (js "top_p") (pe_top_p pe) _ (get_enabled _ pe)),
    (flag_field (js "max_tokens") (pe_max_tokens pe) _ (get_enabled _ pe)),
    (flag_field (js "frequency_penalty") (pe_frequency_penalty pe) _ (get_enabled _ pe)),
    (flag_field (js "presence_penalty") (pe_presence_penalty pe) _ (get_enabled _ pe)),
    (flag_field (js "seed") (pe_seed pe) _ (get_enabled _ pe)).
Qed.

Lemma enveloped_plain v : plain_value v = true -> plain_value (envelope v) = true.
Proof. intros H. unfold envelope. cbn [plain_value map fst forallb]. rewrite H. by vm_compute. Qed.

Lemma read_written k v st accepts : plain_value v = true -> accepts (text_of (envelope v)) = true ->
  readStoredValue k (writeStoredValue accepts k v st) = Some (envelope v).
Proof.
  intros Hp Ha. destruct (json_roundtrip _ (enveloped_plain v Hp)) as (w & Hw & Hj).
  assert (text_of (envelope v) = w) as Ew by (unfold text_of; by rewrite Hw).
  unfold writeStoredValue. rewrite Hw, <- Ew, Ha. unfold readStoredValue. rewrite lookup_insert_eq, Ew.
  destruct w; [by vm_compute in Hj|done].
Qed.

(** Settings of the playground that were saved are the ones the page opens with: the
    configuration when its numbers read back and its chosen key is a positive integer,
    and the switches always, if the storage accepts the texts. *)
Theorem settings_roundtrip accepts c e st :
  valid_config c -> accepts (text_of (envelope (config_value (whole_config c)))) = true ->
  accepts (text_of (envelope (enabled_value (whole_enabled e)))) = true ->
  let st' := saveParameterEnabled accepts (whole_enabled e) (saveConfig accepts (whole_config c) st) in
  getInitialPlaygroundConfig st' = c /\ getInitialParameterEnabled st' = e.
Proof.
  intros Hc Ha Ha'. cbv zeta. unfold saveConfig, saveParameterEnabled. rewrite (config_kept c Hc), enabled_kept.
  split.
  - assert (loadConfig (writeStoredValue accepts PARAMETER_ENABLED_KEY (enabled_value (whole_enabled e))
      (writeStoredValue accepts CONFIG_KEY (config_value (whole_config c)) st)) = whole_config c) as Hl.
    { unfold loadConfig.
      assert (forall st0, readStoredValue CONFIG_KEY (writeStoredValue accepts PARAMETER_ENABLED_KEY (enabled_value (whole_enabled e)) st0)
        = readStoredValue CONFIG_KEY st0) as ->.
      { intros st0. unfold writeStoredValue. destruct (stringify _) as [w|]; [|done]. destruct (accepts w); [|done].
        unfold readStoredValue. by rewrite lookup_insert_ne. }
      rewrite read_written by (done || apply Hc).
      change (negb (v_truthy (envelope (config_value (whole_config c))))) with false.
      change (unwrapStoredValue (envelope (config_value (whole_config c)))) with (config_value (whole_config c)).
      cbv iota. by rewrite (config_kept c Hc). }
    unfold getInitialPlaygroundConfig. rewrite Hl. destruct Hc as [_ Hi]. destruct c as [m i te tp mt fp pp se st0]. cbn in Hi |- *.
    f_equal. destruct i as [i|]; [|done]. cbn. by rewrite int_of_Z by (by apply Hi).
  - assert (plain_value (enabled_value (whole_enabled e)) = true) as Hp by (by destruct e as [[] [] [] [] [] []]).
    unfold getInitialParameterEnabled, loadParameterEnabled. rewrite read_written by done.
    change (negb (v_truthy (envelope (enabled_value (whole_enabled e))))) with false.
    change (unwrapStoredValue (envelope (enabled_value (whole_enabled e)))) with (enabled_value (whole_enabled e)).
    cbv iota. rewrite enabled_kept. by destruct e.
Qed.
End settings.

(** ** Theorems *)

Section storage.
Context {zod : Zod}.
Variable t : jstr -> jstr.
Variable accepts : jstr -> bool.

(** C12. A loaded conversation is bounded, whatever was stored: at most 100 messages, each
    text at most 40000 units, or the notice of an interrupted answer in the language of
    the page, and all texts together at most 120000 units and the length of that notice,
    unless it is a single message. *)
Theorem loaded_bounds now st ms st' :
  loadMessages t accepts now st = (Some ms, st') ->
  length ms <= MAX_STORED_MESSAGES /\ Forall (fits t) ms /\
  ((total_size ms <= MAX_LOADED_MESSAGES_CHARS + len (interrupted_text t))%N \/ length ms <= 1).
Proof.
  unfold loadMessages. destruct (readStoredMessagesValue st) as [[v|] st1]; [|done].
  destruct (negb (v_truthy v)); [done|]. destruct (messagesSchema (unwrapStoredValue v)) as [parsed|]; [|done]. cbv zeta.
  set (normalized := map (fun m => fst (normalizeStoredMessageForLoad now m)) parsed). intros [= <- _].
  assert (Forall small normalized) as Hn.
  { unfold normalized. rewrite Forall_map. apply Forall_true. intros m. apply normalized_small. }
  destruct (trim_suffix normalized) as [[l1 E1] L1].
  destruct (size_trim_spec (trimMessages normalized)) as [[l2 E2] L2].
  assert (Forall small (trimMessages normalized)) as Ht by (rewrite E1, Forall_app in Hn; tauto).
  assert (Forall small (trimMessagesByContentSize (trimMessages normalized))) as Hz.
  { rewrite E2, Forall_app in Ht. tauto. }
  destruct (sanitize_bounds t now (trimMessagesByContentSize (trimMessages normalized))) as (B1 & B2 & B3).
  rewrite B1. split; [|split; [by apply B3|]].
  - apply (f_equal length) in E2. rewrite length_app in E2. lia.
  - destruct L2; [left; lia|by right].
Qed.

(** A message that loading does not change: finished, its texts short and without
    repeated sections. *)
Definition kept_message (m : Message) : bool :=
  negb (existsb version_changed (versions m)) && negb (reasoning_changed m) &&
  negb (isAssistantMessagePending m).

Lemma normalized_kept now m : kept_message m = true -> fst (normalizeStoredMessageForLoad now m) = m.
Proof.
  unfold kept_message. rewrite !andb_true_iff, !negb_true_iff. intros [[H1 H2] H3].
  unfold normalizeStoredMessageForLoad. rewrite H1, H2. cbn [orb]. by rewrite H3.
Qed.

Lemma sanitize_kept now ms : forallb kept_message ms = true -> sanitizeMessagesOnLoad t now ms = ms.
Proof.
  intros H. unfold sanitizeMessagesOnLoad. destruct (last_pending ms) as [i|] eqn:E; [|done].
  apply last_pending_Some in E as [(m & Hm & Hp) _]. exfalso. rewrite forallb_Forall' in H.
  pose proof (Forall_lookup_1 _ _ _ _ H Hm) as Hk. simpl in Hk. unfold kept_message in Hk.
  unfold isPendingAssistantMessage in Hp. apply andb_true_iff in Hp as [_ Hp]. rewrite Hp in Hk.
  by rewrite andb_false_r in Hk.
Qed.

Lemma envelope_plain ms : forallb valid_message ms = true -> plain_value (envelope (messages_value ms)) = true.
Proof.
  intros H. unfold envelope. cbn [plain_value map fst forallb].
  assert (plain_value (messages_value ms) = true) as ->.
  { unfold messages_value. cbn [plain_value]. apply forallb_Forall' in H. apply forallb_Forall'. rewrite Forall_map.
    eapply Forall_impl; [exact H|]. intros m Hm. simpl. unfold valid_message in Hm.
    by apply andb_true_iff in Hm as [_ Hm]. }
  vm_compute. reflexivity.
Qed.

(** The text a conversation is stored as. *)
Definition saved_text (ms : list Message) : jstr := text_of (envelope (messages_value ms)).

Lemma save_writes ms st :
  length ms <= MAX_STORED_MESSAGES -> forallb valid_message (map without_attachments ms) = true ->
  accepts (saved_text (map without_attachments ms)) = true ->
  saveMessages accepts ms st = <[MESSAGES_KEY := saved_text (map without_attachments ms)]> st.
Proof.
  intros Hl Hv Ha. unfold saveMessages. cbv zeta.
  assert (trimMessages ms = ms) as -> by (unfold trimMessages; by rewrite (proj2 (Nat.leb_le _ _) Hl)).
  rewrite messages_schema_keeps by done. unfold writeStoredValue. rewrite (text_of_plain _ (envelope_plain _ Hv)).
  fold (saved_text (map without_attachments ms)). by rewrite Ha.
Qed.

(** C11. Saving a finished conversation and loading it returns it, without the images it
    held in memory, and loading leaves the storage as the save wrote it: for messages
    the schema accepts that are finished and within the limits, in a text the storage
    accepts and that is within a mebibyte. *)
Theorem save_load_roundtrip now ms st (kept := map without_attachments ms) :
  length ms <= MAX_STORED_MESSAGES ->
  forallb valid_message kept = true -> forallb kept_message kept = true ->
  (total_size kept <= MAX_LOADED_MESSAGES_CHARS)%N ->
  accepts (saved_text kept) = true -> (len (saved_text kept) <= MAX_STORED_MESSAGES_BYTES)%N ->
  loadMessages t accepts now (saveMessages accepts ms st) =
  (Some kept, saveMessages accepts ms st).
Proof.
  intros Hl Hv Hk Hz Ha Hb. rewrite save_writes by done. fold kept.
  destruct (json_roundtrip (envelope (messages_value kept)) (envelope_plain _ Hv)) as (w & Hw & Hp).
  assert (saved_text kept = w) as Ew by (unfold saved_text, text_of; by rewrite Hw).
  unfold loadMessages, readStoredMessagesValue. rewrite lookup_insert_eq.
  destruct (saved_text kept) as [|c cs] eqn:Et; [by rewrite <- Ew in Hp|].
  rewrite (proj2 (N.ltb_ge _ _) Hb), Ew, Hp.
  change (unwrapStoredValue (envelope (messages_value kept))) with (messages_value kept). cbn [v_truthy envelope negb].
  rewrite messages_schema_keeps by done. cbv zeta.
  assert (map (fun m => fst (normalizeStoredMessageForLoad now m)) kept = kept) as ->.
  { clear -Hk. rewrite forallb_Forall' in Hk. induction Hk as [|m l Hm _ IH]; [done|]. simpl in *.
    by rewrite (normalized_kept now m Hm), IH. }
  assert (trimMessages kept = kept) as ->.
  { unfold trimMessages, kept. rewrite length_map. by rewrite (proj2 (Nat.leb_le _ _) Hl). }
  assert (trimMessagesByContentSize kept = kept) as ->.
  { unfold trimMessagesByContentSize. rewrite size_loop_all; [by rewrite rev_involutive, app_nil_r|done|].
    rewrite total_size_rev. lia. }
  rewrite sanitize_kept by done. f_equal.
  assert (map without_attachments kept = kept) as Ekk by (unfold kept; by rewrite map_map).
  rewrite save_writes; rewrite ?Ekk; try done.
  - rewrite Et, Ew. apply insert_insert_eq.
  - unfold kept. by rewrite length_map.
  - by rewrite Et.
Qed.

(** A conversation whose text is longer than a mebibyte is not shortened but lost: the
    save writes it, and the next load removes it from the storage and returns nothing. *)
Theorem oversized_conversation_lost now ms st (kept := map without_attachments ms) :
  length ms <= MAX_STORED_MESSAGES -> forallb valid_message kept = true ->
  accepts (saved_text kept) = true -> (MAX_STORED_MESSAGES_BYTES < len (saved_text kept))%N ->
  loadMessages t accepts now (saveMessages accepts ms st) = (None, delete MESSAGES_KEY st).
Proof.
  intros Hl Hv Ha Hb. rewrite save_writes by done. fold kept.
  unfold loadMessages, readStoredMessagesValue. rewrite lookup_insert_eq.
  destruct (saved_text kept) as [|c cs] eqn:Et; [by vm_compute in Hb|].
  rewrite (proj2 (N.ltb_lt _ _) Hb). by rewrite delete_insert_eq.
Qed.
End storage.

(** ** Witnesses *)

(** The checks as the documentation of the library describes them. *)
#[local] Instance documented_zod : Zod.
Proof.
  refine {|
  z_string v := match v with VStr s => Some s | _ => None end;
  z_number v := match v with VNum x => if n_isFinite x then Some x else None | _ => None end;
  z_int f v := x ← f v; if n_eqb x (num_of_Z (int_value x)) && (Z.abs (int_value x) <? 2 ^ 53)%Z then Some x else None;
  z_positive f v := x ← f v; if n_positive x then Some x else None;
  z_boolean v := match v with VBool b => Some b | _ => None end;
  z_enum l v := match v with VStr s => if bool_decide (s ∈ l) then Some s else None | _ => None end;
  z_array _ f v := match v with VArr l => mapM f l | _ => None end;
  z_min _ n f v := l ← f v; if (n <=? length l)%nat then Some l else None;
  z_object _ f v := match v with VObj _ => f v | _ => None end;
  z_optional _ f v := match v with VUndef => Some None | _ => Some <$> f v end;
  z_nullable _ f v := match v with VNull => Some None | _ => Some <$> f v end;
  z_string_ok := _; z_number_ok := _; z_int_ok := _; z_positive_ok := _; z_boolean_ok := _; z_enum_ok := _; z_array_ok := _; z_min_ok := _;
  z_object_ok := _; z_optional_none := _; z_optional_ok := _; z_nullable_null := _; z_nullable_ok := _ |}.
  - done.
  - intros x Hx. by rewrite Hx.
  - intros f v z Hf Hz. rewrite Hf. cbn [mbind option_bind]. rewrite int_of_Z, eqb_exact, Z.eqb_refl by done.
    unfold safe in Hz. by rewrite (proj2 (Z.ltb_lt _ _) Hz).
  - intros f v x Hf Hx. rewrite Hf. cbn [mbind option_bind]. by rewrite Hx.
  - done.
  - intros l s Hs. by rewrite bool_decide_true.
  - done.
  - intros A n f v l Hf Hl. rewrite Hf. cbn. by rewrite (proj2 (Nat.leb_le _ _) Hl).
  - done.
  - done.
  - intros A f v Hv. by destruct v.
  - done.
  - intros A f v Hv. by destruct v.
Defined.

Definition ex_start : number := num_of_Z 1700000000000.

(** A question with an image, its answer, and an answer that failed without a code. *)
Definition ex_saved : list Message :=
  [createUserMessage (js "k1") (js "v1") (js "hello") ex_start [{| att_url := js "data:"; filename := None; mediaType := None |}];
   completeAssistantMessage (num_of_Z 1700000002500)
     (updateCurrentVersionContent (createLoadingAssistantMessage (js "k2") (js "v2") ex_start)
        (js "<think>why</think>because"))] ++
  updateAssistantMessageWithError (num_of_Z 1700000004000)
    [createLoadingAssistantMessage (js "k3") (js "v3") (num_of_Z 1700000003000)] NETWORK_ERROR None API_REQUEST_ERROR.

Lemma save_load_roundtrip_witness :
  loadMessages (fun s => s) (fun _ => true) n_zero (saveMessages (fun _ => true) ex_saved ∅) =
  (Some (map without_attachments ex_saved), saveMessages (fun _ => true) ex_saved ∅).
Proof.
  apply (save_load_roundtrip (fun s => s) (fun _ => true)).
  - vm_compute. lia.
  - vm_compute. reflexivity.
  - vm_compute. reflexivity.
  - vm_compute. discriminate.
  - reflexivity.
  - vm_compute. discriminate.
Defined.

Lemma settings_roundtrip_witness :
  let c := {| cfg_model := js "gpt"; selectedTokenId := Some 12%Z; cfg_temperature := dec (js "0.35"); cfg_top_p := num_of_Z 1;
              cfg_max_tokens := num_of_Z 512; cfg_frequency_penalty := n_zero; cfg_presence_penalty := n_zero;
              cfg_seed := Some (num_of_Z 7); cfg_stream := false |} in
  getInitialPlaygroundConfig (saveParameterEnabled (fun _ => true) (whole_enabled DEFAULT_PARAMETER_ENABLED)
    (saveConfig (fun _ => true) (whole_config c) ∅)) = c.
Proof.
  cbv zeta. match goal with |- _ = ?x => set (c := x) end.
  apply (settings_roundtrip (fun _ => true) c DEFAULT_PARAMETER_ENABLED ∅); [|done..].
  split; [vm_compute; reflexivity|]. intros i [= <-]. by vm_compute.
Defined.

(** A stored conversation with a pending answer. *)
Definition ex_stored : Storage :=
  {[ MESSAGES_KEY := saved_text (map without_attachments
      (ex_saved ++ [createLoadingAssistantMessage (js "k4") (js "v4") (num_of_Z 1700000005000)])) ]}.

Lemma loaded_bounds_witness :
  exists ms st', loadMessages (fun s => s) (fun _ => true) (num_of_Z 5) ex_stored = (Some ms, st') /\
  length ms = 4 /\ length ms <= MAX_STORED_MESSAGES /\ Forall (fits (fun s => s)) ms /\
  ((total_size ms <= MAX_LOADED_MESSAGES_CHARS + len (interrupted_text (fun s => s)))%N \/ length ms <= 1).
Proof.
  destruct (loadMessages (fun s => s) (fun _ => true) (num_of_Z 5) ex_stored) as [[ms|] st'] eqn:E.
  - exists ms, st'. split; [done|]. split; [|exact (loaded_bounds _ _ _ _ _ _ E)].
    assert (length (default [] (fst (loadMessages (fun s => s) (fun _ => true) (num_of_Z 5) ex_stored))) = 4) as H
      by (vm_compute; reflexivity).
    rewrite E in H. exact H.
  - assert (is_Some (fst (loadMessages (fun s => s) (fun _ => true) (num_of_Z 5) ex_stored))) as H
      by (vm_compute; eauto). rewrite E in H. destruct H. discriminate.
Defined.
