(* ===== verification/ChannelForm.v ===== *)
(** * The channel form

    [features/channels/lib/channel-form.ts] and [hooks/use-channel-mutate-form.ts]: the
    form that edits a channel, what it accepts, and the request it makes.  A channel
    keeps two texts of JSON, [setting] and [settings], which the form shows as fields of
    their own; what comes out of [JSON.parse] is not checked, so the fields read from
    there are values of any type ([jsval], [VUndef] when absent).

    [None] stands for an exception, and, where the text holds an advanced custom
    configuration, for one that does not have the declared types. *)

From S2P Require Import Prelude JsString JsNumber Json JsonText AdvancedCustom Permissions Redirects.

(** ** Values *)

(** [v || d] *)
Definition v_or (v d : jsval) : jsval := if v_truthy v then v else d.

(** [v === true] *)
Definition is_true (v : jsval) : bool := match v with VBool b => b | _ => false end.

(** [v === s] *)
Definition is_text (s : jstr) (v : jsval) : bool := match v with VStr w => w =s s | _ => false end.

(** [o === true] for an optional flag *)
Definition flag (o : option bool) : jsval := VBool (default false o).

(** [s || null] *)
Definition str_or_null (s : jstr) : jsval := if truthy s then VStr s else VNull.

Definition opt_text (o : option jstr) : jstr := default [] o.

(** [o?.trim()] is blank *)
Definition is_blank (o : option jstr) : bool := negb (truthy (trim (opt_text o))).

(** ** Data *)

Inductive MultiKeyMode := MkSingle | MkBatch | MkMultiToSingle.
Inductive MultiKeyType := MtRandom | MtPolling.
Inductive KeyMode := KmAppend | KmReplace.

#[export] Instance multi_key_mode_eq_dec : EqDecision MultiKeyMode.
Proof. solve_decision. Defined.

Record ChannelFormValues := {
  f_name : jstr; f_type : Z; f_base_url : option jstr; f_key : jstr;
  f_openai_organization : option jstr; f_models : jstr; f_group : list jstr;
  f_model_mapping : option jstr; f_priority : option number; f_weight : option number;
  f_test_model : option jstr; f_auto_ban : option number; f_status : Z;
  f_status_code_mapping : option jstr; f_tag : option jstr; f_remark : option jstr;
  f_setting : option jstr; f_param_override : option jstr; f_header_override : option jstr;
  f_settings : option jstr; f_advanced_custom : option jstr; f_other : option jstr;
  f_multi_key_mode : option MultiKeyMode; f_multi_key_type : option MultiKeyType;
  f_batch_add_set_key_prefix_2_name : option bool; f_key_mode : option KeyMode;
  (* kept in [setting] *)
  f_force_format : jsval; f_thinking_to_content : jsval; f_proxy : jsval;
  f_pass_through_body_enabled : jsval; f_system_prompt : jsval; f_system_prompt_override : jsval;
  (* kept in [settings] *)
  f_is_enterprise_account : option bool; f_vertex_key_type : jsval; f_aws_key_type : jsval;
  f_azure_responses_version : jsval; f_allow_service_tier : option bool;
  f_disable_store : option bool; f_allow_safety_identifier : option bool;
  f_allow_include_obfuscation : option bool; f_allow_inference_geo : option bool;
  f_allow_speed : option bool; f_claude_beta_query : option bool;
  f_disable_task_polling_sleep : option bool;
  f_upstream_model_update_check_enabled : option bool;
  f_upstream_model_update_auto_sync_enabled : option bool;
  f_upstream_model_update_ignored_models : option jstr }.

(** The fields of a channel that the form reads. *)
Record Channel := {
  c_name : jstr; c_type : Z; c_base_url : option jstr; c_openai_organization : option jstr;
  c_models : jstr; c_group : jstr; c_model_mapping : option jstr; c_priority : option number;
  c_weight : option number; c_test_model : option jstr; c_auto_ban : option number; c_status : Z;
  c_status_code_mapping : option jstr; c_tag : option jstr; c_remark : jstr;
  c_setting : option jstr; c_param_override : option jstr; c_header_override : option jstr;
  c_settings : jstr; c_other : jstr; c_multi_key_mode : option MultiKeyType }.

Definition CHANNEL_TYPE_ADVANCED_CUSTOM : Z := 58.

Definition MODEL_FETCHABLE_TYPES : list Z :=
  [1; 4; 14; 17; 20; 23; 24; 25; 26; 27; 31; 34; 35; 40; 42; 43; 47; 48; 57; 58; 59]%Z.

Definition is_type (t : Z) (f : ChannelFormValues) : bool := (f_type f =? t)%Z.
Definition of_types (ts : list Z) (f : ChannelFormValues) : bool := existsb (Z.eqb (f_type f)) ts.

Definition ENABLED : Z := 1.

Definition CHANNEL_FORM_DEFAULT_VALUES : ChannelFormValues := {|
  f_name := []; f_type := 1; f_base_url := Some []; f_key := []; f_openai_organization := Some [];
  f_models := []; f_group := [js "default"]; f_model_mapping := Some []; f_priority := Some n_zero;
  f_weight := Some n_zero; f_test_model := Some []; f_auto_ban := Some (num_of_Z 1); f_status := ENABLED;
  f_status_code_mapping := Some []; f_tag := Some []; f_remark := Some []; f_setting := Some [];
  f_param_override := Some []; f_header_override := Some []; f_settings := Some (js "{}"); f_other := Some [];
  f_multi_key_mode := Some MkSingle; f_multi_key_type := Some MtRandom;
  f_batch_add_set_key_prefix_2_name := Some false; f_key_mode := Some KmAppend;
  f_force_format := VBool false; f_thinking_to_content := VBool false; f_proxy := VStr [];
  f_pass_through_body_enabled := VBool false; f_system_prompt := VStr []; f_system_prompt_override := VBool false;
  f_is_enterprise_account := Some false; f_vertex_key_type := VStr (js "json");
  f_aws_key_type := VStr (js "ak_sk"); f_azure_responses_version := VStr [];
  f_allow_service_tier := Some false; f_disable_store := Some false; f_allow_safety_identifier := Some false;
  f_allow_include_obfuscation := Some false; f_allow_inference_geo := Some false; f_allow_speed := Some false;
  f_claude_beta_query := Some false; f_disable_task_polling_sleep := Some false;
  f_upstream_model_update_check_enabled := Some false; f_upstream_model_update_auto_sync_enabled := Some false;
  f_upstream_model_update_ignored_models := Some []; f_advanced_custom := Some [] |}.

(** ** Lists *)

Definition parseGroups (groups : jstr) : list jstr :=
  if negb (truthy groups) then []
  else bfilter (fun g => (0 <? length g)%nat) (map trim (split_on 44 groups)).

Definition parseModels (models : jstr) : list jstr :=
  if negb (truthy models) then []
  else bfilter (fun m => (0 <? length m)%nat) (map trim (split_on 44 models)).

Definition formatModels (models : list jstr) : jstr := join (js ",") models.
Definition formatGroups (groups : list jstr) : jstr := join (js ",") groups.

Definition validateJSON (value : jstr) : bool :=
  if negb (truthy value) || (trim value =s []) then true
  else match json_parse value with Some _ => true | None => false end.

Definition validateModelMapping (value : jstr) : bool :=
  if negb (truthy value) || (trim value =s []) then true else validateJSON value.

(** ** Checks of single fields *)

(** [parseOptionalJson]: [Some None] is [undefined], [None] a [SyntaxError]. *)
Definition parseOptionalJson (value : option jstr) : option (option jsval) :=
  if is_blank value then Some None else Some <$> json_parse (opt_text value).

Definition isJsonObjectValue (v : jsval) : bool := match v with VObj _ => true | _ => false end.

(** The shape of these checks: absent passes, a [SyntaxError] does not. *)
Definition optional_json (p : jsval -> bool) (value : option jstr) : bool :=
  match parseOptionalJson value with
  | Some None => true
  | Some (Some v) => p v
  | None => false
  end.

Definition isOptionalJsonObject : option jstr -> bool := optional_json isJsonObjectValue.

Definition is_string (v : jsval) : bool := match v with VStr _ => true | _ => false end.

Definition isOptionalModelMapping : option jstr -> bool := optional_json (fun v =>
  match v with VObj o => forallb (fun p => is_string (snd p)) o | _ => false end).

Definition is_status_code (x : number) : bool :=
  n_isInteger x && n_leb (num_of_Z 100) x && n_leb x (num_of_Z 599).

Definition isOptionalStatusCodeMapping : option jstr -> bool := optional_json (fun v =>
  match v with
  | VObj o => forallb (fun p => is_status_code (num_of_string (fst p)) && is_status_code (to_number (snd p))) o
  | _ => false
  end).

Definition filled_string (v : jsval) : bool :=
  match v with VStr s => truthy (trim s) | _ => false end.

Definition isCodexCredential : option jstr -> bool := optional_json (fun v =>
  isJsonObjectValue v && filled_string (get (js "access_token") v) && filled_string (get (js "account_id") v)).

Definition isVertexJsonKey : option jstr -> bool := optional_json (fun v =>
  match v with VArr l => forallb isJsonObjectValue l | _ => isJsonObjectValue v end).

(** The parts of [new URL(value)] that are read. *)
Record UrlParts := { u_protocol : jstr; u_host : jstr; u_hostname : jstr; u_port : jstr }.

Definition SUPPORTED_PROXY_PROTOCOLS : list jstr :=
  [js "http:"; js "https:"; js "socks5:"; js "socks5h:"].

Section form.
(** [new URL(value)]; [None] when it throws. *)
Variable new_URL : jstr -> option UrlParts.

Definition protocol_and_host (value : jstr) : option (jstr * jstr) :=
  (fun u => (u_protocol u, u_host u)) <$> new_URL value.

Definition isOptionalProxyURL (value : option jstr) : bool :=
  let trimmedValue := trim (opt_text value) in
  if negb (truthy trimmedValue) then true
  else
    match index_of (js "://") trimmedValue with
    | None | Some 0%nat => false
    | Some i =>
        let authorityAndSuffix := slice_from (i + 3) trimmedValue in
        let suffix_ok :=
          match find_index (fun c => (c =? 47) || (c =? 63) || (c =? 35))%N authorityAndSuffix with
          | Some j => slice_from j authorityAndSuffix =s js "/"
          | None => true
          end in
        if negb suffix_ok then false
        else
          match new_URL trimmedValue with
          | Some u => bool_decide (u_protocol u ∈ SUPPORTED_PROXY_PROTOCOLS) && truthy (u_hostname u) &&
                      negb (u_port u =s js "0")
          | None => false
          end
    end.

(** ** The schema *)

Definition optional_flag (v : jsval) : bool := match v with VUndef | VBool _ => true | _ => false end.
Definition optional_text (v : jsval) : bool := match v with VUndef | VStr _ => true | _ => false end.
Definition optional_enum (l : list jstr) (v : jsval) : bool :=
  match v with VUndef => true | VStr s => bool_decide (s ∈ l) | _ => false end.

Definition value_text (v : jsval) : option jstr := match v with VStr s => Some s | _ => None end.

(** The checks on the fields by themselves; those the types of the record imply are
    left out. *)
Definition fields_ok (f : ChannelFormValues) : bool :=
  truthy (f_name f) && (0 <=? f_type f)%Z && truthy (f_models f) && (0 <? length (f_group f))%nat &&
  isOptionalModelMapping (f_model_mapping f) && isOptionalStatusCodeMapping (f_status_code_mapping f) &&
  (length (opt_text (f_remark f)) <=? 255)%nat &&
  isOptionalJsonObject (f_setting f) && isOptionalJsonObject (f_param_override f) &&
  isOptionalJsonObject (f_header_override f) && isOptionalJsonObject (f_settings f) &&
  optional_flag (f_force_format f) && optional_flag (f_thinking_to_content f) &&
  optional_text (f_proxy f) && isOptionalProxyURL (value_text (f_proxy f)) &&
  optional_flag (f_pass_through_body_enabled f) && optional_text (f_system_prompt f) &&
  optional_flag (f_system_prompt_override f) &&
  optional_enum [js "json"; js "api_key"] (f_vertex_key_type f) &&
  optional_enum [js "ak_sk"; js "api_key"] (f_aws_key_type f) && optional_text (f_azure_responses_version f).

(** [(path, message)] *)
Definition issue (when : bool) (path message : jstr) : list (jstr * jstr) :=
  if when then [(path, message)] else [].

Definition not_single (m : option MultiKeyMode) : bool :=
  match m with Some MkBatch | Some MkMultiToSingle => true | _ => false end.

(** The issues added for a custom route table. *)
Definition advanced_issues (f : ChannelFormValues) (c : option AdvancedCustomConfig) : list (jstr * jstr) :=
  match validateAdvancedCustomConfig protocol_and_host c with
  | Some e => [(js "advanced_custom", message e)]
  | None => []
  end ++
  issue (advancedCustomConfigUsesRelativeUpstreamPath c && is_blank (f_base_url f))
    (js "base_url") (js "Base URL is required when an advanced route uses an upstream path") ++
  issue (default false (f_upstream_model_update_check_enabled f) &&
         negb (hasValidAdvancedCustomModelListRoute protocol_and_host c))
    (js "upstream_model_update_check_enabled")
    (js "OpenAI Models route is required to enable upstream model checks").

(** The callback of [superRefine]: the issues it adds, in order. *)
Definition superRefine (f : ChannelFormValues) : option (list (jstr * jstr)) :=
  advanced ← (if is_type CHANNEL_TYPE_ADVANCED_CUSTOM f
              then advanced_issues f <$> parseAdvancedCustomConfig (f_advanced_custom f)
              else Some []);
  Some (
    issue (of_types [3; 8; 36; 45]%Z f && is_blank (f_base_url f))
      (js "base_url") (js "Base URL is required for this channel type") ++
    advanced ++
    issue (of_types [3; 18; 21; 39; 41; 49]%Z f && is_blank (f_other f))
      (js "other") (js "This channel type requires additional configuration") ++
    issue (is_type 57 f && not_single (f_multi_key_mode f))
      (js "multi_key_mode") (js "Codex channels do not support batch creation") ++
    issue (is_type 57 f && negb (is_blank (Some (f_key f))) && negb (isCodexCredential (Some (f_key f))))
      (js "key") (js "Codex credential must be a JSON object with access_token and account_id") ++
    issue (is_type 41 f && is_text (js "json") (f_vertex_key_type f) &&
           negb (is_blank (Some (f_key f))) && negb (isVertexJsonKey (Some (f_key f))))
      (js "key") (js "Vertex AI service account key must be valid JSON") ++
    issue (is_type 41 f && is_text (js "api_key") (f_vertex_key_type f) &&
           not_single (f_multi_key_mode f))
      (js "multi_key_mode") (js "Vertex AI API Key mode does not support batch creation")).

(** Whether the form can be submitted. *)
Definition channelFormSchema (f : ChannelFormValues) : bool :=
  fields_ok f && match superRefine f with Some [] => true | _ => false end.
End form.

(** ** Reading a channel into the form *)

(** [stringifyAdvancedCustomConfig]: the normalised configuration as JSON has it. *)
Definition some_field (k : jstr) (v : option jsval) : list (jstr * jsval) :=
  match v with Some x => [(k, x)] | None => [] end.

Definition encode_auth (a : AdvancedCustomRouteAuth) : jsval :=
  VObj (some_field (js "type") (VStr <$> auth_type a) ++ some_field (js "name") (VStr <$> auth_name a) ++
        some_field (js "value") (VStr <$> auth_value a)).

Definition encode_route (r : AdvancedCustomRoute) : jsval :=
  VObj (some_field (js "incoming_path") (VStr <$> incoming_path r) ++
        some_field (js "upstream_path") (VStr <$> upstream_path r) ++
        some_field (js "converter") (VStr <$> converter r) ++
        some_field (js "models") ((fun l => VArr (map VStr l)) <$> models r) ++
        some_field (js "auth") (encode_auth <$> route_auth r)).

Definition encode_config (c : AdvancedCustomConfig) : jsval :=
  VObj (some_field (js "advanced_routes") ((fun rs => VArr (map encode_route rs)) <$> advanced_routes c)).

Definition stringifyAdvancedCustomConfig (c : AdvancedCustomConfig) : jstr :=
  default [] (stringify_pretty (encode_config (normalizeAdvancedCustomConfig c))).

(** The value read from a text of JSON: [None] when the text is empty, is no JSON, or is
    [null], whose properties cannot be read. *)
Definition parsed_settings (text : jstr) : option jsval :=
  if negb (truthy text) then None
  else match json_parse text with Some VNull | None => None | Some v => Some v end.

(** A property of the parsed value, or the default when nothing could be read. *)
Definition extra (v : option jsval) (k : jstr) (d : jsval) : jsval :=
  match v with Some p => v_or (get k p) d | None => d end.

Definition read_flag (v : option jsval) (k : jstr) : option bool :=
  Some (match v with Some p => is_true (get k p) | None => false end).

Definition read_ignored (v : option jsval) : jstr :=
  match v with
  | Some p => match get (js "upstream_model_update_ignored_models") p with
              | VArr l => to_string (VArr l)
              | _ => []
              end
  | None => []
  end.

(** [normalizeAdvancedCustomConfig] on a value that was parsed and is not known to have
    the declared types, as JSON then prints it; [None] when it throws: calling [trim] on
    what is no text, or reading a property of [null].  A type that is not there is left
    out, as it is in the text. *)
Definition trim_value (v : jsval) : option jsval :=
  match v with VStr s => Some (VStr (trim s)) | _ => None end.

Definition normalized_models (v : jsval) : option (list jsval) :=
  match v with VArr l => bfilter v_truthy <$> mapM trim_value l | _ => Some [] end.

Definition normalized_auth (a : jsval) : jsval :=
  VObj (some_field (js "type") (match get (js "type") a with VUndef => None | x => Some x end) ++
        [(js "name", v_or (get (js "name") a) (VStr [])); (js "value", v_or (get (js "value") a) (VStr []))]).

Definition normalized_route (r : jsval) : option jsval :=
  match r with
  | VUndef | VNull => None
  | _ =>
      u ← trim_value (v_or (get (js "upstream_path") r) (VStr []));
      ms ← normalized_models (get (js "models") r);
      let a := get (js "auth") r in
      Some (VObj ([(js "incoming_path", v_or (get (js "incoming_path") r) (VStr [])); (js "upstream_path", u);
                   (js "converter", v_or (get (js "converter") r) (VStr NONE))] ++
                  some_field (js "models") (match ms with [] => None | _ => Some (VArr ms) end) ++
                  some_field (js "auth") (if v_truthy a then Some (normalized_auth a) else None)))
  end.

Definition normalized_config (v : jsval) : option jsval :=
  rs ← match get (js "advanced_routes") v with VArr l => mapM normalized_route l | _ => Some [] end;
  Some (VObj [(js "advanced_routes", VArr rs)]).

(** What throws is caught, and leaves the text empty. *)
Definition read_advanced (v : option jsval) : jstr :=
  match v with
  | Some p => if v_truthy (get (js "advanced_custom") p)
              then default [] (normalized_config (get (js "advanced_custom") p) ≫= stringify_pretty)
              else []
  | None => []
  end.

Definition transformChannelToFormDefaults (c : Channel) : ChannelFormValues :=
  let setting := parsed_settings (opt_text (c_setting c)) in
  let settings := parsed_settings (c_settings c) in
  {|
    f_name := c_name c; f_type := c_type c; f_base_url := Some (opt_text (c_base_url c)); f_key := [];
    f_openai_organization := Some (opt_text (c_openai_organization c)); f_models := c_models c;
    f_group := parseGroups (str_or (c_group c) (js "default"));
    f_model_mapping := Some (opt_text (c_model_mapping c));
    f_priority := Some (n_or (default n_zero (c_priority c)) n_zero);
    f_weight := Some (n_or (default n_zero (c_weight c)) n_zero);
    f_test_model := Some (opt_text (c_test_model c));
    f_auto_ban := Some (default (num_of_Z 1) (c_auto_ban c)); f_status := c_status c;
    f_status_code_mapping := Some (opt_text (c_status_code_mapping c)); f_tag := Some (opt_text (c_tag c));
    f_remark := Some (c_remark c); f_setting := Some (opt_text (c_setting c));
    f_param_override := Some (opt_text (c_param_override c));
    f_header_override := Some (opt_text (c_header_override c));
    f_settings := Some (str_or (c_settings c) (js "{}")); f_other := Some (c_other c);
    f_multi_key_mode := Some MkSingle;
    f_multi_key_type := Some (default MtRandom (c_multi_key_mode c));
    f_batch_add_set_key_prefix_2_name := Some false; f_key_mode := Some KmAppend;
    f_force_format := extra setting (js "force_format") (VBool false);
    f_thinking_to_content := extra setting (js "thinking_to_content") (VBool false);
    f_proxy := extra setting (js "proxy") (VStr []);
    f_pass_through_body_enabled := extra setting (js "pass_through_body_enabled") (VBool false);
    f_system_prompt := extra setting (js "system_prompt") (VStr []);
    f_system_prompt_override := extra setting (js "system_prompt_override") (VBool false);
    f_is_enterprise_account := read_flag settings (js "openrouter_enterprise");
    f_vertex_key_type := extra settings (js "vertex_key_type") (VStr (js "json"));
    f_azure_responses_version := extra settings (js "azure_responses_version") (VStr []);
    f_aws_key_type := extra settings (js "aws_key_type") (VStr (js "ak_sk"));
    f_allow_service_tier := read_flag settings (js "allow_service_tier");
    f_disable_store := read_flag settings (js "disable_store");
    f_allow_include_obfuscation := read_flag settings (js "allow_include_obfuscation");
    f_allow_inference_geo := read_flag settings (js "allow_inference_geo");
    f_allow_speed := read_flag settings (js "allow_speed");
    f_claude_beta_query := read_flag settings (js "claude_beta_query");
    f_disable_task_polling_sleep := read_flag settings (js "disable_task_polling_sleep");
    f_allow_safety_identifier := read_flag settings (js "allow_safety_identifier");
    f_upstream_model_update_check_enabled := read_flag settings (js "upstream_model_update_check_enabled");
    f_upstream_model_update_auto_sync_enabled :=
      read_flag settings (js "upstream_model_update_auto_sync_enabled");
    f_upstream_model_update_ignored_models := Some (read_ignored settings);
    f_advanced_custom := Some (read_advanced settings) |}.

(** ** Writing the two texts *)

(** [v?.trim() || '']; calling [trim] on a value that is no text throws. *)
Definition trimmed_text (v : jsval) : option jsval :=
  match v with
  | VUndef | VNull => Some (VStr [])
  | VStr s => Some (VStr (trim s))
  | _ => None
  end.

Definition setting_object (f : ChannelFormValues) : option jsval :=
  proxy ← trimmed_text (f_proxy f);
  Some (VObj [
    (js "force_format", v_or (f_force_format f) (VBool false));
    (js "thinking_to_content", v_or (f_thinking_to_content f) (VBool false));
    (js "proxy", proxy);
    (js "pass_through_body_enabled", v_or (f_pass_through_body_enabled f) (VBool false));
    (js "system_prompt", v_or (f_system_prompt f) (VStr []));
    (js "system_prompt_override", v_or (f_system_prompt_override f) (VBool false))]).

Definition buildSettingJSON (f : ChannelFormValues) : option jstr := o ← setting_object f; stringify o.

Abbreviation Settings := (list (jstr * jsval)).

(** The blocks of [buildSettingsJSON], in order: each sets a property for the types it
    belongs to and deletes it for the others. *)
Definition set_or_delete (here : bool) (k : jstr) (v : jsval) (o : Settings) : Settings :=
  if here then prop_set k v o else prop_delete k o.

Definition put_vertex (f : ChannelFormValues) : Settings -> Settings :=
  set_or_delete (is_type 41 f) (js "vertex_key_type") (v_or (f_vertex_key_type f) (VStr (js "json"))).

Definition put_azure (f : ChannelFormValues) : Settings -> Settings :=
  set_or_delete (is_type 3 f && v_truthy (f_azure_responses_version f)) (js "azure_responses_version")
    (f_azure_responses_version f).

Definition put_openrouter (f : ChannelFormValues) : Settings -> Settings :=
  set_or_delete (is_type 20 f) (js "openrouter_enterprise") (flag (f_is_enterprise_account f)).

Definition put_aws (f : ChannelFormValues) : Settings -> Settings :=
  set_or_delete (is_type 33 f) (js "aws_key_type") (v_or (f_aws_key_type f) (VStr (js "ak_sk"))).

Definition put_service_tier (f : ChannelFormValues) : Settings -> Settings :=
  set_or_delete (of_types [1; 14; 57]%Z f) (js "allow_service_tier") (flag (f_allow_service_tier f)).

Definition put_openai (f : ChannelFormValues) (o : Settings) : Settings :=
  if of_types [1; 57]%Z f then
    prop_set (js "allow_inference_geo") (flag (f_allow_inference_geo f))
      (prop_set (js "allow_include_obfuscation") (flag (f_allow_include_obfuscation f))
        (prop_set (js "allow_safety_identifier") (flag (f_allow_safety_identifier f))
          (prop_set (js "disable_store") (flag (f_disable_store f)) o)))
  else
    let o1 := prop_delete (js "allow_include_obfuscation")
                (prop_delete (js "allow_safety_identifier") (prop_delete (js "disable_store") o)) in
    if negb (is_type 14 f) then prop_delete (js "allow_inference_geo") o1 else o1.

Definition put_anthropic (f : ChannelFormValues) (o : Settings) : Settings :=
  if is_type 14 f then
    prop_set (js "claude_beta_query") (flag (f_claude_beta_query f))
      (prop_set (js "allow_speed") (flag (f_allow_speed f))
        (prop_set (js "allow_inference_geo") (flag (f_allow_inference_geo f)) o))
  else prop_delete (js "claude_beta_query") (prop_delete (js "allow_speed") o).

Definition put_polling (f : ChannelFormValues) : Settings -> Settings :=
  prop_set (js "disable_task_polling_sleep") (flag (f_disable_task_polling_sleep f)).

Definition ignored_models (text : jstr) : list jstr :=
  dedup (bfilter truthy (map trim (split_on 44 text))).

(** [o[k]] *)
Definition prop (k : jstr) (o : Settings) : jsval := default VUndef (prop_get k o).

Definition put_upstream (f : ChannelFormValues) (o : Settings) : Settings :=
  if negb (existsb (Z.eqb (f_type f)) MODEL_FETCHABLE_TYPES) then o
  else
    let o1 := prop_set (js "upstream_model_update_check_enabled")
                (flag (f_upstream_model_update_check_enabled f)) o in
    let checked := is_true (prop (js "upstream_model_update_check_enabled") o1) in
    let o2 := prop_set (js "upstream_model_update_auto_sync_enabled")
                (VBool (checked && default false (f_upstream_model_update_auto_sync_enabled f))) o1 in
    let o3 := prop_set (js "upstream_model_update_ignored_models")
                (VArr (map VStr (ignored_models (opt_text (f_upstream_model_update_ignored_models f))))) o2 in
    let o4 :=
      if negb (match prop (js "upstream_model_update_last_detected_models") o3 with VArr _ => true | _ => false end) ||
         negb checked
      then prop_set (js "upstream_model_update_last_detected_models") (VArr []) o3 else o3 in
    match prop (js "upstream_model_update_last_check_time") o4 with
    | VNum _ => o4
    | _ => prop_set (js "upstream_model_update_last_check_time") (VNum n_zero) o4
    end.

Definition put_advanced (f : ChannelFormValues) (o : Settings) : option Settings :=
  if is_type CHANNEL_TYPE_ADVANCED_CUSTOM f then
    config ← parseAdvancedCustomConfig (f_advanced_custom f);
    Some (match config with
          | Some c => prop_set (js "advanced_custom") (encode_config c) o
          | None => o
          end)
  else Some (prop_delete (js "advanced_custom") o).

Definition settings_object (f : ChannelFormValues) (o : Settings) : option Settings :=
  put_advanced f (put_upstream f (put_polling f (put_anthropic f (put_openai f
    (put_service_tier f (put_aws f (put_openrouter f (put_azure f (put_vertex f o))))))))).

(** The object the settings start from. *)
Definition existing_settings (f : ChannelFormValues) : jsval :=
  let text := opt_text (f_settings f) in
  if truthy text && negb (text =s js "{}") then default (VObj []) (json_parse text) else VObj [].

(** Properties given to an array are not written by [JSON.stringify]; [in] on, and
    assignment to, [null] or a primitive throws. *)
Definition buildSettingsJSON (f : ChannelFormValues) : option jstr :=
  match existing_settings f with
  | VObj o => o' ← settings_object f o; stringify (VObj o')
  | VArr l => stringify (VArr l)
  | _ => None
  end.

(** [replace(/\/+$/, '')] after trimming *)
Definition normalizeBaseUrl (value : option jstr) : jstr := strip_slashes (trim (opt_text value)).

(** ** The requests *)

Definition number_or_null (o : option number) : jsval :=
  match o with Some x => if n_truthy x then VNum x else VNull | None => VNull end.

Definition Z_value (z : Z) : jsval := VNum (num_of_Z z).

(** Empty texts become [null]. *)
Definition null_if_empty (v : jsval) : jsval := match v with VStr [] => VNull | _ => v end.

Definition clean_up (o : Settings) : Settings := map (fun p => (fst p, null_if_empty (snd p))) o.

Record CreatePayload := {
  p_mode : MultiKeyMode; p_multi_key_mode : option MultiKeyType;
  p_batch_add_set_key_prefix_2_name : option bool; p_channel : Settings }.

Definition transformFormDataToCreatePayload (f : ChannelFormValues) : option CreatePayload :=
  setting ← buildSettingJSON f;
  settings ← buildSettingsJSON f;
  let mode := default MkSingle (f_multi_key_mode f) in
  Some {|
    p_mode := mode;
    p_multi_key_mode := if bool_decide (mode = MkMultiToSingle) then f_multi_key_type f else None;
    p_batch_add_set_key_prefix_2_name :=
      if bool_decide (mode = MkBatch) then f_batch_add_set_key_prefix_2_name f else None;
    p_channel := clean_up [
      (js "name", VStr (f_name f)); (js "type", Z_value (f_type f));
      (js "base_url", str_or_null (normalizeBaseUrl (f_base_url f))); (js "key", VStr (f_key f));
      (js "openai_organization", str_or_null (opt_text (f_openai_organization f)));
      (js "models", VStr (f_models f)); (js "group", VStr (formatGroups (f_group f)));
      (js "model_mapping", str_or_null (opt_text (f_model_mapping f)));
      (js "priority", number_or_null (f_priority f)); (js "weight", number_or_null (f_weight f));
      (js "test_model", str_or_null (opt_text (f_test_model f)));
      (js "auto_ban", VNum (default (num_of_Z 1) (f_auto_ban f))); (js "status", Z_value (f_status f));
      (js "status_code_mapping", str_or_null (opt_text (f_status_code_mapping f)));
      (js "tag", str_or_null (opt_text (f_tag f))); (js "remark", VStr (opt_text (f_remark f)));
      (js "setting", VStr setting); (js "param_override", str_or_null (opt_text (f_param_override f)));
      (js "header_override", str_or_null (opt_text (f_header_override f)));
      (js "settings", VStr settings); (js "other", VStr (opt_text (f_other f)))] |}.

(** The assignments after the clean-up. *)
Definition cleared_fields (f : ChannelFormValues) : Settings := [
  (js "base_url", VStr (normalizeBaseUrl (f_base_url f)));
  (js "openai_organization", VStr (opt_text (f_openai_organization f)));
  (js "test_model", VStr (opt_text (f_test_model f))); (js "tag", VStr (opt_text (f_tag f)));
  (js "remark", VStr (opt_text (f_remark f))); (js "model_mapping", VStr (opt_text (f_model_mapping f)));
  (js "status_code_mapping", VStr (opt_text (f_status_code_mapping f)));
  (js "param_override", VStr (opt_text (f_param_override f)));
  (js "header_override", VStr (opt_text (f_header_override f)))].

Definition assign (new o : Settings) : Settings := foldl (fun a p => prop_set (fst p) (snd p) a) o new.

Definition transformFormDataToUpdatePayload (f : ChannelFormValues) (channelId : Z) : option Settings :=
  setting ← buildSettingJSON f;
  settings ← buildSettingsJSON f;
  let payload := [
    (js "id", Z_value channelId); (js "name", VStr (f_name f)); (js "type", Z_value (f_type f));
    (js "base_url", str_or_null (normalizeBaseUrl (f_base_url f)));
    (js "openai_organization", str_or_null (opt_text (f_openai_organization f)));
    (js "models", VStr (f_models f)); (js "group", VStr (formatGroups (f_group f)));
    (js "model_mapping", str_or_null (opt_text (f_model_mapping f)));
    (js "priority", VNum (default n_zero (f_priority f))); (js "weight", VNum (default n_zero (f_weight f)));
    (js "test_model", str_or_null (opt_text (f_test_model f)));
    (js "auto_ban", VNum (default (num_of_Z 1) (f_auto_ban f)));
    (js "status_code_mapping", str_or_null (opt_text (f_status_code_mapping f)));
    (js "tag", str_or_null (opt_text (f_tag f))); (js "remark", VStr (opt_text (f_remark f)));
    (js "setting", VStr setting); (js "param_override", str_or_null (opt_text (f_param_override f)));
    (js "header_override", str_or_null (opt_text (f_header_override f)));
    (js "settings", VStr settings); (js "other", VStr (opt_text (f_other f)))] in
  let with_key := if truthy (f_key f) && truthy (trim (f_key f))
                  then prop_set (js "key") (VStr (f_key f)) payload else payload in
  Some (assign (cleared_fields f) (clean_up with_key)).

(** ** Submitting *)

Definition SENSITIVE_UPDATE_FIELDS : list jstr :=
  [js "type"; js "key"; js "base_url"; js "openai_organization"; js "param_override";
   js "header_override"; js "setting"; js "settings"; js "other"].

Definition CHANNEL : jstr := js "channel".
Definition SENSITIVE_WRITE : jstr := js "sensitive_write".

Definition key_mode_value (m : KeyMode) : jsval :=
  VStr (match m with KmAppend => js "append" | KmReplace => js "replace" end).

Definition canEditSensitive (user : option jsval) : bool := hasPermission user CHANNEL SENSITIVE_WRITE.

(** The body of the update request of [mutationFn]. *)
Definition update_request (user : option jsval) (isMultiKeyChannel : bool) (channelId : Z)
    (f : ChannelFormValues) : option Settings :=
  payload ← transformFormDataToUpdatePayload f channelId;
  let p1 := if negb (truthy (trim (f_key f))) then prop_delete (js "key") payload else payload in
  let p2 := if negb (canEditSensitive user)
            then foldl (fun o k => prop_delete k o) p1 SENSITIVE_UPDATE_FIELDS else p1 in
  Some (match f_key_mode f with
        | Some m => if canEditSensitive user && isMultiKeyChannel && truthy (trim (f_key f))
                    then prop_set (js "key_mode") (key_mode_value m) p2 else p2
        | None => p2
        end).
