(* ===== verification/ChannelFormRoundTrip.v ===== *)
(** * The channel form: theorems *)

From S2P Require Import Prelude JsString JsNumber Json JsonText AdvancedCustom AdvancedCustomFacts.
From S2P Require Import Permissions Redirects ChannelForm ChannelFormFacts.

(** ** Texts that can be written *)

Definition plain_or_absent (v : jsval) : bool := match v with VUndef => true | _ => plain_value v end.

(** The form holds strings of 16-bit units, and the settings it starts from hold numbers
    that read back. *)
Definition writable (f : ChannelFormValues) : bool :=
  plain_value (existing_settings f) && plain_or_absent (f_proxy f) && plain_or_absent (f_system_prompt f) &&
  plain_or_absent (f_azure_responses_version f) &&
  unit_string (opt_text (f_upstream_model_update_ignored_models f)) &&
  match parseAdvancedCustomConfig (f_advanced_custom f) with
  | Some (Some c) => plain_value (encode_config c)
  | _ => true
  end.

Lemma unit_string_split c s : unit_string s = true -> Forall (fun p => unit_string p = true) (split_on c s).
Proof.
  induction s as [|x s IH]; [by repeat constructor|]. cbn [unit_string forallb]. rewrite andb_true_iff. intros [Hx Hs].
  specialize (IH Hs). simpl. destruct (x =? c)%N; [by constructor|].
  destruct (split_on c s) as [|p l]; [constructor; [|done]|].
  - unfold unit_string. simpl. by rewrite Hx.
  - inversion_clear IH. constructor; [|done]. unfold unit_string in *. simpl. by rewrite Hx.
Qed.

Lemma unit_string_ignored s : unit_string s = true -> Forall (fun p => unit_string p = true) (ignored_models s).
Proof.
  intros H. apply Forall_forall. intros p Hp. unfold ignored_models in Hp.
  apply elem_of_dedup, elem_of_bfilter in Hp as [Hp _]. apply elem_of_lmap in Hp as (q & Hq & ->).
  apply unit_string_trim. pose proof (unit_string_split 44 s H) as Hs. rewrite Forall_forall in Hs. by apply Hs.
Qed.

Lemma plain_v_or v d : plain_or_absent v = true -> plain_value d = true -> plain_value (v_or v d) = true.
Proof. intros Hv Hd. unfold v_or. destruct v; simpl in *; try done; by repeat case_match. Qed.

Lemma plain_enum l v : optional_enum l v = true -> Forall (fun s => unit_string s = true) l -> plain_or_absent v = true.
Proof.
  destruct v; try done. simpl. rewrite bool_decide_eq_true. intros Hs Hl. rewrite Forall_forall in Hl. by apply Hl.
Qed.

(** Blank text is no JSON. *)
Lemma trim_nil_parse s : trim s = [] -> json_parse s = None.
Proof.
  intros Ht. assert (Forall (fun c => is_ws c = true) s) as Hs.
  { destruct (trim_split s) as (a & b & E & Ha & Hb). rewrite Ht in E. rewrite E. by apply Forall_app. }
  unfold json_parse. rewrite parse_value_S. cbv zeta.
  assert (Forall (fun c => is_ws c = true) (skip_ws s)) as Hk.
  { unfold skip_ws. pose proof (span_app is_json_ws s) as E. destruct (span is_json_ws s) as [a b]. subst s.
    by apply Forall_app in Hs as [_ ?]. }
  destruct (skip_ws s) as [|c u]; [done|]. inversion_clear Hk as [|? ? Hc _].
  assert ((c =? 34)%N = false /\ (c =? 91)%N = false /\ (c =? 123)%N = false /\ is_digit c || (c =? 45)%N = false /\
    (116 =? c)%N = false /\ (102 =? c)%N = false /\ (110 =? c)%N = false) as (E1 & E2 & E3 & E4 & E5 & E6 & E7).
  { unfold is_ws, is_digit in *. lia. }
  rewrite E1, E2, E3, E4. unfold parse_keyword.
  change (starts_with (js "true") (c :: u)) with ((116 =? c)%N && starts_with (js "rue") u).
  change (starts_with (js "false") (c :: u)) with ((102 =? c)%N && starts_with (js "alse") u).
  change (starts_with (js "null") (c :: u)) with ((110 =? c)%N && starts_with (js "ull") u).
  by rewrite E5, E6, E7.
Qed.

Ltac plain_step :=
  first [ apply plain_delete | apply plain_set; [|vm_compute; reflexivity|] | assumption | reflexivity ].

Section form.
Variable new_URL : jstr -> option UrlParts.
Variable f : ChannelFormValues.
Hypothesis Hschema : channelFormSchema new_URL f = true.
Hypothesis Hwritable : writable f = true.

Lemma schema_fields : fields_ok new_URL f = true /\ superRefine new_URL f = Some [].
Proof.
  unfold channelFormSchema in Hschema. apply andb_true_iff in Hschema as [? H]. split; [done|].
  by destruct (superRefine new_URL f) as [[|]|].
Qed.

(** The checks the writers rely on. *)
Lemma schema_checks :
  isOptionalJsonObject (f_settings f) = true /\
  optional_flag (f_force_format f) = true /\ optional_flag (f_thinking_to_content f) = true /\
  optional_text (f_proxy f) = true /\ optional_flag (f_pass_through_body_enabled f) = true /\
  optional_text (f_system_prompt f) = true /\ optional_flag (f_system_prompt_override f) = true /\
  optional_enum [js "json"; js "api_key"] (f_vertex_key_type f) = true /\
  optional_enum [js "ak_sk"; js "api_key"] (f_aws_key_type f) = true /\
  optional_text (f_azure_responses_version f) = true.
Proof. destruct schema_fields as [H _]. unfold fields_ok in H. by bsplit. Qed.

(** An accepted form starts from an object. *)
Lemma existing_object : exists o, existing_settings f = VObj o.
Proof.
  destruct schema_checks as [H _]. unfold existing_settings. destruct (_ && _) eqn:E; [|by eexists].
  unfold isOptionalJsonObject, optional_json, parseOptionalJson in H. destruct (is_blank (f_settings f)) eqn:Eb.
  - destruct (json_parse (opt_text (f_settings f))) as [v|] eqn:Ej; [|by eexists]. exfalso.
    unfold is_blank in Eb. apply negb_true_iff, truthy_false in Eb.
    apply trim_nil_parse in Eb. congruence.
  - destruct (json_parse _) as [[]|]; simpl in *; try done; by eexists.
Qed.

Lemma plain_parts o : existing_settings f = VObj o ->
  plain_value (VObj o) = true /\ plain_or_absent (f_proxy f) = true /\
  plain_or_absent (f_system_prompt f) = true /\ plain_or_absent (f_azure_responses_version f) = true /\
  plain_or_absent (f_vertex_key_type f) = true /\ plain_or_absent (f_aws_key_type f) = true /\
  unit_string (opt_text (f_upstream_model_update_ignored_models f)) = true.
Proof.
  intros Ho. destruct schema_checks as (_ & _ & _ & _ & _ & _ & _ & Hv & Ha & _).
  unfold writable in Hwritable. rewrite Ho in Hwritable. bsplit.
  repeat split; try done; (eapply plain_enum; [eassumption|]); by repeat constructor.
Qed.

(** The route table of an accepted form of that type. *)
Lemma schema_advanced :
  is_type CHANNEL_TYPE_ADVANCED_CUSTOM f = true ->
  exists c, parseAdvancedCustomConfig (f_advanced_custom f) = Some (Some c).
Proof.
  intros Ht. destruct schema_fields as [_ H]. unfold superRefine in H. rewrite Ht in H.
  destruct (parseAdvancedCustomConfig (f_advanced_custom f)) as [[c|]|]; [by eexists| |done].
  exfalso. cbn [fmap option_fmap option_map mbind option_bind] in H. unfold advanced_issues in H.
  cbn [validateAdvancedCustomConfig] in H. injection H. intros E.
  apply app_eq_nil in E as [_ E]. done.
Qed.

Lemma settings_total o : exists o', settings_object f o = Some o'.
Proof.
  rewrite settings_object_unfold. unfold put_advanced. destruct (is_type CHANNEL_TYPE_ADVANCED_CUSTOM f) eqn:Et; [|by eexists].
  destruct (schema_advanced Et) as [c ->]. by eexists.
Qed.

Lemma settings_plain o o' :
  existing_settings f = VObj o -> settings_object f o = Some o' -> plain_value (VObj o') = true.
Proof.
  intros Ho. destruct (plain_parts o Ho) as (P0 & _ & _ & P3 & P4 & P5 & P6).
  assert (plain_value (VObj (settings_before_advanced f o)) = true) as P.
  { unfold settings_before_advanced, put_vertex, put_azure, put_openrouter, put_aws, put_service_tier, set_or_delete, put_polling.
    set (o1 := if of_types _ f then _ else _).
    assert (plain_value (VObj o1) = true) as P1.
    { unfold o1. destruct (is_type 41 f), (is_type 3 f && v_truthy (f_azure_responses_version f)) eqn:E3,
        (is_type 20 f), (is_type 33 f), (of_types _ f);
      repeat plain_step; try (by apply plain_v_or);
      (apply andb_true_iff in E3 as [_ E3]; by destruct (f_azure_responses_version f)). }
    clearbody o1. set (o2 := put_openai f o1).
    assert (plain_value (VObj o2) = true) as P2.
    { unfold o2, put_openai. cbv zeta. destruct (of_types _ f), (is_type 14 f); cbn [negb]; repeat plain_step. }
    clearbody o2. set (o3 := prop_set _ _ (put_anthropic f o2)).
    assert (plain_value (VObj o3) = true) as P7.
    { unfold o3, put_anthropic. destruct (is_type 14 f); repeat plain_step. }
    clearbody o3. unfold put_upstream. destruct (negb _); [done|]. cbv zeta.
    pose proof (plain_texts _ (unit_string_ignored _ P6)) as P8. set (ign := VArr (map VStr _)) in *. clearbody ign.
    match goal with |- context [if ?b then prop_set _ (VArr []) _ else _] => destruct b end;
      (match goal with |- plain_value (VObj (match ?x with _ => _ end)) = _ => destruct x end); repeat plain_step. }
  rewrite settings_object_unfold. unfold put_advanced.
  destruct (is_type _ f); [|intros [= <-]; by apply plain_delete].
  unfold writable in Hwritable. bsplit.
  destruct (parseAdvancedCustomConfig _) as [[c|]|]; [|by intros [= <-]|done].
  intros [= <-]. by repeat plain_step.
Qed.
End form.

(** ** Reading back *)

Lemma text_of_object o w : stringify (VObj o) = Some w -> truthy w = true.
Proof. intros H. by destruct (object_opens _ _ _ _ _ H) as [u ->]. Qed.

Lemma parsed_settings_object o w :
  plain_value (VObj o) = true -> stringify (VObj o) = Some w -> parsed_settings w = Some (VObj o).
Proof.
  intros Hp Hw. unfold parsed_settings. rewrite (text_of_object o w Hw). cbn [negb].
  destruct (json_roundtrip _ Hp) as (w' & Hw' & Hj). rewrite Hw in Hw'. injection Hw' as <-. by rewrite Hj.
Qed.

Lemma get_object k o : get k (VObj o) = default VUndef (prop_get k o).
Proof. done. Qed.

Lemma extra_object o k d v :
  prop_get k o = v -> extra (Some (VObj o)) k d = v_or (default VUndef v) d.
Proof. intros <-. done. Qed.

Lemma read_flag_object o k v :
  prop_get k o = v -> read_flag (Some (VObj o)) k = Some (is_true (default VUndef v)).
Proof. intros <-. done. Qed.

Lemma v_or_idem v d : v_truthy d = true -> v_or (v_or v d) d = v_or v d.
Proof. intros Hd. unfold v_or. destruct (v_truthy v) eqn:E; [by rewrite E|by rewrite Hd]. Qed.

(** Keeping a value that is falsy anyway. *)
Lemma v_or_falsy v d : v_truthy d = false -> v_or (v_or v d) d = v_or v d.
Proof. intros Hd. unfold v_or. destruct (v_truthy v) eqn:E; [by rewrite E|by rewrite Hd]. Qed.

Lemma to_string_texts l : to_string (VArr (map VStr l)) = join (js ",") l.
Proof. cbn [to_string]. f_equal. rewrite map_map. by rewrite map_id. Qed.

(** A cleaned list of models reads back from its text. *)
Lemma ignored_models_join s : ignored_models (join (js ",") (ignored_models s)) = ignored_models s.
Proof.
  set (l := ignored_models s). assert (Forall (fun m => truthy m = true /\ trim m = m /\ 44%N ∉ m) l) as Hl.
  { apply Forall_forall. intros m Hm. unfold l, ignored_models in Hm.
    apply elem_of_dedup, elem_of_bfilter in Hm as [Hm Ht]. apply elem_of_lmap in Hm as (q & Hq & ->).
    split; [done|]. split; [apply trim_idem|]. intros Hc. pose proof (split_on_no_sep 44 s) as Hs. rewrite Forall_forall in Hs.
    apply (Hs q Hq). destruct (trim_split q) as (a & b & E & _). rewrite E. set_solver. }
  assert (NoDup l) as Hn by apply NoDup_dedup. clearbody l. unfold ignored_models. destruct l as [|m l]; [done|].
  rewrite split_join; [|done|by eapply Forall_impl; [exact Hl|]; intros ? (_ & _ & ?)].
  assert (map trim (m :: l) = m :: l) as ->.
  { clear Hn. induction Hl as [|x y (_ & E & _) _ IH]; [done|]. cbn [map]. by rewrite E, IH. }
  rewrite bfilter_id by (eapply Forall_impl; [exact Hl|]; by intros ? (? & _)). by apply dedup_fixed.
Qed.

(** What a form [g] shows of the settings another form [f] has written: the extra
    settings; for each type its own settings, and the defaults of the others; for the
    types whose models can be fetched the update settings; the route table. *)
Definition shows_settings_of (f g : ChannelFormValues) : Prop :=
  f_force_format g = v_or (f_force_format f) (VBool false) /\
  f_thinking_to_content g = v_or (f_thinking_to_content f) (VBool false) /\
  f_proxy g = VStr (trim (opt_text (value_text (f_proxy f)))) /\
  f_pass_through_body_enabled g = v_or (f_pass_through_body_enabled f) (VBool false) /\
  f_system_prompt g = v_or (f_system_prompt f) (VStr []) /\
  f_system_prompt_override g = v_or (f_system_prompt_override f) (VBool false) /\
  f_vertex_key_type g =
    (if is_type 41 f then v_or (f_vertex_key_type f) (VStr (js "json")) else VStr (js "json")) /\
  f_azure_responses_version g =
    (if is_type 3 f then v_or (f_azure_responses_version f) (VStr []) else VStr []) /\
  f_aws_key_type g = (if is_type 33 f then v_or (f_aws_key_type f) (VStr (js "ak_sk")) else VStr (js "ak_sk")) /\
  f_is_enterprise_account g = Some (is_type 20 f && default false (f_is_enterprise_account f)) /\
  f_allow_service_tier g = Some (of_types [1; 14; 57]%Z f && default false (f_allow_service_tier f)) /\
  f_disable_store g = Some (of_types [1; 57]%Z f && default false (f_disable_store f)) /\
  f_allow_safety_identifier g = Some (of_types [1; 57]%Z f && default false (f_allow_safety_identifier f)) /\
  f_allow_include_obfuscation g = Some (of_types [1; 57]%Z f && default false (f_allow_include_obfuscation f)) /\
  f_allow_inference_geo g = Some (of_types [1; 14; 57]%Z f && default false (f_allow_inference_geo f)) /\
  f_allow_speed g = Some (is_type 14 f && default false (f_allow_speed f)) /\
  f_claude_beta_query g = Some (is_type 14 f && default false (f_claude_beta_query f)) /\
  f_disable_task_polling_sleep g = Some (default false (f_disable_task_polling_sleep f)) /\
  (fetchable f = true ->
    f_upstream_model_update_check_enabled g = Some (default false (f_upstream_model_update_check_enabled f)) /\
    f_upstream_model_update_auto_sync_enabled g =
      Some (default false (f_upstream_model_update_check_enabled f) &&
            default false (f_upstream_model_update_auto_sync_enabled f)) /\
    ignored_models (opt_text (f_upstream_model_update_ignored_models g)) =
      ignored_models (opt_text (f_upstream_model_update_ignored_models f))) /\
  (is_type CHANNEL_TYPE_ADVANCED_CUSTOM f = true ->
    parseAdvancedCustomConfig (f_advanced_custom g) = parseAdvancedCustomConfig (f_advanced_custom f)).

Lemma flag_shown (b : bool) o : is_true (default VUndef (if b then Some (flag o) else None)) = b && default false o.
Proof. by destruct b. Qed.

(** The fields of the form that are read from the two texts. *)
Lemma defaults_setting c (g := transformChannelToFormDefaults c) (v := parsed_settings (opt_text (c_setting c))) :
  f_force_format g = extra v (js "force_format") (VBool false) /\
  f_thinking_to_content g = extra v (js "thinking_to_content") (VBool false) /\
  f_proxy g = extra v (js "proxy") (VStr []) /\
  f_pass_through_body_enabled g = extra v (js "pass_through_body_enabled") (VBool false) /\
  f_system_prompt g = extra v (js "system_prompt") (VStr []) /\
  f_system_prompt_override g = extra v (js "system_prompt_override") (VBool false).
Proof. by repeat split. Qed.

Lemma defaults_settings c v (g := transformChannelToFormDefaults c) :
  parsed_settings (c_settings c) = v ->
  f_is_enterprise_account g = read_flag v (js "openrouter_enterprise") /\
  f_vertex_key_type g = extra v (js "vertex_key_type") (VStr (js "json")) /\
  f_azure_responses_version g = extra v (js "azure_responses_version") (VStr []) /\
  f_aws_key_type g = extra v (js "aws_key_type") (VStr (js "ak_sk")) /\
  f_allow_service_tier g = read_flag v (js "allow_service_tier") /\
  f_disable_store g = read_flag v (js "disable_store") /\
  f_allow_include_obfuscation g = read_flag v (js "allow_include_obfuscation") /\
  f_allow_inference_geo g = read_flag v (js "allow_inference_geo") /\
  f_allow_speed g = read_flag v (js "allow_speed") /\
  f_claude_beta_query g = read_flag v (js "claude_beta_query") /\
  f_disable_task_polling_sleep g = read_flag v (js "disable_task_polling_sleep") /\
  f_allow_safety_identifier g = read_flag v (js "allow_safety_identifier") /\
  f_upstream_model_update_check_enabled g = read_flag v (js "upstream_model_update_check_enabled") /\
  f_upstream_model_update_auto_sync_enabled g = read_flag v (js "upstream_model_update_auto_sync_enabled") /\
  f_upstream_model_update_ignored_models g = Some (read_ignored v) /\
  f_advanced_custom g = Some (read_advanced v).
Proof.
  intros <-. by repeat split.
Qed.

Section shown.
Variable new_URL : jstr -> option UrlParts.
Variable f : ChannelFormValues.
Hypothesis Hschema : channelFormSchema new_URL f = true.
Hypothesis Hwritable : writable f = true.

Lemma setting_object_plain :
  exists o, setting_object f = Some (VObj o) /\ plain_value (VObj o) = true /\
    prop_get (js "force_format") o = Some (v_or (f_force_format f) (VBool false)) /\
    prop_get (js "thinking_to_content") o = Some (v_or (f_thinking_to_content f) (VBool false)) /\
    prop_get (js "proxy") o = Some (VStr (trim (opt_text (value_text (f_proxy f))))) /\
    prop_get (js "pass_through_body_enabled") o = Some (v_or (f_pass_through_body_enabled f) (VBool false)) /\
    prop_get (js "system_prompt") o = Some (v_or (f_system_prompt f) (VStr [])) /\
    prop_get (js "system_prompt_override") o = Some (v_or (f_system_prompt_override f) (VBool false)).
Proof.
  destruct (schema_checks new_URL f Hschema) as (_ & C1 & C2 & C3 & C4 & C5 & C6 & _).
  destruct (existing_object new_URL f Hschema) as [o Ho].
  destruct (plain_parts new_URL f Hschema Hwritable o Ho) as (_ & P1 & P2 & _).
  assert (trimmed_text (f_proxy f) = Some (VStr (trim (opt_text (value_text (f_proxy f)))))) as Hp.
  { by destruct (f_proxy f). }
  assert (forall v, optional_flag v = true -> plain_or_absent v = true) as Hfl by by intros [].
  unfold setting_object. rewrite Hp. cbn [mbind option_bind]. eexists. split; [done|]. split; [|by repeat split].
  apply plain_object. split; [vm_compute; reflexivity|].
  repeat (constructor; [unfold plain_pair; cbn [fst snd]; apply andb_true_iff; split; [vm_compute; reflexivity|]; auto using plain_v_or|]);
    [|constructor].
  cbn [plain_value]. destruct (f_proxy f); try done. by apply unit_string_trim.
Qed.

(** The two texts of an accepted form are written and are the objects. *)
Lemma texts_written :
  exists s1 s2 o1 o o2, buildSettingJSON f = Some s1 /\ buildSettingsJSON f = Some s2 /\
    setting_object f = Some (VObj o1) /\ existing_settings f = VObj o /\ settings_object f o = Some o2 /\
    parsed_settings s1 = Some (VObj o1) /\ parsed_settings s2 = Some (VObj o2) /\ json_parse s2 = Some (VObj o2).
Proof.
  destruct setting_object_plain as (o1 & E1 & P1 & _). destruct (existing_object new_URL f Hschema) as [o Ho].
  destruct (settings_total new_URL f Hschema o) as [o2 E2].
  pose proof (settings_plain new_URL f Hschema Hwritable o o2 Ho E2) as P2.
  destruct (json_roundtrip _ P1) as (s1 & S1 & _). destruct (json_roundtrip _ P2) as (s2 & S2 & J2).
  exists s1, s2, o1, o, o2. unfold buildSettingJSON, buildSettingsJSON. rewrite E1, Ho, E2. cbn [mbind option_bind].
  by repeat split; [..|eapply parsed_settings_object|eapply parsed_settings_object|].
Qed.

Lemma advanced_shown o o' :
  is_type CHANNEL_TYPE_ADVANCED_CUSTOM f = true -> settings_object f o = Some o' ->
  parseAdvancedCustomConfig (Some (read_advanced (Some (VObj o')))) = parseAdvancedCustomConfig (f_advanced_custom f).
Proof.
  intros Ht Ho. destruct (schema_advanced new_URL f Hschema Ht) as [c Hc].
  assert (plain_value (encode_config c) = true) as Hp.
  { unfold writable in Hwritable. rewrite Hc in Hwritable. by bsplit. }
  assert (exists c0, normalizeAdvancedCustomConfig c0 = c) as [c0 Hn].
  { unfold parseAdvancedCustomConfig in Hc. destruct (negb _); [done|]. destruct (json_parse _) as [[]|]; try done.
    apply fmap_Some in Hc as (c0 & _ & [= ->]). by exists c0. }
  rewrite settings_object_unfold in Ho. unfold put_advanced in Ho. rewrite Ht, Hc in Ho. injection Ho as <-.
  unfold read_advanced. rewrite get_object, prop_get_set, jeqb_refl. cbn [default from_option id].
  assert (v_truthy (encode_config c) = true) as -> by done.
  assert (normalized_config (encode_config c) = Some (encode_config c)) as -> by (rewrite <- Hn; apply normalized_encoded).
  cbn [mbind option_bind]. assert (normalizeAdvancedCustomConfig c = c) as Hc' by (rewrite <- Hn; apply normalize_config_idem).
  rewrite <- Hc' at 1. rewrite Hc. by apply parse_stringified.
Qed.

Lemma upstream_shown o o' g :
  settings_object f o = Some o' -> fetchable f = true ->
  f_upstream_model_update_check_enabled g = read_flag (Some (VObj o')) (js "upstream_model_update_check_enabled") ->
  f_upstream_model_update_auto_sync_enabled g =
    read_flag (Some (VObj o')) (js "upstream_model_update_auto_sync_enabled") ->
  f_upstream_model_update_ignored_models g = Some (read_ignored (Some (VObj o'))) ->
  f_upstream_model_update_check_enabled g = Some (default false (f_upstream_model_update_check_enabled f)) /\
  f_upstream_model_update_auto_sync_enabled g =
    Some (default false (f_upstream_model_update_check_enabled f) &&
          default false (f_upstream_model_update_auto_sync_enabled f)) /\
  ignored_models (opt_text (f_upstream_model_update_ignored_models g)) =
    ignored_models (opt_text (f_upstream_model_update_ignored_models f)).
Proof.
  intros Ho Hf H1 H2 H3. rewrite H1, H2, H3.
  pose proof (key_check _ _ _ Ho) as K1. pose proof (key_auto_sync _ _ _ Ho) as K2. pose proof (key_ignored _ _ _ Ho) as K3.
  rewrite Hf in K1, K2, K3. rewrite (read_flag_object _ _ _ K1), (read_flag_object _ _ _ K2).
  split; [done|]. split; [done|]. unfold read_ignored. rewrite get_object, K3. cbn [default from_option id opt_text].
  rewrite to_string_texts. apply ignored_models_join.
Qed.
End shown.

(** ** Theorems *)

(** C13. What the form writes it shows again.  For a form the schema accepts whose texts
    and numbers JSON keeps ([writable]), both texts are written, and a channel that holds
    them opens with: the common settings as the form had them, an absent one as its
    default and the proxy trimmed; the settings of the channel's own type as the form had
    them and those of the other types at their defaults; where models can be fetched, the
    update check, automatic sync only together with the check, and the same list of
    ignored models; and for a channel of custom routes the same normalised table. *)
Theorem form_settings_roundtrip new_URL f :
  channelFormSchema new_URL f = true -> writable f = true ->
  exists s1 s2, buildSettingJSON f = Some s1 /\ buildSettingsJSON f = Some s2 /\
    forall c, c_setting c = Some s1 -> c_settings c = s2 ->
      shows_settings_of f (transformChannelToFormDefaults c).
Proof.
  intros Hs Hw.
  destruct (texts_written new_URL f Hs Hw) as (s1 & s2 & o1 & o & o2 & B1 & B2 & E1 & Ho & E2 & R1 & R2 & _).
  exists s1, s2. split; [done|]. split; [done|]. intros c Hc1 Hc2.
  destruct (setting_object_plain new_URL f Hs Hw) as (o1' & E1' & _ & K). rewrite E1 in E1'. injection E1' as <-.
  pose proof (defaults_setting c) as D. rewrite Hc1 in D. cbv zeta in D. cbn [opt_text default from_option id] in D.
  change (opt_text (Some s1)) with s1 in D. rewrite R1 in D.
  rewrite <- Hc2 in R2. pose proof (defaults_settings c _ R2) as S. set (g := transformChannelToFormDefaults c) in *.
  unfold shows_settings_of.
  destruct D as (-> & -> & -> & -> & -> & ->), K as (K1 & K2 & K3 & K4 & K5 & K6).
  destruct S as (S1 & S2 & S3 & S4 & S5 & S6 & S7 & S8 & S9 & S10 & S11 & S12 & S13 & S14 & S15 & S16).
  rewrite (extra_object _ _ _ _ K1), (extra_object _ _ _ _ K2), (extra_object _ _ _ _ K3), (extra_object _ _ _ _ K4),
    (extra_object _ _ _ _ K5), (extra_object _ _ _ _ K6). cbn [default from_option id].
  rewrite !v_or_falsy by done.
  rewrite S1, S2, S3, S4, S5, S6, S7, S8, S9, S10, S11, S12.
  rewrite (read_flag_object _ _ _ (key_openrouter _ _ _ E2)), (extra_object _ _ _ _ (key_vertex _ _ _ E2)),
    (extra_object _ _ _ _ (key_azure _ _ _ E2)), (extra_object _ _ _ _ (key_aws _ _ _ E2)),
    (read_flag_object _ _ _ (key_service_tier _ _ _ E2)), (read_flag_object _ _ _ (key_store _ _ _ E2)),
    (read_flag_object _ _ _ (key_obfuscation _ _ _ E2)), (read_flag_object _ _ _ (key_geo _ _ _ E2)),
    (read_flag_object _ _ _ (key_speed _ _ _ E2)), (read_flag_object _ _ _ (key_beta _ _ _ E2)),
    (read_flag_object _ _ _ (key_polling _ _ _ E2)), (read_flag_object _ _ _ (key_safety _ _ _ E2)), !flag_shown.
  repeat split; try done.
  - unfold v_or. cbn [v_truthy]. by destruct (trim _).
  - destruct (is_type 41 f); [|done]. cbn [default from_option id]. by apply v_or_idem.
  - destruct (is_type 3 f); [|done]. cbn [andb]. unfold v_or. destruct (v_truthy (f_azure_responses_version f)) eqn:E; [|done].
    cbn [default from_option id]. by rewrite E.
  - destruct (is_type 33 f); [|done]. cbn [default from_option id]. by apply v_or_idem.
  - eapply upstream_shown; eassumption.
  - eapply upstream_shown; eassumption.
  - eapply upstream_shown; eassumption.
  - intros Ht. rewrite S16. by apply (advanced_shown new_URL f Hs Hw o o2).
Qed.

(** C16. Settings the form does not manage survive an edit: for an accepted form whose texts
    and numbers JSON keeps, the settings text that is written is an object that has every
    property outside the ones the form manages as the text the form started from had it. *)
Theorem unknown_settings_kept new_URL f :
  channelFormSchema new_URL f = true -> writable f = true ->
  exists o s o', existing_settings f = VObj o /\ buildSettingsJSON f = Some s /\ json_parse s = Some (VObj o') /\
    forall k, k ∉ MANAGED_KEYS -> prop_get k o' = prop_get k o.
Proof.
  intros Hs Hw.
  destruct (texts_written new_URL f Hs Hw) as (_ & s2 & _ & o & o2 & _ & B2 & _ & Ho & E2 & _ & _ & J2).
  exists o, s2, o2. repeat split; try done. intros k. by apply (key_unmanaged f o o2).
Qed.

Lemma builders_total new_URL f :
  channelFormSchema new_URL f = true ->
  exists s1 s2, buildSettingJSON f = Some s1 /\ buildSettingsJSON f = Some s2.
Proof.
  intros Hs. destruct (schema_checks new_URL f Hs) as (_ & _ & _ & C3 & _).
  destruct (existing_object new_URL f Hs) as [o Ho]. destruct (settings_total new_URL f Hs o) as [o2 E2].
  unfold buildSettingJSON, buildSettingsJSON, setting_object. rewrite Ho, E2. cbn [mbind option_bind].
  destruct (f_proxy f); try done; cbn [trimmed_text mbind option_bind]; do 2 eexists; split; reflexivity.
Qed.

(** C15. Validation is enough for sending: the requests of an accepted form are built
    without an exception.  It is needed: with settings that are a JSON text other than
    an object or an array, such as [null] or a number, building a request throws. *)
Theorem accepted_form_sends new_URL f channelId :
  (channelFormSchema new_URL f = true ->
    exists p q, transformFormDataToCreatePayload f = Some p /\
                transformFormDataToUpdatePayload f channelId = Some q) /\
  (is_record (existing_settings f) = false ->
    transformFormDataToCreatePayload f = None /\ transformFormDataToUpdatePayload f channelId = None).
Proof.
  split.
  - intros Hs. destruct (builders_total new_URL f Hs) as (s1 & s2 & B1 & B2).
    unfold transformFormDataToCreatePayload, transformFormDataToUpdatePayload. rewrite B1, B2. do 2 eexists. split; reflexivity.
  - intros H. assert (buildSettingsJSON f = None) as B.
    { unfold buildSettingsJSON. by destruct (existing_settings f). }
    unfold transformFormDataToCreatePayload, transformFormDataToUpdatePayload.
    destruct (buildSettingJSON f) as [s|]; [|done]. cbn [mbind option_bind]. by rewrite B.
Qed.

(** ** The fields of a request *)

Lemma get_clean_up k o :
  prop_get k (clean_up o) = null_if_empty <$> prop_get k o.
Proof.
  induction o as [|[k' v] o IH]; [done|]. unfold clean_up in *. cbn [map prop_get fst snd]. rewrite IH. by destruct (k =s k').
Qed.

Lemma get_assign k new o :
  prop_get k (assign new o) = match prop_get k (rev new) with Some v => Some v | None => prop_get k o end.
Proof.
  revert o. induction new as [|[k' v] new IH]; intros o; [done|]. cbn [assign foldl fst snd rev].
  fold (assign new (prop_set k' v o)). rewrite IH, prop_get_set.
  assert (forall l : Settings, prop_get k (l ++ [(k', v)]) =
    match prop_get k l with Some x => Some x | None => if k =s k' then Some v else None end) as ->.
  { induction l as [|[k2 v2] l IHl]; simpl; [done|]. by destruct (k =s k2). }
  destruct (prop_get k (rev new)); [done|]. by destruct (k =s k').
Qed.

Lemma get_delete_all k ks (o : Settings) :
  prop_get k (foldl (fun o k' => prop_delete k' o) o ks) = if bool_decide (k ∈ ks) then None else prop_get k o.
Proof.
  revert o. induction ks as [|k' ks IH]; intros o; simpl; [done|].
  rewrite IH, prop_get_delete. unfold jeqb. repeat case_bool_decide; set_solver.
Qed.

(** The request in terms of the payload: what each step takes away or adds. *)
Lemma update_request_get user multi channelId f q k :
  transformFormDataToUpdatePayload f channelId = Some q ->
  exists p, update_request user multi channelId f = Some p /\
    prop_get k p =
      if (k =s js "key_mode") && (canEditSensitive user && multi && truthy (trim (f_key f))) &&
         match f_key_mode f with Some _ => true | None => false end
      then key_mode_value <$> f_key_mode f
      else if negb (canEditSensitive user) && bool_decide (k ∈ SENSITIVE_UPDATE_FIELDS) then None
      else if negb (truthy (trim (f_key f))) && (k =s js "key") then None
      else prop_get k q.
Proof.
  intros Hq. unfold update_request. rewrite Hq. cbn [mbind option_bind]. cbv zeta.
  set (p1 := if negb (truthy (trim (f_key f))) then _ else _).
  assert (prop_get k p1 = if negb (truthy (trim (f_key f))) && (k =s js "key") then None else prop_get k q) as <-.
  { unfold p1. destruct (negb _); [|done]. by rewrite prop_get_delete. }
  clearbody p1. set (p2 := if negb (canEditSensitive user) then _ else _).
  assert (prop_get k p2 = if negb (canEditSensitive user) && bool_decide (k ∈ SENSITIVE_UPDATE_FIELDS) then None
    else prop_get k p1) as <-.
  { unfold p2. destruct (negb _); [|done]. by rewrite get_delete_all. }
  clearbody p2. eexists. split; [reflexivity|].
  destruct (f_key_mode f) as [m|]; [|by rewrite andb_false_r]. rewrite andb_true_r.
  destruct (_ && multi && _); [|by rewrite andb_false_r]. rewrite prop_get_set, andb_true_r. by destruct (k =s _).
Qed.

Lemma payload_key_mode f channelId q :
  transformFormDataToUpdatePayload f channelId = Some q -> prop_get (js "key_mode") q = None.
Proof.
  unfold transformFormDataToUpdatePayload. intros Hq. apply bind_Some in Hq as (s1 & _ & Hq).
  apply bind_Some in Hq as (s2 & _ & Hq). cbv zeta in Hq. apply (inj Some) in Hq. subst q.
  rewrite get_assign, get_clean_up. destruct (_ && _); [rewrite prop_get_set|]; cbn [cleared_fields rev app prop_get]; keys; reflexivity.
Qed.

(** C14. An administrator without the permission to edit sensitive fields sends none of
    them, and no key mode: type, key, addresses, overrides and both settings texts stay
    as they are on the server.  The other fields are sent as they would be with the
    permission; and whoever sends it, a blank key is not sent. *)
Theorem sensitive_fields_withheld user multi channelId f p :
  update_request user multi channelId f = Some p ->
  (canEditSensitive user = false ->
    forall k, k ∈ js "key_mode" :: SENSITIVE_UPDATE_FIELDS -> prop_get k p = None) /\
  (trim (f_key f) = [] -> prop_get (js "key") p = None /\ prop_get (js "key_mode") p = None) /\
  (forall k, k ∉ js "key_mode" :: SENSITIVE_UPDATE_FIELDS ->
    exists q, transformFormDataToUpdatePayload f channelId = Some q /\ prop_get k p = prop_get k q).
Proof.
  intros H. pose proof H as H'. apply bind_Some in H' as (q & Hq & _).
  pose proof (payload_key_mode _ _ _ Hq) as Hkm.
  pose proof (fun k => update_request_get user multi channelId f q k Hq) as G. rewrite H in G. clear H.
  split; [|split].
  - intros Hc k Hk. destruct (G k) as (p' & [= <-] & ->). rewrite Hc. cbn [andb negb]. rewrite andb_false_r. cbn [andb].
    apply elem_of_cons in Hk as [-> | Hk]; [|by rewrite bool_decide_true].
    case_bool_decide; [done|]. keys. by rewrite andb_false_r.
  - intros Ht. split.
    + destruct (G (js "key")) as (p' & [= <-] & ->). rewrite Ht. keys. by destruct (canEditSensitive user).
    + destruct (G (js "key_mode")) as (p' & [= <-] & ->). rewrite Ht, Hkm. keys. by destruct (canEditSensitive user), multi, (f_key_mode f).
  - intros k [Hk Hks]%not_elem_of_cons. exists q. split; [done|]. destruct (G k) as (p' & [= <-] & ->).
    assert (k <> js "key") as Hkey%jeqb_neq by (intros ->; apply Hks; unfold SENSITIVE_UPDATE_FIELDS; set_solver).
    apply jeqb_neq in Hk. rewrite Hk, Hkey, bool_decide_false by done. by rewrite !andb_false_r.
Qed.

Lemma update_payload_fields f channelId p :
  transformFormDataToUpdatePayload f channelId = Some p ->
  prop_get (js "key") p = (if truthy (f_key f) && truthy (trim (f_key f)) then Some (null_if_empty (VStr (f_key f))) else None) /\
  prop_get (js "status") p = None /\
  prop_get (js "id") p = Some (Z_value channelId) /\ prop_get (js "type") p = Some (Z_value (f_type f)) /\
  prop_get (js "name") p = Some (null_if_empty (VStr (f_name f))) /\
  prop_get (js "models") p = Some (null_if_empty (VStr (f_models f))) /\
  prop_get (js "group") p = Some (null_if_empty (VStr (formatGroups (f_group f)))) /\
  prop_get (js "other") p = Some (null_if_empty (VStr (opt_text (f_other f)))) /\
  prop_get (js "base_url") p = Some (VStr (normalizeBaseUrl (f_base_url f))) /\
  prop_get (js "openai_organization") p = Some (VStr (opt_text (f_openai_organization f))) /\
  prop_get (js "test_model") p = Some (VStr (opt_text (f_test_model f))) /\
  prop_get (js "tag") p = Some (VStr (opt_text (f_tag f))) /\
  prop_get (js "remark") p = Some (VStr (opt_text (f_remark f))) /\
  prop_get (js "model_mapping") p = Some (VStr (opt_text (f_model_mapping f))) /\
  prop_get (js "status_code_mapping") p = Some (VStr (opt_text (f_status_code_mapping f))) /\
  prop_get (js "param_override") p = Some (VStr (opt_text (f_param_override f))) /\
  prop_get (js "header_override") p = Some (VStr (opt_text (f_header_override f))) /\
  prop_get (js "priority") p = Some (VNum (default n_zero (f_priority f))) /\
  prop_get (js "weight") p = Some (VNum (default n_zero (f_weight f))) /\
  prop_get (js "auto_ban") p = Some (VNum (default (num_of_Z 1) (f_auto_ban f))).
Proof.
  intros Hp. unfold transformFormDataToUpdatePayload in Hp. apply bind_Some in Hp as (s1 & _ & Hp).
  apply bind_Some in Hp as (s2 & _ & Hp). cbv zeta in Hp. apply (inj Some) in Hp. subst p.
  set (base := [(js "id", _); _; _; _; _; _; _; _; _; _; _; _; _; _; _; _; _; _; _; _]).
  set (payload := if _ && _ then _ else _).
  assert (forall k, prop_get k payload =
    if (truthy (f_key f) && truthy (trim (f_key f))) && (k =s js "key") then Some (VStr (f_key f)) else prop_get k base) as Hpay.
  { intros k. unfold payload. destruct (_ && _); [|done]. rewrite prop_get_set. by destruct (k =s js "key"). }
  clearbody payload. unfold base in Hpay. clear base.
  repeat (split; [rewrite get_assign, get_clean_up, Hpay; cbn [cleared_fields rev app prop_get]; keys;
                  rewrite ?andb_false_r, ?andb_true_r; first [reflexivity | by destruct (_ && _)]|]).
  rewrite get_assign, get_clean_up, Hpay; cbn [cleared_fields rev app prop_get]; keys; by rewrite ?andb_false_r.
Qed.

(** Opening a channel and saving it as it is sends its own values back: no key, no
    status, the texts and numbers of the channel, with its address without trailing
    slashes and its groups as the form lists them; a text that was absent is sent
    empty, so that clearing a field reaches the server. *)
Theorem unchanged_edit_sends_channel c channelId p :
  transformFormDataToUpdatePayload (transformChannelToFormDefaults c) channelId = Some p ->
  prop_get (js "key") p = None /\ prop_get (js "status") p = None /\
  prop_get (js "id") p = Some (Z_value channelId) /\ prop_get (js "type") p = Some (Z_value (c_type c)) /\
  prop_get (js "name") p = Some (null_if_empty (VStr (c_name c))) /\
  prop_get (js "models") p = Some (null_if_empty (VStr (c_models c))) /\
  prop_get (js "group") p =
    Some (null_if_empty (VStr (formatGroups (parseGroups (str_or (c_group c) (js "default")))))) /\
  prop_get (js "other") p = Some (null_if_empty (VStr (c_other c))) /\
  prop_get (js "base_url") p = Some (VStr (normalizeBaseUrl (c_base_url c))) /\
  prop_get (js "openai_organization") p = Some (VStr (opt_text (c_openai_organization c))) /\
  prop_get (js "test_model") p = Some (VStr (opt_text (c_test_model c))) /\
  prop_get (js "tag") p = Some (VStr (opt_text (c_tag c))) /\
  prop_get (js "remark") p = Some (VStr (c_remark c)) /\
  prop_get (js "model_mapping") p = Some (VStr (opt_text (c_model_mapping c))) /\
  prop_get (js "status_code_mapping") p = Some (VStr (opt_text (c_status_code_mapping c))) /\
  prop_get (js "param_override") p = Some (VStr (opt_text (c_param_override c))) /\
  prop_get (js "header_override") p = Some (VStr (opt_text (c_header_override c))) /\
  prop_get (js "priority") p = Some (VNum (n_or (default n_zero (c_priority c)) n_zero)) /\
  prop_get (js "weight") p = Some (VNum (n_or (default n_zero (c_weight c)) n_zero)) /\
  prop_get (js "auto_ban") p = Some (VNum (default (num_of_Z 1) (c_auto_ban c))).
Proof.
  intros Hp. exact (update_payload_fields _ channelId p Hp).
Qed.

(** ** A form *)

Definition no_proxy_url : jstr -> option UrlParts := fun _ => None.

(** A new OpenAI channel edited over settings with a property of another version. *)
Definition ex_channel : Channel := {|
  c_name := js "main"; c_type := 1; c_base_url := Some (js "https://api.example.com/"); c_openai_organization := None;
  c_models := js "gpt-4o"; c_group := js "default, vip"; c_model_mapping := None; c_priority := None;
  c_weight := None; c_test_model := None; c_auto_ban := None; c_status := 1; c_status_code_mapping := None;
  c_tag := None; c_remark := []; c_setting := None; c_param_override := None; c_header_override := None;
  c_settings := jsq "{`quirk`:[1],`disable_store`:true,`claude_beta_query`:true}"; c_other := [];
  c_multi_key_mode := None |}.

Definition ex_form : ChannelFormValues := transformChannelToFormDefaults ex_channel.

Lemma form_settings_roundtrip_witness :
  exists s1 s2, buildSettingJSON ex_form = Some s1 /\ buildSettingsJSON ex_form = Some s2 /\
    forall c, c_setting c = Some s1 -> c_settings c = s2 ->
      shows_settings_of ex_form (transformChannelToFormDefaults c).
Proof. apply (form_settings_roundtrip no_proxy_url ex_form); vm_compute; reflexivity. Defined.

Lemma unknown_settings_kept_witness :
  exists o s o', existing_settings ex_form = VObj o /\ buildSettingsJSON ex_form = Some s /\
    json_parse s = Some (VObj o') /\ forall k, k ∉ MANAGED_KEYS -> prop_get k o' = prop_get k o.
Proof. apply (unknown_settings_kept no_proxy_url ex_form); vm_compute; reflexivity. Defined.

Lemma accepted_form_sends_witness :
  exists p q, transformFormDataToCreatePayload ex_form = Some p /\ transformFormDataToUpdatePayload ex_form 7 = Some q.
Proof. apply (accepted_form_sends no_proxy_url ex_form 7). vm_compute. reflexivity. Defined.

Definition ex_request : Settings := default [] (update_request None false 7 ex_form).

Lemma sensitive_fields_withheld_witness : prop_get (js "settings") ex_request = None.
Proof.
  assert (update_request None false 7 ex_form = Some ex_request) as H by (vm_compute; reflexivity).
  apply (proj1 (sensitive_fields_withheld None false 7 ex_form ex_request H)); [reflexivity|].
  apply (bool_decide_unpack _). vm_compute. exact I.
Defined.

Lemma unchanged_edit_sends_channel_witness :
  prop_get (js "key") (default [] (transformFormDataToUpdatePayload ex_form 7)) = None.
Proof.
  assert (transformFormDataToUpdatePayload ex_form 7 =
          Some (default [] (transformFormDataToUpdatePayload ex_form 7))) as H2 by (vm_compute; reflexivity).
  exact (proj1 (unchanged_edit_sends_channel ex_channel 7 _ H2)).
Defined.

(** The settings the example writes: the property of the other version is kept, the one
    of another channel type is dropped. *)
Example ex_settings_text :
  buildSettingsJSON ex_form = Some (jsq
    "{`quirk`:[1],`disable_store`:true,`allow_service_tier`:false,`allow_safety_identifier`:false,`allow_include_obfuscation`:false,`allow_inference_geo`:false,`disable_task_polling_sleep`:false,`upstream_model_update_check_enabled`:false,`upstream_model_update_auto_sync_enabled`:false,`upstream_model_update_ignored_models`:[],`upstream_model_update_last_detected_models`:[],`upstream_model_update_last_check_time`:0}").
Proof. vm_compute. reflexivity. Qed.
