(* ===== verification/ModelPricing.v ===== *)
(** * Model prices

    The editor of model prices in [features/system-settings/models]: the numbers it shows
    ([pricing-format.ts]), the lanes of a price ([model-pricing-core.ts]), the rows read
    from the ten options ([model-pricing-snapshots.ts]), the panel that edits one model
    ([model-pricing-sheet.tsx]), the options it writes ([model-ratio-visual-editor.tsx])
    and the requests that save them ([ratio-settings-card.tsx]).  The translation [t] and
    [localeCompare] are parameters. *)

From Stdlib Require Import SpecFloat.
From S2P Require Import Prelude JsString JsRegex JsNumber JsInteger JsMath Json JsonText JsMap BillingExpr.

(** ** Numbers that are shown *)

Definition DISPLAY_DECIMALS : nat := 12.
Definition SNAP_DECIMALS : nat := 8.
Definition SNAP_EPSILON : number := dec (js "1e-12").

Definition hasValue (value : jsval) : bool :=
  match value with VUndef | VNull | VBool false => false | VStr s => truthy s | _ => true end.

(** [null] is [None]; zero has a value. *)
Definition toNumberOrNull (value : jsval) : option number :=
  if negb (hasValue value) then None
  else let num := to_number value in if n_isFinite num then Some num else None.

Definition roundToDecimals (value : number) (decimals : nat) : number :=
  let factor := num_of_Z (10 ^ Z.of_nat decimals) in
  n_div (n_round (n_mul value factor)) factor.

Definition snapFloatDrift (value : number) : number :=
  let tolerance := n_max SNAP_EPSILON (n_mul (n_mul (n_abs value) n_epsilon) (num_of_Z 8)) in
  match find_first (fun decimals => n_leb (n_abs (n_sub value (roundToDecimals value decimals))) tolerance)
          (seq 0 (S SNAP_DECIMALS)) with
  | Some decimals => roundToDecimals value decimals
  | None => value
  end.

Definition formatPricingNumber (value : jsval) : jstr :=
  match toNumberOrNull value with
  | None => []
  | Some num => show_num (parse_float (to_fixed DISPLAY_DECIMALS (snapFloatDrift num)))
  end.

(** ** Fields and lanes *)

(** The fields of a price that hold a number. *)
Inductive PriceField :=
  | price | ratio | cacheRatio | createCacheRatio | completionRatio | imageRatio | audioRatio | audioCompletionRatio.

#[export] Instance price_field_eq_dec : EqDecision PriceField.
Proof. solve_decision. Defined.

(** The eight optional texts that [ModelPricingFormValues], [ModelRatioData] and
    [ModelPricingSnapshot] have in common. *)
Record Prices := {
  x_price : option jstr; x_ratio : option jstr; x_cacheRatio : option jstr; x_createCacheRatio : option jstr;
  x_completionRatio : option jstr; x_imageRatio : option jstr; x_audioRatio : option jstr;
  x_audioCompletionRatio : option jstr }.

Definition field_of (x : Prices) (f : PriceField) : option jstr :=
  match f with
  | price => x_price x | ratio => x_ratio x | cacheRatio => x_cacheRatio x | createCacheRatio => x_createCacheRatio x
  | completionRatio => x_completionRatio x | imageRatio => x_imageRatio x | audioRatio => x_audioRatio x
  | audioCompletionRatio => x_audioCompletionRatio x
  end.

Definition prices_of (g : PriceField -> option jstr) : Prices :=
  {| x_price := g price; x_ratio := g ratio; x_cacheRatio := g cacheRatio; x_createCacheRatio := g createCacheRatio;
     x_completionRatio := g completionRatio; x_imageRatio := g imageRatio; x_audioRatio := g audioRatio;
     x_audioCompletionRatio := g audioCompletionRatio |}.

Definition set_field (f : PriceField) (v : jstr) (x : Prices) : Prices :=
  prices_of (fun g => if bool_decide (g = f) then Some v else field_of x g).

Inductive PricingMode := PerToken | PerRequest | TieredExpr.

#[export] Instance pricing_mode_eq_dec : EqDecision PricingMode.
Proof. solve_decision. Defined.

Inductive LaneKey := completion | cache | createCache | image | audioInput | audioOutput.

#[export] Instance lane_key_eq_dec : EqDecision LaneKey.
Proof. solve_decision. Defined.

(** [Record<LaneKey, A>] *)
Record Lanes (A : Type) := {
  l_completion : A; l_cache : A; l_createCache : A; l_image : A; l_audioInput : A; l_audioOutput : A }.
Arguments l_completion {A}. Arguments l_cache {A}. Arguments l_createCache {A}. Arguments l_image {A}.
Arguments l_audioInput {A}. Arguments l_audioOutput {A}.

Definition lane_of {A} (l : Lanes A) (k : LaneKey) : A :=
  match k with
  | completion => l_completion l | cache => l_cache l | createCache => l_createCache l | image => l_image l
  | audioInput => l_audioInput l | audioOutput => l_audioOutput l
  end.

Definition lanes_of {A} (g : LaneKey -> A) : Lanes A :=
  {| l_completion := g completion; l_cache := g cache; l_createCache := g createCache; l_image := g image;
     l_audioInput := g audioInput; l_audioOutput := g audioOutput |}.

Definition set_lane {A} (k : LaneKey) (v : A) (l : Lanes A) : Lanes A :=
  lanes_of (fun j => if bool_decide (j = k) then v else lane_of l j).

Record ModelRatioData := {
  d_name : jstr; d_prices : Prices; d_billingMode : option PricingMode; d_billingExpr : option jstr;
  d_requestRuleExpr : option jstr }.

Definition EMPTY_LANE_PRICES : Lanes jstr := lanes_of (fun _ => []).
Definition EMPTY_LANE_ENABLED : Lanes bool := lanes_of (fun _ => false).

Definition ratioFieldByLane (k : LaneKey) : PriceField :=
  match k with
  | completion => completionRatio | cache => cacheRatio | createCache => createCacheRatio | image => imageRatio
  | audioInput => audioRatio | audioOutput => audioCompletionRatio
  end.

(** The keys of [laneConfigs]. *)
Definition laneConfigs : list LaneKey := [completion; cache; createCache; image; audioInput; audioOutput].

(** The draft of a price: digits with at most one point. *)
Definition numericDraftRegex : regex :=
  RSeqs [RStart;
         ROpt (RGroup 1 (RAlt (RSeq (RPlus (RSet c_digit)) (ROpt (RGroup 2 (RSeq (RLit (js ".")) (RStar (RSet c_digit))))))
                              (RSeq (RLit (js ".")) (RStar (RSet c_digit)))));
         REnd].

(** [String | undefined] as a value *)
Definition str_val (o : option jstr) : jsval := match o with Some s => VStr s | None => VUndef end.

Definition ratioToBasePrice (r : option jstr) : jstr :=
  match toNumberOrNull (str_val r) with
  | None => []
  | Some num => formatPricingNumber (VNum (n_mul num (num_of_Z 2)))
  end.

Definition deriveLanePrice (r : option jstr) (denominator : jstr) : jstr :=
  match toNumberOrNull (str_val r), toNumberOrNull (VStr denominator) with
  | Some ratioNumber, Some denominatorNumber => formatPricingNumber (VNum (n_mul ratioNumber denominatorNumber))
  | _, _ => []
  end.

(** The prompt price, the prices and the switches of the lanes. *)
Definition createInitialLaneState (data : option ModelRatioData) : jstr * Lanes jstr * Lanes bool :=
  match data with
  | None => ([], EMPTY_LANE_PRICES, EMPTY_LANE_ENABLED)
  | Some d =>
      let x := d_prices d in
      let promptPrice := ratioToBasePrice (x_ratio x) in
      let audioInputPrice := deriveLanePrice (x_audioRatio x) promptPrice in
      (promptPrice,
       lanes_of (fun k => match k with
                          | audioInput => audioInputPrice
                          | audioOutput => deriveLanePrice (x_audioCompletionRatio x) audioInputPrice
                          | _ => deriveLanePrice (field_of x (ratioFieldByLane k)) promptPrice
                          end),
       lanes_of (fun k => hasValue (str_val (field_of x (ratioFieldByLane k)))))
  end.

(** ** The rows of the table *)

(** One option: a map of numbers, the billing modes or the expressions. *)
Inductive PricingOption := ONumber (f : PriceField) | OMode | OExpr.

#[export] Instance pricing_option_eq_dec : EqDecision PricingOption.
Proof. solve_decision. Defined.

(** In the order in which the names of models are collected. *)
Definition PRICING_OPTIONS : list PricingOption :=
  [ONumber price; ONumber ratio; ONumber cacheRatio; ONumber createCacheRatio; ONumber completionRatio;
   ONumber imageRatio; ONumber audioRatio; ONumber audioCompletionRatio; OMode; OExpr].

(** The texts of the ten options. *)
Record ModelPricingSnapshotInput := {
  i_modelPrice : jstr; i_modelRatio : jstr; i_cacheRatio : jstr; i_createCacheRatio : jstr; i_completionRatio : jstr;
  i_imageRatio : jstr; i_audioRatio : jstr; i_audioCompletionRatio : jstr; i_billingMode : jstr; i_billingExpr : jstr }.

Definition text_in (i : ModelPricingSnapshotInput) (o : PricingOption) : jstr :=
  match o with
  | ONumber price => i_modelPrice i | ONumber ratio => i_modelRatio i | ONumber cacheRatio => i_cacheRatio i
  | ONumber createCacheRatio => i_createCacheRatio i | ONumber completionRatio => i_completionRatio i
  | ONumber imageRatio => i_imageRatio i | ONumber audioRatio => i_audioRatio i
  | ONumber audioCompletionRatio => i_audioCompletionRatio i | OMode => i_billingMode i | OExpr => i_billingExpr i
  end.

Definition input_of (g : PricingOption -> jstr) : ModelPricingSnapshotInput :=
  {| i_modelPrice := g (ONumber price); i_modelRatio := g (ONumber ratio); i_cacheRatio := g (ONumber cacheRatio);
     i_createCacheRatio := g (ONumber createCacheRatio); i_completionRatio := g (ONumber completionRatio);
     i_imageRatio := g (ONumber imageRatio); i_audioRatio := g (ONumber audioRatio);
     i_audioCompletionRatio := g (ONumber audioCompletionRatio); i_billingMode := g OMode; i_billingExpr := g OExpr |}.

Record ModelPricingSnapshot := {
  s_name : jstr; s_prices : Prices; s_billingMode : option jstr; s_billingExpr : option jstr;
  s_requestRuleExpr : option jstr; s_hasConflict : bool }.

Record ModelRow := {
  w_shown : ModelPricingSnapshot; w_saved : option ModelPricingSnapshot; w_draft : option ModelPricingSnapshot;
  w_isDraftChanged : bool; w_isDraftDeleted : bool; w_isDraftNew : bool }.

Definition hasPricingValue (value : option jstr) : bool := match value with Some s => truthy s | None => false end.

Definition isBasePricingUnset (snapshot : option ModelPricingSnapshot) : bool :=
  match snapshot with
  | None => true
  | Some s => negb (bool_decide (s_billingMode s = Some (js "tiered_expr"))) &&
              negb (hasPricingValue (x_price (s_prices s))) && negb (hasPricingValue (x_ratio (s_prices s)))
  end.

(** [toNumberOrNull] of [model-pricing-snapshots.ts] *)
Definition textNumberOrNull (value : option jstr) : option number :=
  match value with
  | Some s => if negb (truthy s) then None
              else let num := num_of_string s in if n_isFinite num then Some num else None
  | None => None
  end.

Definition ratioToPrice (r denominator : option jstr) : jstr :=
  let denominatorNumber := if hasPricingValue denominator then textNumberOrNull denominator else Some (num_of_Z 2) in
  match textNumberOrNull r, denominatorNumber with
  | Some ratioNumber, Some d => formatPricingNumber (VNum (n_mul ratioNumber d))
  | _, _ => []
  end.

(** [safeJsonParse(value, { fallback })] *)
Definition safeJsonParse (value : jstr) (fallback : jsval) : jsval :=
  if negb (truthy value) || (trim value =s []) then fallback
  else default fallback (json_parse (trim value)).

(** [Object.keys] with the values; [None] is the exception of [null].  Numbers and
    booleans have no properties, arrays and strings their indices. *)
Definition indexed {A} (l : list A) : list (jstr * A) := imap (fun i x => (show_N (N.of_nat i), x)) l.

Definition properties (v : jsval) : option (list (jstr * jsval)) :=
  match v with
  | VUndef | VNull => None
  | VBool _ | VNum _ => Some []
  | VStr s => Some (indexed (map (fun c => VStr [c]) s))
  | VArr l => Some (indexed l)
  | VObj o => Some o
  end.

(** The properties of the value that one option holds. *)
Definition option_properties (i : ModelPricingSnapshotInput) (o : PricingOption) : option (list (jstr * jsval)) :=
  properties (safeJsonParse (text_in i o) (VObj [])).

Definition opened (i : ModelPricingSnapshotInput) (o : PricingOption) : list (jstr * jsval) :=
  default [] (option_properties i o).

(** [map[name]?.toString() || ''] *)
Definition value_text (m : list (jstr * jsval)) (name : jstr) : jstr :=
  match prop_get name m with
  | None | Some VUndef | Some VNull => []
  | Some v => to_string v
  end.

Definition is_tiered (modes : list (jstr * jsval)) (name : jstr) : bool :=
  match prop_get name modes with Some (VStr s) => s =s js "tiered_expr" | _ => false end.

(** [billingExprMap[name] || ''], which has to be a text. *)
Definition full_expr (exprs : list (jstr * jsval)) (name : jstr) : outcome jstr :=
  match prop_get name exprs with
  | Some (VStr s) => Ret s
  | Some v => if v_truthy v then Throw else Ret []
  | None => Ret []
  end.

Definition snapshot_of (maps : PricingOption -> list (jstr * jsval)) (name : jstr) : outcome ModelPricingSnapshot :=
  let text f := value_text (maps (ONumber f)) name in
  let x := prices_of (fun f => Some (text f)) in
  if is_tiered (maps OMode) name then
    obind (fun fullExpr =>
      obind (fun '(pureExpr, requestRuleExpr) =>
        Ret {| s_name := name; s_prices := x; s_billingMode := Some (js "tiered_expr"); s_billingExpr := Some pureExpr;
               s_requestRuleExpr := Some requestRuleExpr; s_hasConflict := false |})
        (splitBillingExprAndRequestRules fullExpr))
      (full_expr (maps OExpr) name)
  else
    Ret {| s_name := name; s_prices := x;
           s_billingMode := Some (if truthy (text price) then js "per-request" else js "per-token");
           s_billingExpr := None; s_requestRuleExpr := None;
           s_hasConflict := truthy (text price) &&
             (truthy (text ratio) || truthy (text completionRatio) || truthy (text cacheRatio) ||
              truthy (text createCacheRatio) || truthy (text imageRatio) || truthy (text audioRatio) ||
              truthy (text audioCompletionRatio)) |}.

(** The names in any of the ten options, each once. *)
Definition model_names (maps : PricingOption -> list (jstr * jsval)) : list jstr :=
  dedup (concat (map (fun o => map fst (maps o)) PRICING_OPTIONS)).

Fixpoint all_or_throw {A} (l : list (outcome A)) : outcome (list A) :=
  match l with
  | [] => Ret []
  | x :: t => obind (fun a => obind (fun r => Ret (a :: r)) (all_or_throw t)) x
  end.

Definition is_set {A} (o : option A) : bool := match o with Some _ => true | None => false end.

Definition buildModelSnapshots (i : ModelPricingSnapshotInput) : outcome (list ModelPricingSnapshot) :=
  if forallb (fun o => is_set (option_properties i o)) PRICING_OPTIONS
  then all_or_throw (map (snapshot_of (opened i)) (model_names (opened i)))
  else Throw.

(** [text || other] *)
Definition text_or (o : option jstr) (other : jstr) : jstr := match o with Some s => str_or s other | None => other end.

Definition getSnapshotSignature (snapshot : option ModelPricingSnapshot) : jstr :=
  match snapshot with
  | None => []
  | Some s =>
      let x := s_prices s in
      default [] (stringify (VObj
        [(js "price", VStr (text_or (x_price x) [])); (js "ratio", VStr (text_or (x_ratio x) []));
         (js "cacheRatio", VStr (text_or (x_cacheRatio x) [])); (js "createCacheRatio", VStr (text_or (x_createCacheRatio x) []));
         (js "completionRatio", VStr (text_or (x_completionRatio x) [])); (js "imageRatio", VStr (text_or (x_imageRatio x) []));
         (js "audioRatio", VStr (text_or (x_audioRatio x) []));
         (js "audioCompletionRatio", VStr (text_or (x_audioCompletionRatio x) []));
         (js "billingMode", VStr (text_or (s_billingMode s) (js "per-token")));
         (js "billingExpr", VStr (text_or (s_billingExpr s) []));
         (js "requestRuleExpr", VStr (text_or (s_requestRuleExpr s) []))]))
  end.

(** [new Map(rows.map((row) => [row.name, row]))] *)
Definition by_name (rows : list ModelPricingSnapshot) : list (jstr * ModelPricingSnapshot) :=
  fold_left (fun m row => m_set (s_name row) row m) rows [].

(** What is shown for a name without prices. *)
Definition unpriced (name : jstr) : ModelPricingSnapshot :=
  {| s_name := name; s_prices := prices_of (fun _ => None); s_billingMode := Some (js "per-token");
     s_billingExpr := None; s_requestRuleExpr := None; s_hasConflict := false |}.

Definition model_row (savedByName draftByName : list (jstr * ModelPricingSnapshot)) (name : jstr) : ModelRow :=
  let saved := m_get name savedByName in
  let draft := m_get name draftByName in
  {| w_shown := match saved, draft with Some s, _ => s | None, Some d => d | None, None => unpriced name end;
     w_saved := saved; w_draft := draft;
     w_isDraftChanged := negb (getSnapshotSignature saved =s getSnapshotSignature draft);
     w_isDraftDeleted := is_set saved && negb (is_set draft);
     w_isDraftNew := negb (is_set saved) && is_set draft |}.

(** [models]: all rows, or with [unset] those of the candidates without a price. *)
Definition model_rows (localeCompare : jstr -> jstr -> Z) (saved draft : ModelPricingSnapshotInput) (unset : bool)
    (candidateModelNames : option (list jstr)) : outcome (list ModelRow) :=
  obind (fun savedRows =>
    obind (fun draftRows =>
      let savedByName := by_name savedRows in
      let draftByName := by_name draftRows in
      let modelNames := if unset then dedup (default [] candidateModelNames)
                        else dedup (map fst savedByName ++ map fst draftByName) in
      Ret (js_sort (fun a b => (localeCompare (s_name (w_shown a)) (s_name (w_shown b)) <=? 0)%Z)
        (bfilter (fun row => negb unset || isBasePricingUnset (w_saved row))
          (bfilter (fun row => negb (w_isDraftDeleted row)) (map (model_row savedByName draftByName) modelNames)))))
      (buildModelSnapshots draft))
    (buildModelSnapshots saved).

(** The data that [handleEdit] opens the panel with. *)
Definition handleEdit (row : ModelRow) : ModelRatioData :=
  let m := match w_draft row, w_saved row with Some d, _ => d | None, Some s => s | None, None => w_shown row end in
  {| d_name := s_name m; d_prices := s_prices m;
     d_billingMode := Some (if bool_decide (s_billingMode m = Some (js "tiered_expr")) then TieredExpr
                            else if hasPricingValue (x_price (s_prices m)) then PerRequest else PerToken);
     d_billingExpr := s_billingExpr m; d_requestRuleExpr := s_requestRuleExpr m |}.

(** ** What is written *)

(** The objects that the options hold; the model covers options that hold objects. *)
Definition option_object (i : ModelPricingSnapshotInput) (o : PricingOption) : option (list (jstr * jsval)) :=
  match safeJsonParse (text_in i o) (VObj []) with VObj m => Some m | _ => None end.

Definition objects (i : ModelPricingSnapshotInput) (o : PricingOption) : list (jstr * jsval) :=
  default [] (option_object i o).

(** The texts of the objects, one [onChange] each. *)
Definition written (maps : PricingOption -> list (jstr * jsval)) : ModelPricingSnapshotInput :=
  input_of (fun o => default [] (stringify_pretty (VObj (maps o)))).

Definition handleDelete (i : ModelPricingSnapshotInput) (name : jstr) : option ModelPricingSnapshotInput :=
  if forallb (fun o => is_set (option_object i o)) PRICING_OPTIONS
  then Some (written (fun o => prop_delete name (objects i o)))
  else None.

Definition setIfPresent (target : list (jstr * jsval)) (name : jstr) (value : option jstr) : list (jstr * jsval) :=
  if negb (hasPricingValue value) then target
  else let parsed := parse_float (default [] value) in
       if n_isFinite parsed then prop_set name (VNum parsed) target else target.

(** The body of the loop over the targets: every option forgets the model, then gets what
    the data has for it. *)
Definition persist_model (data : ModelRatioData) (maps : PricingOption -> list (jstr * jsval)) (name : jstr)
  : PricingOption -> list (jstr * jsval) :=
  let x := d_prices data in
  let tiered := bool_decide (d_billingMode data = Some TieredExpr) in
  let combined := combineBillingExpr (text_or (d_billingExpr data) []) (text_or (d_requestRuleExpr data) []) in
  fun o =>
    let m := prop_delete name (maps o) in
    match o with
    | OMode => if tiered && truthy combined then prop_set name (VStr (js "tiered_expr")) m else m
    | OExpr => if tiered && truthy combined then prop_set name (VStr combined) m else m
    | ONumber f =>
        if tiered then setIfPresent m name (field_of x f)
        else if hasPricingValue (x_price x) then
          (if bool_decide (f = price) then setIfPresent m name (field_of x f) else m)
        else (if bool_decide (f = price) then m else setIfPresent m name (field_of x f))
    end.

Definition persistPricingData (i : ModelPricingSnapshotInput) (data : ModelRatioData) (targetNames : list jstr)
  : option ModelPricingSnapshotInput :=
  if forallb (fun o => is_set (option_object i o)) PRICING_OPTIONS
  then Some (written (fold_left (persist_model data) targetNames (objects i)))
  else None.

(** The targets of a copy: the source and the selected rows. *)
Definition handleBatchCopy (i : ModelPricingSnapshotInput) (sourceData : ModelRatioData) (targetNames : list jstr)
  : option ModelPricingSnapshotInput :=
  match targetNames with
  | [] => Some i
  | _ => persistPricingData i sourceData (dedup (d_name sourceData :: targetNames))
  end.

(** ** The panel *)

Record Panel := {
  p_pricingMode : PricingMode; p_promptPrice : jstr; p_lanePrices : Lanes jstr; p_laneEnabled : Lanes bool;
  p_billingExpr : jstr; p_requestRuleExpr : jstr; p_name : jstr; p_values : Prices }.

(** The effect on a change of [editData]. *)
Definition load_panel (editData : option ModelRatioData) : Panel :=
  let '(promptPrice, prices, enabled) := createInitialLaneState editData in
  match editData with
  | Some d =>
      {| p_pricingMode := if bool_decide (d_billingMode d = Some TieredExpr) then TieredExpr
                          else if hasPricingValue (x_price (d_prices d)) then PerRequest else PerToken;
         p_promptPrice := promptPrice; p_lanePrices := prices; p_laneEnabled := enabled;
         p_billingExpr := text_or (d_billingExpr d) []; p_requestRuleExpr := text_or (d_requestRuleExpr d) [];
         p_name := d_name d; p_values := prices_of (fun f => Some (text_or (field_of (d_prices d) f) [])) |}
  | None =>
      {| p_pricingMode := PerToken; p_promptPrice := promptPrice; p_lanePrices := prices; p_laneEnabled := enabled;
         p_billingExpr := []; p_requestRuleExpr := []; p_name := []; p_values := prices_of (fun _ => Some []) |}
  end.

Definition deriveLaneRatio (lane : LaneKey) (lanePrice : jstr) (promptPrice : jstr) (lanePrices : Lanes jstr) : jstr :=
  match toNumberOrNull (VStr lanePrice) with
  | None => []
  | Some priceNumber =>
      let denominator := match lane with audioOutput => l_audioInput lanePrices | _ => promptPrice end in
      match toNumberOrNull (VStr denominator) with
      | None => []
      | Some d => if n_eqb d n_zero then [] else formatPricingNumber (VNum (n_div priceNumber d))
      end
  end.

(** The ratio that the prompt price stands for. *)
Definition prompt_ratio (promptPrice : jstr) : jstr :=
  match toNumberOrNull (VStr promptPrice) with
  | Some inputPrice => formatPricingNumber (VNum (n_div inputPrice (num_of_Z 2)))
  | None => []
  end.

Definition syncLaneRatios (promptPrice : jstr) (lanePrices : Lanes jstr) (laneEnabled : Lanes bool) (values : Prices) : Prices :=
  fold_left (fun v key =>
    set_field (ratioFieldByLane key)
      (if negb (lane_of laneEnabled key) then [] else deriveLaneRatio key (lane_of lanePrices key) promptPrice lanePrices) v)
    laneConfigs (set_field ratio (prompt_ratio promptPrice) values).

Definition set_lanes (prices : Lanes jstr) (enabled : Lanes bool) (values : Prices) (p : Panel) : Panel :=
  {| p_pricingMode := p_pricingMode p; p_promptPrice := p_promptPrice p; p_lanePrices := prices; p_laneEnabled := enabled;
     p_billingExpr := p_billingExpr p; p_requestRuleExpr := p_requestRuleExpr p; p_name := p_name p; p_values := values |}.

Definition handlePromptPriceChange (value : jstr) (p : Panel) : Panel :=
  if negb (test_re numericDraftRegex value) then p
  else
    {| p_pricingMode := p_pricingMode p; p_promptPrice := value; p_lanePrices := p_lanePrices p;
       p_laneEnabled := p_laneEnabled p; p_billingExpr := p_billingExpr p; p_requestRuleExpr := p_requestRuleExpr p;
       p_name := p_name p; p_values := syncLaneRatios value (p_lanePrices p) (p_laneEnabled p) (p_values p) |}.

Definition handleLanePriceChange (lane : LaneKey) (value : jstr) (p : Panel) : Panel :=
  if negb (test_re numericDraftRegex value) then p
  else
    let nextLanePrices := set_lane lane value (p_lanePrices p) in
    let v1 := if lane_of (p_laneEnabled p) lane
              then set_field (ratioFieldByLane lane) (deriveLaneRatio lane value (p_promptPrice p) nextLanePrices) (p_values p)
              else p_values p in
    let v2 := if bool_decide (lane = audioInput) && l_audioOutput (p_laneEnabled p)
              then set_field audioCompletionRatio
                     (deriveLaneRatio audioOutput (l_audioOutput nextLanePrices) (p_promptPrice p) nextLanePrices) v1
              else v1 in
    set_lanes nextLanePrices (p_laneEnabled p) v2 p.

Definition handleLaneToggle (lane : LaneKey) (checked : bool) (p : Panel) : Panel :=
  let nextEnabled := set_lane lane checked (p_laneEnabled p) in
  if checked then
    set_lanes (p_lanePrices p) nextEnabled
      (set_field (ratioFieldByLane lane)
        (deriveLaneRatio lane (lane_of (p_lanePrices p) lane) (p_promptPrice p) (p_lanePrices p)) (p_values p)) p
  else
    let nextPrices := set_lane lane [] (p_lanePrices p) in
    let v1 := set_field (ratioFieldByLane lane) [] (p_values p) in
    if bool_decide (lane = audioInput)
    then set_lanes (set_lane audioOutput [] nextPrices) (set_lane audioOutput false nextEnabled)
           (set_field audioCompletionRatio [] v1) p
    else set_lanes nextPrices nextEnabled v1 p.

Definition set_mode (mode : PricingMode) (expr rules : jstr) (p : Panel) : Panel :=
  {| p_pricingMode := mode; p_promptPrice := p_promptPrice p; p_lanePrices := p_lanePrices p;
     p_laneEnabled := p_laneEnabled p; p_billingExpr := expr; p_requestRuleExpr := rules; p_name := p_name p;
     p_values := p_values p |}.

Definition handleModeChange (nextMode : PricingMode) (p : Panel) : Panel :=
  set_mode nextMode (if bool_decide (nextMode = TieredExpr) && negb (truthy (p_billingExpr p))
                     then jsq "tier(`base`, p * 0 + c * 0)" else p_billingExpr p) (p_requestRuleExpr p) p.

(** The fields for the name and the fixed price. *)
Definition set_form (name : jstr) (values : Prices) (p : Panel) : Panel :=
  {| p_pricingMode := p_pricingMode p; p_promptPrice := p_promptPrice p; p_lanePrices := p_lanePrices p;
     p_laneEnabled := p_laneEnabled p; p_billingExpr := p_billingExpr p; p_requestRuleExpr := p_requestRuleExpr p;
     p_name := name; p_values := values |}.

Inductive PanelEvent :=
  | EPromptPrice (value : jstr)
  | ELanePrice (lane : LaneKey) (value : jstr)
  | ELaneToggle (lane : LaneKey) (checked : bool)
  | EMode (mode : PricingMode)
  | EName (value : jstr)
  | EPrice (value : jstr)
  | EBillingExpr (value : jstr)
  | ERequestRuleExpr (value : jstr).

Definition panel_step (e : PanelEvent) (p : Panel) : Panel :=
  match e with
  | EPromptPrice v => handlePromptPriceChange v p
  | ELanePrice lane v => handleLanePriceChange lane v p
  | ELaneToggle lane checked => handleLaneToggle lane checked p
  | EMode mode => handleModeChange mode p
  | EName v => set_form v (p_values p) p
  | EPrice v => if test_re numericDraftRegex v then set_form (p_name p) (set_field price v (p_values p)) p else p
  | EBillingExpr v => set_mode (p_pricingMode p) v (p_requestRuleExpr p) p
  | ERequestRuleExpr v => set_mode (p_pricingMode p) (p_billingExpr p) v p
  end.

Definition lane_priced (p : Panel) (key : LaneKey) : bool :=
  lane_of (p_laneEnabled p) key && hasValue (VStr (lane_of (p_lanePrices p) key)).

Definition validatePricingValues (p : Panel) : bool :=
  if bool_decide (p_pricingMode p = PerToken) && negb (is_set (toNumberOrNull (VStr (p_promptPrice p)))) &&
     existsb (lane_priced p) laneConfigs then false
  else if bool_decide (p_pricingMode p = PerToken) && l_audioOutput (p_laneEnabled p) &&
          negb (hasValue (VStr (l_audioInput (p_lanePrices p)))) then false
  else true.

Definition buildSubmitData (p : Panel) : ModelRatioData :=
  let tiered := bool_decide (p_pricingMode p = TieredExpr) in
  {| d_name := trim (p_name p);
     d_prices := prices_of (fun f => Some (text_or (field_of (p_values p) f) []));
     d_billingMode := Some (p_pricingMode p);
     d_billingExpr := if tiered then Some (p_billingExpr p) else None;
     d_requestRuleExpr := if tiered then Some (p_requestRuleExpr p) else None |}.

(** The schema asks for a name that is not empty. *)
Definition commitDraft (p : Panel) : option ModelRatioData :=
  if negb (truthy (p_name p)) || negb (validatePricingValues p) then None else Some (buildSubmitData p).

(** Saving with the panel open. *)
Definition commitOpenEditor (i : ModelPricingSnapshotInput) (p : Panel) : option ModelPricingSnapshotInput :=
  data ← commitDraft p; persistPricingData i data [d_name data].

(** ** Saving *)

(** [normalizeJsonString(value)] of [utils.ts] *)
Definition normalizeJsonString (value : jstr) : jstr :=
  let trimmed := trim value in
  if negb (truthy trimmed) then []
  else match json_parse trimmed with Some parsed => default [] (stringify parsed) | None => trimmed end.

Definition formatJsonForTextarea (value : jstr) : jstr :=
  if negb (truthy value) || negb (truthy (trim value)) then []
  else match json_parse value with Some parsed => default [] (stringify_pretty parsed) | None => value end.

(** The fields of [ModelFormValues] in the order of [Object.keys(normalized)]. *)
Inductive SettingKey := KOption (o : PricingOption) | KExpose.

Definition SETTING_KEYS : list SettingKey :=
  map (fun f => KOption (ONumber f))
    [price; ratio; cacheRatio; createCacheRatio; completionRatio; imageRatio; audioRatio; audioCompletionRatio] ++
  [KExpose; KOption OMode; KOption OExpr].

Record ModelFormValues := { v_texts : ModelPricingSnapshotInput; v_ExposeRatioEnabled : bool }.

Definition setting_value (v : ModelFormValues) (k : SettingKey) : jsval :=
  match k with KOption o => VStr (text_in (v_texts v) o) | KExpose => VBool (v_ExposeRatioEnabled v) end.

Definition normalized (v : ModelFormValues) : ModelFormValues :=
  {| v_texts := input_of (fun o => normalizeJsonString (text_in (v_texts v) o));
     v_ExposeRatioEnabled := v_ExposeRatioEnabled v |}.

(** [apiKeyMap[key] || key] *)
Definition api_key (k : SettingKey) : jstr :=
  match k with
  | KOption (ONumber price) => js "ModelPrice"
  | KOption (ONumber ratio) => js "ModelRatio"
  | KOption (ONumber cacheRatio) => js "CacheRatio"
  | KOption (ONumber createCacheRatio) => js "CreateCacheRatio"
  | KOption (ONumber completionRatio) => js "CompletionRatio"
  | KOption (ONumber imageRatio) => js "ImageRatio"
  | KOption (ONumber audioRatio) => js "AudioRatio"
  | KOption (ONumber audioCompletionRatio) => js "AudioCompletionRatio"
  | KExpose => js "ExposeRatioEnabled"
  | KOption OMode => js "billing_setting.billing_mode"
  | KOption OExpr => js "billing_setting.billing_expr"
  end.

(** [a !== b] on the values of settings *)
Definition setting_eqb (a b : jsval) : bool :=
  match a, b with
  | VStr s, VStr s' => s =s s'
  | VBool x, VBool y => Bool.eqb x y
  | _, _ => false
  end.

(** How the server answers an update: with success, with a refusal, or not at all, in
    which case the call is rejected. *)
Inductive Answer := Accepted | Refused | Failed.

(** The loop over the updates: the requests made, and whether all were answered. *)
Fixpoint send_updates (answer : SettingKey -> Answer) (n : ModelFormValues) (keys : list SettingKey)
  : list (jstr * jsval) * bool :=
  match keys with
  | [] => ([], true)
  | k :: t =>
      let request := (api_key k, setting_value n k) in
      match answer k with
      | Failed => ([request], false)
      | _ => let '(requests, done) := send_updates answer n t in (request :: requests, done)
      end
  end.

Definition updates (current n : ModelFormValues) : list SettingKey :=
  bfilter (fun k => negb (setting_eqb (setting_value n k) (setting_value current k))) SETTING_KEYS.

(** The requests, and [modelNormalizedDefaults.current] afterwards. *)
Definition saveModelRatios (current values : ModelFormValues) (answer : SettingKey -> Answer)
  : list (jstr * jsval) * ModelFormValues :=
  let n := normalized values in
  match updates current n with
  | [] => ([], current)
  | keys =>
      let '(requests, done) := send_updates answer n keys in
      (requests, if done then n else current)
  end.

(** ** Texts *)

Section texts.
(** The translation. *)
Variable t : jstr -> jstr.

Record PreviewRow := { r_key : jstr; r_label : jstr; r_value : jstr; r_multiline : bool }.

Definition preview (key label value : jstr) : PreviewRow :=
  {| r_key := key; r_label := label; r_value := value; r_multiline := false |}.

Definition lane_preview (lanePrices : Lanes jstr) (laneEnabled : Lanes bool) (k : LaneKey) : jstr :=
  if lane_of laneEnabled k && truthy (lane_of lanePrices k) then js "$" ++ lane_of lanePrices k else t (js "Empty").

Definition buildPreviewRows (p : Panel) : list PreviewRow :=
  let lane := lane_preview (p_lanePrices p) (p_laneEnabled p) in
  match p_pricingMode p with
  | TieredExpr =>
      [preview (js "mode") (js "BillingMode") (js "tiered_expr");
       {| r_key := js "expr"; r_label := t (js "Expression");
          r_value := str_or (combineBillingExpr (p_billingExpr p) (p_requestRuleExpr p)) (t (js "Empty"));
          r_multiline := true |}]
  | PerRequest => [preview (js "price") (js "ModelPrice") (text_or (x_price (p_values p)) (t (js "Empty")))]
  | PerToken =>
      [preview (js "inputPrice") (t (js "Input price"))
         (if truthy (p_promptPrice p) then js "$" ++ p_promptPrice p else t (js "Empty"));
       preview (js "completion") (t (js "Completion price")) (lane completion);
       preview (js "cache") (t (js "Cache read price")) (lane cache);
       preview (js "createCache") (t (js "Cache write price")) (lane createCache);
       preview (js "image") (t (js "Image input price")) (lane image);
       preview (js "audio") (t (js "Audio input price")) (lane audioInput);
       preview (js "audioCompletion") (t (js "Audio output price")) (lane audioOutput)]
  end.

Definition getModeLabel (mode : option jstr) : jstr :=
  if bool_decide (mode = Some (js "per-request")) then js "Per-request"
  else if bool_decide (mode = Some (js "tiered_expr")) then js "Expression" else js "Per-token".

(** A dot in the middle of a line, between spaces. *)
Definition middle_dot : jstr := [32; 183; 32]%N.

Definition getExpressionSummary (row : ModelPricingSnapshot) : jstr :=
  let tierCount := length (matches (RLit (js "tier(")) (default [] (s_billingExpr row))) in
  if (0 <? tierCount)%nat
  then t (js "Tiered pricing") ++ middle_dot ++ show_N (N.of_nat tierCount) ++ js " " ++ t (js "tiers")
  else t (js "Expression pricing").

Definition extra_count (x : Prices) : nat :=
  length (bfilter hasPricingValue
    [x_completionRatio x; x_cacheRatio x; x_createCacheRatio x; x_imageRatio x; x_audioRatio x; x_audioCompletionRatio x]).

Definition getPriceSummary (row : ModelPricingSnapshot) : jstr :=
  let x := s_prices row in
  if bool_decide (s_billingMode row = Some (js "tiered_expr")) then getExpressionSummary row
  else if bool_decide (s_billingMode row = Some (js "per-request")) then
    (if hasPricingValue (x_price x) then js "$" ++ default [] (x_price x) ++ js " / " ++ t (js "request")
     else t (js "Unset price"))
  else
    let inputPrice := ratioToPrice (x_ratio x) None in
    if negb (truthy inputPrice) then t (js "Unset price")
    else if (0 <? extra_count x)%nat
    then t (js "Input") ++ js " $" ++ inputPrice ++ middle_dot ++ show_N (N.of_nat (extra_count x)) ++ js " " ++ t (js "extras")
    else t (js "Input") ++ js " $" ++ inputPrice.

(** The price of one lane, if it has a ratio. *)
Definition lane_detail (inputPrice : jstr) (p : jstr * option jstr) : option jstr :=
  if hasPricingValue (snd p) then Some (t (fst p) ++ js " $" ++ ratioToPrice (snd p) (Some inputPrice)) else None.

Definition getPriceDetail (row : ModelPricingSnapshot) : jstr :=
  let x := s_prices row in
  if bool_decide (s_billingMode row = Some (js "tiered_expr")) then
    (if hasPricingValue (s_requestRuleExpr row) then t (js "Includes request rules") else t (js "Expression based"))
  else if bool_decide (s_billingMode row = Some (js "per-request")) then t (js "Fixed request price")
  else
    let inputPrice := ratioToPrice (x_ratio x) None in
    if negb (truthy inputPrice) then t (js "No base input price")
    else
      match take 2 (omap (lane_detail inputPrice)
              [(js "Output", x_completionRatio x); (js "Cache", x_cacheRatio x); (js "Cache write", x_createCacheRatio x)]) with
      | [] => t (js "Base input price only")
      | details => join middle_dot details
      end.
End texts.
