(* ===== verification/PricingFacts.v ===== *)
(** * Model prices: the panel, the options and the requests

    The panel keeps its ratios in step with the prices it shows; what it writes is what the
    table then shows, and nothing else changes; a row is marked as changed exactly when a
    field differs; saving sends the changed options. *)

From Stdlib Require Import SpecFloat.
From S2P Require Import Prelude JsString JsRegex JsNumber JsInteger JsMath Json JsonText JsMap BillingExpr ModelPricing.

(** ** Fields and lanes *)

Lemma field_of_prices_of g f : field_of (prices_of g) f = g f.
Proof. by destruct f. Qed.

Lemma set_field_get f v x g : field_of (set_field f v x) g = if bool_decide (g = f) then Some v else field_of x g.
Proof. apply field_of_prices_of. Qed.

Lemma lane_of_lanes_of {A} (g : LaneKey -> A) k : lane_of (lanes_of g) k = g k.
Proof. by destruct k. Qed.

Lemma set_lane_get {A} k (v : A) l j : lane_of (set_lane k v l) j = if bool_decide (j = k) then v else lane_of l j.
Proof. apply lane_of_lanes_of. Qed.

Lemma audio_input_lane {A} (l : Lanes A) : l_audioInput l = lane_of l audioInput.
Proof. done. Qed.

Lemma audio_output_lane {A} (l : Lanes A) : l_audioOutput l = lane_of l audioOutput.
Proof. done. Qed.

#[export] Instance ratioFieldByLane_inj : Inj (=) (=) ratioFieldByLane.
Proof. by intros [] []. Qed.

Lemma lane_not_ratio k : ratioFieldByLane k <> ratio.
Proof. by destruct k. Qed.

Lemma lane_not_price k : ratioFieldByLane k <> price.
Proof. by destruct k. Qed.

(** ** The panel in step *)

(** What the form should have for a lane: the ratio of its price if it is on. *)
Definition lane_ratio (p : Panel) (k : LaneKey) : jstr :=
  if lane_of (p_laneEnabled p) k then deriveLaneRatio k (lane_of (p_lanePrices p) k) (p_promptPrice p) (p_lanePrices p) else [].

Definition in_step (p : Panel) : Prop :=
  field_of (p_values p) ratio = Some (prompt_ratio (p_promptPrice p)) /\
  forall k, field_of (p_values p) (ratioFieldByLane k) = Some (lane_ratio p k).

(** Of the prices of the other lanes only the one of audio input matters, for audio output. *)
Lemma derive_frame k price prompt prices prices' :
  (k = audioOutput -> lane_of prices audioInput = lane_of prices' audioInput) ->
  deriveLaneRatio k price prompt prices = deriveLaneRatio k price prompt prices'.
Proof. intros H. unfold deriveLaneRatio. destruct k; try done. by rewrite !audio_input_lane, H. Qed.

Lemma sync_lanes_get prompt prices enabled keys k v :
  field_of (fold_left (fun v key =>
    set_field (ratioFieldByLane key)
      (if negb (lane_of enabled key) then [] else deriveLaneRatio key (lane_of prices key) prompt prices) v) keys v)
    (ratioFieldByLane k) =
  if bool_decide (k ∈ keys)
  then Some (if lane_of enabled k then deriveLaneRatio k (lane_of prices k) prompt prices else [])
  else field_of v (ratioFieldByLane k).
Proof.
  induction keys as [|j keys IH] using rev_ind; [done|]. rewrite fold_left_app. cbn [fold_left]. rewrite set_field_get, IH.
  destruct (decide (k = j)) as [-> | Hne].
  - rewrite !bool_decide_true by (try done; apply elem_of_app; right; by left). by destruct (lane_of enabled j).
  - rewrite (bool_decide_false (ratioFieldByLane k = ratioFieldByLane j)) by (by intros ?%(inj ratioFieldByLane)).
    rewrite (bool_decide_ext (k ∈ keys) (k ∈ keys ++ [j])); [done|]. rewrite elem_of_app, list_elem_of_singleton. tauto.
Qed.

Lemma sync_lanes_other prompt prices enabled keys f v :
  (forall k, f <> ratioFieldByLane k) ->
  field_of (fold_left (fun v key =>
    set_field (ratioFieldByLane key)
      (if negb (lane_of enabled key) then [] else deriveLaneRatio key (lane_of prices key) prompt prices) v) keys v) f =
  field_of v f.
Proof.
  intros Hf. induction keys as [|j keys IH] using rev_ind; [done|]. rewrite fold_left_app. cbn [fold_left].
  by rewrite set_field_get, bool_decide_false, IH.
Qed.

Lemma prompt_in_step value p : test_re numericDraftRegex value = true -> in_step (handlePromptPriceChange value p).
Proof.
  intros H. unfold handlePromptPriceChange. rewrite H. cbn [negb]. unfold in_step, lane_ratio, syncLaneRatios. cbn [p_values p_promptPrice p_lanePrices p_laneEnabled].
  split.
  - rewrite sync_lanes_other by (intros k E; by apply (lane_not_ratio k)). by rewrite set_field_get, bool_decide_true.
  - intros k. rewrite sync_lanes_get, bool_decide_true; [done|]. destruct k; set_solver.
Qed.

Lemma lane_price_in_step lane value p : in_step p -> in_step (handleLanePriceChange lane value p).
Proof.
  intros [Hr Hl]. unfold handleLanePriceChange. destruct (test_re _ _); [|done]. cbn [negb].
  unfold in_step, lane_ratio, set_lanes. cbn [p_values p_promptPrice p_lanePrices p_laneEnabled].
  set (prices := set_lane lane value (p_lanePrices p)).
  set (v1 := if lane_of (p_laneEnabled p) lane then _ else _).
  set (v2 := if bool_decide (lane = audioInput) && _ then _ else _).
  assert (forall f, (forall k, f <> ratioFieldByLane k) -> field_of v2 f = field_of (p_values p) f) as Hother.
  { intros f Hf. unfold v2. assert (field_of v1 f = field_of (p_values p) f) as E1.
    { unfold v1. destruct (lane_of _ _); [|done]. by rewrite set_field_get, bool_decide_false. }
    destruct (_ && _); [|done]. rewrite set_field_get, bool_decide_false; [done|]. exact (Hf audioOutput). }
  split; [rewrite Hother by (intros k E; by apply (lane_not_ratio k)); done|].
  intros k.
  assert (field_of v1 (ratioFieldByLane k) =
    if bool_decide (k = lane) then Some (if lane_of (p_laneEnabled p) k then deriveLaneRatio k value (p_promptPrice p) prices else [])
    else Some (lane_ratio p k)) as E1.
  { unfold v1. case_bool_decide as E; [subst k|].
    - destruct (lane_of (p_laneEnabled p) lane) eqn:En; [by rewrite set_field_get, bool_decide_true|].
      rewrite Hl. unfold lane_ratio. by rewrite En.
    - destruct (lane_of (p_laneEnabled p) lane); [|by rewrite Hl].
      rewrite set_field_get, bool_decide_false by (by intros ?%(inj ratioFieldByLane)). by rewrite Hl. }
  unfold v2. destruct (decide (lane = audioInput /\ k = audioOutput)) as [[-> ->] | Hn].
  - rewrite bool_decide_true by done. cbn [andb]. rewrite !audio_output_lane. destruct (lane_of (p_laneEnabled p) audioOutput) eqn:En.
    + rewrite set_field_get, bool_decide_true by done. done.
    + rewrite E1, bool_decide_false by done. unfold lane_ratio. by rewrite En.
  - assert (field_of (if bool_decide (lane = audioInput) && l_audioOutput (p_laneEnabled p)
      then set_field audioCompletionRatio (deriveLaneRatio audioOutput (l_audioOutput prices) (p_promptPrice p) prices) v1 else v1)
      (ratioFieldByLane k) = field_of v1 (ratioFieldByLane k)) as ->.
    { destruct (bool_decide (lane = audioInput)) eqn:Eb; [apply bool_decide_eq_true in Eb|done]. cbn [andb]. destruct (l_audioOutput _); [|done]. rewrite set_field_get, bool_decide_false; [done|].
      intros E. apply (inj ratioFieldByLane k audioOutput) in E. tauto. }
    rewrite E1. unfold prices. rewrite set_lane_get. case_bool_decide as Ek; [by subst k|]. unfold lane_ratio.
    destruct (lane_of (p_laneEnabled p) k); [|done]. f_equal. apply derive_frame. intros ->. rewrite set_lane_get, bool_decide_false; [done|].
    intros <-. tauto.
Qed.

Lemma lane_toggle_in_step lane checked p : in_step p -> in_step (handleLaneToggle lane checked p).
Proof.
  intros [Hr Hl]. unfold handleLaneToggle. destruct checked; [|case_bool_decide as Ea; [subst lane|]];
    unfold in_step, lane_ratio, set_lanes; cbn [p_values p_promptPrice p_lanePrices p_laneEnabled]; (split; [rewrite !set_field_get;
      rewrite !bool_decide_false by (try done; intros E; by apply (lane_not_ratio lane)); done|]); intros k.
  - rewrite set_field_get, set_lane_get. destruct (decide (k = lane)) as [-> | Hne]; [by rewrite !bool_decide_true|].
    rewrite !bool_decide_false by (try done; by intros ?%(inj ratioFieldByLane)). apply Hl.
  - destruct (decide (k = audioOutput)) as [-> | H1]; [by rewrite set_field_get, bool_decide_true|].
    destruct (decide (k = audioInput)) as [-> | H2]; [by rewrite set_field_get|].
    rewrite !set_field_get, !set_lane_get. rewrite !(bool_decide_false (k = _)) by done.
    rewrite (bool_decide_false (_ = audioCompletionRatio)) by (by intros ?%(inj ratioFieldByLane k audioOutput)).
    rewrite (bool_decide_false (_ = ratioFieldByLane audioInput)) by (by intros ?%(inj ratioFieldByLane)).
    rewrite Hl. unfold lane_ratio. destruct (lane_of (p_laneEnabled p) k); [|done]. f_equal. by apply derive_frame.
  - rewrite set_field_get, !set_lane_get. destruct (decide (k = lane)) as [-> | Hne]; [by rewrite !bool_decide_true|].
    rewrite !bool_decide_false by (try done; by intros ?%(inj ratioFieldByLane)). rewrite Hl. unfold lane_ratio.
    destruct (lane_of (p_laneEnabled p) k); [|done]. f_equal. apply derive_frame. intros ->.
    rewrite set_lane_get, bool_decide_false; done.
Qed.

Lemma step_in_step e p : in_step p -> in_step (panel_step e p).
Proof.
  intros H. destruct e as [v|lane v|lane c|m|v|v|v|v]; cbn [panel_step].
  - destruct (test_re numericDraftRegex v) eqn:E; [by apply prompt_in_step|]. unfold handlePromptPriceChange. by rewrite E.
  - by apply lane_price_in_step.
  - by apply lane_toggle_in_step.
  - exact H.
  - exact H.
  - destruct (test_re _ _); [|done]. destruct H as [Hr Hl]. unfold in_step, lane_ratio, set_form.
    cbn [p_values p_promptPrice p_lanePrices p_laneEnabled]. split; [by rewrite set_field_get|].
    intros k. rewrite set_field_get, bool_decide_false by (apply lane_not_price). apply Hl.
  - exact H.
  - exact H.
Qed.

(** C28. The ratios of the form follow the prices on the screen: for a new model, and as
    soon as the input price was edited, the ratio is half the input price and each lane's
    ratio is the one of its price if the lane is on and empty if it is off; every later
    event keeps this. *)
Theorem panel_in_step :
  in_step (load_panel None) /\
  (forall value p, test_re numericDraftRegex value = true -> in_step (panel_step (EPromptPrice value) p)) /\
  (forall events p, in_step p -> in_step (fold_left (fun p e => panel_step e p) events p)).
Proof.
  split; [|split].
  - split; [reflexivity|]. intros k. by destruct k.
  - intros value p H. by apply prompt_in_step.
  - intros events. induction events as [|e events IH]; intros p H; [done|]. cbn [fold_left]. by apply IH, step_in_step.
Qed.

(** ** Options that hold objects *)

(** The text of an object is in braces, so trimming keeps it. *)
Lemma object_text_trimmed gap colon lvl o w : render gap colon lvl (VObj o) = Some w -> trim w = w /\ truthy w = true.
Proof.
  cbn [render]. intros [= <-]. unfold enclose. destruct (omap _ o) as [|y ws].
  - split; reflexivity.
  - split; [|done]. apply trim_id. split; [done|]. rewrite !app_assoc. change (js "}") with [125%N]. rewrite rev_unit. done.
Qed.

Lemma text_in_input_of g o : text_in (input_of g) o = g o.
Proof. by destruct o as [[]| |]. Qed.

(** The options hold these objects. *)
Definition holds (i : ModelPricingSnapshotInput) (maps : PricingOption -> list (jstr * jsval)) : Prop :=
  forall o, safeJsonParse (text_in i o) (VObj []) = VObj (maps o).

Definition plain_maps (maps : PricingOption -> list (jstr * jsval)) : Prop := forall o, plain_value (VObj (maps o)) = true.

Lemma written_holds maps : plain_maps maps -> holds (written maps) maps.
Proof.
  intros Hp o. unfold written. rewrite text_in_input_of. destruct (json_pretty_roundtrip _ (Hp o)) as (w & Hw & Hj).
  rewrite Hw. cbn [default from_option id]. destruct (object_text_trimmed _ _ _ _ _ Hw) as [Ht Hn]. unfold safeJsonParse.
  rewrite Ht, Hn, Hj. by destruct w.
Qed.

Lemma holds_object i maps o : holds i maps -> option_object i o = Some (maps o).
Proof. intros H. unfold option_object. by rewrite H. Qed.

Lemma holds_objects i maps o : holds i maps -> objects i o = maps o.
Proof. intros H. unfold objects. by rewrite (holds_object i maps). Qed.

Lemma holds_all i maps : holds i maps -> forallb (fun o => is_set (option_object i o)) PRICING_OPTIONS = true.
Proof. intros H. cbn [forallb PRICING_OPTIONS]. by rewrite !(holds_object i maps) by done. Qed.

Lemma holds_opened i maps o : holds i maps -> opened i o = maps o.
Proof. intros H. unfold opened, option_properties. by rewrite H. Qed.

(** A row depends only on what the options say about its name. *)
Lemma snapshot_frame maps maps' name :
  (forall o, prop_get name (maps o) = prop_get name (maps' o)) -> snapshot_of maps name = snapshot_of maps' name.
Proof.
  intros H. unfold snapshot_of, value_text, is_tiered, full_expr, prices_of. by rewrite !H.
Qed.

Lemma names_frame maps maps' : (forall o, maps o = maps' o) -> model_names maps = model_names maps'.
Proof. intros H. unfold model_names, PRICING_OPTIONS. cbn [map]. by rewrite !H. Qed.

Lemma snapshots_of i maps :
  holds i maps -> buildModelSnapshots i = all_or_throw (map (snapshot_of maps) (model_names maps)).
Proof.
  intros H. unfold buildModelSnapshots. 
  assert (forallb (fun o => is_set (option_properties i o)) PRICING_OPTIONS = true) as ->.
  { cbn [forallb PRICING_OPTIONS]. unfold option_properties. by rewrite !H. }
  f_equal. rewrite (names_frame _ maps) by (intros o; by apply holds_opened).
  apply map_ext. intros name. apply snapshot_frame. intros o. by rewrite (holds_opened i maps).
Qed.

Lemma all_or_throw_Ret {A} (l : list (outcome A)) r : all_or_throw l = Ret r <-> l = map Ret r.
Proof.
  revert r. induction l as [|x l IH]; intros r; simpl.
  - split; [by intros [= <-]|]. by destruct r.
  - destruct x as [a|]; simpl; [|split; [done|by destruct r]].
    destruct (all_or_throw l) as [t|] eqn:E; simpl.
    + split; [intros [= <-]; simpl; f_equal; by apply IH|]. destruct r as [|b r]; [done|]. simpl. intros [= -> H]. apply IH in H as [= ->]. done.
    + split; [done|]. destruct r as [|b r]; [done|]. simpl. intros [= -> H]. by apply IH in H.
Qed.

Lemma elem_of_names maps name : name ∈ model_names maps <-> exists o, is_Some (prop_get name (maps o)).
Proof.
  unfold model_names. rewrite elem_of_dedup. rewrite list_elem_of_In, in_concat. setoid_rewrite <- list_elem_of_In. split.
  - intros (l & Hl & Hn). apply elem_of_lmap in Hl as (o & _ & ->). exists o. apply not_eq_None_Some. intros E.
    by apply prop_get_None_iff in E.
  - intros [o Ho]. exists (map fst (maps o)). split; [|].
    + apply elem_of_lmap. exists o. split; [|done]. destruct o as [[]| |]; unfold PRICING_OPTIONS; set_solver.
    + apply not_eq_None_Some in Ho. destruct (decide (name ∈ map fst (maps o))) as [? | Hn]; [done|]. by apply prop_get_None_iff in Hn.
Qed.

Lemma snapshot_name maps name row : snapshot_of maps name = Ret row -> s_name row = name.
Proof.
  unfold snapshot_of. destruct (is_tiered _ _); [|by intros [= <-]].
  destruct (full_expr _ _) as [e|]; simpl; [|done]. destruct (splitBillingExprAndRequestRules e) as [[a b]|]; simpl; [|done].
  by intros [= <-].
Qed.

(** The rows of the table, one per name. *)
Lemma rows_spec i maps rows :
  holds i maps -> buildModelSnapshots i = Ret rows ->
  map s_name rows = model_names maps /\
  forall row, row ∈ rows <-> (exists o, is_Some (prop_get (s_name row) (maps o))) /\ snapshot_of maps (s_name row) = Ret row.
Proof.
  intros H. rewrite (snapshots_of i maps) by done. rewrite all_or_throw_Ret. intros E.
  assert (Forall2 (fun name row => snapshot_of maps name = Ret row) (model_names maps) rows) as HF.
  { clear H. revert rows E. induction (model_names maps) as [|n l IH]; intros [|r rows] E; try done. cbn [map] in E.
    pose proof (f_equal head E) as E1. pose proof (f_equal tail E) as E2. constructor; [by injection E1|by apply IH]. }
  split.
  - clear H E. induction HF as [|n r l rows Hn _ IH]; [done|]. simpl. rewrite IH. f_equal. by eapply snapshot_name.
  - intros row. rewrite <- elem_of_names. split.
    + intros (k & Hk)%list_elem_of_lookup. destruct (Forall2_lookup_r _ _ _ _ _ HF Hk) as (n & Hn & Hs).
      rewrite (snapshot_name _ _ _ Hs). split; [by eapply list_elem_of_lookup_2|done].
    + intros [(k & Hk)%list_elem_of_lookup Hs]. destruct (Forall2_lookup_l _ _ _ _ _ HF Hk) as (r & Hr & Hs').
      rewrite Hs in Hs'. injection Hs' as ->. by eapply list_elem_of_lookup_2.
Qed.

(** ** What saving a model writes *)

Definition combined_expr (data : ModelRatioData) : jstr :=
  combineBillingExpr (text_or (d_billingExpr data) []) (text_or (d_requestRuleExpr data) []).

(** The data is an expression that is not empty. *)
Definition is_expression (data : ModelRatioData) : bool :=
  bool_decide (d_billingMode data = Some TieredExpr) && truthy (combined_expr data).

(** The fields that are written: all for an expression, else the price alone if there is
    one, else the ratios. *)
Definition writes (data : ModelRatioData) (f : PriceField) : bool :=
  bool_decide (d_billingMode data = Some TieredExpr) ||
  (if hasPricingValue (x_price (d_prices data)) then bool_decide (f = price) else negb (bool_decide (f = price))).

Definition parsed_field (data : ModelRatioData) (f : PriceField) : option number :=
  let v := field_of (d_prices data) f in
  if writes data f && hasPricingValue v then
    let x := parse_float (default [] v) in if n_isFinite x then Some x else None
  else None.

(** What an option has for a target afterwards. *)
Definition stored (data : ModelRatioData) (o : PricingOption) : option jsval :=
  match o with
  | OMode => if is_expression data then Some (VStr (js "tiered_expr")) else None
  | OExpr => if is_expression data then Some (VStr (combined_expr data)) else None
  | ONumber f => VNum <$> parsed_field data f
  end.

Lemma set_if_present_get name name' m v :
  prop_get name' (setIfPresent (prop_delete name m) name v) =
  if name' =s name
  then (if hasPricingValue v then (let x := parse_float (default [] v) in if n_isFinite x then Some (VNum x) else None) else None)
  else prop_get name' m.
Proof.
  unfold setIfPresent. destruct (hasPricingValue v); cbn [negb]; [destruct (n_isFinite _)|];
    rewrite ?prop_get_set, !prop_get_delete; destruct (name' =s name) eqn:E; done.
Qed.

Lemma persist_get data maps name name' o :
  prop_get name' (persist_model data maps name o) = if name' =s name then stored data o else prop_get name' (maps o).
Proof.
  assert (prop_get name' (prop_delete name (maps o)) = if name' =s name then None else prop_get name' (maps o)) as Hd
    by apply prop_get_delete.
  assert (forall v, prop_get name' (prop_set name v (prop_delete name (maps o))) =
    if name' =s name then Some v else prop_get name' (maps o)) as Hs.
  { intros v. rewrite prop_get_set, Hd. by destruct (name' =s name). }
  unfold persist_model, stored. destruct o as [f| |].
  - unfold parsed_field, writes. destruct (bool_decide (d_billingMode data = Some TieredExpr)); cbn [orb andb];
      [|destruct (hasPricingValue (x_price (d_prices data))), (bool_decide (f = price)); cbn [andb negb]];
      rewrite ?set_if_present_get, ?Hd; destruct (name' =s name); try done; by repeat (cases; simpl).
  - fold (combined_expr data). change (bool_decide _ && truthy _) with (is_expression data).
    destruct (is_expression data); rewrite ?Hs, ?Hd; by destruct (name' =s name).
  - fold (combined_expr data). change (bool_decide _ && truthy _) with (is_expression data).
    destruct (is_expression data); rewrite ?Hs, ?Hd; by destruct (name' =s name).
Qed.

Lemma persist_all_get data targets maps name o :
  prop_get name (fold_left (persist_model data) targets maps o) =
  if bool_decide (name ∈ targets) then stored data o else prop_get name (maps o).
Proof.
  induction targets as [|t targets IH] using rev_ind; [done|]. rewrite fold_left_app. cbn [fold_left]. rewrite persist_get, IH.
  destruct (name =s t) eqn:E.
  - apply jeqb_eq in E as ->. rewrite bool_decide_true; [done|]. apply elem_of_app. right. by left.
  - apply jeqb_neq in E. rewrite (bool_decide_ext (name ∈ targets) (name ∈ targets ++ [t])); [done|].
    rewrite elem_of_app, list_elem_of_singleton. tauto.
Qed.

(** The numbers of the data read back as they are written, its texts are strings. *)
Definition plain_data (data : ModelRatioData) : Prop := forall o v, stored data o = Some v -> plain_value v = true.

Lemma persist_plain data maps name :
  plain_maps maps -> unit_string name = true -> plain_data data -> plain_maps (persist_model data maps name).
Proof.
  intros Hm Hn Hd o. pose proof (plain_delete name _ (Hm o)) as Hp. specialize (Hd o).
  assert (forall v, hasPricingValue v = true -> n_isFinite (parse_float (default [] v)) = true ->
    plain_value (VNum (parse_float (default [] v))) = true -> plain_value (VObj (setIfPresent (prop_delete name (maps o)) name v)) = true) as Hset.
  { intros v H1 H2 H3. unfold setIfPresent. rewrite H1, H2. by apply plain_set. }
  assert (forall v, hasPricingValue v && n_isFinite (parse_float (default [] v)) = false ->
    plain_value (VObj (setIfPresent (prop_delete name (maps o)) name v)) = true) as Hskip.
  { intros v H. unfold setIfPresent. destruct (hasPricingValue v); [|done]. cbn [andb negb] in *. by rewrite H. }
  unfold persist_model. destruct o as [f| |].
  - cbn [stored] in Hd. unfold parsed_field, writes in Hd.
    assert (plain_value (VObj (setIfPresent (prop_delete name (maps (ONumber f))) name (field_of (d_prices data) f))) = true
      \/ writes data f = false) as [H | H].
    { destruct (writes data f) eqn:Ew; [left|by right]. unfold writes in Ew. rewrite Ew in Hd. cbn [andb] in Hd.
      destruct (hasPricingValue (field_of (d_prices data) f) && n_isFinite (parse_float (default [] (field_of (d_prices data) f)))) eqn:E; [|by apply Hskip].
      apply andb_true_iff in E as [E1 E2]. apply Hset; [done..|]. apply Hd. rewrite E1, E2. done. }
    + destruct (bool_decide (d_billingMode data = Some TieredExpr)), (hasPricingValue (x_price (d_prices data))), (bool_decide (f = price)); done.
    + unfold writes in H. destruct (bool_decide (d_billingMode data = Some TieredExpr)), (hasPricingValue (x_price (d_prices data))), (bool_decide (f = price)); done.
  - fold (combined_expr data). change (bool_decide _ && truthy _) with (is_expression data). cbn [stored] in Hd.
    destruct (is_expression data); [|done]. apply plain_set; [done..|]. by apply Hd.
  - fold (combined_expr data). change (bool_decide _ && truthy _) with (is_expression data). cbn [stored] in Hd.
    destruct (is_expression data); [|done]. apply plain_set; [done..|]. by apply Hd.
Qed.

Lemma persist_all_plain data targets maps :
  plain_maps maps -> Forall (fun n => unit_string n = true) targets -> plain_data data ->
  plain_maps (fold_left (persist_model data) targets maps).
Proof.
  intros Hm Ht Hd. revert maps Hm. induction Ht as [|t targets Hn _ IH]; intros maps Hm; [done|]. cbn [fold_left].
  by apply IH, persist_plain.
Qed.

(** ** What the table shows afterwards *)

Lemma show_N_truthy n : truthy (show_N n) = true.
Proof.
  unfold show_N. cbn [show_N_fuel]. destruct (n <? 10)%N; [done|]. rewrite show_N_fuel_app. by destruct (show_N_fuel _ _ []).
Qed.

Lemma show_num_truthy x : truthy (show_num x) = true.
Proof.
  assert (forall ds n, truthy ds = true -> truthy (layout_digits ds n) = true) as Hl.
  { intros [|d ds] n; [done|]. intros _. unfold layout_digits. repeat (destruct (_ && _)%Z; [try done; by destruct (take _ _)|]).
    by destruct ds. }
  destruct x as [| | |s m e]; try done; [by destruct s|]. cbn [show_num].
  assert (truthy (show_positive (S754_finite false m e) m e) = true) as H.
  { unfold show_positive. destruct (num_fraction m e) as [num den]. destruct (shortest _ _ _ _ _ _) as [z k].
    destruct (_ =? _)%Z; apply Hl; [done|apply show_N_truthy]. }
  by destruct s.
Qed.

(** The text shown for a field. *)
Definition field_text (data : ModelRatioData) (f : PriceField) : jstr :=
  match parsed_field data f with Some x => show_num x | None => [] end.

Lemma field_text_truthy data f : truthy (field_text data f) = is_set (parsed_field data f).
Proof. unfold field_text. destruct (parsed_field data f); [apply show_num_truthy|done]. Qed.

Definition PRICE_FIELDS : list PriceField :=
  [price; ratio; cacheRatio; createCacheRatio; completionRatio; imageRatio; audioRatio; audioCompletionRatio].

(** The row that saving [data] for a name should give, if any; an expression shows the two
    parts it splits into. *)
Definition saved_row (data : ModelRatioData) (split : jstr * jstr) (name : jstr) : option ModelPricingSnapshot :=
  let x := prices_of (fun f => Some (field_text data f)) in
  if is_expression data then
    Some {| s_name := name; s_prices := x; s_billingMode := Some (js "tiered_expr"); s_billingExpr := Some (fst split);
            s_requestRuleExpr := Some (snd split); s_hasConflict := false |}
  else if existsb (fun f => truthy (field_text data f)) PRICE_FIELDS then
    Some {| s_name := name; s_prices := x;
            s_billingMode := Some (if truthy (field_text data price) then js "per-request" else js "per-token");
            s_billingExpr := None; s_requestRuleExpr := None;
            s_hasConflict := truthy (field_text data price) && existsb (fun f => truthy (field_text data f)) (tail PRICE_FIELDS) |}
  else None.

Lemma stored_text data maps name f :
  (forall o, prop_get name (maps o) = stored data o) -> value_text (maps (ONumber f)) name = field_text data f.
Proof. intros H. unfold value_text, field_text. rewrite H. cbn [stored]. by destruct (parsed_field data f). Qed.

Lemma stored_priced data split name :
  (exists o, is_Some (stored data o)) <-> is_Some (saved_row data split name).
Proof.
  unfold saved_row. destruct (is_expression data) eqn:E.
  - split; [eauto|]. intros _. exists OMode. cbn [stored]. rewrite E. eauto.
  - assert ((exists o, is_Some (stored data o)) <-> existsb (fun f => truthy (field_text data f)) PRICE_FIELDS = true) as ->.
    { rewrite existsb_exists. split.
      - intros [[f| |] Ho]; cbn [stored] in Ho; rewrite ?E in Ho; [|by destruct Ho..]. exists f. rewrite field_text_truthy.
        split; [apply list_elem_of_In; destruct f; unfold PRICE_FIELDS; set_solver|]. destruct (parsed_field data f); [done|by destruct Ho].
      - intros (f & _ & Hf). exists (ONumber f). cbn [stored]. rewrite field_text_truthy in Hf. destruct (parsed_field data f); [eauto|done]. }
    destruct (existsb _ _); [split; eauto|]. split; [done|by intros []].
Qed.

Lemma stored_snapshot data maps name split :
  (forall o, prop_get name (maps o) = stored data o) ->
  (is_expression data = true -> splitBillingExprAndRequestRules (combined_expr data) = Ret split) ->
  forall row, saved_row data split name = Some row -> snapshot_of maps name = Ret row.
Proof.
  intros H Hs row. unfold saved_row, snapshot_of, is_tiered, full_expr. rewrite !(H _). cbn [stored].
  assert (prices_of (fun f => Some (value_text (maps (ONumber f)) name)) = prices_of (fun f => Some (field_text data f))) as ->
    by (unfold prices_of; by rewrite !(stored_text data maps name) by done).
  rewrite !(stored_text data maps name) by done.
  destruct (is_expression data); [rewrite jeqb_refl; cbn [obind]; rewrite (Hs eq_refl); cbn [obind]; destruct split; by intros [= <-]|].
  destruct (existsb _ PRICE_FIELDS); [|done]. intros [= <-]. do 2 f_equal. cbn [existsb tail PRICE_FIELDS].
  by destruct (truthy (field_text data ratio)), (truthy (field_text data completionRatio)), (truthy (field_text data cacheRatio)),
    (truthy (field_text data createCacheRatio)), (truthy (field_text data imageRatio)), (truthy (field_text data audioRatio)),
    (truthy (field_text data audioCompletionRatio)).
Qed.

Lemma persist_objects i data targets i' : persistPricingData i data targets = Some i' -> holds i (objects i).
Proof.
  unfold persistPricingData. destruct (forallb _ _) eqn:E; [|done]. intros _ o. rewrite forallb_Forall', Forall_forall in E.
  assert (o ∈ PRICING_OPTIONS) as Ho by (destruct o as [[]| |]; unfold PRICING_OPTIONS; set_solver).
  specialize (E o Ho). unfold objects, option_object in *. by destruct (safeJsonParse (text_in i o) (VObj [])).
Qed.

Lemma persist_holds i data targets i' :
  plain_maps (objects i) -> Forall (fun n => unit_string n = true) targets -> plain_data data ->
  persistPricingData i data targets = Some i' ->
  holds i (objects i) /\ holds i' (fold_left (persist_model data) targets (objects i)).
Proof.
  intros Hp Ht Hd Hi. split; [by eapply persist_objects|]. unfold persistPricingData in Hi.
  destruct (forallb _ _); [|done]. apply (inj Some) in Hi. subst i'. by apply written_holds, persist_all_plain.
Qed.

Lemma all_snapshots maps names :
  (forall name, name ∈ names -> exists row, snapshot_of maps name = Ret row) -> exists rows, all_or_throw (map (snapshot_of maps) names) = Ret rows.
Proof.
  induction names as [|n names IH]; intros H; [by exists []|]. destruct (H n ltac:(left)) as [row Hrow].
  destruct IH as [rows Hrows]; [intros m Hm; apply H; by right|]. exists (row :: rows). cbn [map all_or_throw]. by rewrite Hrow, Hrows.
Qed.

Lemma persist_rows i data targets i' rows split :
  plain_maps (objects i) -> Forall (fun n => unit_string n = true) targets -> plain_data data ->
  (is_expression data = true -> splitBillingExprAndRequestRules (combined_expr data) = Ret split) ->
  buildModelSnapshots i = Ret rows -> persistPricingData i data targets = Some i' ->
  exists rows', buildModelSnapshots i' = Ret rows' /\ NoDup (map s_name rows') /\
    forall row, row ∈ rows' <->
      if bool_decide (s_name row ∈ targets) then saved_row data split (s_name row) = Some row else row ∈ rows.
Proof.
  intros Hp Ht Hd Hs Hr Hi. destruct (persist_holds i data targets i' Hp Ht Hd Hi) as [Ho Ho'].
  set (maps' := fold_left (persist_model data) targets (objects i)) in *.
  destruct (rows_spec i (objects i) rows Ho Hr) as [_ Hrows].
  assert (forall name, name ∈ targets -> forall o, prop_get name (maps' o) = stored data o) as Hin.
  { intros name Hn o. unfold maps'. by rewrite persist_all_get, bool_decide_true. }
  assert (forall name, name ∉ targets -> forall o, prop_get name (maps' o) = prop_get name (objects i o)) as Hout.
  { intros name Hn o. unfold maps'. by rewrite persist_all_get, bool_decide_false. }
  assert (forall name, (exists o, is_Some (prop_get name (maps' o))) -> exists row, snapshot_of maps' name = Ret row) as Hall.
  { intros name Hn. destruct (decide (name ∈ targets)) as [Hi' | Hi'].
    - assert (is_Some (saved_row data split name)) as [row Hrow].
      { rewrite <- stored_priced. destruct Hn as [o Ho2]. exists o. by rewrite <- (Hin name). }
      exists row. by apply (stored_snapshot data maps' name split (Hin name Hi') Hs).
    - assert (name ∈ map s_name rows) as (row & Hrow & ->)%elem_of_lmap.
      { destruct (rows_spec i (objects i) rows Ho Hr) as [-> _]. apply elem_of_names. destruct Hn as [o Ho2]. exists o. by rewrite <- Hout. }
      exists row. rewrite (snapshot_frame maps' (objects i)) by (by apply Hout). by apply Hrows. }
  destruct (all_snapshots maps' (model_names maps')) as [rows' Hrows'].
  { intros name Hn%elem_of_names. by apply Hall. }
  exists rows'. assert (buildModelSnapshots i' = Ret rows') as Hb by (by rewrite (snapshots_of i' maps' Ho')).
  destruct (rows_spec i' maps' rows' Ho' Hb) as [En Hspec]. split; [done|]. split; [rewrite En; apply NoDup_dedup|].
  intros row. rewrite Hspec. case_bool_decide as Hi2.
  - split.
    + intros [Hsome Hrow]. assert (is_Some (saved_row data split (s_name row))) as [r Hr2].
      { rewrite <- stored_priced. destruct Hsome as [o Ho2]. exists o. by rewrite <- (Hin (s_name row)). }
      rewrite (stored_snapshot data maps' (s_name row) split (Hin _ Hi2) Hs r Hr2) in Hrow. injection Hrow as ->. done.
    + intros Hrow. split; [|by apply (stored_snapshot data maps' _ split (Hin _ Hi2) Hs)].
      assert (exists o, is_Some (stored data o)) as [o Ho2] by (apply (stored_priced data split (s_name row)); eauto).
      exists o. by rewrite (Hin _ Hi2).
  - rewrite Hrows. rewrite (snapshot_frame maps' (objects i)) by (by apply Hout).
    split; intros [[o Ho2] Hrow]; (split; [|done]); exists o; [by rewrite <- Hout|by rewrite Hout].
Qed.

(** C27. Saving a model shows what was saved and nothing else changes: after the data of the
    panel was written for some targets, the table still reads; the rows of all other
    models are as before; a target has the row of the data, with the numbers the texts
    stand for, or no row if the data has no price at all.  The hypotheses ask for options
    that survive JSON and, for an expression, that its request rules can be split off. *)
Theorem persist_shown i data targets i' rows split :
  plain_maps (objects i) -> Forall (fun n => unit_string n = true) targets -> plain_data data ->
  (is_expression data = true -> splitBillingExprAndRequestRules (combined_expr data) = Ret split) ->
  buildModelSnapshots i = Ret rows -> persistPricingData i data targets = Some i' ->
  exists rows', buildModelSnapshots i' = Ret rows' /\ NoDup (map s_name rows') /\
    forall row, row ∈ rows' <->
      if bool_decide (s_name row ∈ targets) then saved_row data split (s_name row) = Some row else row ∈ rows.
Proof. exact (persist_rows i data targets i' rows split). Qed.

(** ** Rows marked as changed *)

(** The texts that count: the eight fields, the mode and the two expressions. *)
Definition row_texts (s : ModelPricingSnapshot) : list jstr :=
  map (fun f => text_or (field_of (s_prices s) f) []) PRICE_FIELDS ++
  [text_or (s_billingMode s) (js "per-token"); text_or (s_billingExpr s) []; text_or (s_requestRuleExpr s) []].

Definition signature_keys : list jstr :=
  [js "price"; js "ratio"; js "cacheRatio"; js "createCacheRatio"; js "completionRatio"; js "imageRatio"; js "audioRatio";
   js "audioCompletionRatio"; js "billingMode"; js "billingExpr"; js "requestRuleExpr"].

Lemma signature_object s : getSnapshotSignature (Some s) = text_of (VObj (zip signature_keys (map VStr (row_texts s)))).
Proof. reflexivity. Qed.

Lemma signature_plain s : Forall (fun t => unit_string t = true) (row_texts s) ->
  plain_value (VObj (zip signature_keys (map VStr (row_texts s)))) = true.
Proof.
  intros H. apply plain_object. split; [reflexivity|]. apply Forall_forall. intros [k v] Hin.
  apply elem_of_zip_with in Hin as (k' & v' & [= -> ->] & Hk & Hv). apply elem_of_lmap in Hv as (t & Ht & ->).
  unfold plain_pair. cbn [fst snd plain_value]. rewrite Forall_forall in H. rewrite (H t Ht), andb_true_r.
  revert k' Hk. apply Forall_forall. repeat constructor.
Qed.

Lemma signature_inj a b :
  Forall (fun t => unit_string t = true) (row_texts a) -> Forall (fun t => unit_string t = true) (row_texts b) ->
  getSnapshotSignature (Some a) = getSnapshotSignature (Some b) <-> row_texts a = row_texts b.
Proof.
  intros Ha Hb. rewrite !signature_object. split; [|by intros ->]. intros E.
  pose proof (signature_plain a Ha) as Pa. pose proof (signature_plain b Hb) as Pb.
  destruct (json_roundtrip _ Pa) as (w & Wa & Ja). destruct (json_roundtrip _ Pb) as (w' & Wb & Jb).
  rewrite (text_of_plain _ Pa) in Wa. rewrite (text_of_plain _ Pb) in Wb. apply (inj Some) in Wa, Wb. subst w w'.
  rewrite E, Jb in Ja. apply (inj Some) in Ja. symmetry.
  exact (f_equal (fun v => match v with VObj o => map (fun p => to_string (snd p)) o | _ => [] end) Ja).
Qed.

Lemma signature_truthy s : truthy (getSnapshotSignature (Some s)) = true.
Proof. rewrite signature_object. reflexivity. Qed.

(** A row is marked as changed exactly when something of its prices differs: for rows
    whose texts are strings, the signatures of the saved and the drafted prices agree
    exactly when both are missing or all eight fields, the mode and the two expressions
    are the same, missing ones counting as empty. *)
Theorem changed_exact saved draft name :
  (forall s, m_get name saved = Some s -> Forall (fun t => unit_string t = true) (row_texts s)) ->
  (forall s, m_get name draft = Some s -> Forall (fun t => unit_string t = true) (row_texts s)) ->
  w_isDraftChanged (model_row saved draft name) = false <->
  row_texts <$> m_get name saved = row_texts <$> m_get name draft.
Proof.
  intros Hs Hd. cbn [model_row w_isDraftChanged]. rewrite negb_false_iff, jeqb_eq.
  destruct (m_get name saved) as [a|], (m_get name draft) as [b|]; cbn [fmap option_fmap option_map].
  - rewrite signature_inj by auto. split; [intros H; by rewrite H|intros H; by apply (inj Some) in H].
  - split; [|done]. intros E. pose proof (signature_truthy a) as T. by rewrite E in T.
  - split; [|done]. intros E. pose proof (signature_truthy b) as T. by rewrite <- E in T.
  - done.
Qed.

(** ** Saving the options *)

#[export] Instance setting_key_eq_dec : EqDecision SettingKey.
Proof. solve_decision. Defined.



















(** ** Opening a model and saving it *)

Lemma parse_number_float s y rest : parse_number s = Some (y, rest) -> parse_float s = y.
Proof.
  unfold parse_number, parse_float. intros H.
  assert (forall u, match fst (read_digits u) with [] => false | [_] => true | c :: _ => negb (c =? 48)%N end = true ->
    starts_with (js "Infinity") u = false /\ exists c t, u = c :: t /\ is_digit c = true) as Hu.
  { intros [|d u]; [done|]. unfold read_digits. destruct (is_digit d) eqn:E; [|simpl; by rewrite E]. intros _. split; [|eauto].
    destruct (starts_with (js "Infinity") (d :: u)) eqn:Es; [|done]. apply starts_with_spec in Es as [t Et]. pose proof (f_equal head Et) as Ed. injection Ed as Ed. by rewrite Ed in E. }
  destruct s as [|c r]; [done|]. destruct (c =? 45)%N eqn:E45.
  - apply N.eqb_eq in E45 as ->. change (trim_start (45%N :: r)) with (45%N :: r). cbn [N.eqb Pos.eqb].
    destruct (read_digits r) as [ip s1] eqn:Er. specialize (Hu r). rewrite Er in Hu. cbn [fst] in Hu.
    destruct (match ip with [] => false | [_] => true | c :: _ => negb (c =? 48)%N end); [|done]. destruct (Hu eq_refl) as [Hi _].
    rewrite Hi. cbn [andb] in H. destruct (match s1 with [] => true | _ => _ end); [|done].
    destruct (read_decimal r) as [[x t]|]; [|done]. cbn [mbind option_bind] in H. destruct t as [|c' t]; [by injection H as <- _|].
    destruct (_ || _); [done|]. by injection H as <- _.
  - destruct (read_digits (c :: r)) as [ip s1] eqn:Er. specialize (Hu (c :: r)). rewrite Er in Hu. cbn [fst] in Hu.
    destruct (match ip with [] => false | [_] => true | c :: _ => negb (c =? 48)%N end); [|done].
    destruct (Hu eq_refl) as [Hi (c' & t' & [= <- <-] & Hd)]. rewrite trim_start_id by (unfold is_digit in Hd; unfold is_ws; lia).
    rewrite E45. assert ((c =? 43)%N = false) as -> by (unfold is_digit in Hd; lia). rewrite Hi. cbn [andb] in H.
    destruct (match s1 with [] => true | _ => _ end); [|done].
    destruct (read_decimal (c :: r)) as [[x t]|]; [|done]. cbn [mbind option_bind] in H. destruct t as [|c' t]; [by injection H as <- _|].
    destruct (_ || _); [done|]. by injection H as <- _.
Qed.

Lemma parse_float_reads x : reads_back x = true -> n_isFinite x = true /\ parse_float (show_num x) = x.
Proof.
  unfold reads_back. rewrite andb_true_iff. intros [Hf H]. split; [done|].
  destruct (parse_number (show_num x)) as [[y [|]]|] eqn:E; try done. apply n_same_eq in H as <-. by eapply parse_number_float.
Qed.

(** The panel opened on a row and saved without a change. *)
Lemma opened_data row w data :
  w_draft w = Some row -> commitDraft (load_panel (Some (handleEdit w))) = Some data ->
  d_name data = trim (s_name row) /\
  (forall f, field_of (d_prices data) f = Some (text_or (field_of (s_prices row) f) [])) /\
  (s_billingMode row <> Some (js "tiered_expr") -> d_billingMode data <> Some TieredExpr).
Proof.
  intros Hw. unfold commitDraft. destruct (_ || _); [done|]. intros H. apply (inj Some) in H. subst data.
  unfold buildSubmitData, load_panel. destruct (createInitialLaneState _) as [[pp lp] le]. unfold handleEdit. rewrite Hw.
  cbn [d_name d_prices d_billingMode p_name p_values p_pricingMode]. split; [done|]. split.
  - intros f. rewrite !field_of_prices_of. unfold text_or at 1. unfold text_or. by destruct (field_of (s_prices row) f) as [[|]|]; destruct f.
  - intros Hm. rewrite (bool_decide_false (s_billingMode row = _)) by done. by destruct (hasPricingValue _).
Qed.

(** The numbers the options have for a model. *)
Definition numbers_only (maps : PricingOption -> list (jstr * jsval)) (name : jstr) : Prop :=
  forall f v, prop_get name (maps (ONumber f)) = Some v -> exists x, v = VNum x.

Section unchanged.
Context (maps : PricingOption -> list (jstr * jsval)) (Hplain : plain_maps maps).
Context (row : ModelPricingSnapshot) (Hrow : snapshot_of maps (s_name row) = Ret row).
Context (Hnum : numbers_only maps (s_name row)) (Hmode : s_billingMode row <> Some (js "tiered_expr")).
Context (Hconflict : s_hasConflict row = false).
Context (data : ModelRatioData) (Hdm : d_billingMode data <> Some TieredExpr).
Context (Hdata : forall f, field_of (d_prices data) f = Some (text_or (field_of (s_prices row) f) [])).

Lemma row_not_tiered : is_tiered (maps OMode) (s_name row) = false.
Proof.
  revert Hrow. unfold snapshot_of. destruct (is_tiered _ _); [|done]. destruct (full_expr _ _) as [e|]; cbn [obind]; [|done].
  destruct (splitBillingExprAndRequestRules e) as [[a b]|]; cbn [obind]; [|done]. intros H.
  assert (s_billingMode row = Some (js "tiered_expr")); [|done]. by injection H as <-.
Qed.

Lemma row_fields f : text_or (field_of (s_prices row) f) [] = value_text (maps (ONumber f)) (s_name row).
Proof.
  pose proof Hrow as H. unfold snapshot_of in H. rewrite row_not_tiered in H. injection H as H. rewrite <- H at 1. cbn [s_prices].
  rewrite field_of_prices_of. unfold text_or, str_or. by destruct (value_text (maps (ONumber f)) (s_name row)).
Qed.

Lemma number_reads_back f x : prop_get (s_name row) (maps (ONumber f)) = Some (VNum x) -> reads_back x = true.
Proof.
  intros E. pose proof (Hplain (ONumber f)) as Hp. apply plain_object in Hp as [_ Hp]. rewrite Forall_forall in Hp.
  specialize (Hp _ (prop_get_in _ _ _ E)). unfold plain_pair in Hp. by apply andb_true_iff in Hp as [_ Hp].
Qed.

Lemma stored_numbers f : parsed_field data f = prop_get (s_name row) (maps (ONumber f)) ≫= fun v => match v with VNum x => Some x | _ => None end.
Proof.
  unfold parsed_field. rewrite Hdata, row_fields. cbn [hasPricingValue default from_option id].
  assert (value_text (maps (ONumber f)) (s_name row) = match prop_get (s_name row) (maps (ONumber f)) with
    | None | Some VUndef | Some VNull => [] | Some v => to_string v end) as -> by done.
  destruct (prop_get (s_name row) (maps (ONumber f))) as [v|] eqn:E; [|by rewrite andb_false_r].
  destruct (Hnum f v E) as [x ->]. cbn [to_string mbind option_bind]. rewrite show_num_truthy, andb_true_r.
  destruct (parse_float_reads x (number_reads_back f x E)) as [Hf Hx].
  rewrite Hx, Hf. assert (writes data f = true) as ->; [|done].
  unfold writes. rewrite bool_decide_false by done. cbn [orb]. change (x_price (d_prices data)) with (field_of (d_prices data) price).
  rewrite Hdata, row_fields. cbn [hasPricingValue]. destruct (truthy (value_text (maps (ONumber price)) (s_name row))) eqn:Ep.
  - apply bool_decide_eq_true. pose proof Hrow as H. unfold snapshot_of in H. rewrite row_not_tiered in H. injection H as H.
    pose proof Hconflict as Hc. rewrite <- H in Hc. cbn [s_hasConflict] in Hc. rewrite Ep in Hc. cbn [andb] in Hc.
    assert (truthy (value_text (maps (ONumber f)) (s_name row)) = true) as Ht by (unfold value_text; rewrite E; apply show_num_truthy).
    destruct f; [done|exfalso..]; rewrite Ht in Hc; rewrite ?orb_true_r in Hc; done.
  - apply negb_true_iff, bool_decide_eq_false. intros ->. unfold value_text in Ep. rewrite E in Ep. cbn [to_string] in Ep.
    by rewrite show_num_truthy in Ep.
Qed.

Lemma no_expression : is_expression data = false.
Proof. unfold is_expression. by rewrite bool_decide_false. Qed.

Lemma unchanged_field f : field_text data f = value_text (maps (ONumber f)) (s_name row).
Proof.
  unfold field_text, value_text. rewrite stored_numbers. destruct (prop_get _ _) as [v|] eqn:E; [|done].
  by destruct (Hnum f v E) as [x ->].
Qed.

Lemma unchanged_row split :
  existsb (fun f => truthy (field_text data f)) PRICE_FIELDS = true -> saved_row data split (s_name row) = Some row.
Proof.
  intros He. unfold saved_row. rewrite no_expression, He. f_equal. pose proof Hrow as H. unfold snapshot_of in H.
  rewrite row_not_tiered in H. injection H as H. rewrite <- H at 2. unfold prices_of. rewrite !unchanged_field. f_equal.
  cbn [existsb tail PRICE_FIELDS]. rewrite !unchanged_field. destruct (truthy (value_text (maps (ONumber ratio)) (s_name row))),
    (truthy (value_text (maps (ONumber completionRatio)) (s_name row))), (truthy (value_text (maps (ONumber cacheRatio)) (s_name row))),
    (truthy (value_text (maps (ONumber createCacheRatio)) (s_name row))), (truthy (value_text (maps (ONumber imageRatio)) (s_name row))),
    (truthy (value_text (maps (ONumber audioRatio)) (s_name row))), (truthy (value_text (maps (ONumber audioCompletionRatio)) (s_name row))); done.
Qed.

Lemma unchanged_plain : plain_data data.
Proof.
  intros o v. destruct o as [f| |]; cbn [stored]; rewrite ?no_expression; try done. rewrite stored_numbers.
  destruct (prop_get (s_name row) (maps (ONumber f))) as [u|] eqn:E; [|done]. destruct (Hnum f u E) as [x ->]. intros [= <-].
  by apply (number_reads_back f).
Qed.
End unchanged.

(** C29. Opening a model and saving it changes nothing: for a model priced per token or per
    request that has a price, without leftover fields of the other mode, whose options
    hold numbers and whose name has no surrounding spaces, saving the panel as it was
    opened leaves every row of the table as it was. *)
Theorem unchanged_save i rows w row i' :
  plain_maps (objects i) -> buildModelSnapshots i = Ret rows -> row ∈ rows -> w_draft w = Some row ->
  numbers_only (objects i) (s_name row) -> s_billingMode row <> Some (js "tiered_expr") -> s_hasConflict row = false ->
  existsb (fun f => hasPricingValue (field_of (s_prices row) f)) PRICE_FIELDS = true ->
  unit_string (s_name row) = true -> trim (s_name row) = s_name row ->
  commitOpenEditor i (load_panel (Some (handleEdit w))) = Some i' ->
  exists rows', buildModelSnapshots i' = Ret rows' /\ forall r, r ∈ rows' <-> r ∈ rows.
Proof.
  intros Hp Hr Hin Hw Hnum Hmode Hc Hex Hu Htrim Hi. unfold commitOpenEditor in Hi.
  destruct (commitDraft _) as [data|] eqn:Ed; [|done]. cbn [mbind option_bind] in Hi.
  destruct (opened_data row w data Hw Ed) as (Hname & Hdata & Hdm). specialize (Hdm Hmode). rewrite Hname, Htrim in Hi.
  pose proof (persist_objects _ _ _ _ Hi) as Ho.
  destruct (rows_spec i (objects i) rows Ho Hr) as [_ Hrows]. pose proof (proj2 (proj1 (Hrows row) Hin)) as Hsnap.
  pose proof (unchanged_plain (objects i) Hp row Hsnap Hnum Hmode Hc data Hdm Hdata) as Hpd.
  assert (forall split, saved_row data split (s_name row) = Some row) as Hsaved.
  { intros split. apply (unchanged_row (objects i) Hp row Hsnap Hnum Hmode Hc data Hdm Hdata).
    apply existsb_exists. apply existsb_exists in Hex as (f & Hf & Hv). exists f. split; [done|].
    rewrite (unchanged_field (objects i) Hp row Hsnap Hnum Hmode Hc data Hdm Hdata),
      <- (row_fields (objects i) row Hsnap Hmode f). by destruct (field_of (s_prices row) f) as [[|]|]. }
  destruct (persist_rows i data [s_name row] i' rows ([], []) Hp) as (rows' & Hb & _ & Hspec); try done.
  { by repeat constructor. }
  { by rewrite (no_expression data Hdm). }
  exists rows'. split; [done|]. intros r. rewrite Hspec. case_bool_decide as Hn; [|done].
  apply list_elem_of_singleton in Hn. rewrite Hn, Hsaved. split; [by intros [= <-]|].
  intros [_ Hs]%Hrows. rewrite Hn, Hsnap in Hs. by injection Hs as ->.
Qed.

(** A fixed price hides the token prices that are entered: as long as the form still
    has the fixed price a model had, saving in the mode per token writes that price and
    none of the ratios on the screen. *)
Theorem fixed_price_wins i p i' :
  plain_maps (objects i) -> p_pricingMode p = PerToken -> hasPricingValue (x_price (p_values p)) = true ->
  unit_string (trim (p_name p)) = true -> plain_data (buildSubmitData p) -> commitOpenEditor i p = Some i' ->
  forall f, f <> price -> prop_get (trim (p_name p)) (objects i' (ONumber f)) = None.
Proof.
  intros Hp Hm Hv Hu Hd Hi f Hf. unfold commitOpenEditor, commitDraft in Hi. destruct (_ || _); [done|]. cbn [mbind option_bind] in Hi.
  destruct (persist_holds i _ [d_name (buildSubmitData p)] i' Hp ltac:(by repeat constructor) Hd Hi) as [_ Ho].
  rewrite (holds_objects _ _ _ Ho), persist_all_get, bool_decide_true by (by left). cbn [stored]. unfold parsed_field, writes.
  cbn [buildSubmitData d_billingMode d_prices d_name]. rewrite Hm, bool_decide_false by done. cbn [orb].
  assert (hasPricingValue (x_price (prices_of (fun f => Some (text_or (field_of (p_values p) f) [])))) = true) as ->.
  { cbn [x_price prices_of field_of]. revert Hv. by destruct (x_price (p_values p)) as [[|]|]. }
  by rewrite bool_decide_false.
Qed.

(** ** An example *)

Definition sample_input : ModelPricingSnapshotInput :=
  {| i_modelPrice := jsq "{`image-1`: 0.04}"; i_modelRatio := jsq "{`4`: 2.5, `chat-1`: 1.25}"; i_cacheRatio := [];
     i_createCacheRatio := []; i_completionRatio := jsq "{`chat-1`: 4}"; i_imageRatio := js "{}"; i_audioRatio := [];
     i_audioCompletionRatio := []; i_billingMode := []; i_billingExpr := [] |}.

Definition sample_rows : list ModelPricingSnapshot :=
  match buildModelSnapshots sample_input with Ret rows => rows | Throw => [] end.

Example sample_table :
  map (fun r => (s_name r, default [] (s_billingMode r), getPriceSummary id r, getPriceDetail id r)) sample_rows =
  [(js "image-1", js "per-request", js "$0.04 / request", js "Fixed request price");
   (js "4", js "per-token", js "Input $5", js "Base input price only");
   (js "chat-1", js "per-token", js "Input $2.5" ++ middle_dot ++ js "1 extras", js "Output $10")].
Proof. vm_compute. reflexivity. Qed.

Definition sample_row : ModelPricingSnapshot := default (unpriced []) (sample_rows !! 2%nat).

Definition sample_model_row : ModelRow := model_row (by_name sample_rows) (by_name sample_rows) (s_name sample_row).

(** The panel of the image model, switched to prices per token. *)
Definition image_panel : Panel :=
  panel_step (EPromptPrice (js "3")) (panel_step (EMode PerToken)
    (load_panel (Some (handleEdit (model_row (by_name sample_rows) (by_name sample_rows) (js "image-1")))))).

Example image_panel_shows :
  map r_value (buildPreviewRows id image_panel) = js "$3" :: repeat (js "Empty") 6 /\
  field_of (p_values image_panel) ratio = Some (js "1.5") /\ field_of (p_values image_panel) price = Some (js "0.04").
Proof. vm_compute. auto. Qed.

Lemma sample_plain : plain_maps (objects sample_input).
Proof. intros [[]| |]; vm_compute; reflexivity. Qed.

Ltac stored_values :=
  let f := fresh in let v := fresh in let H := fresh in
  intros [f| |] v; [destruct f|..]; intros H; vm_compute in H;
  first [discriminate H | apply (inj Some) in H; subst v; vm_compute; reflexivity].

Definition sample_data : ModelRatioData :=
  {| d_name := js "chat-2"; d_prices := set_field ratio (js "3.50") (set_field cacheRatio (js ".1") (prices_of (fun _ => Some [])));
     d_billingMode := Some PerToken; d_billingExpr := None; d_requestRuleExpr := None |}.

Definition copied : ModelPricingSnapshotInput :=
  default sample_input (persistPricingData sample_input sample_data [js "chat-2"; js "4"]).

Lemma persist_shown_witness : exists rows', buildModelSnapshots copied = Ret rows' /\ NoDup (map s_name rows') /\
  forall row, row ∈ rows' <->
    if bool_decide (s_name row ∈ [js "chat-2"; js "4"]) then saved_row sample_data ([], []) (s_name row) = Some row else row ∈ sample_rows.
Proof.
  apply (persist_shown sample_input sample_data [js "chat-2"; js "4"] copied sample_rows ([], [])).
  - exact sample_plain.
  - repeat constructor.
  - stored_values.
  - vm_compute. discriminate.
  - vm_compute. reflexivity.
  - vm_compute. reflexivity.
Defined.

Lemma changed_exact_witness :
  w_isDraftChanged (model_row (by_name sample_rows) (by_name sample_rows) (js "chat-1")) = false <->
  row_texts <$> m_get (js "chat-1") (by_name sample_rows) = row_texts <$> m_get (js "chat-1") (by_name sample_rows).
Proof.
  assert (forall s, m_get (js "chat-1") (by_name sample_rows) = Some s -> Forall (fun t => unit_string t = true) (row_texts s)) as H.
  { intros s E. assert (s = sample_row) as -> by (apply (inj Some); rewrite <- E; vm_compute; reflexivity). vm_compute. repeat constructor. }
  exact (changed_exact (by_name sample_rows) (by_name sample_rows) (js "chat-1") H H).
Defined.

Definition resaved : ModelPricingSnapshotInput :=
  default sample_input (commitOpenEditor sample_input (load_panel (Some (handleEdit sample_model_row)))).



Lemma unchanged_save_witness : exists rows', buildModelSnapshots resaved = Ret rows' /\ forall r, r ∈ rows' <-> r ∈ sample_rows.
Proof.
  apply (unchanged_save sample_input sample_rows sample_model_row sample_row resaved).
  - exact sample_plain.
  - vm_compute. reflexivity.
  - apply (list_elem_of_lookup_2 _ 2%nat). vm_compute. reflexivity.
  - vm_compute. reflexivity.
  - intros f v. destruct f; vm_compute; intros [=]; subst; eauto.
  - vm_compute. discriminate.
  - vm_compute. reflexivity.
  - vm_compute. reflexivity.
  - vm_compute. reflexivity.
  - vm_compute. reflexivity.
  - vm_compute. reflexivity.
Defined.

Lemma fixed_price_wins_witness :
  p_pricingMode image_panel = PerToken /\
  prop_get (js "image-1") (objects (default sample_input (commitOpenEditor sample_input image_panel)) (ONumber ratio)) = None.
Proof.
  split; [vm_compute; reflexivity|].
  apply (fixed_price_wins sample_input image_panel (default sample_input (commitOpenEditor sample_input image_panel))).
  - exact sample_plain.
  - vm_compute. reflexivity.
  - vm_compute. reflexivity.
  - vm_compute. reflexivity.
  - stored_values.
  - vm_compute. reflexivity.
  - discriminate.
Defined.

Example format_known :
  map (fun s => formatPricingNumber (VNum (dec s)))
    [js "0.30000000000000004"; js "3"; js "1.2500000000001"; js "0.1"; js "1e-13"; js "2.9999999999999996"; js "NaN"] =
  [js "0.3"; js "3"; js "1.25"; js "0.1"; js "0"; js "3"; []].
Proof. vm_compute. reflexivity. Qed.
