(* ===== verification/ParamOverride.v ===== *)
(** * Parameter override rules

    The part of [features/channels/components/dialogs/param-override-editor-dialog.tsx]
    that does not depend on React: the rules of a channel's [param_override], how they
    are read from a JSON value and written back, the drafts of the two modes that have an
    editor of their own, the validator, and the templates.  The state of the dialog is in
    the file ParamEditor.

    A function that draws local ids or that can throw a [TypeError] runs in the monad
    [ids]: it takes the value of [localIdSeed] and returns the new one, with [None] when it
    has thrown.  The readings of [Date.now()] are the parameter [clock], indexed by the seed
    they are used with.  The translation [t] and the text of the engine's [TypeError] are
    parameters too. *)

From S2P Require Import Prelude JsString JsNumber Json JsonText.

(** ** Text conversions that can throw *)

(** [String(v)] of JSON data: an object with a property [toString] of its own has no
    primitive value, and the conversion throws. *)
Fixpoint string_of (v : jsval) : option jstr :=
  match v with
  | VArr l =>
      join (js ",") <$>
      (fix go l := match l with
                   | [] => Some []
                   | x :: t =>
                       s ← match x with VUndef | VNull => Some [] | _ => string_of x end;
                       r ← go t; Some (s :: r)
                   end) l
  | VObj o => match prop_get (js "toString") o with Some _ => None | None => Some (js "[object Object]") end
  | _ => Some (to_string v)
  end.

(** [Number(v)] *)
Definition number_of (v : jsval) : option number :=
  match v with
  | VArr _ | VObj _ => num_of_string <$> string_of v
  | _ => Some (to_number v)
  end.

(** [a || b] on values. *)
Definition v_or (a b : jsval) : jsval := if v_truthy a then a else b.

(** [v === true], [v !== false] *)
Definition is_true (v : jsval) : bool := match v with VBool true => true | _ => false end.
Definition is_false (v : jsval) : bool := match v with VBool false => true | _ => false end.

Definition is_undefined (v : jsval) : bool := match v with VUndef => true | _ => false end.

(** [typeof v === 'string' ? v : ''] *)
Definition string_or_empty (v : jsval) : jstr := match v with VStr s => s | _ => [] end.

(** [Array.isArray(v)] with its elements, and [v && typeof v === 'object' && !Array.isArray(v)]
    with its properties. *)
Definition as_array (v : jsval) : option (list jsval) := match v with VArr l => Some l | _ => None end.
Definition as_object (v : jsval) : option (list (jstr * jsval)) := match v with VObj o => Some o | _ => None end.

(** [toUpperCase] where only the letters of the words compared with matter. *)
Definition upper_unit (c : N) : N := (if (97 <=? c) && (c <=? 122) then c - 32 else c)%N.
Definition ascii_upper (s : jstr) : jstr := map upper_unit s.

(** [JSON.stringify] of data that has a text. *)
Definition pretty_of (v : jsval) : jstr := default [] (stringify_pretty v).

(** An object literal, and a string in it. *)
Local Notation "k ~> v" := (js k, v) (at level 60, no associativity).
Abbreviation lit := VObj.
Abbreviation str s := (VStr (js s)).

(** [if (b) payload[k] = v] *)
Definition set_if (b : bool) (k : jstr) (v : jsval) (o : list (jstr * jsval)) : list (jstr * jsval) :=
  if b then prop_set k v o else o.

(** ** Rules *)

Record ParamOverrideCondition := {
  c_id : jstr; c_path : jstr; c_mode : jstr; c_value_text : jstr; c_invert : bool; c_pass_missing_key : bool }.

Record ParamOverrideOperation := {
  o_id : jstr; o_description : jstr; o_path : jstr; o_mode : jstr; o_from : jstr; o_to : jstr; o_value_text : jstr;
  o_keep_origin : bool; o_logic : jstr; o_conditions : list ParamOverrideCondition }.

(** The labels and values of the modes. *)
Definition OPERATION_MODE_OPTIONS : list (jstr * jstr) :=
    [("Set Field" ~> js "set"); ("Delete Field" ~> js "delete"); ("Append to End" ~> js "append"); ("Prepend to Start" ~> js "prepend");
     ("Copy Field" ~> js "copy"); ("Move Field" ~> js "move"); ("String Replace" ~> js "replace"); ("Regex Replace" ~> js "regex_replace");
     ("Trim Prefix" ~> js "trim_prefix"); ("Trim Suffix" ~> js "trim_suffix"); ("Ensure Prefix" ~> js "ensure_prefix");
     ("Ensure Suffix" ~> js "ensure_suffix"); ("Trim Space" ~> js "trim_space"); ("To Lowercase" ~> js "to_lower");
     ("To Uppercase" ~> js "to_upper"); ("Return Custom Error" ~> js "return_error"); ("Prune Object Items" ~> js "prune_objects");
     ("Pass Through Headers" ~> js "pass_headers"); ("Sync Fields" ~> js "sync_fields"); ("Set Request Header" ~> js "set_header");
     ("Delete Request Header" ~> js "delete_header"); ("Copy Request Header" ~> js "copy_header");
     ("Move Request Header" ~> js "move_header")].

Definition OPERATION_MODE_VALUES : list jstr := map snd OPERATION_MODE_OPTIONS.

Definition OPERATION_MODE_LABEL_MAP : list (jstr * jstr) :=
  fold_left (fun acc '(label, value) => prop_set value label acc) OPERATION_MODE_OPTIONS [].

Definition CONDITION_MODE_OPTIONS : list (jstr * jstr) :=
    [("Exact Match" ~> js "full"); ("Prefix" ~> js "prefix"); ("Suffix" ~> js "suffix"); ("Contains" ~> js "contains");
     ("Greater Than" ~> js "gt"); ("Greater Than or Equal" ~> js "gte"); ("Less Than" ~> js "lt");
     ("Less Than or Equal" ~> js "lte")].

Definition CONDITION_MODE_VALUES : list jstr := map snd CONDITION_MODE_OPTIONS.

(** [Set.has] *)
Definition has (s : jstr) (l : list jstr) : bool := bool_decide (s ∈ l).

(** What a mode uses.  A flag that is left out is false, except that [to] keeps the
    difference between false and absent. *)
Record ModeMeta := {
  m_path : bool; m_pathOptional : bool; m_value : bool; m_from : bool; m_to : option bool; m_keepOrigin : bool;
  m_pathAlias : bool }.

Definition meta_path : ModeMeta :=
  {| m_path := true; m_pathOptional := false; m_value := false; m_from := false; m_to := None; m_keepOrigin := false;
     m_pathAlias := false |}.
Definition meta_path_value (keep : bool) : ModeMeta :=
  {| m_path := true; m_pathOptional := false; m_value := true; m_from := false; m_to := None; m_keepOrigin := keep;
     m_pathAlias := false |}.
Definition meta_from_to (keep : bool) : ModeMeta :=
  {| m_path := false; m_pathOptional := false; m_value := false; m_from := true; m_to := Some true;
     m_keepOrigin := keep; m_pathAlias := keep |}.
Definition meta_replace : ModeMeta :=
  {| m_path := true; m_pathOptional := false; m_value := false; m_from := true; m_to := Some false;
     m_keepOrigin := false; m_pathAlias := false |}.
Definition meta_value (optional keep : bool) : ModeMeta :=
  {| m_path := false; m_pathOptional := optional; m_value := true; m_from := false; m_to := None;
     m_keepOrigin := keep; m_pathAlias := false |}.

Definition MODE_META : list (jstr * ModeMeta) :=
    [("delete" ~> meta_path); ("set" ~> meta_path_value true); ("append" ~> meta_path_value true);
     ("prepend" ~> meta_path_value true); ("copy" ~> meta_from_to false); ("move" ~> meta_from_to false);
     ("replace" ~> meta_replace); ("regex_replace" ~> meta_replace);
     ("trim_prefix" ~> meta_path_value false); ("trim_suffix" ~> meta_path_value false);
     ("ensure_prefix" ~> meta_path_value false); ("ensure_suffix" ~> meta_path_value false);
     ("trim_space" ~> meta_path); ("to_lower" ~> meta_path); ("to_upper" ~> meta_path);
     ("return_error" ~> meta_value false false); ("prune_objects" ~> meta_value true false);
     ("pass_headers" ~> meta_value false true); ("sync_fields" ~> meta_from_to false);
     ("set_header" ~> meta_path_value true); ("delete_header" ~> meta_path);
     ("copy_header" ~> meta_from_to true); ("move_header" ~> meta_from_to true)].

(** [MODE_META[mode] || MODE_META.set]; a mode is one of the options, so never the name of
    an inherited property. *)
Definition meta_of (mode : jstr) : ModeMeta := default (meta_path_value true) (prop_get mode MODE_META).

Definition VALUE_REQUIRED_MODES : list jstr :=
  [js "trim_prefix"; js "trim_suffix"; js "ensure_prefix"; js "ensure_suffix"; js "set_header"; js "return_error";
          js "prune_objects"; js "pass_headers"].
Definition FROM_REQUIRED_MODES : list jstr :=
  [js "copy"; js "move"; js "replace"; js "regex_replace"; js "copy_header"; js "move_header"; js "sync_fields"].
Definition TO_REQUIRED_MODES : list jstr := [js "copy"; js "move"; js "copy_header"; js "move_header"; js "sync_fields"].

(** ** Templates *)

Definition LEGACY_TEMPLATE : jsval :=
  lit [("temperature" ~> VNum (num_of_Z 0)); ("max_tokens" ~> VNum (num_of_Z 1000))].

Definition OPERATION_TEMPLATE : jsval :=
  lit [("operations" ~> VArr [
    lit [("description" ~> str "Set default temperature for openai/* models."); ("path" ~> str "temperature");
         ("mode" ~> str "set"); ("value" ~> VNum (dec (js "0.7")));
         ("conditions" ~> VArr [lit [("path" ~> str "model"); ("mode" ~> str "prefix"); ("value" ~> str "openai/")]]);
         ("logic" ~> str "AND")]])].

Definition HEADER_PASSTHROUGH_TEMPLATE : jsval :=
  lit [("operations" ~> VArr [
    lit [("description" ~> str "Pass through X-Request-Id header to upstream."); ("mode" ~> str "pass_headers");
         ("value" ~> VArr [str "X-Request-Id"]); ("keep_origin" ~> VBool true)]])].

Definition GEMINI_IMAGE_4K_TEMPLATE : jsval :=
  let contains (s : jstr) := lit [("path" ~> str "original_model"); ("mode" ~> str "contains"); ("value" ~> VStr s)] in
  lit [("operations" ~> VArr [
    lit [("description" ~> str "Set imageSize to 4K when model contains gemini/image and ends with 4k.");
         ("mode" ~> str "set"); ("path" ~> str "generationConfig.imageConfig.imageSize"); ("value" ~> str "4K");
         ("conditions" ~> VArr [contains (js "gemini"); contains (js "image");
            lit [("path" ~> str "original_model"); ("mode" ~> str "suffix"); ("value" ~> str "4k")]]);
         ("logic" ~> str "AND")]])].

Definition CODEX_CLI_HEADER_PASSTHROUGH_HEADERS : list jstr :=
  [js "Originator"; js "Session_id"; js "Thread_id"; js "Session-Id"; js "Thread-Id"; js "X-Client-Request-Id"; js "User-Agent";
          js "X-Codex-Beta-Features"; js "X-Codex-Turn-State"; js "X-Codex-Turn-Metadata"; js "X-Codex-Window-Id";
          js "X-Codex-Parent-Thread-Id"; js "X-OpenAI-Subagent"; js "X-OpenAI-Memgen-Request";
          js "X-ResponsesAPI-Include-Timing-Metrics"; js "X-OpenAI-Internal-Codex-Responses-Lite"].

Definition CLAUDE_CLI_HEADER_PASSTHROUGH_HEADERS : list jstr :=
  [js "X-Stainless-Arch"; js "X-Stainless-Lang"; js "X-Stainless-Os"; js "X-Stainless-Package-Version";
          js "X-Stainless-Retry-Count"; js "X-Stainless-Runtime"; js "X-Stainless-Runtime-Version"; js "X-Stainless-Timeout";
          js "User-Agent"; js "X-App"; js "Anthropic-Beta"; js "Anthropic-Dangerous-Direct-Browser-Access";
          js "Anthropic-Version"].

Definition buildPassHeadersTemplate (headers : list jstr) : jsval :=
  lit [("operations" ~> VArr [
    lit [("mode" ~> str "pass_headers"); ("value" ~> VArr (map VStr headers)); ("keep_origin" ~> VBool true)]])].

Definition CODEX_CLI_HEADER_PASSTHROUGH_TEMPLATE : jsval :=
  lit [("operations" ~> VArr [
    lit [("mode" ~> str "pass_headers"); ("value" ~> VArr (map VStr CODEX_CLI_HEADER_PASSTHROUGH_HEADERS));
         ("keep_origin" ~> VBool true)]])].

Definition CLAUDE_CLI_HEADER_PASSTHROUGH_TEMPLATE : jsval := buildPassHeadersTemplate CLAUDE_CLI_HEADER_PASSTHROUGH_HEADERS.

Definition AWS_BEDROCK_ANTHROPIC_COMPAT_TEMPLATE : jsval :=
  let same (k : jstr) := (k, VStr k) in
  let drop (k : jstr) := (k, VNull) in
  lit [("operations" ~> VArr [
    lit [("description" ~> str "Normalize anthropic-beta header tokens for Bedrock compatibility.");
         ("mode" ~> str "set_header"); ("path" ~> str "anthropic-beta");
         ("value" ~> lit [
            ("advanced-tool-use-2025-11-20" ~> str "tool-search-tool-2025-10-19");
            drop (js "bash_20241022"); drop (js "bash_20250124"); drop (js "code-execution-2025-08-25");
            same (js "compact-2026-01-12"); same (js "computer-use-2025-01-24"); same (js "computer-use-2025-11-24");
            same (js "context-1m-2025-08-07"); same (js "context-management-2025-06-27"); drop (js "effort-2025-11-24");
            drop (js "fast-mode-2026-02-01"); drop (js "files-api-2025-04-14");
            drop (js "fine-grained-tool-streaming-2025-05-14"); same (js "interleaved-thinking-2025-05-14");
            drop (js "mcp-client-2025-11-20"); drop (js "mcp-client-2025-04-04"); drop (js "mcp-servers-2025-12-04");
            drop (js "output-128k-2025-02-19"); drop (js "structured-output-2024-03-01");
            drop (js "prompt-caching-scope-2026-01-05"); drop (js "skills-2025-10-02");
            drop (js "structured-outputs-2025-11-13"); drop (js "text_editor_20241022");
            drop (js "text_editor_20250124"); drop (js "token-efficient-tools-2025-02-19");
            same (js "tool-search-tool-2025-10-19"); drop (js "web-fetch-2025-09-10");
            drop (js "web-search-2025-03-05"); drop (js "oauth-2025-04-20")])];
    lit [("description" ~> str "Remove all tools[*].custom.input_examples before upstream relay.");
         ("mode" ~> str "delete"); ("path" ~> str "tools.*.custom.input_examples")]])].

Inductive TemplateKind := KOperations | KLegacy.

#[export] Instance template_kind_eq_dec : EqDecision TemplateKind.
Proof. solve_decision. Defined.

(** The kind and the payload of a preset; the label is only shown. *)
Definition TEMPLATE_PRESET_CONFIG : list (jstr * (TemplateKind * jsval)) :=
    [("operations_default" ~> (KOperations, OPERATION_TEMPLATE));
     ("legacy_default" ~> (KLegacy, LEGACY_TEMPLATE));
     ("pass_headers_auth" ~> (KOperations, HEADER_PASSTHROUGH_TEMPLATE));
     ("gemini_image_4k" ~> (KOperations, GEMINI_IMAGE_4K_TEMPLATE));
     ("claude_cli_headers_passthrough" ~> (KOperations, CLAUDE_CLI_HEADER_PASSTHROUGH_TEMPLATE));
     ("codex_cli_headers_passthrough" ~> (KOperations, CODEX_CLI_HEADER_PASSTHROUGH_TEMPLATE));
     ("aws_bedrock_anthropic_beta_override" ~> (KOperations, AWS_BEDROCK_ANTHROPIC_COMPAT_TEMPLATE))].

(** ** Values as text *)

Definition toValueText (value : jsval) : jstr :=
  match value with VUndef => [] | VStr s => s | v => text_of v end.

Definition parseLooseValue (valueText : jstr) : jsval :=
  let raw := trim valueText in
  if negb (truthy raw) then VStr [] else default (VStr raw) (json_parse raw).

Definition verifyJSON (text : jstr) : bool := match json_parse text with Some _ => true | None => false end.

(** ** Local ids *)

Definition ids (A : Type) : Type := N -> option A * N.

#[export] Instance ids_ret : MRet ids := fun A x n => (Some x, n).
#[export] Instance ids_bind : MBind ids := fun A B f m n =>
  match m n with (Some x, n') => f x n' | (None, n') => (None, n') end.

Definition throw {A} : ids A := fun n => (None, n).

(** A conversion that can throw. *)
Definition lift {A} (o : option A) : ids A := fun n => (o, n).

Fixpoint ids_map {A B} (f : A -> ids B) (l : list A) : ids (list B) :=
  match l with
  | [] => mret []
  | x :: t => y ← f x; r ← ids_map f t; mret (y :: r)
  end.

Section normalize.
Context (clock : N -> N).

Definition local_id (n : N) : jstr := js "po_" ++ show_N (clock n) ++ js "_" ++ show_N n.

Definition nextLocalId : ids jstr := fun n => (Some (local_id n), (n + 1)%N).

(** Reading a property of [null] throws. *)
Definition fields_of (v : jsval) : ids jsval := match v with VNull => throw | _ => mret v end.

Definition known (v : jsval) (l : list jstr) (fallback : jstr) : jstr :=
  match v with VStr s => if has s l then s else fallback | _ => fallback end.

Definition normalizeCondition (v : jsval) : ids ParamOverrideCondition :=
  id ← nextLocalId;
  condition ← fields_of v;
  mret {| c_id := id;
          c_path := string_or_empty (get (js "path") condition);
          c_mode := known (get (js "mode") condition) CONDITION_MODE_VALUES (js "full");
          c_value_text := toValueText (get (js "value") condition);
          c_invert := is_true (get (js "invert") condition);
          c_pass_missing_key := is_true (get (js "pass_missing_key") condition) |}.

Definition createDefaultCondition : ids ParamOverrideCondition := normalizeCondition (lit []).

Definition normalizeOperation (v : jsval) : ids ParamOverrideOperation :=
  id ← nextLocalId;
  operation ← fields_of v;
  logic ← lift (string_of (v_or (get (js "logic") operation) (str "OR")));
  conditions ← match get (js "conditions") operation with
               | VArr l => ids_map normalizeCondition l
               | _ => mret []
               end;
  mret {| o_id := id;
          o_description := string_or_empty (get (js "description") operation);
          o_path := string_or_empty (get (js "path") operation);
          o_mode := known (get (js "mode") operation) OPERATION_MODE_VALUES (js "set");
          o_from := string_or_empty (get (js "from") operation);
          o_to := string_or_empty (get (js "to") operation);
          o_value_text := toValueText (get (js "value") operation);
          o_keep_origin := is_true (get (js "keep_origin") operation);
          o_logic := if ascii_upper logic =s js "AND" then js "AND" else js "OR";
          o_conditions := conditions |}.

Definition createDefaultOperation : ids ParamOverrideOperation :=
  normalizeOperation (lit [("mode" ~> str "set")]).

End normalize.

(** ** Lists of rules *)

Inductive DropPosition := Before | After.

#[export] Instance drop_position_eq_dec : EqDecision DropPosition.
Proof. solve_decision. Defined.

(** [next.splice(i, 0, x)] *)
Definition splice_in {A} (i : nat) (x : A) (l : list A) : list A := take i l ++ x :: drop i l.

Definition reorderOperations (ops : list ParamOverrideOperation) (sourceId targetId : jstr) (position : DropPosition) :
    list ParamOverrideOperation :=
  if negb (truthy sourceId) || negb (truthy targetId) || (sourceId =s targetId) then ops
  else
    match find_index (fun o => o_id o =s sourceId) ops with
    | None => ops
    | Some srcIdx =>
        match ops !! srcIdx with
        | None => ops
        | Some moved =>
            let next := delete srcIdx ops in
            match find_index (fun o => o_id o =s targetId) next with
            | None => ops
            | Some i => splice_in (match position with After => i + 1 | Before => i end) moved next
            end
        end
    end.

Definition condition_touched (c : ParamOverrideCondition) : bool :=
  truthy (trim (c_path c)) || truthy (trim (c_value_text c)) || negb (c_mode c =s js "full") || c_invert c ||
  c_pass_missing_key c.

Definition isOperationBlank (operation : ParamOverrideOperation) : bool :=
  let hasCondition := existsb condition_touched (o_conditions operation) in
  (o_mode operation =s js "set") && negb (truthy (trim (o_path operation))) &&
  negb (truthy (trim (o_from operation))) && negb (truthy (trim (o_to operation))) &&
  (trim (o_value_text operation) =s []) && negb (o_keep_origin operation) && negb hasCondition.

Definition middle_dot : jstr := [183%N].

Definition getOperationSummary (operation : ParamOverrideOperation) (index : nat) : jstr :=
  let mode := str_or (o_mode operation) (js "set") in
  let modeLabel := str_or (default [] (prop_get mode OPERATION_MODE_LABEL_MAP)) mode in
  let path := trim (o_path operation) in
  let from := trim (o_from operation) in
  let to := trim (o_to operation) in
  let shown := if mode =s js "sync_fields" then str_or (str_or from to) (js "-")
               else str_or (str_or (str_or path from) to) (js "-") in
  show_nat (index + 1) ++ js ". " ++ modeLabel ++ js " " ++ middle_dot ++ js " " ++ shown.

(** ** Endpoints of [sync_fields] *)

Record SyncTarget := { s_type : jstr; s_key : jstr }.

Definition parseSyncTargetSpec (spec : jstr) : SyncTarget :=
  let raw := trim spec in
  if negb (truthy raw) then {| s_type := js "json"; s_key := [] |}
  else
    match index_of (js ":") raw with
    | None => {| s_type := js "json"; s_key := raw |}
    | Some idx =>
        let prefix := ascii_lower (trim (slice 0 idx raw)) in
        let key := trim (slice_from (idx + 1) raw) in
        {| s_type := if prefix =s js "header" then js "header" else js "json"; s_key := key |}
    end.

Definition buildSyncTargetSpec (type key : jstr) : jstr :=
  let normalizedType := if type =s js "header" then js "header" else js "json" in
  let normalizedKey := trim key in
  if negb (truthy normalizedKey) then [] else normalizedType ++ js ":" ++ normalizedKey.

(** ** The draft of a custom error *)

Record ReturnErrorDraft := {
  e_message : jstr; e_statusCode : number; e_code : jstr; e_type : jstr; e_skipRetry : bool; e_simpleMode : bool }.

Definition status_or_400 (statusValue : number) : number :=
  if n_isInteger statusValue && n_leb (num_of_Z 100) statusValue && n_leb statusValue (num_of_Z 599)
  then statusValue else num_of_Z 400.

(** [String(a || '').trim()] of a property *)
Definition text_prop (v : jsval) : option jstr := trim <$> string_of (v_or v (VStr [])).

Definition parseReturnErrorDraft (valueText : jstr) : ReturnErrorDraft :=
  let draft message statusCode code type skipRetry simpleMode :=
    {| e_message := message; e_statusCode := statusCode; e_code := code; e_type := type; e_skipRetry := skipRetry;
       e_simpleMode := simpleMode |} in
  let raw := trim valueText in
  let plain := draft raw (num_of_Z 400) [] [] true true in
  if negb (truthy raw) then draft [] (num_of_Z 400) [] [] true true
  else
    match json_parse raw with
    | Some (VObj _ as parsed) =>
        default plain (
          let statusRaw := if is_undefined (get (js "status_code") parsed) then get (js "status") parsed
                           else get (js "status_code") parsed in
          statusValue ← number_of statusRaw;
          message ← text_prop (v_or (get (js "message") parsed) (get (js "msg") parsed));
          code ← text_prop (get (js "code") parsed);
          type ← text_prop (get (js "type") parsed);
          Some (draft message (status_or_400 statusValue) code type (negb (is_false (get (js "skip_retry") parsed))) false))
    | _ => plain
    end.

Definition buildReturnErrorValueText (d : ReturnErrorDraft) : jstr :=
  let message := trim (e_message d) in
  if e_simpleMode d then message
  else
    let code := trim (e_code d) in
    let type := trim (e_type d) in
    let payload := [(js "message", VStr message); (js "status_code", VNum (status_or_400 (e_statusCode d)))] in
    let payload := set_if (truthy code) (js "code") (VStr code) payload in
    let payload := set_if (truthy type) (js "type") (VStr type) payload in
    let payload := set_if (negb (e_skipRetry d)) (js "skip_retry") (VBool false) payload in
    text_of (VObj payload).

(** ** The draft of a pruning rule *)

Record PruneRule := {
  r_id : jstr; r_path : jstr; r_mode : jstr; r_value_text : jstr; r_invert : bool; r_pass_missing_key : bool }.

Record PruneObjectsDraft := {
  p_simpleMode : bool; p_typeText : jstr; p_logic : jstr; p_recursive : bool; p_rules : list PruneRule }.

Section prune.
Context (clock : N -> N).

Definition normalizePruneRule (v : jsval) : ids PruneRule :=
  id ← nextLocalId clock;
  rule ← fields_of v;
  mret {| r_id := id;
          r_path := string_or_empty (get (js "path") rule);
          r_mode := known (get (js "mode") rule) CONDITION_MODE_VALUES (js "full");
          r_value_text := toValueText (get (js "value") rule);
          r_invert := is_true (get (js "invert") rule);
          r_pass_missing_key := is_true (get (js "pass_missing_key") rule) |}.

(** [normalizePruneRule({ path, mode: 'full', value })] for each entry of an object. *)
Definition rules_of_entries (o : list (jstr * jsval)) : ids (list PruneRule) :=
  ids_map (fun '(path, value) =>
    normalizePruneRule (lit [(js "path", VStr path); (js "mode", str "full"); (js "value", value)])) o.

Definition default_prune (typeText : jstr) : PruneObjectsDraft :=
  {| p_simpleMode := true; p_typeText := typeText; p_logic := js "AND"; p_recursive := true; p_rules := [] |}.

(** The draft of an object; its conversions can throw. *)
Definition parse_prune_object (parsed : jsval) : ids PruneObjectsDraft :=
  where_rules ← match get (js "where") parsed with VObj o => rules_of_entries o | _ => mret [] end;
  condition_rules ← match get (js "conditions") parsed with
                    | VArr l => ids_map normalizePruneRule (bfilter is_record l)
                    | VObj o => rules_of_entries o
                    | _ => mret []
                    end;
  typeText ← match get (js "type") parsed with
             | VUndef => mret []
             | v => s ← lift (string_of v); mret (trim s)
             end;
  logic ← lift (string_of (v_or (get (js "logic") parsed) (str "AND")));
  let present k := negb (is_undefined (get k parsed)) in
  let hasAdvancedFields := present (js "logic") || present (js "recursive") || present (js "where") || present (js "conditions") in
  mret {| p_simpleMode := negb hasAdvancedFields;
          p_typeText := typeText;
          p_logic := if ascii_upper logic =s js "OR" then js "OR" else js "AND";
          p_recursive := negb (is_false (get (js "recursive") parsed));
          p_rules := where_rules ++ condition_rules |}.

(** [try { ... } catch { return fallback }] *)
Definition catch {A} (fallback : A) (m : ids A) : ids A :=
  fun n => match m n with (None, n') => (Some fallback, n') | r => r end.

Definition parsePruneObjectsDraft (valueText : jstr) : ids PruneObjectsDraft :=
  let raw := trim valueText in
  if negb (truthy raw) then mret (default_prune [])
  else
    match json_parse raw with
    | None => mret (default_prune raw)
    | Some (VStr s) => mret (default_prune (trim s))
    | Some (VObj _ as parsed) => catch (default_prune raw) (parse_prune_object parsed)
    | Some parsed =>
        catch (default_prune raw)
          (s ← lift (string_of (match parsed with VNull => VStr [] | v => v end)); mret (default_prune (trim s)))
    end.

End prune.

Definition prune_condition (rule : PruneRule) : jsval :=
  let valueRaw := trim (r_value_text rule) in
  let payload := [(js "path", VStr (trim (r_path rule)));
                  (js "mode", VStr (if has (r_mode rule) CONDITION_MODE_VALUES then r_mode rule else js "full"))] in
  let payload := set_if (truthy valueRaw) (js "value") (parseLooseValue valueRaw) payload in
  let payload := set_if (r_invert rule) (js "invert") (VBool true) payload in
  VObj (set_if (r_pass_missing_key rule) (js "pass_missing_key") (VBool true) payload).

Definition buildPruneObjectsValueText (draft : PruneObjectsDraft) : jstr :=
  let typeText := trim (p_typeText draft) in
  if p_simpleMode draft then typeText
  else
    let conditions := map prune_condition (bfilter (fun rule => truthy (trim (r_path rule))) (p_rules draft)) in
    let some := match conditions with [] => false | _ => true end in
    let payload := set_if (truthy typeText) (js "type") (VStr typeText) [] in
    let payload := set_if (ascii_upper (str_or (p_logic draft) (js "AND")) =s js "OR") (js "logic") (str "OR") payload in
    let payload := set_if (negb (p_recursive draft)) (js "recursive") (VBool false) payload in
    let payload := set_if some (js "conditions") (VArr conditions) payload in
    if negb (v_truthy (get (js "type") (VObj payload))) && negb (v_truthy (get (js "conditions") (VObj payload)))
    then text_of (VObj [(js "logic", str "AND")])
    else text_of (VObj payload).

(** ** Header names *)

(** [rawValue.map((i) => String(i ?? '').trim()).filter(Boolean)] *)
Definition header_texts (l : list jsval) : option (list jstr) :=
  bfilter truthy <$>
  mapM (fun i => trim <$> match i with VNull | VUndef => Some [] | _ => string_of i end) l.

(** [None] when a conversion throws. *)
Definition parsePassHeaderNames (rawValue : jsval) : option (list jstr) :=
  match rawValue with
  | VArr l => header_texts l
  | VObj _ =>
      match get (js "headers") rawValue with
      | VArr l => header_texts l
      | _ =>
          match get (js "header") rawValue with
          | VUndef => Some []
          | v => header_texts [v]
          end
      end
  | VStr s => Some (bfilter truthy (map trim (split_on 44 s)))
  | _ => Some []
  end.

(** ** Saving *)

Definition buildConditionPayload (condition : ParamOverrideCondition) : option jsval :=
  let path := trim (c_path condition) in
  if negb (truthy path) then None
  else
    let payload := [(js "path", VStr path); (js "mode", VStr (str_or (c_mode condition) (js "full")));
                    (js "value", parseLooseValue (c_value_text condition))] in
    let payload := set_if (c_invert condition) (js "invert") (VBool true) payload in
    Some (VObj (set_if (c_pass_missing_key condition) (js "pass_missing_key") (VBool true) payload)).

Section validate.
Context (t : jstr -> option nat -> jstr) (type_error : jstr).

(** The check of one rule: the message it stops with, returned or thrown; [None] when it passes. *)
Definition validate_operation (op : ParamOverrideOperation) (line : nat) : option jstr :=
  let mode := str_or (o_mode op) (js "set") in
  let meta := meta_of mode in
  let pathValue := trim (o_path op) in
  let fromValue := trim (o_from op) in
  let toValue := trim (o_to op) in
  let raw := trim (o_value_text op) in
  let alias := m_pathAlias meta && truthy pathValue in
  if m_path meta && negb (truthy pathValue) then Some (t (js "Rule {{line}} is missing target path") (Some line))
  else if has mode FROM_REQUIRED_MODES && negb (truthy fromValue) && negb alias
  then Some (t (js "Rule {{line}} is missing source field") (Some line))
  else if has mode TO_REQUIRED_MODES && negb (truthy toValue) && negb alias
  then Some (t (js "Rule {{line}} is missing target field") (Some line))
  else if has mode VALUE_REQUIRED_MODES && (raw =s []) then Some (t (js "Rule {{line}} is missing value") (Some line))
  else if mode =s js "return_error" then
    if negb (truthy raw) then Some (t (js "Rule {{line}} is missing value") (Some line))
    else
      match json_parse raw with
      | Some (VObj _ as parsed) =>
          match text_prop (get (js "message") parsed) with
          | Some m => if truthy m then None else Some (t (js "Rule {{line}} return_error requires a message field") (Some line))
          | None => None
          end
      | _ => None
      end
  else if mode =s js "prune_objects" then
    if negb (truthy raw) then Some (t (js "Rule {{line}} prune_objects is missing conditions") (Some line)) else None
  else if mode =s js "pass_headers" then
    if negb (truthy raw) then Some (t (js "Rule {{line}} pass_headers is missing header names") (Some line))
    else
      match parsePassHeaderNames (parseLooseValue raw) with
      | None => Some type_error
      | Some [] => Some (t (js "Rule {{line}} pass_headers format is invalid") (Some line))
      | Some _ => None
      end
  else None.

(** The message of the first rule that fails, from line [i + 1] on; [[]] when all pass. *)
Fixpoint validate_from (i : nat) (operations : list ParamOverrideOperation) : jstr :=
  match operations with
  | [] => []
  | op :: rest => match validate_operation op (i + 1) with Some message => message | None => validate_from (S i) rest end
  end.

Definition validateOperations (operations : list ParamOverrideOperation) : jstr := validate_from 0 operations.

Definition operation_payload (operation : ParamOverrideOperation) : jsval :=
  let mode := str_or (o_mode operation) (js "set") in
  let meta := meta_of mode in
  let descriptionValue := trim (o_description operation) in
  let pathValue := trim (o_path operation) in
  let fromValue := trim (o_from operation) in
  let toValue := trim (o_to operation) in
  let meta_to := match m_to meta with Some b => b | None => false end in
  let payload := [(js "mode", VStr mode)] in
  let payload := set_if (truthy descriptionValue) (js "description") (VStr descriptionValue) payload in
  let payload := set_if (m_path meta) (js "path") (VStr pathValue) payload in
  let payload := set_if (m_pathOptional meta && truthy pathValue) (js "path") (VStr pathValue) payload in
  let payload := set_if (m_value meta) (js "value") (parseLooseValue (o_value_text operation)) payload in
  let payload := set_if (m_keepOrigin meta && o_keep_origin operation) (js "keep_origin") (VBool true) payload in
  let payload := set_if (m_from meta) (js "from") (VStr fromValue) payload in
  let payload := set_if (negb meta_to && truthy (trim (o_to operation))) (js "to") (VStr toValue) payload in
  let payload := set_if meta_to (js "to") (VStr toValue) payload in
  let payload :=
    if m_pathAlias meta then
      let payload := set_if (negb (v_truthy (get (js "from") (VObj payload))) && truthy pathValue) (js "from") (VStr pathValue) payload in
      set_if (negb (v_truthy (get (js "to") (VObj payload))) && truthy pathValue) (js "to") (VStr pathValue) payload
    else payload in
  let conditions := omap buildConditionPayload (o_conditions operation) in
  match conditions with
  | [] => VObj payload
  | _ =>
      let payload := prop_set (js "conditions") (VArr conditions) payload in
      VObj (prop_set (js "logic") (if o_logic operation =s js "AND" then str "AND" else str "OR") payload)
  end.

(** [inl] is the message of the error thrown.  A thrown [TypeError] of the validator has a
    message that is not empty, as the messages of the rules have. *)
Definition buildOperationsJson (sourceOperations : list ParamOverrideOperation) (validate : bool) : jstr + jstr :=
  let filteredOps := bfilter (fun o => negb (isOperationBlank o)) sourceOperations in
  match filteredOps with
  | [] => inr []
  | _ =>
      let message := if validate then validateOperations filteredOps else [] in
      if truthy message then inl message
      else inr (pretty_of (VObj [(js "operations", VArr (map operation_payload filteredOps))]))
  end.

End validate.

(** ** Opening *)

Inductive EditMode := EVisual | EJson.
Inductive VisualMode := VOperations | VLegacy.

#[export] Instance edit_mode_eq_dec : EqDecision EditMode.
Proof. solve_decision. Defined.
#[export] Instance visual_mode_eq_dec : EqDecision VisualMode.
Proof. solve_decision. Defined.

Record EditorState := {
  i_editMode : EditMode; i_visualMode : VisualMode; i_legacyValue : jstr; i_operations : list ParamOverrideOperation;
  i_jsonText : jstr; i_jsonError : jstr }.

Section initial.
Context (clock : N -> N).

(** [{ operations: [...] }] *)
Definition operations_of (parsed : jsval) : option (list jsval) :=
  match parsed with VObj _ => as_array (get (js "operations") parsed) | _ => None end.

(** The rules of an array, or the one empty rule. *)
Definition rules_of (l : list jsval) : ids (list ParamOverrideOperation) :=
  match l with
  | [] => op ← createDefaultOperation clock; mret [op]
  | _ => ids_map (normalizeOperation clock) l
  end.

Definition parseInitialState (rawValue : jstr) : ids EditorState :=
  let state editMode visualMode legacyValue operations jsonText jsonError :=
    {| i_editMode := editMode; i_visualMode := visualMode; i_legacyValue := legacyValue; i_operations := operations;
       i_jsonText := jsonText; i_jsonError := jsonError |} in
  let trimmed := trim rawValue in
  if negb (truthy trimmed) then
    op ← createDefaultOperation clock; mret (state EVisual VOperations [] [op] [] [])
  else
    match json_parse trimmed with
    | None => op ← createDefaultOperation clock; mret (state EJson VOperations [] [op] rawValue (js "Invalid JSON format"))
    | Some parsed =>
        let pretty := pretty_of parsed in
        match operations_of parsed, parsed with
        | Some l, _ => ops ← rules_of l; mret (state EVisual VOperations [] ops pretty [])
        | None, VObj _ => op ← createDefaultOperation clock; mret (state EVisual VLegacy pretty [op] pretty [])
        | None, _ => op ← createDefaultOperation clock; mret (state EJson VOperations [] [op] pretty [])
        end
    end.

End initial.
