(* ===== verification/ParamEditor.v ===== *)
(** * The parameter override dialog

    [ParamOverrideEditorDialog] of
    [features/channels/components/dialogs/param-override-editor-dialog.tsx] as a machine:
    its [useState] cells, its handlers, the effects that open it and that keep the selected
    rule valid, and the memo of the pruning draft it shows.  Every handler of the source is
    one definition; [handle] gives the handler of an event and [settle] is the effect that
    runs after it. *)

From S2P Require Import Prelude Machine JsString JsNumber Json JsonText ParamOverride.

(** ** State *)

Record Drag := { g_dragged : jstr; g_over : jstr; g_position : DropPosition }.

Definition no_drag : Drag := {| g_dragged := []; g_over := []; g_position := Before |}.

(** Not open, open, or unmounted by an error that was thrown while it opened. *)
Inductive Status := Closed | Opened | Crashed.

#[export] Instance status_eq_dec : EqDecision Status.
Proof. solve_decision. Defined.

(** [d_content] has the cells that [parseInitialState] fills, [d_prune] is the draft on
    screen, [d_seed] is [localIdSeed]; [d_saved] has the arguments of [onSave] and [d_toasts]
    the messages of [toast.error], the last first. *)
Record Dialog := {
  d_status : Status; d_content : EditorState; d_search : jstr; d_selected : jstr; d_expanded : list (jstr * bool);
  d_drag : Drag; d_preset : jstr; d_prune : option PruneObjectsDraft; d_seed : N; d_saved : list jstr;
  d_toasts : list jstr }.

Definition d_ops (d : Dialog) : list ParamOverrideOperation := i_operations (d_content d).
Definition d_json (d : Dialog) : jstr := i_jsonText (d_content d).
Definition d_legacy (d : Dialog) : jstr := i_legacyValue (d_content d).
Definition d_edit (d : Dialog) : EditMode := i_editMode (d_content d).
Definition d_visual (d : Dialog) : VisualMode := i_visualMode (d_content d).

(** *** Setters *)

Definition setContent (c : EditorState) (d : Dialog) : Dialog :=
  {| d_status := d_status d; d_content := c; d_search := d_search d; d_selected := d_selected d;
     d_expanded := d_expanded d; d_drag := d_drag d; d_preset := d_preset d; d_prune := d_prune d; d_seed := d_seed d;
     d_saved := d_saved d; d_toasts := d_toasts d |}.

Definition setOperations (ops : list ParamOverrideOperation) (d : Dialog) : Dialog :=
  let c := d_content d in
  setContent {| i_editMode := i_editMode c; i_visualMode := i_visualMode c; i_legacyValue := i_legacyValue c;
                i_operations := ops; i_jsonText := i_jsonText c; i_jsonError := i_jsonError c |} d.

Definition setEditMode (m : EditMode) (d : Dialog) : Dialog :=
  let c := d_content d in
  setContent {| i_editMode := m; i_visualMode := i_visualMode c; i_legacyValue := i_legacyValue c;
                i_operations := i_operations c; i_jsonText := i_jsonText c; i_jsonError := i_jsonError c |} d.

Definition setVisualMode (m : VisualMode) (d : Dialog) : Dialog :=
  let c := d_content d in
  setContent {| i_editMode := i_editMode c; i_visualMode := m; i_legacyValue := i_legacyValue c;
                i_operations := i_operations c; i_jsonText := i_jsonText c; i_jsonError := i_jsonError c |} d.

Definition setLegacyValue (v : jstr) (d : Dialog) : Dialog :=
  let c := d_content d in
  setContent {| i_editMode := i_editMode c; i_visualMode := i_visualMode c; i_legacyValue := v;
                i_operations := i_operations c; i_jsonText := i_jsonText c; i_jsonError := i_jsonError c |} d.

Definition setJsonText (v : jstr) (d : Dialog) : Dialog :=
  let c := d_content d in
  setContent {| i_editMode := i_editMode c; i_visualMode := i_visualMode c; i_legacyValue := i_legacyValue c;
                i_operations := i_operations c; i_jsonText := v; i_jsonError := i_jsonError c |} d.

Definition setJsonError (v : jstr) (d : Dialog) : Dialog :=
  let c := d_content d in
  setContent {| i_editMode := i_editMode c; i_visualMode := i_visualMode c; i_legacyValue := i_legacyValue c;
                i_operations := i_operations c; i_jsonText := i_jsonText c; i_jsonError := v |} d.

Definition setView (search selected : jstr) (expanded : list (jstr * bool)) (drag : Drag) (preset : jstr) (d : Dialog) : Dialog :=
  {| d_status := d_status d; d_content := d_content d; d_search := search; d_selected := selected;
     d_expanded := expanded; d_drag := drag; d_preset := preset; d_prune := d_prune d; d_seed := d_seed d;
     d_saved := d_saved d; d_toasts := d_toasts d |}.

Definition setOperationSearch (v : jstr) (d : Dialog) : Dialog :=
  setView v (d_selected d) (d_expanded d) (d_drag d) (d_preset d) d.
Definition setSelectedOperationId (v : jstr) (d : Dialog) : Dialog :=
  setView (d_search d) v (d_expanded d) (d_drag d) (d_preset d) d.
Definition setExpandedConditions (v : list (jstr * bool)) (d : Dialog) : Dialog :=
  setView (d_search d) (d_selected d) v (d_drag d) (d_preset d) d.
Definition setDrag (v : Drag) (d : Dialog) : Dialog :=
  setView (d_search d) (d_selected d) (d_expanded d) v (d_preset d) d.
Definition setTemplatePresetKey (v : jstr) (d : Dialog) : Dialog :=
  setView (d_search d) (d_selected d) (d_expanded d) (d_drag d) v d.

Definition setOutside (status : Status) (prune : option PruneObjectsDraft) (seed : N) (saved toasts : list jstr) (d : Dialog) :
    Dialog :=
  {| d_status := status; d_content := d_content d; d_search := d_search d; d_selected := d_selected d;
     d_expanded := d_expanded d; d_drag := d_drag d; d_preset := d_preset d; d_prune := prune; d_seed := seed;
     d_saved := saved; d_toasts := toasts |}.

Definition setStatus (s : Status) (d : Dialog) : Dialog := setOutside s (d_prune d) (d_seed d) (d_saved d) (d_toasts d) d.
Definition setPrune (p : option PruneObjectsDraft) (d : Dialog) : Dialog :=
  setOutside (d_status d) p (d_seed d) (d_saved d) (d_toasts d) d.
Definition setSeed (n : N) (d : Dialog) : Dialog := setOutside (d_status d) (d_prune d) n (d_saved d) (d_toasts d) d.
Definition save (text : jstr) (d : Dialog) : Dialog :=
  setOutside (d_status d) (d_prune d) (d_seed d) (text :: d_saved d) (d_toasts d) d.
Definition toast_error (m : jstr) (d : Dialog) : Dialog :=
  setOutside (d_status d) (d_prune d) (d_seed d) (d_saved d) (m :: d_toasts d) d.

(** Run a computation that draws ids; when it throws, only the seed has changed. *)
Definition drawing {A} (m : ids A) (k : A -> Dialog -> Dialog) (d : Dialog) : Dialog :=
  match m (d_seed d) with
  | (Some x, n) => k x (setSeed n d)
  | (None, n) => setSeed n d
  end.

(** ** Patches *)

Record OperationPatch := {
  po_description : option jstr; po_path : option jstr; po_mode : option jstr; po_from : option jstr; po_to : option jstr;
  po_value_text : option jstr; po_keep_origin : option bool; po_logic : option jstr }.

(** [{ ...o, ...patch }] *)
Definition patch_operation (p : OperationPatch) (o : ParamOverrideOperation) : ParamOverrideOperation :=
  {| o_id := o_id o; o_description := default (o_description o) (po_description p);
     o_path := default (o_path o) (po_path p); o_mode := default (o_mode o) (po_mode p);
     o_from := default (o_from o) (po_from p); o_to := default (o_to o) (po_to p);
     o_value_text := default (o_value_text o) (po_value_text p);
     o_keep_origin := default (o_keep_origin o) (po_keep_origin p); o_logic := default (o_logic o) (po_logic p);
     o_conditions := o_conditions o |}.

(** The patch of a condition and of a pruning rule. *)
Record RowPatch := {
  pc_path : option jstr; pc_mode : option jstr; pc_value_text : option jstr; pc_invert : option bool;
  pc_pass_missing_key : option bool }.

Definition patch_condition (p : RowPatch) (c : ParamOverrideCondition) : ParamOverrideCondition :=
  {| c_id := c_id c; c_path := default (c_path c) (pc_path p); c_mode := default (c_mode c) (pc_mode p);
     c_value_text := default (c_value_text c) (pc_value_text p); c_invert := default (c_invert c) (pc_invert p);
     c_pass_missing_key := default (c_pass_missing_key c) (pc_pass_missing_key p) |}.

Definition patch_rule (p : RowPatch) (r : PruneRule) : PruneRule :=
  {| r_id := r_id r; r_path := default (r_path r) (pc_path p); r_mode := default (r_mode r) (pc_mode p);
     r_value_text := default (r_value_text r) (pc_value_text p); r_invert := default (r_invert r) (pc_invert p);
     r_pass_missing_key := default (r_pass_missing_key r) (pc_pass_missing_key p) |}.

Record ReturnErrorPatch := {
  pe_message : option jstr; pe_statusCode : option number; pe_code : option jstr; pe_type : option jstr;
  pe_skipRetry : option bool; pe_simpleMode : option bool }.

Definition patch_error (p : ReturnErrorPatch) (e : ReturnErrorDraft) : ReturnErrorDraft :=
  {| e_message := default (e_message e) (pe_message p); e_statusCode := default (e_statusCode e) (pe_statusCode p);
     e_code := default (e_code e) (pe_code p); e_type := default (e_type e) (pe_type p);
     e_skipRetry := default (e_skipRetry e) (pe_skipRetry p); e_simpleMode := default (e_simpleMode e) (pe_simpleMode p) |}.

Record PrunePatch := {
  pp_simpleMode : option bool; pp_typeText : option jstr; pp_logic : option jstr; pp_recursive : option bool }.

Definition patch_prune (p : PrunePatch) (d : PruneObjectsDraft) : PruneObjectsDraft :=
  {| p_simpleMode := default (p_simpleMode d) (pp_simpleMode p); p_typeText := default (p_typeText d) (pp_typeText p);
     p_logic := default (p_logic d) (pp_logic p); p_recursive := default (p_recursive d) (pp_recursive p);
     p_rules := p_rules d |}.

Definition set_rules (rules : list PruneRule) (d : PruneObjectsDraft) : PruneObjectsDraft :=
  {| p_simpleMode := p_simpleMode d; p_typeText := p_typeText d; p_logic := p_logic d; p_recursive := p_recursive d;
     p_rules := rules |}.

Definition set_value_text (text : jstr) (o : ParamOverrideOperation) : ParamOverrideOperation :=
  {| o_id := o_id o; o_description := o_description o; o_path := o_path o; o_mode := o_mode o; o_from := o_from o;
     o_to := o_to o; o_value_text := text; o_keep_origin := o_keep_origin o; o_logic := o_logic o;
     o_conditions := o_conditions o |}.

Definition set_conditions (cs : list ParamOverrideCondition) (o : ParamOverrideOperation) : ParamOverrideOperation :=
  {| o_id := o_id o; o_description := o_description o; o_path := o_path o; o_mode := o_mode o; o_from := o_from o;
     o_to := o_to o; o_value_text := o_value_text o; o_keep_origin := o_keep_origin o; o_logic := o_logic o;
     o_conditions := cs |}.

Section dialog.
Context (clock : N -> N) (t : jstr -> option nat -> jstr) (type_error : jstr).

(** ** What is shown *)

Definition operationCount (d : Dialog) : nat := length (bfilter (fun o => negb (isOperationBlank o)) (d_ops d)).

Definition searchable (op : ParamOverrideOperation) : jstr :=
  join (js " ") (bfilter truthy [o_description op; o_mode op; o_path op; o_from op; o_to op; o_value_text op]).

Definition filteredOperations (toLowerCase : jstr -> jstr) (d : Dialog) : list ParamOverrideOperation :=
  let keyword := toLowerCase (trim (d_search d)) in
  if negb (truthy keyword) then d_ops d
  else bfilter (fun op => includes keyword (toLowerCase (searchable op))) (d_ops d).

Definition selectedOperation (d : Dialog) : option ParamOverrideOperation :=
  find_first (fun o => o_id o =s d_selected d) (d_ops d).

Definition selectedOperationIndex (d : Dialog) : option nat := find_index (fun o => o_id o =s d_selected d) (d_ops d).

Definition returnErrorDraft (d : Dialog) : option ReturnErrorDraft :=
  o ← selectedOperation d;
  if o_mode o =s js "return_error" then Some (parseReturnErrorDraft (o_value_text o)) else None.

Definition pruneObjectsDraft (d : Dialog) : ids (option PruneObjectsDraft) :=
  match selectedOperation d with
  | Some o => if o_mode o =s js "prune_objects" then p ← parsePruneObjectsDraft clock (o_value_text o); mret (Some p) else mret None
  | None => mret None
  end.

Definition topOperationModes (d : Dialog) : list (jstr * Z) :=
  let counts := fold_left (fun counts op =>
    let mode := str_or (o_mode op) (js "set") in
    prop_set mode (default 0 (prop_get mode counts) + 1)%Z counts) (d_ops d) [] in
  take 4 (js_sort (fun a b => (snd b <=? snd a)%Z) counts).

(** ** Rules and conditions *)

Definition on_operation (operationId : jstr) (f : ParamOverrideOperation -> ParamOverrideOperation)
    (ops : list ParamOverrideOperation) : list ParamOverrideOperation :=
  map (fun o => if o_id o =s operationId then f o else o) ops.

Definition updateOperation (operationId : jstr) (patch : OperationPatch) (d : Dialog) : Dialog :=
  setOperations (on_operation operationId (patch_operation patch) (d_ops d)) d.

Definition addOperation : Dialog -> Dialog :=
  drawing (createDefaultOperation clock) (fun created d =>
    setSelectedOperationId (o_id created) (setOperations (d_ops d ++ [created]) d)).

(** The value that is cloned: the texts go through [parseLooseValue]. *)
Definition clone_value (source : ParamOverrideOperation) : jsval :=
  lit [(js "description", VStr (o_description source)); (js "path", VStr (o_path source));
       (js "mode", VStr (o_mode source)); (js "value", parseLooseValue (o_value_text source));
       (js "keep_origin", VBool (o_keep_origin source)); (js "from", VStr (o_from source)); (js "to", VStr (o_to source));
       (js "logic", VStr (o_logic source));
       (js "conditions", VArr (map (fun c =>
          lit [(js "path", VStr (c_path c)); (js "mode", VStr (c_mode c)); (js "value", parseLooseValue (c_value_text c));
               (js "invert", VBool (c_invert c)); (js "pass_missing_key", VBool (c_pass_missing_key c))])
          (o_conditions source)))].

(** [eager]: React ran the updater before [setOperations] returned, so that [insertedId] is
    set when it is tested. *)
Definition duplicateOperation (operationId : jstr) (eager : bool) (d : Dialog) : Dialog :=
  match find_index (fun o => o_id o =s operationId) (d_ops d) with
  | None => d
  | Some idx =>
      match d_ops d !! idx with
      | None => d
      | Some source =>
          drawing (normalizeOperation clock (clone_value source)) (fun cloned d =>
            let d' := setOperations (splice_in (idx + 1) cloned (d_ops d)) d in
            if eager && truthy (o_id cloned) then setSelectedOperationId (o_id cloned) d' else d') d
      end
  end.

Definition removeOperation (operationId : jstr) (d : Dialog) : Dialog :=
  if length (d_ops d) <=? 1 then drawing (createDefaultOperation clock) (fun op => setOperations [op]) d
  else setOperations (bfilter (fun o => negb (o_id o =s operationId)) (d_ops d)) d.

Definition addCondition (operationId : jstr) : Dialog -> Dialog :=
  drawing (createDefaultCondition clock) (fun created d =>
    setExpandedConditions (prop_set (c_id created) true (d_expanded d))
      (setOperations (on_operation operationId (fun op => set_conditions (o_conditions op ++ [created]) op) (d_ops d)) d)).

Definition updateCondition (operationId conditionId : jstr) (patch : RowPatch) (d : Dialog) : Dialog :=
  setOperations (on_operation operationId (fun op =>
    set_conditions (map (fun c => if c_id c =s conditionId then patch_condition patch c else c) (o_conditions op)) op)
    (d_ops d)) d.

Definition removeCondition (operationId conditionId : jstr) (d : Dialog) : Dialog :=
  setOperations (on_operation operationId (fun op =>
    set_conditions (bfilter (fun c => negb (c_id c =s conditionId)) (o_conditions op)) op) (d_ops d)) d.

Definition updateReturnErrorDraft (operationId : jstr) (patch : ReturnErrorPatch) (d : Dialog) : Dialog :=
  setOperations (on_operation operationId (fun op =>
    set_value_text (buildReturnErrorValueText (patch_error patch (parseReturnErrorDraft (o_value_text op)))) op) (d_ops d)) d.

(** The updater runs in [ids]: reading the draft gives every rule of it a new id. *)
Definition updatePruneObjectsDraft (operationId : jstr) (updater : PruneObjectsDraft -> ids PruneObjectsDraft) : Dialog -> Dialog :=
  fun d => drawing
    (ids_map (fun op =>
       if negb (o_id op =s operationId) then mret op
       else draft ← parsePruneObjectsDraft clock (o_value_text op);
            nextDraft ← updater draft;
            mret (set_value_text (buildPruneObjectsValueText nextDraft) op)) (d_ops d))
    setOperations d.

Definition updatePruneFields (operationId : jstr) (patch : PrunePatch) : Dialog -> Dialog :=
  updatePruneObjectsDraft operationId (fun draft => mret (patch_prune patch draft)).

Definition addPruneRule (operationId : jstr) : Dialog -> Dialog :=
  updatePruneObjectsDraft operationId (fun draft =>
    created ← normalizePruneRule clock (lit []);
    mret {| p_simpleMode := false; p_typeText := p_typeText draft; p_logic := p_logic draft;
            p_recursive := p_recursive draft; p_rules := p_rules draft ++ [created] |}).

Definition updatePruneRule (operationId ruleId : jstr) (patch : RowPatch) : Dialog -> Dialog :=
  updatePruneObjectsDraft operationId (fun draft =>
    mret (set_rules (map (fun r => if r_id r =s ruleId then patch_rule patch r else r) (p_rules draft)) draft)).

Definition removePruneRule (operationId ruleId : jstr) : Dialog -> Dialog :=
  updatePruneObjectsDraft operationId (fun draft =>
    mret (set_rules (bfilter (fun r => negb (r_id r =s ruleId)) (p_rules draft)) draft)).

(** ** Dragging *)

Definition resetDragState : Dialog -> Dialog := setDrag no_drag.

Definition handleDragStart (operationId : jstr) (d : Dialog) : Dialog :=
  setSelectedOperationId operationId
    (setDrag {| g_dragged := operationId; g_over := g_over (d_drag d); g_position := g_position (d_drag d) |} d).

(** [position] is the half of the row the pointer is in. *)
Definition handleDragOver (operationId : jstr) (position : DropPosition) (d : Dialog) : Dialog :=
  let dragged := g_dragged (d_drag d) in
  if negb (truthy dragged) || (dragged =s operationId) then d
  else setDrag {| g_dragged := dragged; g_over := operationId; g_position := position |} d.

(** [transferred] is [event.dataTransfer.getData('text/plain')]. *)
Definition handleDrop (operationId transferred : jstr) (d : Dialog) : Dialog :=
  let sourceId := str_or (g_dragged (d_drag d)) transferred in
  let position := if g_over (d_drag d) =s operationId then g_position (d_drag d) else Before in
  resetDragState
    (if truthy sourceId && truthy operationId && negb (sourceId =s operationId)
     then setSelectedOperationId sourceId (setOperations (reorderOperations (d_ops d) sourceId operationId position) d)
     else d).

(** ** Modes, templates and saving *)

(** [inl] is the message of the error thrown. *)
Definition buildVisualJson (d : Dialog) : jstr + jstr :=
  match d_visual d with
  | VLegacy =>
      let trimmed := trim (d_legacy d) in
      if negb (truthy trimmed) then inr []
      else
        match json_parse trimmed with
        | None => inl (t (js "Parameter override must be valid JSON format") None)
        | Some (VObj o) => inr (pretty_of (VObj o))
        | Some _ => inl (t (js "Legacy format must be a JSON object") None)
        end
  | VOperations => buildOperationsJson t type_error (d_ops d) true
  end.

Definition switchToJsonMode (d : Dialog) : Dialog :=
  match d_edit d with
  | EJson => d
  | EVisual =>
      setEditMode EJson
        match buildVisualJson d with
        | inr text => setJsonError [] (setJsonText text d)
        | inl message =>
            let text := match d_visual d with
                        | VLegacy => d_legacy d
                        | VOperations => match buildOperationsJson t type_error (d_ops d) false with inr s => s | inl _ => d_json d end
                        end in
            setJsonError (str_or message (t (js "Parameter configuration error") None))
              (setJsonText text (toast_error message d))
        end
  end.

Definition switchToVisualMode (d : Dialog) : Dialog :=
  match d_edit d with
  | EVisual => d
  | EJson =>
      let trimmed := trim (d_json d) in
      if negb (truthy trimmed) then
        drawing (createDefaultOperation clock) (fun fallback d =>
          setEditMode EVisual (setJsonError [] (setLegacyValue [] (setSelectedOperationId (o_id fallback)
            (setOperations [fallback] (setVisualMode VOperations d)))))) d
      else
        match json_parse trimmed with
        | None => toast_error (t (js "Parameter override must be valid JSON format") None) d
        | Some parsed =>
            match operations_of parsed, parsed with
            | Some l, _ =>
                drawing (rules_of clock l) (fun nextOps d =>
                  setTemplatePresetKey (js "operations_default") (setEditMode EVisual (setJsonError [] (setLegacyValue []
                    (setSelectedOperationId (match nextOps with o :: _ => o_id o | [] => [] end)
                      (setOperations nextOps (setVisualMode VOperations d))))))) d
            | None, VObj _ =>
                drawing (createDefaultOperation clock) (fun fallback d =>
                  setTemplatePresetKey (js "legacy_default") (setEditMode EVisual (setJsonError []
                    (setSelectedOperationId (o_id fallback) (setOperations [fallback]
                      (setLegacyValue (pretty_of parsed) (setVisualMode VLegacy d))))))) d
            | None, _ => toast_error (t (js "Parameter override must be a valid JSON object") None) d
            end
        end
  end.

(** The own enumerable properties that a spread copies. *)
Definition own_entries (v : jsval) : list (jstr * jsval) :=
  match v with
  | VObj o => o
  | VArr l => imap (fun i x => (show_nat i, x)) l
  | VStr s => imap (fun i c => (show_nat i, VStr [c])) s
  | _ => []
  end.

(** [{ ...base, ...v }] *)
Definition spread (base v : jsval) : jsval :=
  VObj (fold_left (fun acc '(k, x) => prop_set k x acc) (own_entries base ++ own_entries v) []).

Definition head_id (ops : list ParamOverrideOperation) : jstr := match ops with o :: _ => o_id o | [] => [] end.

(** Show a legacy text. *)
Definition show_legacy (text : jstr) : Dialog -> Dialog :=
  drawing (createDefaultOperation clock) (fun op d =>
    setEditMode EVisual (setJsonError [] (setJsonText text (setOperations [op] (setLegacyValue text (setVisualMode VLegacy d)))))).

Definition fillTemplate (append : bool) (d : Dialog) : Dialog :=
  let '(kind, payload) := default (KOperations, OPERATION_TEMPLATE) (prop_get (d_preset d) TEMPLATE_PRESET_CONFIG) in
  match kind with
  | KLegacy =>
      if append && bool_decide (d_visual d = VLegacy) then
        let trimmed := trim (d_legacy d) in
        match (if truthy trimmed then json_parse trimmed else Some (VObj [])) with
        | None => toast_error (t (js "Current legacy JSON is invalid, cannot append") None) d
        | Some parsedCurrent => show_legacy (pretty_of (spread payload parsedCurrent)) d
        end
      else show_legacy (pretty_of payload) d
  | KOperations =>
      let operationsPayload := default [] (as_array (get (js "operations") payload)) in
      drawing (ids_map (normalizeOperation clock) operationsPayload) (fun made d =>
        if append then
          let existing := match d_visual d with
                          | VOperations => bfilter (fun o => negb (isOperationBlank o)) (d_ops d)
                          | VLegacy => []
                          end in
          let nextOps := existing ++ made in
          setJsonText [] (setEditMode EVisual (setJsonError [] (setLegacyValue []
            (setSelectedOperationId (str_or (head_id nextOps) (head_id made))
              (setOperations (match nextOps with [] => made | _ => nextOps end) (setVisualMode VOperations d))))))
        else
          drawing (match made with [] => op ← createDefaultOperation clock; mret [op] | _ => mret made end) (fun finalOps d =>
            setEditMode EVisual (setJsonError [] (setJsonText (pretty_of (VObj [(js "operations", VArr operationsPayload)]))
              (setSelectedOperationId (head_id finalOps) (setOperations finalOps (setVisualMode VOperations d)))))) d) d
  end.

Definition resetEditorState : Dialog -> Dialog :=
  drawing (createDefaultOperation clock) (fun fallback d =>
    setEditMode EVisual (setTemplatePresetKey (js "operations_default") (setJsonError [] (setJsonText []
      (setSelectedOperationId (o_id fallback) (setOperations [fallback] (setLegacyValue [] (setVisualMode VOperations d)))))))).

Definition handleJsonChange (nextValue : jstr) (d : Dialog) : Dialog :=
  let trimmed := trim nextValue in
  let error := if negb (truthy trimmed) then [] else if verifyJSON trimmed then [] else t (js "JSON format error") None in
  setJsonError error (setJsonText nextValue d).

Definition visualValidationError (d : Dialog) : jstr :=
  match d_edit d with
  | EJson => []
  | EVisual => match buildVisualJson d with
               | inr _ => []
               | inl message => str_or message (t (js "Parameter configuration error") None)
               end
  end.

(** The text to save; [inl] is the message of the error thrown. *)
Definition save_result (d : Dialog) : jstr + jstr :=
  match d_edit d with
  | EVisual => buildVisualJson d
  | EJson =>
      let trimmed := trim (d_json d) in
      if negb (truthy trimmed) then inr []
      else match json_parse trimmed with
           | None => inl (t (js "Parameter override must be valid JSON format") None)
           | Some parsed => inr (pretty_of parsed)
           end
  end.

Definition handleSave (d : Dialog) : Dialog :=
  match save_result d with
  | inr result => setStatus Closed (save result d)
  | inl message => toast_error message d
  end.

(** Expand or collapse every condition of the selected rule. *)
Definition markAllConditions (expanded : bool) (d : Dialog) : Dialog :=
  match selectedOperation d with
  | None => d
  | Some op => setExpandedConditions (fold_left (fun m c => prop_set (c_id c) expanded m) (o_conditions op) (d_expanded d)) d
  end.

(** ** Effects *)

(** The effect of [open] turning true; an error thrown in it unmounts the tree. *)
Definition openDialog (value : jstr) (d : Dialog) : Dialog :=
  match parseInitialState clock value (d_seed d) with
  | (None, n) => setStatus Crashed (setSeed n d)
  | (Some state, n) =>
      setStatus Opened (setView [] (head_id (i_operations state)) [] no_drag
        (match i_visualMode state with VLegacy => js "legacy_default" | VOperations => js "operations_default" end)
        (setContent state (setSeed n d)))
  end.

(** The effect that keeps [selectedOperationId] valid. *)
Definition settle (d : Dialog) : Dialog :=
  match d_ops d with
  | [] => setSelectedOperationId [] d
  | o :: _ => if existsb (fun o => o_id o =s d_selected d) (d_ops d) then d else setSelectedOperationId (o_id o) d
  end.

(** A render evaluates the initial value of the rules again, for nothing but its id, and
    recomputes the draft on screen. *)
Definition render : Dialog -> Dialog :=
  drawing (createDefaultOperation clock) (fun _ d => drawing (pruneObjectsDraft d) setPrune d).

(** ** The machine *)

Inductive Event :=
  | Open (value : jstr) | Cancel | Save | SwitchToJson | SwitchToVisual | FillTemplate (append : bool) | ResetEditor
  | SelectPreset (key : jstr) | EditLegacy (text : jstr) | EditJson (text : jstr) | SearchOperations (text : jstr)
  | SelectOperation (id : jstr) | AddOperation | UpdateOperation (id : jstr) (patch : OperationPatch)
  | DuplicateOperation (id : jstr) (eager : bool) | RemoveOperation (id : jstr) | AddCondition (id : jstr)
  | UpdateCondition (id cid : jstr) (patch : RowPatch) | RemoveCondition (id cid : jstr)
  | UpdateReturnError (id : jstr) (patch : ReturnErrorPatch) | UpdatePrune (id : jstr) (patch : PrunePatch)
  | AddPruneRule (id : jstr) | UpdatePruneRule (id rid : jstr) (patch : RowPatch) | RemovePruneRule (id rid : jstr)
  | DragStart (id : jstr) | DragOver (id : jstr) (position : DropPosition) | Drop (id transferred : jstr) | DragEnd
  | MarkAllConditions (expanded : bool) | MarkCondition (cid : jstr) (expanded : bool) | Render.

Definition handle (e : Event) (d : Dialog) : Dialog :=
  match e with
  | Open value => openDialog value d
  | Cancel => setStatus Closed d
  | Save => handleSave d
  | SwitchToJson => switchToJsonMode d
  | SwitchToVisual => switchToVisualMode d
  | FillTemplate append => fillTemplate append d
  | ResetEditor => resetEditorState d
  | SelectPreset key => setTemplatePresetKey (str_or key (js "operations_default")) d
  | EditLegacy text => setLegacyValue text d
  | EditJson text => handleJsonChange text d
  | SearchOperations text => setOperationSearch text d
  | SelectOperation id => setSelectedOperationId id d
  | AddOperation => addOperation d
  | UpdateOperation id patch => updateOperation id patch d
  | DuplicateOperation id eager => duplicateOperation id eager d
  | RemoveOperation id => removeOperation id d
  | AddCondition id => addCondition id d
  | UpdateCondition id cid patch => updateCondition id cid patch d
  | RemoveCondition id cid => removeCondition id cid d
  | UpdateReturnError id patch => updateReturnErrorDraft id patch d
  | UpdatePrune id patch => updatePruneFields id patch d
  | AddPruneRule id => addPruneRule id d
  | UpdatePruneRule id rid patch => updatePruneRule id rid patch d
  | RemovePruneRule id rid => removePruneRule id rid d
  | DragStart id => handleDragStart id d
  | DragOver id position => handleDragOver id position d
  | Drop id transferred => handleDrop id transferred d
  | DragEnd => resetDragState d
  | MarkAllConditions expanded => markAllConditions expanded d
  | MarkCondition cid expanded => setExpandedConditions (prop_set cid expanded (d_expanded d)) d
  | Render => render d
  end.

(** The ids of the pruning rules on screen. *)
Definition shown_rule_ids (d : Dialog) : list jstr :=
  match d_prune d with Some p => map r_id (p_rules p) | None => [] end.

(** An open dialog reacts to what is on screen: the modes are those of the selects, and a
    pruning rule is named by the id it is shown with. *)
Definition possible (e : Event) (d : Dialog) : bool :=
  match e with
  | Open _ => bool_decide (d_status d = Closed)
  | UpdateOperation _ p => bool_decide (d_status d = Opened) && match po_mode p with Some m => has m OPERATION_MODE_VALUES | None => true end
  | UpdateCondition _ _ p => bool_decide (d_status d = Opened) && match pc_mode p with Some m => has m CONDITION_MODE_VALUES | None => true end
  | UpdatePruneRule _ rid _ | RemovePruneRule _ rid => bool_decide (d_status d = Opened) && has rid (shown_rule_ids d)
  | _ => bool_decide (d_status d = Opened)
  end.

Definition dialog_machine : Machine Dialog Event := {|
  initial d := d_status d = Closed /\ exists n op, createDefaultOperation clock n = (Some op, d_seed d) /\ d_ops d = [op] /\
    d_prune d = None /\ d_saved d = [];
  next e d := if possible e d then Some (settle (handle e d)) else None |}.

End dialog.
