(* ===== verification/ParamOverrideFacts.v ===== *)
(** * Parameter override rules: theorems

    The ids are fresh; the rules that are saved are read back; the validator accepts the
    complete rules; the drafts of a custom error are read back. *)

From S2P Require Import Prelude JsString JsNumber JsInteger Json JsonText ParamOverride.

(** ** Ids *)

Section ids.
Context (clock : N -> N).

Lemma local_id_inj n m : local_id clock n = local_id clock m -> n = m.
Proof.
  unfold local_id. intros H%app_inv_head. apply (app_sep_inj 95%N) in H as [_ H]; [by apply show_N_inj| |];
    intros Hin; pose proof (show_N_digits (clock n)) as D1; pose proof (show_N_digits (clock m)) as D2;
    rewrite Forall_forall in D1, D2; (apply D1 in Hin || apply D2 in Hin); done.
Qed.

#[global] Instance local_id_injective : Inj (=) (=) (local_id clock).
Proof. intros n m. apply local_id_inj. Qed.

(** The ids of [l] were drawn between the seeds [n] and [n'], each once. *)
Definition fresh_in (n n' : N) (l : list jstr) : Prop :=
  exists ks, l = map (local_id clock) ks /\ NoDup ks /\ Forall (fun k => n <= k < n')%N ks.

Lemma fresh_nil n n' : fresh_in n n' [].
Proof. exists []. split; [done|]. split; [constructor|done]. Qed.

Lemma fresh_weaken a b c d l : (c <= a)%N -> (b <= d)%N -> fresh_in a b l -> fresh_in c d l.
Proof.
  intros Hc Hd (ks & -> & Hn & Hf). exists ks. split; [done|]. split; [done|]. eapply Forall_impl; [exact Hf|]. simpl. lia.
Qed.

Lemma fresh_app a b c l l' : (a <= b <= c)%N -> fresh_in a b l -> fresh_in b c l' -> fresh_in a c (l ++ l').
Proof.
  intros Hb (ks & -> & Hn & Hf) (ks' & -> & Hn' & Hf'). exists (ks ++ ks'). split; [by rewrite map_app|]. split.
  - apply NoDup_app. split; [done|]. split; [|done]. intros k Hk Hk'. rewrite Forall_forall in Hf, Hf'.
    specialize (Hf k Hk). specialize (Hf' k Hk'). lia.
  - apply Forall_app. split; (eapply Forall_impl; [eassumption|]); simpl; lia.
Qed.

Lemma fresh_one n : fresh_in n (n + 1) [local_id clock n].
Proof. exists [n]. split; [done|]. split; [apply NoDup_singleton|]. repeat constructor; lia. Qed.

Lemma fresh_NoDup n n' l : fresh_in n n' l -> NoDup l.
Proof. intros (ks & -> & Hn & _). change (NoDup (local_id clock <$> ks)). by apply NoDup_fmap_2; [apply _|]. Qed.

(** What is drawn later differs from what was drawn before. *)
Lemma fresh_disjoint a b c d l l' x : (b <= c)%N -> fresh_in a b l -> fresh_in c d l' -> x ∈ l -> x ∉ l'.
Proof.
  intros Hb (ks & -> & _ & Hf) (ks' & -> & _ & Hf') (k & Hk & ->)%elem_of_lmap (k' & Hk' & E)%elem_of_lmap.
  apply local_id_inj in E as <-. rewrite Forall_forall in Hf, Hf'. specialize (Hf k Hk). specialize (Hf' k Hk'). lia.
Qed.

(** A computation that draws the ids [f x] of its result [x]; the seed does not go back. *)
Definition draws {A} (f : A -> list jstr) (m : ids A) : Prop :=
  forall n, (n <= snd (m n))%N /\ match fst (m n) with Some x => fresh_in n (snd (m n)) (f x) | None => True end.

Lemma draws_ret {A} (f : A -> list jstr) x : f x = [] -> draws f (mret x).
Proof. intros E n. simpl. rewrite E. split; [lia|apply fresh_nil]. Qed.

Lemma draws_map {A B} (f : B -> list jstr) (k : A -> ids B) l :
  (forall x, draws f (k x)) -> draws (fun r => concat (map f r)) (ids_map k l).
Proof.
  intros Hk. induction l as [|x l IH]; cbn [ids_map]; [by apply draws_ret|]. intros n.
  unfold mbind, ids_bind. destruct (Hk x n) as [Hn Hf]. destruct (k x n) as [[y|] n1]; simpl in *; [|done].
  destruct (IH n1) as [Hn1 Hr]. destruct (ids_map k l n1) as [[r|] n2]; simpl in *; (split; [lia|]); [|done].
  by apply (fresh_app n n1 n2).
Qed.

(** The condition that is read with a given id. *)
Definition condition_of (id : jstr) (v : jsval) : ParamOverrideCondition :=
  {| c_id := id; c_path := string_or_empty (get (js "path") v);
     c_mode := known (get (js "mode") v) CONDITION_MODE_VALUES (js "full");
     c_value_text := toValueText (get (js "value") v); c_invert := is_true (get (js "invert") v);
     c_pass_missing_key := is_true (get (js "pass_missing_key") v) |}.

Lemma condition_read v n :
  normalizeCondition clock v n = (match v with VNull => None | _ => Some (condition_of (local_id clock n) v) end, (n + 1)%N).
Proof. by destruct v. Qed.

Lemma draws_condition v : draws (fun c => [c_id c]) (normalizeCondition clock v).
Proof. intros n. rewrite condition_read. destruct v; (split; [apply N.le_add_r|]); solve [exact I|apply fresh_one]. Qed.

Definition read_conditions (v : jsval) : ids (list ParamOverrideCondition) :=
  match v with VArr l => ids_map (normalizeCondition clock) l | _ => mret [] end.

(** The rule that is read with a given id, logic and conditions. *)
Definition operation_of (id logic : jstr) (cs : list ParamOverrideCondition) (v : jsval) : ParamOverrideOperation :=
  {| o_id := id; o_description := string_or_empty (get (js "description") v); o_path := string_or_empty (get (js "path") v);
     o_mode := known (get (js "mode") v) OPERATION_MODE_VALUES (js "set"); o_from := string_or_empty (get (js "from") v);
     o_to := string_or_empty (get (js "to") v); o_value_text := toValueText (get (js "value") v);
     o_keep_origin := is_true (get (js "keep_origin") v);
     o_logic := if ascii_upper logic =s js "AND" then js "AND" else js "OR"; o_conditions := cs |}.

Lemma operation_read v n :
  normalizeOperation clock v n =
  match v with
  | VNull => (None, (n + 1)%N)
  | _ => match string_of (v_or (get (js "logic") v) (str "OR")) with
         | None => (None, (n + 1)%N)
         | Some logic => match read_conditions (get (js "conditions") v) (n + 1)%N with
                         | (Some cs, n') => (Some (operation_of (local_id clock n) logic cs v), n')
                         | (None, n') => (None, n')
                         end
         end
  end.
Proof.
  unfold normalizeOperation. destruct v; try reflexivity; unfold mbind, ids_bind, lift, nextLocalId, fields_of, mret, ids_ret;
    (destruct (string_of _); [|reflexivity]); reflexivity.
Qed.

Definition op_ids (o : ParamOverrideOperation) : list jstr := o_id o :: map c_id (o_conditions o).

Lemma concat_singletons {A B} (f : A -> B) l : concat (map (fun x => [f x]) l) = map f l.
Proof. induction l; simpl; congruence. Qed.

Lemma draws_conditions v : draws (map c_id) (read_conditions v).
Proof.
  destruct v; try by apply draws_ret. intros m. destruct (draws_map _ _ l draws_condition m) as [Hm Hf]. split; [done|].
  simpl. destruct (ids_map _ l m) as [[r|] m']; [|done]. simpl in *. by rewrite concat_singletons in Hf.
Qed.

Lemma draws_operation v : draws op_ids (normalizeOperation clock v).
Proof.
  intros n. rewrite operation_read. pose proof (draws_conditions (get (js "conditions") v) (n + 1)%N) as [Hn Hf].
  pose proof (N.le_add_r n 1) as Hle.
  destruct (match v with VNull => true | _ => false end) eqn:Ev; [by destruct v|].
  destruct (string_of (v_or (get (js "logic") v) (str "OR"))) as [logic|]; [|by destruct v].
  destruct (read_conditions _ _) as [[cs|] n'].
  - cut (n <= n' /\ fresh_in n n' (local_id clock n :: map c_id cs))%N; [by destruct v|].
    split; [simpl in Hn; lia|]. apply (fresh_app n (n + 1) n' [_]); [simpl in Hn; lia|apply fresh_one|done].
  - cut (n <= n')%N; [by destruct v|]. simpl in Hn. lia.
Qed.

Definition ops_ids (ops : list ParamOverrideOperation) : list jstr := concat (map op_ids ops).

Lemma draws_operations l : draws ops_ids (ids_map (normalizeOperation clock) l).
Proof. apply draws_map, draws_operation. Qed.

(** The empty rule. *)
Definition empty_operation (id : jstr) : ParamOverrideOperation :=
  {| o_id := id; o_description := []; o_path := []; o_mode := js "set"; o_from := []; o_to := []; o_value_text := [];
     o_keep_origin := false; o_logic := js "OR"; o_conditions := [] |}.

Lemma default_operation n : createDefaultOperation clock n = (Some (empty_operation (local_id clock n)), (n + 1)%N).
Proof. reflexivity. Qed.

Lemma draws_rules l : draws ops_ids (rules_of clock l).
Proof.
  destruct l as [|v l]; [|apply draws_operations]. intros n. split; [apply N.le_add_r|apply fresh_one].
Qed.

Lemma ids_map_length {A B} (k : A -> ids B) l n r n' : ids_map k l n = (Some r, n') -> length r = length l.
Proof.
  revert n r. induction l as [|x l IH]; intros n r; cbn [ids_map]; [intros [= <- _]; done|].
  unfold mbind, ids_bind. destruct (k x n) as [[y|] n1]; [|done]. destruct (ids_map k l n1) as [[s|] n2] eqn:E; [|done].
  intros [= <- ->]. simpl. f_equal. by eapply IH.
Qed.

Lemma override_nonempty l n r n' : rules_of clock l n = (Some r, n') -> r <> [].
Proof. destruct l; [by intros [= <- _]|]. intros H%ids_map_length. by destruct r. Qed.

End ids.

(** ** Reading a payload *)

Lemma get_set k k' v o : get k (VObj (prop_set k' v o)) = if k =s k' then v else get k (VObj o).
Proof. unfold get. rewrite prop_get_set. by destruct (k =s k'). Qed.

Lemma get_set_if k b k' v o : get k (VObj (set_if b k' v o)) = if b && (k =s k') then v else get k (VObj o).
Proof. destruct b; [apply get_set|done]. Qed.

Lemma get_cons k k' v o : get k (VObj ((k', v) :: o)) = if k =s k' then v else get k (VObj o).
Proof. unfold get. simpl. by destruct (k =s k'). Qed.

Lemma get_nil k : get k (VObj []) = VUndef.
Proof. done. Qed.

Lemma get_match {A} k (l : list A) o o' :
  get k (match l with [] => VObj o | _ => VObj o' end) = match l with [] => get k (VObj o) | _ => get k (VObj o') end.
Proof. by destruct l. Qed.

(** Compare the literal keys. *)
Ltac keys :=
  repeat match goal with
  | |- context [js ?a =s js ?b] => let r := eval vm_compute in (js a =s js b) in change (js a =s js b) with r
  end; cbv iota; rewrite ?andb_true_r, ?andb_false_r; cbv iota.

Ltac read_payload := repeat (first [rewrite get_set_if | rewrite get_set | rewrite get_cons | rewrite get_nil]; keys).

(** ** What is kept of a rule *)

Definition strip_condition (c : ParamOverrideCondition) : ParamOverrideCondition :=
  {| c_id := []; c_path := c_path c; c_mode := c_mode c; c_value_text := c_value_text c; c_invert := c_invert c;
     c_pass_missing_key := c_pass_missing_key c |}.

(** A rule without its ids. *)
Definition strip (o : ParamOverrideOperation) : ParamOverrideOperation :=
  {| o_id := []; o_description := o_description o; o_path := o_path o; o_mode := o_mode o; o_from := o_from o;
     o_to := o_to o; o_value_text := o_value_text o; o_keep_origin := o_keep_origin o; o_logic := o_logic o;
     o_conditions := map strip_condition (o_conditions o) |}.

(** The text of a value once it has been saved and read: words are trimmed, data is
    printed anew as JSON, and a quoted text is shown without its quotes. *)
Definition settled_text (s : jstr) : jstr :=
  match json_parse (trim s) with
  | None => trim s
  | Some (VStr u) => u
  | Some v => default [] (stringify v)
  end.

(** A text that is already in this form: trimmed words, or data printed as JSON. *)
Definition canonical (s : jstr) : bool :=
  (trim s =s s) &&
  match json_parse s with
  | None => true
  | Some (VStr _) => false
  | Some v => bool_decide (stringify v = Some s)
  end.

Lemma canonical_settled s : canonical s = true -> settled_text s = s.
Proof.
  unfold canonical, settled_text. intros [Ht%jeqb_eq Hj]%andb_true_iff. rewrite Ht.
  destruct (json_parse s) as [[]|]; try done; apply bool_decide_eq_true in Hj; by rewrite Hj.
Qed.

Lemma value_read_back s : toValueText (parseLooseValue s) = settled_text s.
Proof.
  unfold settled_text, parseLooseValue. destruct (trim s) as [|c u] eqn:E; [done|]. cbn [truthy negb].
  by destruct (json_parse (c :: u)) as [[]|].
Qed.

Section kept.
Context (shown : jstr -> jstr). (* how the text of a value comes back *)

Definition kept_condition_as (c : ParamOverrideCondition) : ParamOverrideCondition :=
  {| c_id := []; c_path := trim (c_path c); c_mode := c_mode c; c_value_text := shown (c_value_text c);
     c_invert := c_invert c; c_pass_missing_key := c_pass_missing_key c |}.

Definition named (c : ParamOverrideCondition) : bool := truthy (trim (c_path c)).

(** What a saved rule keeps: the trimmed fields its mode uses, the path in the place of a
    missing header name, and the conditions that have a path. *)
Definition kept_as (o : ParamOverrideOperation) : ParamOverrideOperation :=
  let m := meta_of (o_mode o) in
  let path := trim (o_path o) in
  let aliased s := if m_pathAlias m && negb (truthy s) then path else s in
  let cs := map kept_condition_as (bfilter named (o_conditions o)) in
  {| o_id := []; o_description := trim (o_description o);
     o_path := if m_path m || m_pathOptional m then path else [];
     o_mode := o_mode o;
     o_from := aliased (if m_from m then trim (o_from o) else []);
     o_to := aliased (trim (o_to o));
     o_value_text := if m_value m then shown (o_value_text o) else [];
     o_keep_origin := m_keepOrigin m && o_keep_origin o;
     o_logic := match cs with [] => js "OR" | _ => if o_logic o =s js "AND" then js "AND" else js "OR" end;
     o_conditions := cs |}.

End kept.

Definition kept_condition : ParamOverrideCondition -> ParamOverrideCondition := kept_condition_as settled_text.
Definition kept : ParamOverrideOperation -> ParamOverrideOperation := kept_as settled_text.

(** The values of a rule are canonical. *)
Definition canonical_rule (o : ParamOverrideOperation) : bool :=
  canonical (o_value_text o) && forallb (fun c => canonical (c_value_text c)) (o_conditions o).

(** Then they come back as they were typed. *)
Lemma kept_canonical o : canonical_rule o = true -> kept o = kept_as (fun s => s) o.
Proof.
  unfold canonical_rule. intros [Hv Hc]%andb_true_iff. unfold kept, kept_as. cbv zeta. rewrite (canonical_settled _ Hv).
  assert (map (kept_condition_as settled_text) (bfilter named (o_conditions o)) =
          map (kept_condition_as (fun s => s)) (bfilter named (o_conditions o))) as ->; [|done].
  apply map_ext_in. intros c [Hin _]%list_elem_of_In%elem_of_bfilter. rewrite forallb_Forall', Forall_forall in Hc.
  unfold kept_condition_as. by rewrite (canonical_settled _ (Hc c Hin)).
Qed.

(** The modes are those of the selects. *)
Definition known_modes (o : ParamOverrideOperation) : Prop :=
  o_mode o ∈ OPERATION_MODE_VALUES /\ Forall (fun c => c_mode c ∈ CONDITION_MODE_VALUES) (o_conditions o).

Lemma known_in s l d : s ∈ l -> known (VStr s) l d = s.
Proof. intros H. unfold known, has. by rewrite bool_decide_true. Qed.

Lemma operation_mode_truthy m : m ∈ OPERATION_MODE_VALUES -> str_or m (js "set") = m.
Proof.
  assert (forallb truthy OPERATION_MODE_VALUES = true) as H by reflexivity. rewrite forallb_Forall', Forall_forall in H.
  intros Hm. unfold str_or. by rewrite (H m Hm).
Qed.

Lemma condition_mode_truthy m : m ∈ CONDITION_MODE_VALUES -> str_or m (js "full") = m.
Proof.
  assert (forallb truthy CONDITION_MODE_VALUES = true) as H by reflexivity. rewrite forallb_Forall', Forall_forall in H.
  intros Hm. unfold str_or. by rewrite (H m Hm).
Qed.

Lemma string_or_if b s : (b = false -> s = []) -> string_or_empty (if b then VStr s else VUndef) = s.
Proof. destruct b; [done|]. simpl. intros H. by rewrite H. Qed.

Lemma condition_payload id c : c_mode c ∈ CONDITION_MODE_VALUES -> named c = true ->
  exists o, buildConditionPayload c = Some (VObj o) /\ strip_condition (condition_of id (VObj o)) = kept_condition c.
Proof.
  unfold named, buildConditionPayload. intros Hm ->. simpl negb. cbv iota. eexists. split; [reflexivity|].
  unfold condition_of, strip_condition, kept_condition, kept_condition_as. rewrite <- value_read_back. cbn [c_id c_path c_mode c_value_text c_invert c_pass_missing_key].
  read_payload. rewrite condition_mode_truthy, known_in by done. by destruct (c_invert c), (c_pass_missing_key c).
Qed.

Lemma condition_unnamed c : named c = false -> buildConditionPayload c = None.
Proof. unfold named, buildConditionPayload. by intros ->. Qed.

(** Case analysis on the conditions of an [if] and the texts that are tested. *)
Ltac split_fields :=
  repeat match goal with
  | |- context [trim ?x] => generalize (trim x); let y := fresh in intros y
  | |- context [match ?x with Some b => b | None => false end] => destruct x as [[]|]; cbn [negb andb orb]
  | |- context [if ?b then _ else _] => is_var b; destruct b; cbn [negb andb orb]
  | b : bool |- context [?c] => constr_eq b c; destruct b; cbn [negb andb orb]
  | s : list N |- context [truthy ?c] => constr_eq s c; destruct s; cbn [truthy v_truthy negb andb orb]
  end; try reflexivity.

(** The fields of a payload that do not depend on the conditions. *)
Lemma payload_fields o id logic cs : o_mode o ∈ OPERATION_MODE_VALUES ->
  let k := kept o in
  operation_of id logic cs (operation_payload o) =
  {| o_id := id; o_description := o_description k; o_path := o_path k; o_mode := o_mode k; o_from := o_from k; o_to := o_to k;
     o_value_text := o_value_text k; o_keep_origin := o_keep_origin k;
     o_logic := if ascii_upper logic =s js "AND" then js "AND" else js "OR"; o_conditions := cs |}.
Proof.
  intros Hm k. unfold operation_payload, operation_of, k, kept, kept_as. rewrite <- value_read_back.
  cbn [o_description o_path o_mode o_from o_to o_value_text o_keep_origin]. rewrite operation_mode_truthy by done.
  destruct (meta_of (o_mode o)) as [mp mo mv mf mt mk ma]. cbn [m_path m_pathOptional m_value m_from m_to m_keepOrigin m_pathAlias].
  destruct (omap buildConditionPayload (o_conditions o)) as [|c l]; destruct ma; f_equal; read_payload;
    first [by apply known_in | clear; split_fields; by destruct (o_keep_origin o)].
Qed.

Section reading.
Context (clock : N -> N).

Lemma conditions_read_back l n : Forall (fun c => c_mode c ∈ CONDITION_MODE_VALUES) l ->
  exists cs n', ids_map (normalizeCondition clock) (omap buildConditionPayload l) n = (Some cs, n') /\
    map strip_condition cs = map kept_condition (bfilter named l).
Proof.
  intros H. revert n. induction H as [|c l Hc _ IH]; intros n; [by exists [], n|]. csimpl.
  destruct (named c) eqn:E; [|by rewrite condition_unnamed].
  destruct (condition_payload (local_id clock n) c Hc E) as (o & -> & Ho). cbn [ids_map]. unfold mbind, ids_bind.
  rewrite condition_read. cbv iota. destruct (IH (n + 1)%N) as (cs & n' & -> & Hcs). do 2 eexists. split; [reflexivity|].
  cbn [map]. by rewrite Ho, Hcs.
Qed.

Lemma operation_read_back o n : known_modes o ->
  exists o' n', normalizeOperation clock (operation_payload o) n = (Some o', n') /\ strip o' = kept o.
Proof.
  intros [Hm Hc]. destruct (conditions_read_back (o_conditions o) (n + 1)%N Hc) as (cs & n' & Hr & Hcs).
  assert (exists p, operation_payload o = VObj p) as [p Ep] by (unfold operation_payload; destruct (omap _ _); by eexists).
  rewrite Ep, operation_read. cbv iota. rewrite <- Ep.
  assert (exists logic, string_of (v_or (get (js "logic") (operation_payload o)) (str "OR")) = Some logic /\
    (if ascii_upper logic =s js "AND" then js "AND" else js "OR") = o_logic (kept o)) as (logic & -> & Hl).
  { assert (omap buildConditionPayload (o_conditions o) = [] <-> bfilter named (o_conditions o) = []) as Hnil.
    { clear -Hcs Hr Hc. transitivity (cs = []).
      - rewrite <- !length_zero_iff_nil. apply ids_map_length in Hr. by rewrite Hr.
      - split; [intros ->|intros H; rewrite H in Hcs]; [|by destruct cs]. by destruct (bfilter _ _). }
    unfold operation_payload, kept, kept_as. cbn [o_logic]. rewrite operation_mode_truthy by done.
    destruct (meta_of (o_mode o)) as [mp mo mv mf mt mk ma]. cbn [m_path m_pathOptional m_value m_from m_to m_keepOrigin m_pathAlias].
    destruct (omap buildConditionPayload (o_conditions o)) as [|c l] eqn:El.
    - rewrite (proj1 Hnil eq_refl). exists (js "OR"). split; [|done]. destruct ma; read_payload; done.
    - destruct (bfilter named (o_conditions o)) eqn:Eb; [discriminate (proj2 Hnil eq_refl)|].
      read_payload. cbn [map]. destruct (o_logic o =s js "AND"); by eexists. }
  assert (read_conditions clock (get (js "conditions") (operation_payload o)) (n + 1)%N = (Some cs, n')) as ->.
  { rewrite <- Hr. unfold operation_payload.
    destruct (meta_of _) as [mp mo mv mf mt mk ma]. cbn [m_path m_pathOptional m_value m_from m_to m_keepOrigin m_pathAlias].
    destruct (omap buildConditionPayload (o_conditions o)) as [|c l]; [|by read_payload]. destruct ma; by read_payload. }
  do 2 eexists. split; [reflexivity|]. rewrite payload_fields by done. unfold strip. simpl. rewrite Hl, Hcs. reflexivity.
Qed.

Lemma operations_read_back ops n : Forall known_modes ops ->
  exists r n', ids_map (normalizeOperation clock) (map operation_payload ops) n = (Some r, n') /\ map strip r = map kept ops.
Proof.
  intros H. revert n. induction H as [|o ops Ho _ IH]; intros n; [by exists [], n|]. cbn [map ids_map]. unfold mbind, ids_bind.
  destruct (operation_read_back o n Ho) as (o' & n1 & -> & Hs). destruct (IH n1) as (r & n2 & -> & Hr).
  do 2 eexists. split; [reflexivity|]. cbn [map]. by rewrite Hs, Hr.
Qed.

End reading.

(** ** The text of the rules *)

(** The texts are of 16-bit units, and the numbers in the values read back. *)
Definition readable_condition (c : ParamOverrideCondition) : bool :=
  unit_string (c_path c) && plain_value (parseLooseValue (c_value_text c)).

Definition readable (o : ParamOverrideOperation) : bool :=
  unit_string (o_description o) && unit_string (o_path o) && unit_string (o_from o) && unit_string (o_to o) &&
  plain_value (parseLooseValue (o_value_text o)) && forallb readable_condition (o_conditions o).

Lemma plain_set_if b k v o :
  plain_value (VObj o) = true -> unit_string k = true -> (b = true -> plain_value v = true) ->
  plain_value (VObj (set_if b k v o)) = true.
Proof. destruct b; [|done]. intros. apply plain_set; auto. Qed.

Lemma mode_units m l : forallb unit_string l = true -> m ∈ l -> unit_string m = true.
Proof. rewrite forallb_Forall', Forall_forall. auto. Qed.

Lemma plain_condition c v : c_mode c ∈ CONDITION_MODE_VALUES -> readable_condition c = true ->
  buildConditionPayload c = Some v -> plain_value v = true.
Proof.
  unfold readable_condition, buildConditionPayload. intros Hm Hr. bsplit. destruct (truthy _); [|done]. intros [= <-].
  rewrite condition_mode_truthy by done. apply plain_set_if; [|done..]. apply plain_set_if; [|done..].
  apply plain_object. split; [done|]. repeat constructor; unfold plain_pair; simpl; bsplit; try done; [by apply unit_string_trim|].
  by apply (mode_units _ CONDITION_MODE_VALUES).
Qed.

Lemma plain_payload o : known_modes o -> readable o = true -> plain_value (operation_payload o) = true.
Proof.
  intros [Hm Hc] Hr. unfold readable in Hr. bsplit. unfold operation_payload. rewrite operation_mode_truthy by done.
  destruct (meta_of (o_mode o)) as [mp mo mv mf mt mk ma]. cbn [m_path m_pathOptional m_value m_from m_to m_keepOrigin m_pathAlias].
  assert (forall s, unit_string s = true -> plain_value (VStr (trim s)) = true) as Ht by (intros s; apply unit_string_trim).
  match goal with |- plain_value (match ?l with [] => VObj ?p | _ => _ end) = true => assert (plain_value (VObj p) = true) as Hp end.
  { assert (plain_value (VObj [(js "mode", VStr (o_mode o))]) = true) as Hmode.
    { apply plain_object. split; [done|]. repeat constructor. unfold plain_pair. simpl.
      by rewrite (mode_units _ OPERATION_MODE_VALUES). }
    destruct ma; repeat (apply plain_set_if; [|done|by auto]); exact Hmode. }
  destruct (omap buildConditionPayload (o_conditions o)) as [|c l] eqn:El; [done|].
  apply plain_set; [|done|by destruct (_ =s _)]. apply plain_set; [done|done|]. cbn [plain_value]. apply forallb_Forall'.
  rewrite <- El. apply Forall_forall. intros v (x & Hx & Hv)%list_elem_of_omap. rewrite Forall_forall in Hc.
  eapply plain_condition; [by apply Hc| |done]. rewrite forallb_Forall', Forall_forall in H0. by apply H0.
Qed.

(** The rules that a saved text has. *)
Definition kept_rules (ops : list ParamOverrideOperation) : list ParamOverrideOperation :=
  map kept (bfilter (fun o => negb (isOperationBlank o)) ops).

(** The same with the values as they were typed. *)
Definition typed_rules (ops : list ParamOverrideOperation) : list ParamOverrideOperation :=
  map (kept_as (fun s => s)) (bfilter (fun o => negb (isOperationBlank o)) ops).

Lemma canonical_rules ops : Forall (fun o => canonical_rule o = true) ops -> kept_rules ops = typed_rules ops.
Proof.
  intros H. unfold kept_rules, typed_rules. apply map_ext_in. intros o [Ho _]%list_elem_of_In%elem_of_bfilter.
  rewrite Forall_forall in H. by apply kept_canonical, H.
Qed.

Definition operations_value (ops : list ParamOverrideOperation) : jsval :=
  VObj [(js "operations", VArr (map operation_payload ops))].

Lemma plain_operations ops : Forall known_modes ops -> Forall (fun o => readable o = true) ops ->
  plain_value (operations_value ops) = true.
Proof.
  intros Hk Hr. apply plain_object. split; [done|]. repeat constructor. unfold plain_pair. cbn [fst snd].
  change (unit_string (js "operations")) with true. cbn [andb plain_value]. apply forallb_Forall', Forall_map, Forall_forall.
  intros o Ho. rewrite Forall_forall in Hk, Hr. by apply plain_payload; auto.
Qed.

Lemma forall_bfilter {A} (P : A -> Prop) p l : Forall P l -> Forall P (bfilter p l).
Proof. rewrite !Forall_forall. intros H x [Hx _]%elem_of_bfilter. auto. Qed.

(** A rule editor text is read as what it is. *)
Lemma pretty_object_read v : plain_value (VObj v) = true ->
  json_parse (pretty_of (VObj v)) = Some (VObj v) /\ trim (pretty_of (VObj v)) = pretty_of (VObj v) /\
  truthy (pretty_of (VObj v)) = true.
Proof.
  intros Hp. destruct (json_pretty_roundtrip _ Hp) as (w & Hw & Hj). unfold pretty_of. rewrite Hw. cbn [default from_option id].
  split; [done|]. split; [by eapply trim_id, object_trimmed|]. destruct (object_opens _ _ _ _ _ Hw) as [u ->]. done.
Qed.

Section saved.
Context (clock : N -> N) (t : jstr -> option nat -> jstr) (type_error : jstr).

(** Opening the text of some rules. *)
Lemma opened_operations l n : l <> [] -> Forall known_modes l -> Forall (fun o => readable o = true) l ->
  let text := pretty_of (operations_value l) in
  exists r n', parseInitialState clock text n =
    (Some {| i_editMode := EVisual; i_visualMode := VOperations; i_legacyValue := []; i_operations := r; i_jsonText := text;
             i_jsonError := [] |}, n') /\ map strip r = map kept l.
Proof.
  intros Hl Hk Hr text. destruct (pretty_object_read _ (plain_operations l Hk Hr)) as (Hj & Ht & Hb).
  unfold parseInitialState, text. fold (operations_value l) in Hj, Ht, Hb. rewrite Ht, Hb, Hj. cbv iota.
  change (operations_of (operations_value l)) with (Some (map operation_payload l)). cbv iota.
  destruct (operations_read_back clock l n Hk) as (r & n' & Hi & Hs).
  assert (rules_of clock (map operation_payload l) n = (Some r, n')) as Er by (by destruct l).
  unfold mbind, ids_bind. cbn [negb]. rewrite Er. do 2 eexists. split; [reflexivity|done].
Qed.

Lemma forall_not_blank (P : ParamOverrideOperation -> Prop) ops :
  Forall P ops -> Forall P (bfilter (fun o => negb (isOperationBlank o)) ops).
Proof. apply forall_bfilter. Qed.

(** C20. Saving the rules and opening the dialog on the saved text shows the rules that were
    not blank, in their order, each with what its mode uses: trimmed fields, the conditions
    that have a path, and the value: words trimmed, data as JSON prints it, a quoted text
    without its quotes.  Values that are trimmed words or printed data come back as they
    were typed.  Saving no rules gives the empty text, which opens with one empty rule.
    The visual editor is shown, and the JSON text is the saved one. *)
Theorem override_roundtrip ops validate text n :
  Forall known_modes ops -> Forall (fun o => readable o = true) ops ->
  buildOperationsJson t type_error ops validate = inr text ->
  exists st n', parseInitialState clock text n = (Some st, n') /\ i_editMode st = EVisual /\ i_visualMode st = VOperations /\
    i_jsonText st = text /\
    map strip (i_operations st) = match kept_rules ops with [] => [empty_operation []] | l => l end /\
    (Forall (fun o => canonical_rule o = true) ops ->
      map strip (i_operations st) =
        match typed_rules ops with [] => [empty_operation []] | l => l end).
Proof.
  intros Hk%forall_not_blank Hr%forall_not_blank Hb.
  assert (exists st n', parseInitialState clock text n = (Some st, n') /\ i_editMode st = EVisual /\
    i_visualMode st = VOperations /\ i_jsonText st = text /\
    map strip (i_operations st) = match kept_rules ops with [] => [empty_operation []] | l => l end)
    as (st & n' & H1 & H2 & H3 & H4 & H5);
    [|exists st, n'; repeat (split; [done|]); intros Hc; by rewrite H5, (canonical_rules _ Hc)].
  revert Hb. unfold buildOperationsJson, kept_rules.
  destruct (bfilter _ ops) as [|o fs]; [intros [= <-]; do 2 eexists; split; [reflexivity|done]|].
  set (l := o :: fs) in *. destruct (truthy _); [done|]. intros H.
  assert (text = pretty_of (operations_value l)) as -> by (unfold operations_value; congruence).
  destruct (opened_operations l n ltac:(done) Hk Hr) as (r & n' & -> & Hs). do 2 eexists. split; [reflexivity|]. done.
Qed.

End saved.

(** ** Saving again *)

(** The text of a value settles: writing what was read keeps the value. *)
Definition settles (s : jstr) : Prop :=
  parseLooseValue (settled_text s) = parseLooseValue s /\ truthy (trim (settled_text s)) = truthy (trim s).

(** A text that is not JSON settles. *)
Lemma settles_words s : json_parse (trim s) = None -> settles s.
Proof.
  unfold settles. rewrite <- value_read_back. unfold parseLooseValue. intros E. rewrite E. destruct (trim s) as [|c u] eqn:Et; [done|].
  assert (trim (c :: u) = c :: u) as Ht by (rewrite <- Et; apply trim_idem).
  cbn [truthy negb default from_option id toValueText]. rewrite Ht. cbn [truthy negb]. by rewrite E.
Qed.

(** ... and so does one of an object whose numbers read back. *)
Lemma settles_object s o : json_parse (trim s) = Some (VObj o) -> plain_value (VObj o) = true -> settles s.
Proof.
  intros E Hp. destruct (json_roundtrip _ Hp) as (w & Hw & Hj).
  assert (truthy (trim s) = true) as Ht by (destruct (trim s); [by vm_compute in E|done]).
  assert (parseLooseValue s = VObj o) as Es by (unfold parseLooseValue; by rewrite Ht, E).
  unfold settles. rewrite <- value_read_back, Es. cbn [toValueText]. unfold text_of. rewrite Hw. cbn [default from_option id].
  unfold parseLooseValue. rewrite (trim_id w) by (by eapply object_trimmed).
  destruct (object_opens _ _ _ _ _ Hw) as [u ->]. cbn [truthy negb]. by rewrite Hj, Ht.
Qed.

Definition settled_rule (o : ParamOverrideOperation) : Prop :=
  settles (o_value_text o) /\ Forall (fun c => settles (c_value_text c)) (o_conditions o).

(** The five kinds of mode. *)
Definition meta_kinds : list ModeMeta :=
  [meta_path; meta_path_value true; meta_path_value false; meta_from_to true; meta_from_to false; meta_replace;
   meta_value false false; meta_value true false; meta_value false true].

#[export] Instance mode_meta_eq_dec : EqDecision ModeMeta.
Proof. solve_decision. Defined.

Lemma meta_kind m : m ∈ OPERATION_MODE_VALUES -> meta_of m ∈ meta_kinds.
Proof.
  assert (forallb (fun m => bool_decide (meta_of m ∈ meta_kinds)) OPERATION_MODE_VALUES = true) as H by (vm_compute; reflexivity).
  rewrite forallb_Forall', Forall_forall in H. intros Hm. by apply H, bool_decide_eq_true in Hm.
Qed.

Lemma kept_condition_payload c : settles (c_value_text c) -> buildConditionPayload (kept_condition c) = buildConditionPayload c.
Proof.
  intros [Hs _]. unfold buildConditionPayload, kept_condition, kept_condition_as. cbn [c_path c_mode c_value_text c_invert c_pass_missing_key].
  by rewrite trim_idem, Hs.
Qed.

Lemma kept_conditions_payload l : Forall (fun c => settles (c_value_text c)) l ->
  omap buildConditionPayload (map kept_condition (bfilter named l)) = omap buildConditionPayload l.
Proof.
  induction 1 as [|c l Hc _ IH]; [done|]. csimpl. destruct (named c) eqn:E; csimpl.
  - by rewrite (kept_condition_payload c Hc), IH.
  - by rewrite (condition_unnamed c E).
Qed.

Lemma trim_if (b : bool) p q : trim (if b then trim p else trim q) = if b then trim p else trim q.
Proof. destruct b; apply trim_idem. Qed.

Lemma kept_payload o : o_mode o ∈ OPERATION_MODE_VALUES -> settled_rule o -> operation_payload (kept o) = operation_payload o.
Proof.
  intros Hm [[Hv _] Hc]. unfold operation_payload.
  assert (o_conditions (kept o) = map kept_condition (bfilter named (o_conditions o))) as -> by done.
  rewrite (kept_conditions_payload _ Hc).
  assert (forall c l, omap buildConditionPayload (o_conditions o) = c :: l ->
    (o_logic (kept o) =s js "AND") = (o_logic o =s js "AND")) as Hlogic.
  { intros c l E. unfold kept, kept_as. cbn [o_logic]. rewrite <- (kept_conditions_payload _ Hc) in E. fold kept_condition.
    destruct (map kept_condition _); [done|]. by destruct (o_logic o =s js "AND"). }
  match goal with |- match _ with [] => VObj ?p | _ => _ end = match _ with [] => VObj ?q | _ => _ end => assert (p = q) as -> end;
    [|destruct (omap _ _) as [|c l]; [done|]; by rewrite (Hlogic c l eq_refl)].
  clear Hc Hlogic. unfold kept, kept_as. cbn [o_description o_path o_mode o_from o_to o_value_text o_keep_origin].
  rewrite operation_mode_truthy by done.
  pose proof (meta_kind _ Hm) as Hk. revert Hk. generalize (meta_of (o_mode o)). intros meta Hk.
  repeat (apply elem_of_cons in Hk as [-> | Hk]); try (by apply elem_of_nil in Hk);
    cbn [m_path m_pathOptional m_value m_from m_to m_keepOrigin m_pathAlias meta_path meta_path_value meta_from_to meta_replace meta_value andb orb negb];
    unfold set_if at 1 2 3 4 5 6 7 8; rewrite ?trim_if, ?trim_idem, ?trim_nil, ?Hv; try reflexivity; clear;
    generalize (trim (o_description o)) (trim (o_path o)) (trim (o_from o)) (trim (o_to o)) (o_keep_origin o);
    intros [] [] [] [] []; reflexivity.
Qed.

(** ** Witnesses *)

Definition plain_words (key : jstr) (_ : option nat) : jstr := key.
Definition some_time (_ : N) : N := 7%N.

Definition sample_condition : ParamOverrideCondition :=
  {| c_id := js "c"; c_path := js " model "; c_mode := js "prefix"; c_value_text := js "openai/"; c_invert := false;
     c_pass_missing_key := true |}.

Definition sample_operation : ParamOverrideOperation :=
  {| o_id := js "a"; o_description := js " warmer "; o_path := js "temperature "; o_mode := js "set"; o_from := js "unused"; o_to := [];
     o_value_text := js " 0.7"; o_keep_origin := true; o_logic := js "AND"; o_conditions := [sample_condition] |}.

Definition sample_operations : list ParamOverrideOperation := [empty_operation (js "b"); sample_operation].

Definition sample_text : jstr :=
  match buildOperationsJson plain_words (js "TypeError") sample_operations true with inr text => text | inl _ => [] end.

Lemma sample_known : Forall known_modes sample_operations.
Proof. repeat constructor; decided. Qed.

Lemma override_roundtrip_witness :
  exists st n', parseInitialState some_time sample_text 3%N = (Some st, n') /\ map strip (i_operations st) = [kept sample_operation].
Proof.
  destruct (override_roundtrip some_time plain_words (js "TypeError") sample_operations true sample_text 3%N) as (st & n' & H1 & _ & _ & _ & H2 & _).
  - exact sample_known.
  - repeat constructor; vm_compute; reflexivity.
  - vm_compute. reflexivity.
  - exists st, n'. split; [exact H1|]. rewrite H2. vm_compute. reflexivity.
Defined.
