(* ===== verification/ParamValidator.v ===== *)
(** * Parameter override rules: the validator

    What a rule of each mode has to have, and that the validator of
    [param-override-editor-dialog.tsx] accepts the rules that have it; saved rules that are
    opened again are accepted again and give the same text. *)

From S2P Require Import Prelude JsString JsNumber Json JsonText ParamOverride ParamOverrideFacts.

(** ** Complete rules *)

Definition filled (s : jstr) : Prop := trim s <> [].

Definition target_modes : list jstr :=
  [js "set"; js "delete"; js "append"; js "prepend"; js "trim_space"; js "to_lower"; js "to_upper"; js "delete_header"].
Definition affix_modes : list jstr :=
  [js "trim_prefix"; js "trim_suffix"; js "ensure_prefix"; js "ensure_suffix"; js "set_header"].
Definition replace_modes : list jstr := [js "replace"; js "regex_replace"].
Definition transfer_modes : list jstr := [js "copy"; js "move"; js "sync_fields"].
Definition header_modes : list jstr := [js "copy_header"; js "move_header"].

(** The requirements of the modes.  An error object needs a message, unless the message has
    no text at all; a header can be named by its path alone. *)
Inductive complete (o : ParamOverrideOperation) : Prop :=
  | complete_target : o_mode o ∈ target_modes -> filled (o_path o) -> complete o
  | complete_affix : o_mode o ∈ affix_modes -> filled (o_path o) -> filled (o_value_text o) -> complete o
  | complete_replace : o_mode o ∈ replace_modes -> filled (o_path o) -> filled (o_from o) -> complete o
  | complete_transfer : o_mode o ∈ transfer_modes -> filled (o_from o) -> filled (o_to o) -> complete o
  | complete_header : o_mode o ∈ header_modes -> filled (o_path o) \/ filled (o_from o) /\ filled (o_to o) -> complete o
  | complete_error : o_mode o = js "return_error" -> filled (o_value_text o) ->
      (forall p, parseLooseValue (o_value_text o) = VObj p -> text_prop (get (js "message") (VObj p)) <> Some []) -> complete o
  | complete_prune : o_mode o = js "prune_objects" -> filled (o_value_text o) -> complete o
  | complete_headers h hs : o_mode o = js "pass_headers" ->
      parsePassHeaderNames (parseLooseValue (o_value_text o)) = Some (h :: hs) -> complete o.

(** The mode is in one of the lists only. *)
Ltac other_mode :=
  match goal with
  | E : o_mode ?o = _, H : o_mode ?o ∈ _ |- _ =>
      exfalso; rewrite E in H; pose proof (bool_decide_eq_true_2 _ H) as H'; vm_compute in H'; discriminate H'
  | E : o_mode ?o = ?a, H : o_mode ?o = ?b |- _ => exfalso; rewrite E in H; discriminate H
  end.

Lemma filled_truthy s : filled s <-> truthy (trim s) = true.
Proof. symmetry. apply truthy_spec. Qed.

Lemma blank_truthy s : ~ filled s <-> truthy (trim s) = false.
Proof. rewrite filled_truthy. apply not_true_iff_false. Qed.

Lemma loose_filled s : truthy (trim s) = true ->
  parseLooseValue (trim s) = parseLooseValue s /\ parseLooseValue s = default (VStr (trim s)) (json_parse (trim s)).
Proof. unfold parseLooseValue. rewrite trim_idem. by intros ->. Qed.

Lemma jeqb_nil s : (s =s []) = negb (truthy s).
Proof. by destruct s. Qed.

(** Evaluate the tests on a known mode. *)
Ltac known_mode m :=
  change (str_or m (js "set")) with m;
  repeat match goal with
  | |- context [meta_of m] => let r := eval vm_compute in (meta_of m) in change (meta_of m) with r
  | |- context [has m ?l] => let r := eval vm_compute in (has m l) in change (has m l) with r
  | |- context [m =s js ?b] => let r := eval vm_compute in (m =s js b) in change (m =s js b) with r
  end;
  cbn [m_path m_pathOptional m_value m_from m_to m_keepOrigin m_pathAlias andb].

Section validate.
Context (t : jstr -> option nat -> jstr) (type_error : jstr).

Lemma error_check o line : truthy (trim (o_value_text o)) = true ->
  match json_parse (trim (o_value_text o)) with
  | Some (VObj _ as parsed) =>
      match text_prop (get (js "message") parsed) with
      | Some m => if truthy m then None else Some (t (js "Rule {{line}} return_error requires a message field") (Some line))
      | None => None
      end
  | _ => None
  end = None <->
  forall p, parseLooseValue (o_value_text o) = VObj p -> text_prop (get (js "message") (VObj p)) <> Some [].
Proof.
  intros Ht. destruct (loose_filled _ Ht) as [_ ->]. destruct (json_parse _) as [[]|]; cbn [default from_option id]; try by split.
  split.
  - intros H p [= <-] E. by rewrite E in H.
  - intros H. specialize (H o0 eq_refl). destruct (text_prop _) as [[|c m]|]; [by destruct H|done..].
Qed.

Lemma headers_check o line : truthy (trim (o_value_text o)) = true ->
  match parsePassHeaderNames (parseLooseValue (trim (o_value_text o))) with
  | None => Some type_error
  | Some [] => Some (t (js "Rule {{line}} pass_headers format is invalid") (Some line))
  | Some _ => None
  end = None <-> exists h hs, parsePassHeaderNames (parseLooseValue (o_value_text o)) = Some (h :: hs).
Proof.
  intros Ht. destruct (loose_filled _ Ht) as [-> _]. destruct (parsePassHeaderNames _) as [[|h hs]|]; split; try done; try naive_solver.
Qed.

Lemma headers_blank o : truthy (trim (o_value_text o)) = false -> parsePassHeaderNames (parseLooseValue (o_value_text o)) = Some [].
Proof. unfold parseLooseValue. by intros ->. Qed.

Ltac test_fields H :=
  repeat match type of H with
  | context [truthy (trim ?s)] => destruct (truthy (trim s)) eqn:?; cbn [negb andb orb] in H
  end; try discriminate H.

Ltac in_group := match goal with E : o_mode _ = _ |- _ => rewrite E; decided end.

Lemma complete_by_validator o line :
  o_mode o ∈ OPERATION_MODE_VALUES -> validate_operation t type_error o line = None -> complete o.
Proof.
  intros Hm. unfold validate_operation. rewrite !jeqb_nil.
  repeat (apply elem_of_cons in Hm as [E | Hm]); [..|by apply elem_of_nil in Hm]; cbn [snd] in E; rewrite E;
    match type of E with _ = ?m => known_mode m end; intros H; test_fields H; rewrite <- ?filled_truthy in *;
    first [ apply complete_target; [in_group|assumption] | apply complete_affix; [in_group|assumption|assumption]
          | apply complete_replace; [in_group|assumption|assumption] | apply complete_transfer; [in_group|assumption|assumption]
          | apply complete_header; [in_group|by auto] | apply complete_prune; assumption | idtac ].
  - apply complete_error; [done|done|]. eapply error_check; [|exact H]. by apply filled_truthy.
  - apply headers_check in H as (h & hs & H); [by eapply complete_headers|by apply filled_truthy].
Qed.

Lemma validator_accepts o line :
  o_mode o ∈ OPERATION_MODE_VALUES -> complete o -> validate_operation t type_error o line = None.
Proof.
  intros Hm Hc. unfold validate_operation. rewrite !jeqb_nil.
  repeat (apply elem_of_cons in Hm as [E | Hm]); [..|by apply elem_of_nil in Hm]; cbn [snd] in E; rewrite E;
    match type of E with _ = ?m => known_mode m end; destruct Hc; try other_mode; rewrite ?filled_truthy in *;
    repeat match goal with H : truthy (trim ?s) = true |- context [truthy (trim ?s)] => rewrite H | H : _ \/ _ |- _ => destruct H as [H | [? ?]] end;
    cbn [negb andb orb]; try reflexivity; rewrite ?andb_false_r; try reflexivity.
  - by apply error_check.
  - destruct (truthy (trim (o_value_text o))) eqn:Ht; [|rewrite (headers_blank o Ht) in *; done].
    cbn [negb]. apply headers_check; [done|]. eauto.
Qed.

(** Translations are not empty, and neither is the message of a [TypeError]. *)
Hypothesis t_text : forall key line, t key line <> [].
Hypothesis type_error_text : type_error <> [].

Lemma validate_operation_text o line m : validate_operation t type_error o line = Some m -> m <> [].
Proof. unfold validate_operation. cases; intros ?; simplify_eq; auto. Qed.

Lemma validate_from_spec ops i : Forall (fun o => o_mode o ∈ OPERATION_MODE_VALUES) ops ->
  validate_from t type_error i ops = [] <-> Forall complete ops.
Proof.
  intros H. revert i. induction H as [|o ops Ho _ IH]; intros i; [done|]. cbn [validate_from].
  destruct (validate_operation t type_error o (i + 1)) as [m|] eqn:E.
  - pose proof (validate_operation_text _ _ _ E). split; [done|]. intros Hc. inversion Hc; subst.
    rewrite validator_accepts in E by done. done.
  - rewrite IH. split; [constructor; [by eapply complete_by_validator|done]|by inversion 1].
Qed.

(** C21. The editor saves its rules exactly when every rule that is not blank is complete for
    its mode: a target path, the source and target of a copy, a prefix or a value, the
    message of an error object, at least one header name. *)
Theorem validator_exact ops : Forall known_modes ops ->
  (exists text, buildOperationsJson t type_error ops true = inr text) <->
  Forall complete (bfilter (fun o => negb (isOperationBlank o)) ops).
Proof.
  intros Hk. assert (Forall (fun o => o_mode o ∈ OPERATION_MODE_VALUES) (bfilter (fun o => negb (isOperationBlank o)) ops)) as Hm.
  { apply forall_bfilter. eapply Forall_impl; [exact Hk|]. by intros o [? _]. }
  unfold buildOperationsJson, validateOperations. destruct (bfilter _ ops) as [|o l]; [split; [constructor|eauto]|].
  rewrite <- (validate_from_spec _ 0 Hm). destruct (validate_from _ _ _ _); split; eauto; [by intros []|done].
Qed.

(** ** Saving again *)

Lemma meta_flag (f : ModeMeta -> bool) m l : m ∈ l -> forallb (fun m => f (meta_of m)) l = true -> f (meta_of m) = true.
Proof. rewrite forallb_Forall', Forall_forall. auto. Qed.

Lemma filled_trim s : filled (trim s) <-> filled s.
Proof. unfold filled. by rewrite trim_idem. Qed.

Ltac kept_fields :=
  unfold kept, kept_as; cbn [o_mode o_path o_from o_to o_value_text];
  repeat match goal with H : ?f (meta_of _) = _ |- _ => rewrite H; clear H end;
  cbn [orb andb]; rewrite ?filled_trim; try done.

Lemma kept_complete o : settled_rule o -> complete o -> complete (kept o).
Proof.
  intros [[Hv Ht] _] Hc.
  assert (filled (settled_text (o_value_text o)) <-> filled (o_value_text o)) as Hf by (by rewrite !filled_truthy, Ht).
  destruct Hc as [Hm Hp | Hm Hp Hx | Hm Hp Hx | Hm Hp Hx | Hm Hp | Hm Hp Hx | Hm Hp | h hs Hm Hp].
  - apply complete_target; [done|]. pose proof (meta_flag m_path _ _ Hm eq_refl). kept_fields.
  - pose proof (meta_flag m_path _ _ Hm eq_refl). pose proof (meta_flag m_value _ _ Hm eq_refl).
    apply complete_affix; [done|kept_fields..]. by apply Hf.
  - pose proof (meta_flag m_path _ _ Hm eq_refl). pose proof (meta_flag m_from _ _ Hm eq_refl).
    pose proof (meta_flag (fun m => negb (m_pathAlias m)) _ _ Hm eq_refl) as Ha%negb_true_iff.
    apply complete_replace; [done|kept_fields..].
  - pose proof (meta_flag m_from _ _ Hm eq_refl).
    pose proof (meta_flag (fun m => negb (m_pathAlias m)) _ _ Hm eq_refl) as Ha%negb_true_iff.
    apply complete_transfer; [done|kept_fields..].
  - pose proof (meta_flag m_from _ _ Hm eq_refl). pose proof (meta_flag m_pathAlias _ _ Hm eq_refl).
    apply complete_header; [done|]. right. rewrite !filled_truthy in *. kept_fields. rewrite !trim_if.
    destruct (truthy (trim (o_from o))) eqn:E1, (truthy (trim (o_to o))) eqn:E2; cbn [negb]; naive_solver congruence.
  - assert (m_value (meta_of (o_mode o)) = true) as Hmv by (by rewrite Hm).
    apply complete_error; [done|kept_fields; by apply Hf|]. kept_fields. by rewrite Hv.
  - assert (m_value (meta_of (o_mode o)) = true) as Hmv by (by rewrite Hm).
    apply complete_prune; [done|]. kept_fields. by apply Hf.
  - assert (m_value (meta_of (o_mode o)) = true) as Hmv by (by rewrite Hm).
    eapply complete_headers; [done|]. kept_fields. rewrite Hv. exact Hp.
Qed.

(** A complete rule does not become blank: in mode [set] it has a path. *)
Lemma kept_not_blank o : complete o -> isOperationBlank (kept o) = false.
Proof.
  intros Hc. unfold isOperationBlank, kept, kept_as. cbn [o_mode o_path].
  destruct (o_mode o =s js "set") eqn:E; [|done]. apply jeqb_eq in E.
  destruct Hc; try other_mode. rewrite E. change (meta_of (js "set")) with (meta_path_value true). cbn [m_path meta_path_value orb].
  rewrite trim_idem. apply filled_truthy in H0. by rewrite H0.
Qed.

(** The ids play no part. *)
Lemma strip_payload o : operation_payload (strip o) = operation_payload o.
Proof.
  unfold operation_payload, strip. cbn [o_mode o_path o_from o_to o_value_text o_description o_keep_origin o_logic o_conditions].
  assert (omap buildConditionPayload (map strip_condition (o_conditions o)) = omap buildConditionPayload (o_conditions o)) as ->; [|done].
  induction (o_conditions o) as [|c l IH]; [done|]. csimpl. by rewrite IH.
Qed.

Lemma strip_blank o : isOperationBlank (strip o) = isOperationBlank o.
Proof.
  unfold isOperationBlank, strip. cbn [o_mode o_path o_from o_to o_value_text o_keep_origin o_conditions]. f_equal. f_equal.
  induction (o_conditions o) as [|c l IH]; [done|]. simpl. by rewrite IH.
Qed.

Lemma strip_validate o line : validate_operation t type_error (strip o) line = validate_operation t type_error o line.
Proof. done. Qed.
Lemma strip_validate_from ops i : validate_from t type_error i (map strip ops) = validate_from t type_error i ops.
Proof. revert i. induction ops as [|o ops IH]; intros i; [done|]. cbn [map validate_from]. by rewrite strip_validate, IH. Qed.

(** Rules that differ in their ids are saved as the same text. *)
Lemma strip_saved l r : map strip r = map kept l -> l <> [] -> Forall known_modes l -> Forall settled_rule l -> Forall complete l ->
  buildOperationsJson t type_error r true = inr (pretty_of (operations_value l)).
Proof.
  intros Hs Hl Hk Ht Hc. unfold buildOperationsJson. rewrite bfilter_id.
  - assert (validateOperations t type_error r = []) as Hv.
    { unfold validateOperations. rewrite <- strip_validate_from, Hs. apply validate_from_spec, Forall_map.
      - apply Forall_map. eapply Forall_impl; [exact Hk|]. by intros o [? _].
      - rewrite Forall_forall in *. intros o Ho. by apply kept_complete; auto. }
    assert (map operation_payload r = map operation_payload l) as Hp.
    { transitivity (map operation_payload (map strip r)); [rewrite map_map; apply map_ext; intros o; by rewrite strip_payload|].
      rewrite Hs, map_map. apply map_ext_in. intros o Ho%list_elem_of_In. rewrite Forall_forall in *.
      apply kept_payload; [by apply Hk|by apply Ht]. }
    destruct r as [|o r]; [by destruct l|]. cbv beta. rewrite Hv. cbn [truthy]. unfold operations_value. by rewrite Hp.
  - apply Forall_forall. intros o Ho. apply negb_true_iff. rewrite <- strip_blank.
    assert (strip o ∈ map kept l) as (q & Hq & ->)%elem_of_lmap by (rewrite <- Hs; apply elem_of_lmap; eauto).
    rewrite Forall_forall in Hc. by apply kept_not_blank, Hc.
Qed.

(** Opening the dialog on a text it saved and saving at once gives the same text, when the
    values settle: words that are not JSON, or JSON that is not a quoted text. *)
Theorem save_again clock ops text n st n' :
  Forall known_modes ops -> Forall (fun o => readable o = true) ops -> Forall settled_rule ops ->
  buildOperationsJson t type_error ops true = inr text -> parseInitialState clock text n = (Some st, n') ->
  buildOperationsJson t type_error (i_operations st) true = inr text.
Proof.
  intros Hk%forall_not_blank Hr%forall_not_blank Ht%forall_not_blank H.
  unfold buildOperationsJson in H. destruct (bfilter _ ops) as [|o fs]; [injection H as <-; by intros [= <- _]|].
  set (l := o :: fs) in *. assert (validateOperations t type_error l = []) as Hv by (by destruct (validateOperations _ _ l)).
  rewrite Hv in H. cbn [truthy] in H. assert (text = pretty_of (operations_value l)) as -> by (unfold operations_value; congruence).
  destruct (opened_operations clock l n ltac:(done) Hk Hr) as (r & m & -> & Hs). intros E.
  assert (i_operations st = r) as -> by (by injection E as <- _). apply strip_saved; [done..|].
  apply (validate_from_spec l 0); [|exact Hv]. eapply Forall_impl; [exact Hk|]. by intros q [? _].
Qed.

End validate.

(** ** Witnesses *)

(** A translation that is never empty. *)
Definition shouted (key : jstr) (_ : option nat) : jstr := js "! " ++ key.

Lemma validator_exact_witness :
  (exists text, buildOperationsJson shouted (js "TypeError") sample_operations true = inr text) <->
  Forall complete (bfilter (fun o => negb (isOperationBlank o)) sample_operations).
Proof. apply (validator_exact shouted (js "TypeError")); [done|done|exact sample_known]. Defined.

Lemma sample_settled : Forall settled_rule sample_operations.
Proof. repeat constructor; try (vm_compute; reflexivity). Qed.

Lemma save_again_witness :
  exists st n', parseInitialState some_time sample_text 3%N = (Some st, n') /\
    buildOperationsJson shouted (js "TypeError") (i_operations st) true = inr sample_text.
Proof.
  assert (exists st n', parseInitialState some_time sample_text 3%N = (Some st, n')) as (st & n' & E)
    by (do 2 eexists; vm_compute; reflexivity).
  exists st, n'. split; [exact E|].
  apply (save_again shouted (js "TypeError") ltac:(done) ltac:(done) some_time sample_operations sample_text 3%N st n').
  - exact sample_known.
  - repeat constructor; vm_compute; reflexivity.
  - exact sample_settled.
  - vm_compute. reflexivity.
  - exact E.
Defined.
