(* ===== verification/ParamEditorFacts.v ===== *)
(** * The parameter override dialog: theorems

    In every state the dialog reaches the rules have ids of their own, one of them is
    selected, and their modes are known; dragging only moves a rule; the rules of a pruning
    draft cannot be edited. *)

From S2P Require Import Prelude Machine JsString JsNumber Json JsonText ParamOverride ParamEditor ParamOverrideFacts.

Section facts.
Context (clock : N -> N).

Abbreviation fresh := (fresh_in clock).

(** ** Fresh ids *)

Lemma fresh_perm n n' l l' : l ≡ₚ l' -> fresh n n' l -> fresh n n' l'.
Proof.
  intros H (ks & -> & Hn & Hf). symmetry in H. apply Permutation_map_inv in H as (qs & -> & Hq).
  exists qs. split; [done|]. by rewrite <- Hq.
Qed.

Lemma fresh_sublist n n' l l' : l' `sublist_of` l -> fresh n n' l -> fresh n n' l'.
Proof.
  intros H (ks & -> & Hn & Hf). revert H Hn Hf. revert l'. induction ks as [|k ks IH]; intros l' H Hn Hf.
  - apply sublist_nil_r in H as ->. apply fresh_nil.
  - apply NoDup_cons in Hn as [Hk Hn]. apply Forall_cons in Hf as [Hlt Hf]. cbn [map] in H.
    inversion H as [|x l1 l2 H1|x l1 l2 H1]; subst.
    + destruct (IH _ H1 Hn Hf) as (qs & -> & Hq & Hfq). exists (k :: qs). split; [done|]. split; [|by constructor].
      apply NoDup_cons. split; [|done]. intros Hin. apply Hk.
      assert (local_id clock k ∈ map (local_id clock) ks) as (j & Hj & E)%elem_of_lmap.
      { eapply elem_of_sublist; [|exact H1]. apply elem_of_lmap. eauto. }
      by apply local_id_inj in E as ->.
    + by apply IH.
Qed.

(** ** Lists of rules *)

Lemma ops_ids_app l l' : ops_ids (l ++ l') = ops_ids l ++ ops_ids l'.
Proof. unfold ops_ids. by rewrite map_app, concat_app. Qed.

Lemma ops_ids_mid l o l' : ops_ids (l ++ o :: l') = ops_ids l ++ op_ids o ++ ops_ids l'.
Proof. apply ops_ids_app. Qed.

Lemma ops_ids_perm l l' : l ≡ₚ l' -> ops_ids l ≡ₚ ops_ids l'.
Proof.
  induction 1 as [|x l l' _ IH|x y l|l1 l2 l3 _ IH1 _ IH2]; unfold ops_ids in *; cbn [map concat]; [done|by rewrite IH| |by rewrite IH1].
  rewrite !app_assoc. by rewrite (Permutation_app_comm (op_ids x)).
Qed.

Lemma ops_ids_sublist l l' : l `sublist_of` l' -> ops_ids l `sublist_of` ops_ids l'.
Proof.
  induction 1 as [|x l l' _ IH|x l l' _ IH]; unfold ops_ids in *; cbn [map concat]; [done| |].
  - by apply sublist_app.
  - by apply sublist_inserts_l.
Qed.

Lemma own_ids_sublist l : map o_id l `sublist_of` ops_ids l.
Proof.
  induction l as [|o l IH]; [constructor|]. unfold ops_ids in *. cbn [map concat]. unfold op_ids at 1. cbn [app]. constructor.
  by apply sublist_inserts_l.
Qed.

Lemma on_operation_ids id f ops : (forall o, op_ids (f o) = op_ids o) -> ops_ids (on_operation id f ops) = ops_ids ops.
Proof.
  intros H. unfold ops_ids, on_operation. induction ops as [|o ops IH]; [done|]. cbn [map concat]. rewrite IH.
  destruct (o_id o =s id); by rewrite ?H.
Qed.

(** With distinct ids at most one rule is changed. *)
Lemma on_operation_split id f ops : NoDup (map o_id ops) ->
  on_operation id f ops = ops \/ exists l1 o l2, ops = l1 ++ o :: l2 /\ o_id o = id /\ on_operation id f ops = l1 ++ f o :: l2.
Proof.
  unfold on_operation. induction ops as [|o ops IH]; [by left|]. cbn [map]. intros [Hn Hd]%NoDup_cons.
  destruct (o_id o =s id) eqn:E.
  - apply jeqb_eq in E as <-. right. exists [], o, ops. split; [done|]. split; [done|]. cbn [app]. f_equal.
    assert (forall q, q ∈ ops -> (o_id q =s o_id o) = false) as Hne.
    { intros q Hq. apply jeqb_neq. intros Ee. apply Hn. rewrite <- Ee. apply elem_of_lmap. eauto. }
    clear -Hne. induction ops as [|q ops IH]; [done|]. cbn [map]. rewrite Hne by left. f_equal. apply IH. intros. apply Hne. by right.
  - destruct (IH Hd) as [-> | (l1 & q & l2 & -> & Hq & ->)]; [by left|right]. by exists (o :: l1), q, l2.
Qed.

Lemma splice_perm {A} i (x : A) l : splice_in i x l ≡ₚ x :: l.
Proof. unfold splice_in. rewrite <- Permutation_middle. by rewrite take_drop. Qed.

Lemma reorder_perm ops s t p : reorderOperations ops s t p ≡ₚ ops.
Proof.
  unfold reorderOperations. destruct (_ || _); [done|]. destruct (find_index _ ops) as [i|]; [|done].
  destruct (ops !! i) as [o|] eqn:E; [|done]. destruct (find_index _ (delete i ops)) as [j|]; [|done].
  rewrite splice_perm. symmetry. by apply delete_Permutation.
Qed.

(** ** The invariant *)

Record wf (seed : N) (ops : list ParamOverrideOperation) : Prop := {
  wf_some : ops <> []; wf_ids : fresh 0 seed (ops_ids ops); wf_modes : Forall known_modes ops }.

Definition issued (seed : N) (i : jstr) : Prop := exists k, (k < seed)%N /\ i = local_id clock k.

Definition good (d : Dialog) : Prop := wf (d_seed d) (d_ops d) /\ Forall (issued (d_seed d)) (shown_rule_ids d).

Lemma wf_distinct seed ops : wf seed ops -> NoDup (map o_id ops).
Proof. intros [_ H _]. eapply sublist_NoDup; [by eapply fresh_NoDup|apply own_ids_sublist]. Qed.

Lemma wf_weaken n n' ops : (n <= n')%N -> wf n ops -> wf n' ops.
Proof. intros H [? ? ?]. split; [done| |done]. eapply fresh_weaken; [| |done]; lia. Qed.

Lemma wf_perm n ops ops' : ops ≡ₚ ops' -> wf n ops -> wf n ops'.
Proof.
  intros H [H1 H2 H3]. split.
  - intros ->. by apply Permutation_nil_r in H.
  - eapply fresh_perm; [by apply ops_ids_perm|done].
  - by rewrite <- H.
Qed.

Lemma wf_sublist n ops ops' : ops' `sublist_of` ops -> ops' <> [] -> wf n ops -> wf n ops'.
Proof.
  intros H H0 [H1 H2 H3]. split; [done| |].
  - eapply fresh_sublist; [by apply ops_ids_sublist|done].
  - rewrite Forall_forall in *. intros o Ho. apply H3. by eapply elem_of_sublist.
Qed.

(** New rules after old ones. *)
Lemma wf_app n n' ops new : (n <= n')%N -> fresh 0 n (ops_ids ops) -> Forall known_modes ops ->
  fresh n n' (ops_ids new) -> Forall known_modes new -> ops ++ new <> [] -> wf n' (ops ++ new).
Proof.
  intros Hn H1 H2 H3 H4 H5. split; [done| |by apply Forall_app]. rewrite ops_ids_app. eapply fresh_app; [|done..]. lia.
Qed.

Lemma wf_new n n' new : fresh n n' (ops_ids new) -> Forall known_modes new -> new <> [] -> wf n' new.
Proof. intros H1 H2 H3. split; [done| |done]. eapply fresh_weaken; [| |done]; lia. Qed.

Lemma wf_on id f n ops : (forall o, op_ids (f o) = op_ids o) -> (forall o, known_modes o -> known_modes (f o)) ->
  wf n ops -> wf n (on_operation id f ops).
Proof.
  intros Hf Hk [H1 H2 H3]. split.
  - by destruct ops.
  - by rewrite on_operation_ids.
  - apply Forall_map. eapply Forall_impl; [exact H3|]. simpl. intros o Ho. destruct (_ =s _); auto.
Qed.

(** ** Modes *)

Lemma known_mem v l d : d ∈ l -> known v l d ∈ l.
Proof. intros H. unfold known, has. destruct v; try done. by case_bool_decide. Qed.

Lemma condition_known id v : c_mode (condition_of id v) ∈ CONDITION_MODE_VALUES.
Proof. apply known_mem. decided. Qed.

Lemma ids_map_forall {A B} (P : B -> Prop) (k : A -> ids B) l n r n' :
  (forall x m y m', k x m = (Some y, m') -> P y) -> ids_map k l n = (Some r, n') -> Forall P r.
Proof.
  intros Hk. revert n r. induction l as [|x l IH]; intros n r; cbn [ids_map]; [by intros [= <- _]|].
  unfold mbind, ids_bind. destruct (k x n) as [[y|] n1] eqn:E; [|done]. destruct (ids_map k l n1) as [[s|] n2] eqn:E2; [|done].
  intros [= <- ->]. constructor; [by eapply Hk|by eapply IH].
Qed.

Lemma operation_known v n o n' : normalizeOperation clock v n = (Some o, n') -> known_modes o.
Proof.
  rewrite operation_read. intros H.
  destruct (string_of (v_or (get (js "logic") v) (str "OR"))) as [logic|]; [|by destruct v].
  destruct (read_conditions clock (get (js "conditions") v) (n + 1)%N) as [[cs|] m] eqn:E; [|by destruct v].
  assert (o = operation_of (local_id clock n) logic cs v) as -> by (destruct v; congruence).
  split; [apply known_mem; decided|]. cbn [operation_of o_conditions]. unfold read_conditions in E.
  destruct (get (js "conditions") v); try (injection E as <- _; constructor). eapply ids_map_forall; [|exact E].
  intros x q c q' Hc. rewrite condition_read in Hc. assert (c = condition_of (local_id clock q) x) as ->; [|apply condition_known].
  destruct x; congruence.
Qed.

Lemma operations_known l n r n' : ids_map (normalizeOperation clock) l n = (Some r, n') -> Forall known_modes r.
Proof. apply ids_map_forall. intros. by eapply operation_known. Qed.

Lemma empty_known id : known_modes (empty_operation id).
Proof. split; [decided|constructor]. Qed.

Lemma rules_known l n r n' : rules_of clock l n = (Some r, n') -> Forall known_modes r.
Proof.
  destruct l; [|apply operations_known]. intros H. cbn [rules_of] in H. unfold mbind, ids_bind in H. rewrite default_operation in H.
  injection H as <- _. constructor; [apply empty_known|constructor].
Qed.

(** A new empty rule. *)
Lemma wf_default n : wf (n + 1) [empty_operation (local_id clock n)].
Proof. apply (wf_new n); [apply fresh_one|constructor; [apply empty_known|done]|done]. Qed.

Lemma wf_rules l n r n' : rules_of clock l n = (Some r, n') -> (n <= n')%N /\ wf n' r.
Proof.
  intros H. pose proof (draws_rules clock l n) as [Hn Hf]. rewrite H in Hn, Hf. simpl in Hn, Hf. split; [done|].
  eapply wf_new; [done|by eapply rules_known|by eapply override_nonempty].
Qed.

(** ** Reading a pruning draft *)

Definition strip_rule (r : PruneRule) : PruneRule :=
  {| r_id := []; r_path := r_path r; r_mode := r_mode r; r_value_text := r_value_text r; r_invert := r_invert r;
     r_pass_missing_key := r_pass_missing_key r |}.

Definition strip_prune (p : PruneObjectsDraft) : PruneObjectsDraft := set_rules (map strip_rule (p_rules p)) p.

(** The rule that is read with a given id. *)
Definition rule_of (id : jstr) (v : jsval) : PruneRule :=
  {| r_id := id; r_path := string_or_empty (get (js "path") v); r_mode := known (get (js "mode") v) CONDITION_MODE_VALUES (js "full");
     r_value_text := toValueText (get (js "value") v); r_invert := is_true (get (js "invert") v);
     r_pass_missing_key := is_true (get (js "pass_missing_key") v) |}.

Lemma rule_read v n : v <> VNull -> normalizePruneRule clock v n = (Some (rule_of (local_id clock n) v), (n + 1)%N).
Proof. by destruct v. Qed.

(** [m] draws rules that are [rs] but for their ids. *)
Definition reads_rules (m : ids (list PruneRule)) (rs : list PruneRule) : Prop :=
  forall n, exists r n', m n = (Some r, n') /\ (n <= n')%N /\ fresh n n' (map r_id r) /\ map strip_rule r = rs.

Lemma reads_map {A} (f : A -> jsval) l : (forall x, x ∈ l -> f x <> VNull) ->
  reads_rules (ids_map (fun x => normalizePruneRule clock (f x)) l) (map (fun x => rule_of [] (f x)) l).
Proof.
  induction l as [|x l IH]; intros Hl n; cbn [ids_map map].
  - exists [], n. split; [done|]. split; [lia|]. split; [apply fresh_nil|done].
  - unfold mbind, ids_bind. rewrite (rule_read (f x) n) by (apply Hl; left). 
    destruct (IH ltac:(intros; apply Hl; by right) (n + 1)%N) as (r & n' & -> & Hn & Hf & <-).
    do 2 eexists. split; [reflexivity|]. split; [lia|]. split; [|done]. cbn [map].
    apply (fresh_app clock n (n + 1) n' [_]); [lia|apply fresh_one|done].
Qed.

Definition entry_value (e : jstr * jsval) : jsval :=
  lit [(js "path", VStr (fst e)); (js "mode", str "full"); (js "value", snd e)].

Lemma reads_entries o : reads_rules (rules_of_entries clock o) (map (fun e => rule_of [] (entry_value e)) o).
Proof.
  assert (forall n, rules_of_entries clock o n = ids_map (fun e => normalizePruneRule clock (entry_value e)) o n) as E.
  { unfold rules_of_entries. induction o as [|[k v] o IH]; intros n; [done|]. cbn [ids_map]. unfold mbind, ids_bind.
    cbn [entry_value fst snd]. rewrite rule_read by done. by rewrite IH. }
  intros n. rewrite E. by apply reads_map.
Qed.

Definition where_rules (v : jsval) : list PruneRule :=
  match v with VObj o => map (fun e => rule_of [] (entry_value e)) o | _ => [] end.
Definition condition_rules (v : jsval) : list PruneRule :=
  match v with VArr l => map (rule_of []) (bfilter is_record l) | _ => where_rules v end.

(** What an object says, but for the ids; [None] when a conversion throws. *)
Definition read_prune_object (parsed : jsval) : option PruneObjectsDraft :=
  typeText ← match get (js "type") parsed with VUndef => Some [] | v => trim <$> string_of v end;
  logic ← string_of (v_or (get (js "logic") parsed) (str "AND"));
  let present k := negb (is_undefined (get k parsed)) in
  Some {| p_simpleMode := negb (present (js "logic") || present (js "recursive") || present (js "where") || present (js "conditions"));
          p_typeText := typeText;
          p_logic := if ascii_upper logic =s js "OR" then js "OR" else js "AND";
          p_recursive := negb (is_false (get (js "recursive") parsed));
          p_rules := where_rules (get (js "where") parsed) ++ condition_rules (get (js "conditions") parsed) |}.

(** What a text says, but for the ids. *)
Definition read_prune (valueText : jstr) : PruneObjectsDraft :=
  let raw := trim valueText in
  if negb (truthy raw) then default_prune []
  else
    match json_parse raw with
    | None => default_prune raw
    | Some (VStr s) => default_prune (trim s)
    | Some (VObj _ as parsed) => default (default_prune raw) (read_prune_object parsed)
    | Some parsed => default (default_prune raw) (default_prune <$> (trim <$> string_of (match parsed with VNull => VStr [] | v => v end)))
    end.

(** A draft that is read is what the text says, with ids that are new. *)
Definition reads_draft (m : ids PruneObjectsDraft) (p : PruneObjectsDraft) : Prop :=
  forall n, exists q n', m n = (Some q, n') /\ (n <= n')%N /\ fresh n n' (map r_id (p_rules q)) /\ strip_prune q = p.

Lemma reads_default s : reads_draft (mret (default_prune s)) (default_prune s).
Proof. intros n. do 2 eexists. split; [reflexivity|]. split; [lia|]. split; [apply fresh_nil|done]. Qed.

Lemma reads_where v : reads_rules (match v with VObj o => rules_of_entries clock o | _ => mret [] end) (where_rules v).
Proof.
  destruct v; try apply reads_entries; intros n; exists [], n; (split; [done|]); (split; [lia|]); (split; [apply fresh_nil|done]).
Qed.

Lemma reads_conditions v :
  reads_rules (match v with
               | VArr l => ids_map (normalizePruneRule clock) (bfilter is_record l)
               | VObj o => rules_of_entries clock o
               | _ => mret []
               end) (condition_rules v).
Proof.
  destruct v; try apply (reads_where (VObj o)); try apply (reads_where VNull).
  apply (reads_map (fun x => x)). intros x [_ Hx]%elem_of_bfilter. by destruct x.
Qed.

Lemma reads_object v fallback : p_rules fallback = [] ->
  reads_draft (catch fallback (parse_prune_object clock v)) (default fallback (read_prune_object v)).
Proof.
  intros Hfb n. unfold catch, parse_prune_object, read_prune_object, mbind, ids_bind.
  destruct (reads_where (get (js "where") v) n) as (r1 & n1 & -> & Hn1 & Hf1 & <-).
  destruct (reads_conditions (get (js "conditions") v) n1) as (r2 & n2 & -> & Hn2 & Hf2 & <-).
  assert (strip_prune fallback = fallback) as Hsf by (unfold strip_prune, set_rules; rewrite Hfb; by destruct fallback; simpl in *; subst).
  set (ty := match get (js "type") v with VUndef => Some [] | v => trim <$> string_of v end).
  assert ((match get (js "type") v with
           | VUndef => @mret ids ids_ret jstr []
           | v => fun n => match lift (string_of v) n with (Some x, n') => @mret ids ids_ret jstr (trim x) n' | (None, n') => (None, n') end
           end) n2 = (ty, n2)) as ->.
  { unfold ty, lift. destruct (get (js "type") v); try reflexivity; by destruct (string_of _). }
  destruct ty as [typeText|]; cbn [option_bind].
  - unfold lift. destruct (string_of (v_or (get (js "logic") v) (str "AND"))) as [logic|]; cbn [option_bind default from_option id].
    + do 2 eexists. split; [reflexivity|]. split; [lia|]. cbn [p_rules]. rewrite map_app. split; [by eapply fresh_app; [|done..]|].
      unfold strip_prune, set_rules. cbn [p_rules p_simpleMode p_typeText p_logic p_recursive]. by rewrite map_app.
    + exists fallback, n2. split; [done|]. split; [lia|]. rewrite Hfb. split; [apply fresh_nil|done].
  - exists fallback, n2. split; [done|]. split; [lia|]. rewrite Hfb. split; [apply fresh_nil|done].
Qed.

Lemma prune_read text : reads_draft (parsePruneObjectsDraft clock text) (read_prune text).
Proof.
  unfold parsePruneObjectsDraft, read_prune. destruct (truthy (trim text)); [|apply reads_default]. cbn [negb].
  destruct (json_parse (trim text)) as [v|]; [|apply reads_default].
  destruct v as [| |b|x|s|l|o]; try apply reads_default; [..|by apply reads_object].
  all: intros n; unfold catch, mbind, ids_bind, lift.
  all: match goal with |- context [string_of ?v] => destruct (string_of v) as [u|] end; by apply reads_default.
Qed.

(** ** Every handler keeps the invariant *)

Section handlers.
Context (t : jstr -> option nat -> jstr) (type_error : jstr).

Lemma good_seed n d : (d_seed d <= n)%N -> good d -> good (setSeed n d).
Proof.
  intros Hn [Hw Hs]. split; [by eapply wf_weaken|]. eapply Forall_impl; [exact Hs|]. intros i (k & Hk & ->). exists k. simpl. split; [lia|done].
Qed.

Lemma good_ops ops d : good d -> wf (d_seed d) ops -> good (setOperations ops d).
Proof. intros [_ Hs] Hw. by split. Qed.

(** A handler that draws: the computation does not turn the seed back, and what it gives
    leads to a good state. *)
Lemma drawing_good {A} (m : ids A) k d :
  good d -> (forall n, (n <= snd (m n))%N) ->
  (forall x n', m (d_seed d) = (Some x, n') -> good (setSeed n' d) -> good (k x (setSeed n' d))) -> good (drawing m k d).
Proof.
  intros Hg Hm Hk. unfold drawing. specialize (Hm (d_seed d)). destruct (m (d_seed d)) as [[x|] n'] eqn:E; simpl in Hm;
    [apply Hk; [done|]|]; by apply good_seed.
Qed.

Lemma default_seed n : (n <= snd (createDefaultOperation clock n))%N.
Proof. rewrite default_operation. simpl. lia. Qed.

Lemma operations_seed l n : (n <= snd (ids_map (normalizeOperation clock) l n))%N.
Proof. apply draws_operations. Qed.

(** One empty rule in the place of all. *)
Lemma default_good k d : good d ->
  (forall o n, good (setOperations [o] (setSeed n d)) -> good (k o (setSeed n d))) -> good (drawing (createDefaultOperation clock) k d).
Proof.
  intros Hg Hk. apply drawing_good; [done|apply default_seed|]. intros x n' E Hg'. apply Hk.
  rewrite default_operation in E. assert (x = empty_operation (local_id clock (d_seed d)) /\ n' = d_seed d + 1)%N as [-> ->] by (split; congruence).
  apply good_ops; [done|apply wf_default].
Qed.

Lemma good_view d d' : good d -> d_ops d' = d_ops d -> d_seed d' = d_seed d -> d_prune d' = d_prune d -> good d'.
Proof. unfold good, shown_rule_ids. intros H -> -> ->. exact H. Qed.

Lemma update_operation_good id p d : match po_mode p with Some m => has m OPERATION_MODE_VALUES | None => true end = true ->
  good d -> good (updateOperation id p d).
Proof.
  intros Hp Hg. apply good_ops; [done|]. apply wf_on; [done| |apply Hg]. intros o [Hm Hc]. split; [|done]. simpl.
  destruct (po_mode p); [|done]. by apply bool_decide_eq_true in Hp.
Qed.

Lemma add_operation_good d : good d -> good (addOperation clock d).
Proof.
  intros Hg. apply drawing_good; [done|apply default_seed|]. intros x n' E Hg'. rewrite default_operation in E.
  assert (x = empty_operation (local_id clock (d_seed d)) /\ n' = d_seed d + 1)%N as [-> ->] by (split; congruence).
  apply (good_ops _ _ Hg'). destruct Hg as [[? ? ?] _]. apply (wf_app (d_seed d)); [apply N.le_add_r|done|done| | |by intros [_ ?]%app_eq_nil].
  - apply fresh_one.
  - constructor; [apply empty_known|done].
Qed.

Lemma duplicate_good id eager d : good d -> good (duplicateOperation clock id eager d).
Proof.
  intros Hg. unfold duplicateOperation. destruct (find_index _ _) as [i|]; [|done]. destruct (d_ops d !! i) as [src|] eqn:Ei; [|done].
  apply drawing_good; [done|apply draws_operation|]. intros x n' E Hg'.
  assert (good (setOperations (splice_in (i + 1) x (d_ops (setSeed n' d))) (setSeed n' d))) as Hr.
  { apply (good_ops _ _ Hg'). pose proof (draws_operation clock (clone_value src) (d_seed d)) as [Hn Hf]. rewrite E in Hn, Hf. simpl in Hn, Hf.
    destruct Hg as [[? ? ?] _]. eapply wf_perm; [symmetry; etransitivity; [apply splice_perm|]; apply Permutation_cons_append|].
    apply (wf_app (d_seed d)); [done|done|done| | |by intros [_ ?]%app_eq_nil].
    - unfold ops_ids. cbn [map concat]. by rewrite app_nil_r.
    - constructor; [by eapply operation_known|done]. }
  by destruct (eager && truthy (o_id x)).
Qed.

Lemma remove_operation_good id d : good d -> good (removeOperation clock id d).
Proof.
  intros Hg. unfold removeOperation. destruct (Nat.leb_spec (length (d_ops d)) 1) as [Hl | Hl]; [by apply default_good|].
  apply good_ops; [done|]. destruct Hg as [Hw _]. apply (wf_sublist _ (d_ops d)); [apply bfilter_sublist| |done].
  intros E. apply bfilter_nil_iff in E. pose proof (wf_distinct _ _ Hw) as Hd.
  destruct (d_ops d) as [|a [|b l]]; simpl in Hl; try lia. inversion E as [|? ? Ea E']; subst. inversion E' as [|? ? Eb _]; subst.
  apply negb_false_iff, jeqb_eq in Ea. apply negb_false_iff, jeqb_eq in Eb. cbn [map] in Hd. apply NoDup_cons in Hd as [Hd _].
  apply Hd. rewrite Ea, Eb. left.
Qed.

Lemma add_condition_good id d : good d -> good (addCondition clock id d).
Proof.
  intros Hg. apply drawing_good; [done|intros n; unfold createDefaultCondition; rewrite condition_read; simpl; lia|]. intros c n' E Hg'.
  unfold createDefaultCondition in E. rewrite condition_read in E.
  assert (c = condition_of (local_id clock (d_seed d)) (lit []) /\ n' = d_seed d + 1)%N as [-> ->] by (split; congruence).
  set (c := condition_of _ _). set (f := fun op => set_conditions (o_conditions op ++ [c]) op). apply (good_ops _ _ Hg').
  destruct Hg as [Hw _]. destruct (on_operation_split id f (d_ops d) (wf_distinct _ _ Hw)) as [E1 | (l1 & o & l2 & E1 & _ & E2)].
  { change (wf (d_seed d + 1) (on_operation id f (d_ops d))). rewrite E1. eapply wf_weaken; [|done]. lia. }
  change (wf (d_seed d + 1) (on_operation id f (d_ops d))). rewrite E2. destruct Hw as [_ Hi Hm]. rewrite E1 in Hi, Hm. split.
  - by destruct l1.
  - apply (fresh_perm _ _ (ops_ids (l1 ++ o :: l2) ++ [c_id c])).
    + rewrite !ops_ids_mid. assert (op_ids (f o) = op_ids o ++ [c_id c]) as -> by (unfold op_ids, f; simpl; by rewrite map_app).
      rewrite <- !app_assoc. apply Permutation_app_head, Permutation_app_head, Permutation_app_comm.
    + eapply fresh_app; [|exact Hi|apply fresh_one]. lia.
  - apply Forall_app in Hm as [Hm1 Hm2]. apply Forall_cons in Hm2 as [[Ho Hc] Hm2]. apply Forall_app. split; [done|]. constructor; [|done].
    split; [done|]. cbn [f set_conditions o_conditions]. apply Forall_app. split; [done|]. constructor; [apply condition_known|done].
Qed.

Lemma update_condition_good id cid p d : match pc_mode p with Some m => has m CONDITION_MODE_VALUES | None => true end = true ->
  good d -> good (updateCondition id cid p d).
Proof.
  intros Hp Hg. apply good_ops; [done|]. apply wf_on; [| |apply Hg].
  - intros o. unfold op_ids. cbn [o_id o_conditions set_conditions]. f_equal. rewrite map_map. apply map_ext. intros c. by destruct (_ =s _).
  - intros o [Hm Hc]. split; [done|]. cbn [o_conditions set_conditions]. apply Forall_map. eapply Forall_impl; [exact Hc|]. simpl. intros c Hk.
    destruct (_ =s _); [|done]. simpl. destruct (pc_mode p); [|done]. by apply bool_decide_eq_true in Hp.
Qed.

Lemma remove_condition_good id cid d : good d -> good (removeCondition id cid d).
Proof.
  intros Hg. apply good_ops; [done|]. destruct Hg as [[H1 H2 H3] _]. split.
  - unfold on_operation. by destruct (d_ops d).
  - eapply fresh_sublist; [|exact H2]. unfold on_operation, ops_ids. clear.
    induction (d_ops d) as [|o l IH]; [done|]. cbn [map concat]. apply sublist_app; [|done]. destruct (_ =s _); [|done].
    unfold op_ids. cbn [o_id o_conditions set_conditions]. constructor. clear.
    induction (o_conditions o) as [|c l IH]; [done|]. cbn [bfilter map]. destruct (negb _); cbn [map]; by constructor.
  - apply Forall_map. eapply Forall_impl; [exact H3|]. simpl. intros o [Hm Hc]. destruct (_ =s _); [|done]. split; [done|].
    by apply forall_bfilter.
Qed.

Lemma return_error_good id p d : good d -> good (updateReturnErrorDraft id p d).
Proof. intros Hg. apply good_ops; [done|]. by apply wf_on; [..|apply Hg]. Qed.

(** *** Pruning drafts *)

Lemma fresh_not_issued a b seed l i : (seed <= a)%N -> fresh a b l -> i ∈ l -> ~ issued seed i.
Proof.
  intros Ha (ks & -> & _ & Hf) (k & Hk & ->)%elem_of_lmap (q & Hq & E). apply local_id_inj in E as <-.
  rewrite Forall_forall in Hf. specialize (Hf k Hk). simpl in Hf. lia.
Qed.

Lemma fresh_issued a b l : fresh a b l -> Forall (issued b) l.
Proof.
  intros (ks & -> & _ & Hf). apply Forall_map. eapply Forall_impl; [exact Hf|]. intros k Hk. exists k. split; [simpl in Hk; lia|done].
Qed.

(** The text that is built does not depend on the ids. *)
Lemma strip_prune_text p : buildPruneObjectsValueText (strip_prune p) = buildPruneObjectsValueText p.
Proof.
  unfold buildPruneObjectsValueText, strip_prune, set_rules. cbn [p_simpleMode p_typeText p_logic p_recursive p_rules].
  assert (map prune_condition (bfilter (fun rule => truthy (trim (r_path rule))) (map strip_rule (p_rules p))) =
    map prune_condition (bfilter (fun rule => truthy (trim (r_path rule))) (p_rules p))) as ->; [|done].
  induction (p_rules p) as [|r l IH]; [done|]. cbn [map bfilter strip_rule r_path]. destruct (truthy _); [|done]. cbn [map]. by rewrite IH.
Qed.

(** An updater rewrites the text of one rule from what the text says. *)
Lemma prune_update id u text_of_draft d :
  (forall p n, (forall i, i ∈ map r_id (p_rules p) -> ~ issued (d_seed d) i) ->
     exists q n', u p n = (Some q, n') /\ (n <= n')%N /\ buildPruneObjectsValueText q = text_of_draft (strip_prune p)) ->
  exists n', (d_seed d <= n')%N /\ updatePruneObjectsDraft clock id u d =
    setOperations (on_operation id (fun op => set_value_text (text_of_draft (read_prune (o_value_text op))) op) (d_ops d)) (setSeed n' d).
Proof.
  intros Hu. unfold updatePruneObjectsDraft, drawing.
  assert (forall ops n, (d_seed d <= n)%N -> exists n', (n <= n')%N /\
    ids_map (fun op => if negb (o_id op =s id) then mret op
                       else draft ← parsePruneObjectsDraft clock (o_value_text op); nextDraft ← u draft;
                            mret (set_value_text (buildPruneObjectsValueText nextDraft) op)) ops n =
    (Some (on_operation id (fun op => set_value_text (text_of_draft (read_prune (o_value_text op))) op) ops), n')) as Hmap.
  { induction ops as [|o ops IH]; intros n Hn; [exists n; split; [lia|done]|]. cbn [ids_map]. unfold on_operation. cbn [map].
    unfold mbind, ids_bind. destruct (o_id o =s id); cbn [negb].
    - destruct (prune_read (o_value_text o) n) as (p & n1 & -> & Hn1 & Hf & Hs).
      destruct (Hu p n1) as (q & n2 & -> & Hn2 & Hq); [intros i Hi; by eapply fresh_not_issued|].
      unfold mret, ids_ret. destruct (IH n2 ltac:(lia)) as (n3 & Hn3 & E). unfold mbind, ids_bind, mret, ids_ret in E. rewrite E.
      exists n3. split; [lia|]. by rewrite Hq, Hs.
    - unfold mret, ids_ret. destruct (IH n Hn) as (n3 & Hn3 & E). unfold mbind, ids_bind, mret, ids_ret in E. rewrite E.
      exists n3. split; [lia|]. done. }
  destruct (Hmap (d_ops d) (d_seed d) ltac:(lia)) as (n' & Hn & ->). by exists n'.
Qed.

(** The effect of the events on a pruning draft: the fields are patched, and nothing else. *)
Definition rewrite_prune (id : jstr) (patch : PrunePatch) (d : Dialog) : list ParamOverrideOperation :=
  on_operation id (fun op => set_value_text (buildPruneObjectsValueText (patch_prune patch (read_prune (o_value_text op)))) op) (d_ops d).

Definition no_patch : PrunePatch := {| pp_simpleMode := None; pp_typeText := None; pp_logic := None; pp_recursive := None |}.
Definition to_advanced : PrunePatch := {| pp_simpleMode := Some false; pp_typeText := None; pp_logic := None; pp_recursive := None |}.

Definition rewrites (id : jstr) (patch : PrunePatch) (d d' : Dialog) : Prop :=
  exists n, (d_seed d <= n)%N /\ d' = setOperations (rewrite_prune id patch d) (setSeed n d).

Lemma no_patch_id p : patch_prune no_patch p = p.
Proof. by destruct p. Qed.

Lemma fields_rewrite id patch d : rewrites id patch d (updatePruneFields clock id patch d).
Proof.
  apply (prune_update id _ (fun p => buildPruneObjectsValueText (patch_prune patch p))). intros p n _. do 2 eexists. split; [reflexivity|].
  split; [lia|]. rewrite <- strip_prune_text. done.
Qed.

Lemma add_rule_rewrite oid d : rewrites oid to_advanced d (addPruneRule clock oid d).
Proof.
  apply (prune_update oid _ (fun p => buildPruneObjectsValueText (patch_prune to_advanced p))). intros p n _.
  unfold mbind, ids_bind. rewrite rule_read by done. do 2 eexists. split; [reflexivity|]. split; [lia|].
  transitivity (buildPruneObjectsValueText (patch_prune to_advanced p)); [|by rewrite <- strip_prune_text].
  unfold buildPruneObjectsValueText, patch_prune. cbn [p_simpleMode p_typeText p_logic p_recursive p_rules to_advanced pp_simpleMode pp_typeText pp_logic pp_recursive default from_option id].
  rewrite List.filter_app. cbn [bfilter rule_of r_path]. change (truthy (trim (string_or_empty (get (js "path") (lit []))))) with false. cbv iota. by rewrite app_nil_r.
Qed.

Lemma update_rule_rewrite id rid patch d : issued (d_seed d) rid -> rewrites id no_patch d (updatePruneRule clock id rid patch d).
Proof.
  intros Hr. apply (prune_update id _ (fun p => buildPruneObjectsValueText (patch_prune no_patch p))). intros p n Hp. do 2 eexists.
  split; [reflexivity|]. split; [lia|]. rewrite no_patch_id, strip_prune_text. f_equal. destruct p as [a b c e rs]. unfold set_rules. cbn [p_simpleMode p_typeText p_logic p_recursive p_rules] in *. f_equal.
  rewrite <- (map_id rs) at 2. apply map_ext_in. intros r Hin%list_elem_of_In. destruct (r_id r =s rid) eqn:E; [|done].
  apply jeqb_eq in E. destruct (Hp (r_id r)); [apply elem_of_lmap; eauto|by rewrite E].
Qed.

Lemma remove_rule_rewrite id rid d : issued (d_seed d) rid -> rewrites id no_patch d (removePruneRule clock id rid d).
Proof.
  intros Hr. apply (prune_update id _ (fun p => buildPruneObjectsValueText (patch_prune no_patch p))). intros p n Hp. do 2 eexists.
  split; [reflexivity|]. split; [lia|]. rewrite no_patch_id, strip_prune_text. f_equal. destruct p as [a b c e rs]. unfold set_rules. cbn [p_simpleMode p_typeText p_logic p_recursive p_rules] in *. f_equal.
  apply bfilter_id, Forall_forall. intros r Hin. apply negb_true_iff, jeqb_neq. intros E. destruct (Hp (r_id r)); [apply elem_of_lmap; eauto|by rewrite E].
Qed.

Lemma rewrites_good id patch d d' : good d -> rewrites id patch d d' -> good d'.
Proof. intros Hg (n & Hn & ->). pose proof (good_seed n d Hn Hg) as Hg'. apply good_ops; [done|]. by apply wf_on; [..|apply Hg']. Qed.

(** *** Opening, modes and templates *)

Lemma initial_good value d : good d ->
  match parseInitialState clock value (d_seed d) with
  | (Some st, n) => (d_seed d <= n)%N /\ wf n (i_operations st)
  | (None, n) => (d_seed d <= n)%N
  end.
Proof.
  intros Hg. unfold parseInitialState.
  assert (forall e v l j r, match (op ← createDefaultOperation clock; mret
    {| i_editMode := e; i_visualMode := v; i_legacyValue := l; i_operations := [op]; i_jsonText := j; i_jsonError := r |}) (d_seed d) with
    | (Some st, n) => (d_seed d <= n)%N /\ wf n (i_operations st) | (None, n) => (d_seed d <= n)%N end) as Hdef.
  { intros e v l j r. unfold mbind, ids_bind. rewrite default_operation. split; [apply N.le_add_r|apply wf_default]. }
  destruct (negb _); [apply Hdef|]. destruct (json_parse _) as [parsed|]; [|apply Hdef].
  destruct (operations_of parsed) as [l|]; [|destruct parsed; apply Hdef].
  pose proof (draws_rules clock l (d_seed d)) as [Hn _]. unfold mbind, ids_bind.
  destruct (rules_of clock l (d_seed d)) as [[r|] n'] eqn:E; [|exact Hn]. by apply wf_rules in E.
Qed.

Lemma open_good value d : good d -> good (openDialog clock value d).
Proof.
  intros Hg. pose proof (initial_good value d Hg) as H. unfold openDialog. destruct (parseInitialState clock value (d_seed d)) as [[st|] n].
  - destruct H as [Hn Hw]. destruct (good_seed n d Hn Hg) as [_ Hs]. by split.
  - by apply (good_seed n d H).
Qed.

Lemma to_json_good d : good d -> good (switchToJsonMode t type_error d).
Proof. intros Hg. unfold switchToJsonMode. destruct (d_edit d); [|done]. by destruct (buildVisualJson t type_error d). Qed.

Lemma to_visual_good d : good d -> good (switchToVisualMode clock t d).
Proof.
  intros Hg. unfold switchToVisualMode. destruct (d_edit d); [done|]. destruct (negb _); [by apply default_good|].
  destruct (json_parse _) as [parsed|]; [|done]. destruct (operations_of parsed) as [l|]; [|destruct parsed; try done; by apply default_good].
  apply drawing_good; [done|apply draws_rules|]. intros r n' [_ Hw]%wf_rules [_ Hs]. by split.
Qed.

(** A preset of rules has some. *)
Lemma preset_some key payload :
  default (KOperations, OPERATION_TEMPLATE) (prop_get key TEMPLATE_PRESET_CONFIG) = (KOperations, payload) ->
  0 = length (default [] (as_array (get (js "operations") payload))) -> False.
Proof.
  assert (forallb (fun '(kind, payload) => match kind with KLegacy => true | KOperations =>
    match as_array (get (js "operations") payload) with Some (_ :: _) => true | _ => false end end)
    ((KOperations, OPERATION_TEMPLATE) :: map snd TEMPLATE_PRESET_CONFIG) = true) as H by (vm_compute; reflexivity).
  rewrite forallb_Forall', Forall_forall in H. intros Ep El.
  assert ((KOperations, payload) ∈ (KOperations, OPERATION_TEMPLATE) :: map snd TEMPLATE_PRESET_CONFIG) as Hin.
  { rewrite <- Ep. destruct (prop_get key TEMPLATE_PRESET_CONFIG) as [kp|] eqn:Eg; [right|left].
    apply prop_get_in in Eg. apply elem_of_lmap. by exists (key, kp). }
  specialize (H _ Hin). cbv beta iota in H. destruct (as_array _) as [[]|]; done.
Qed.

Lemma template_good append d : good d -> good (fillTemplate clock t append d).
Proof.
  intros Hg. unfold fillTemplate. destruct (default _ _) as [kind payload] eqn:Epreset. destruct kind.
  - apply drawing_good; [done|apply operations_seed|]. intros made n' E Hg'. set (dn := setSeed n' d) in *.
    pose proof (draws_operations clock (default [] (as_array (get (js "operations") payload))) (d_seed d)) as [Hn Hf].
    rewrite E in Hn, Hf. simpl in Hn, Hf. pose proof (operations_known _ _ _ _ E) as Hk.
    assert (made <> []) as Hmade by (apply ids_map_length in E; intros ->; by eapply preset_some).
    destruct append.
    + destruct Hg as [[Hg1 Hg2 Hg3] _]. destruct Hg' as [_ Hs].
      assert (wf n' (match d_visual dn with VOperations => bfilter (fun o => negb (isOperationBlank o)) (d_ops dn) | VLegacy => [] end ++ made)) as Hw.
      { apply (wf_app (d_seed d)); [done| | |done|done|by intros [_ ?]%app_eq_nil].
        - destruct (d_visual dn); [|apply fresh_nil]. eapply fresh_sublist; [apply ops_ids_sublist, bfilter_sublist|done].
        - destruct (d_visual dn); [|constructor]. by apply forall_bfilter. }
      destruct (_ ++ made) eqn:Em; [by destruct Hw|]. by split.
    + assert (forall k m, made = m -> good (k made dn) -> good (drawing (match m with [] => op ← createDefaultOperation clock; mret [op] | _ => mret m end) k dn)) as Hd.
      { intros k m <-. unfold drawing. destruct made; [done|]. done. }
      apply Hd; [done|]. destruct Hg' as [_ Hs]. split; [|done]. by apply (wf_new (d_seed d)).
  - destruct (append && _); [destruct (if truthy _ then _ else _)|]; try done; by apply default_good.
Qed.

(** *** All events *)

Lemma render_good d : good d -> good (render clock d).
Proof.
  intros Hg. apply drawing_good; [done|apply default_seed|]. intros x n' _ Hg'. set (dn := setSeed n' d) in *. unfold drawing, pruneObjectsDraft.
  destruct (selectedOperation dn) as [o|]; [|destruct Hg'; split; [done|constructor]].
  destruct (o_mode o =s js "prune_objects"); [|destruct Hg'; split; [done|constructor]].
  unfold mbind, ids_bind. destruct (prune_read (o_value_text o) (d_seed dn)) as (p & m & -> & Hm & Hf & _).
  pose proof (good_seed m dn Hm Hg') as [Hw _]. split; [done|]. by eapply fresh_issued.
Qed.

Lemma handle_good e d : possible e d = true -> good d -> good (handle clock t type_error e d).
Proof.
  intros Hp Hg. assert (forall rid, has rid (shown_rule_ids d) = true -> issued (d_seed d) rid) as Hshown.
  { intros rid H%bool_decide_eq_true. destruct Hg as [_ Hs]. rewrite Forall_forall in Hs. by apply Hs. }
  destruct e; cbn [handle]; cbn [possible] in Hp; bsplit; try exact Hg.
  - by apply open_good.
  - unfold handleSave. by destruct (save_result t type_error d).
  - by apply to_json_good.
  - by apply to_visual_good.
  - by apply template_good.
  - by apply default_good.
  - by apply add_operation_good.
  - by apply update_operation_good.
  - by apply duplicate_good.
  - by apply remove_operation_good.
  - by apply add_condition_good.
  - by apply update_condition_good.
  - by apply remove_condition_good.
  - by apply return_error_good.
  - eapply rewrites_good; [done|apply fields_rewrite].
  - eapply rewrites_good; [done|apply add_rule_rewrite].
  - eapply rewrites_good; [done|apply update_rule_rewrite; auto].
  - eapply rewrites_good; [done|apply remove_rule_rewrite; auto].
  - unfold handleDragOver. by destruct (_ || _).
  - unfold handleDrop. destruct (_ && _); [|done].
    apply (good_ops _ _ Hg). eapply wf_perm; [symmetry; apply reorder_perm|]. apply Hg.
  - unfold markAllConditions. by destruct (selectedOperation d).
  - by apply render_good.
Qed.

Lemma settle_selected d : d_ops d <> [] -> d_selected (settle d) ∈ map o_id (d_ops (settle d)) /\ d_ops (settle d) = d_ops d.
Proof.
  intros Hne. unfold settle. destruct (d_ops d) as [|o l] eqn:E; [done|].
  destruct (existsb (fun o => o_id o =s d_selected d) (o :: l)) eqn:Ex.
  - split; [|done]. apply existsb_elem in Ex as (q & Hq & Es). apply jeqb_eq in Es as <-. rewrite E. apply elem_of_lmap. eauto.
  - split; [|done]. cbn [setSelectedOperationId setView d_selected]. change (o_id o ∈ map o_id (d_ops d)). rewrite E. left.
Qed.

Lemma settle_good d : good d -> good (settle d).
Proof. intros Hg. unfold settle. destruct (d_ops d) eqn:E; [done|]. by destruct (existsb _ _). Qed.

Definition dialog_ok (d : Dialog) : Prop := good d /\ (d_status d <> Closed -> d_selected d ∈ map o_id (d_ops d)).

Lemma initial_dialog d : initial (dialog_machine clock t type_error) d -> dialog_ok d.
Proof.
  intros (Hs & n & op & E & Ho & Hp & _). split; [|by rewrite Hs]. rewrite default_operation in E.
  assert (op = empty_operation (local_id clock n) /\ d_seed d = n + 1)%N as [-> Hn] by (split; congruence).
  split; [rewrite Hn, Ho; apply wf_default|]. unfold shown_rule_ids. by rewrite Hp.
Qed.

Lemma dialog_reachable_ok d : reaches (dialog_machine clock t type_error) d -> dialog_ok d.
Proof.
  apply reaches_invariant; [apply initial_dialog|]. cbn [next dialog_machine]. intros e s s' H [Hg _].
  destruct (possible e s) eqn:E; [|done]. injection H as <-. pose proof (handle_good e s E Hg) as Hg'.
  split; [by apply settle_good|]. intros _. apply settle_selected, Hg'.
Qed.

(** C22. In every state the dialog reaches there is at least one rule, the ids of the rules and
    of their conditions are distinct, every mode is one of the select, and while the dialog is
    open the selected id is the id of a rule. *)
Theorem dialog_invariant d : reaches (dialog_machine clock t type_error) d ->
  d_ops d <> [] /\ NoDup (ops_ids (d_ops d)) /\ Forall known_modes (d_ops d) /\
  (d_status d = Opened -> exists o, selectedOperation d = Some o).
Proof.
  intros [[[H1 H2 H3] _] Hs]%dialog_reachable_ok. split; [done|]. split; [by eapply fresh_NoDup|]. split; [done|]. intros Ho.
  destruct (selectedOperation d) as [o|] eqn:E; [eauto|]. unfold selectedOperation in E. rewrite find_first_None in E.
  destruct (proj1 (elem_of_lmap _ _ _) (Hs ltac:(congruence))) as (o & Hin & Eo). specialize (E o Hin). rewrite Eo, jeqb_refl in E. done.
Qed.

(** The rules of a pruning draft cannot be edited: in a state that is reached, changing a
    rule on screen or removing it rewrites the text from what it already says, and adding a
    rule only switches to the advanced mode, because reading the text again gives every rule a
    new id and a rule without a path is not written. *)
Theorem prune_rules_fixed d id rid patch :
  reaches (dialog_machine clock t type_error) d -> rid ∈ shown_rule_ids d ->
  d_ops (updatePruneRule clock id rid patch d) = rewrite_prune id no_patch d /\
  d_ops (removePruneRule clock id rid d) = rewrite_prune id no_patch d /\
  d_ops (addPruneRule clock id d) = rewrite_prune id to_advanced d.
Proof.
  intros [[_ Hs] _]%dialog_reachable_ok Hr. rewrite Forall_forall in Hs. specialize (Hs rid Hr).
  destruct (update_rule_rewrite id rid patch d Hs) as (? & _ & ->). destruct (remove_rule_rewrite id rid d Hs) as (? & _ & ->).
  destruct (add_rule_rewrite id d) as (? & _ & ->). done.
Qed.

End handlers.

End facts.

(** ** Dragging *)

Lemma find_by_id ops i : i ∈ map o_id ops -> exists j o, find_index (fun o => o_id o =s i) ops = Some j /\ ops !! j = Some o /\ o_id o = i.
Proof.
  intros (o & Ho & ->)%elem_of_lmap. destruct (find_index (fun q => o_id q =s o_id o) ops) as [j|] eqn:E.
  - destruct (find_index_Some _ _ _ E) as (q & Hq & Eq & _). exists j, q. split; [done|]. split; [done|]. by apply jeqb_eq.
  - rewrite find_index_None in E. specialize (E o Ho). by rewrite jeqb_refl in E.
Qed.

Lemma without_id l1 o l2 : NoDup (map o_id (l1 ++ o :: l2)) -> bfilter (fun q => negb (o_id q =s o_id o)) (l1 ++ o :: l2) = l1 ++ l2.
Proof.
  rewrite map_app. cbn [map]. intros Hd. rewrite List.filter_app. cbn [bfilter]. rewrite jeqb_refl. cbn [negb].
  apply NoDup_app in Hd as (H1 & H2 & H3). apply NoDup_cons in H3 as [H3 _].
  f_equal; apply bfilter_id, Forall_forall; intros q Hq; apply negb_true_iff, jeqb_neq; intros E.
  - apply (H2 (o_id q)); [apply elem_of_lmap; eauto|]. rewrite E. left.
  - apply H3. rewrite <- E. apply elem_of_lmap. eauto.
Qed.

(** Dropping a rule on another one puts it directly before or after it, as the marker
    showed, and keeps the order of all the other rules. *)
Theorem drop_places ops s t p : NoDup (map o_id ops) -> s <> [] -> t <> [] -> s <> t ->
  s ∈ map o_id ops -> t ∈ map o_id ops ->
  exists moved target l1 l2, o_id moved = s /\ o_id target = t /\
    bfilter (fun o => negb (o_id o =s s)) ops = l1 ++ target :: l2 /\
    reorderOperations ops s t p = match p with Before => l1 ++ moved :: target :: l2 | After => l1 ++ target :: moved :: l2 end.
Proof.
  intros Hd Hs Ht Hne Hsin Htin. unfold reorderOperations.
  rewrite (proj2 (truthy_spec s) Hs), (proj2 (truthy_spec t) Ht), (proj2 (jeqb_neq s t) Hne). cbn [negb orb].
  destruct (find_by_id ops s Hsin) as (i & moved & -> & Hi & Em). rewrite Hi.
  pose proof (take_drop_middle _ _ _ Hi) as E. rewrite <- E in Hd, Htin. rewrite delete_take_drop.
  assert (bfilter (fun o => negb (o_id o =s s)) ops = take i ops ++ drop (S i) ops) as -> by (rewrite <- E at 1; rewrite <- Em; by apply without_id).
  revert Hd Htin. generalize (take i ops) (drop (S i) ops). clear E Hi. intros a b Hd Htin.
  assert (t ∈ map o_id (a ++ b)) as Htab.
  { rewrite map_app in *. cbn [map] in Htin. rewrite elem_of_app, elem_of_cons in Htin. rewrite elem_of_app. naive_solver congruence. }
  destruct (find_by_id (a ++ b) t Htab) as (j & target & -> & Hj & Et). exists moved, target, (take j (a ++ b)), (drop (S j) (a ++ b)).
  split; [done|]. split; [done|]. rewrite take_drop_middle by done. split; [done|].
  unfold splice_in. destruct p; [|replace (j + 1) with (S j) by lia; rewrite (take_S_r _ _ target) by done; by rewrite <- app_assoc].
  by rewrite (drop_S _ target) by done.
Qed.

(** ** Witnesses *)

Definition closed_dialog : Dialog :=
  {| d_status := Closed;
     d_content := {| i_editMode := EVisual; i_visualMode := VOperations; i_legacyValue := [];
                     i_operations := [empty_operation (local_id some_time 0)]; i_jsonText := []; i_jsonError := [] |};
     d_search := []; d_selected := []; d_expanded := []; d_drag := no_drag; d_preset := js "operations_default"; d_prune := None;
     d_seed := 1; d_saved := []; d_toasts := [] |}.

Definition sample_machine : Machine Dialog Event := dialog_machine some_time plain_words (js "TypeError").

(** Open a pruning rule with one condition, add a rule and drag it. *)
Definition sample_events : list Event :=
  [Open (jsq "{`operations`:[{`mode`:`prune_objects`,`value`:{`conditions`:[{`path`:`role`,`value`:`x`}]}}]}"); Render;
   AddOperation; SelectOperation (local_id some_time 1); Render].

Definition sample_dialog : Dialog := default closed_dialog (exec sample_machine sample_events closed_dialog).

Lemma sample_reached : reaches sample_machine sample_dialog.
Proof.
  exists closed_dialog, sample_events. split.
  - split; [done|]. exists 0%N, (empty_operation (local_id some_time 0)). done.
  - apply exec_runs. vm_compute. reflexivity.
Qed.

Lemma dialog_invariant_witness :
  d_ops sample_dialog <> [] /\ NoDup (ops_ids (d_ops sample_dialog)) /\ Forall known_modes (d_ops sample_dialog) /\
  (d_status sample_dialog = Opened -> exists o, selectedOperation sample_dialog = Some o).
Proof. apply (dialog_invariant some_time plain_words (js "TypeError")). exact sample_reached. Defined.

Definition clear_path : RowPatch :=
  {| pc_path := Some (js "type"); pc_mode := None; pc_value_text := None; pc_invert := None; pc_pass_missing_key := None |}.

Lemma prune_rules_fixed_witness :
  let id := local_id some_time 1 in
  let rid := default [] (head (shown_rule_ids sample_dialog)) in
  rid <> [] /\
  d_ops (updatePruneRule some_time id rid clear_path sample_dialog) = rewrite_prune id no_patch sample_dialog /\
  d_ops (removePruneRule some_time id rid sample_dialog) = rewrite_prune id no_patch sample_dialog /\
  d_ops (addPruneRule some_time id sample_dialog) = rewrite_prune id to_advanced sample_dialog.
Proof.
  intros id rid. split; [vm_compute; discriminate|].
  apply (prune_rules_fixed some_time plain_words (js "TypeError")); [exact sample_reached|].
  assert (shown_rule_ids sample_dialog = [rid]) as -> by (vm_compute; reflexivity). left.
Defined.
