(* ===== verification/ParamDrafts.v ===== *)
(** * Parameter override rules: the drafts of single modes

    What the editors of the modes [return_error], [prune_objects] and [sync_fields] of
    [param-override-editor-dialog.tsx] show after an edit: the text that is built from a
    draft is read again at the next render. *)

From S2P Require Import Prelude JsString JsNumber JsInteger Json JsonText ParamOverride ParamEditor ParamOverrideFacts.
From S2P Require Import ParamEditorFacts.

(** ** Custom errors *)

Definition trimmed_draft (d : ReturnErrorDraft) : ReturnErrorDraft :=
  {| e_message := trim (e_message d); e_statusCode := e_statusCode d; e_code := trim (e_code d); e_type := trim (e_type d);
     e_skipRetry := e_skipRetry d; e_simpleMode := e_simpleMode d |}.

Definition draft_readable (d : ReturnErrorDraft) : bool :=
  unit_string (e_message d) && unit_string (e_code d) && unit_string (e_type d).

(** Every status code from 100 to 599 is kept and reads back. *)
Lemma status_range z : (100 <= z <= 599)%Z -> status_or_400 (num_of_Z z) = num_of_Z z /\ reads_back (num_of_Z z) = true.
Proof.
  assert (forallb (fun k => let x := num_of_Z (100 + Z.of_nat k) in n_same (status_or_400 x) x && reads_back x) (seq 0 500) = true) as H
    by (vm_compute; reflexivity).
  rewrite forallb_Forall', Forall_forall in H. intros Hz. specialize (H (Z.to_nat (z - 100))). rewrite elem_of_seq in H.
  specialize (H ltac:(lia)). cbv zeta in H. replace (100 + Z.of_nat (Z.to_nat (z - 100)))%Z with z in H by lia. bsplit.
  split; [by apply n_same_eq|done].
Qed.

Lemma text_prop_str s : text_prop (if truthy (trim s) then VStr (trim s) else VUndef) = Some (trim s).
Proof. unfold text_prop, v_or. destruct (truthy (trim s)) eqn:E; simpl; [rewrite E; simpl; by rewrite trim_idem|]. apply truthy_false in E. by rewrite E. Qed.

Definition error_payload (d : ReturnErrorDraft) : list (jstr * jsval) :=
  set_if (negb (e_skipRetry d)) (js "skip_retry") (VBool false)
    (set_if (truthy (trim (e_type d))) (js "type") (VStr (trim (e_type d)))
      (set_if (truthy (trim (e_code d))) (js "code") (VStr (trim (e_code d)))
        [(js "message", VStr (trim (e_message d))); (js "status_code", VNum (status_or_400 (e_statusCode d)))])).

(** Reading the text of an advanced draft gives the draft, with its texts trimmed. *)
Lemma error_read d z : e_simpleMode d = false -> e_statusCode d = num_of_Z z -> (100 <= z <= 599)%Z -> draft_readable d = true ->
  parseReturnErrorDraft (buildReturnErrorValueText d) = trimmed_draft d.
Proof.
  intros Ha Hst Hz Hr. unfold draft_readable in Hr. bsplit. destruct (status_range z Hz) as [Hs Hrb]. rewrite <- Hst in Hs, Hrb.
  assert (plain_value (VObj (error_payload d)) = true) as Hp.
  { repeat (apply plain_set_if; [|done|done || (intros _; by apply unit_string_trim)]). apply plain_object. split; [done|].
    repeat constructor; unfold plain_pair; cbn [fst snd plain_value]; rewrite ?Hs; bsplit; try done. by apply unit_string_trim. }
  destruct (json_roundtrip _ Hp) as (w & Hw & Hj).
  assert (buildReturnErrorValueText d = w) as ->.
  { unfold buildReturnErrorValueText. rewrite Ha. fold (error_payload d). unfold text_of. by rewrite Hw. }
  unfold parseReturnErrorDraft. rewrite (trim_id w) by (by eapply object_trimmed).
  destruct (object_opens _ _ _ _ _ Hw) as [u Eu]. rewrite Eu at 1. cbn [truthy negb]. rewrite Hj. cbv iota.
  unfold error_payload. read_payload. cbn [is_undefined number_of to_number].
  assert (forall s, v_or (VStr s) VUndef = if truthy s then VStr s else VUndef) as -> by (intros s; unfold v_or; simpl; by destruct (truthy s)).
  rewrite !text_prop_str, Hs. cbn [mbind option_bind default from_option id]. rewrite Hs. unfold trimmed_draft. rewrite Ha. f_equal.
  by destruct (e_skipRetry d).
Qed.

(** A text that is not a JSON object stays the message of a simple draft. *)
Lemma message_read m : (forall o, json_parse (trim m) <> Some (VObj o)) ->
  e_message (parseReturnErrorDraft (trim m)) = trim m /\ e_simpleMode (parseReturnErrorDraft (trim m)) = true.
Proof.
  intros Hn. unfold parseReturnErrorDraft. rewrite trim_idem. destruct (truthy (trim m)) eqn:E; cbn [negb].
  - destruct (json_parse (trim m)) as [[]|]; try done. by destruct (Hn o).
  - apply truthy_false in E. by rewrite E.
Qed.

Definition type_message (m : jstr) : ReturnErrorPatch :=
  {| pe_message := Some m; pe_statusCode := None; pe_code := None; pe_type := None; pe_skipRetry := None; pe_simpleMode := None |}.

Definition shown_message (text : jstr) : jstr := e_message (parseReturnErrorDraft text).

(** The message field of a custom error shows the trimmed text after every edit, so that
    a space typed at its end is gone before the next letter: two words run together. *)
Theorem typed_space_dropped text m z :
  let draft := parseReturnErrorDraft text in
  e_statusCode draft = num_of_Z z -> (100 <= z <= 599)%Z -> draft_readable draft = true -> unit_string m = true ->
  (e_simpleMode draft = true -> forall o, json_parse (trim m) <> Some (VObj o)) ->
  shown_message (buildReturnErrorValueText (patch_error (type_message m) draft)) = trim m /\
  shown_message (buildReturnErrorValueText (patch_error (type_message (m ++ js " ")) draft)) = trim m.
Proof.
  intros draft Hst Hz Hr Hm Hsimple.
  assert (forall q, unit_string q = true -> trim q = trim m ->
    shown_message (buildReturnErrorValueText (patch_error (type_message q) draft)) = trim m) as H.
  { intros q Hq E. unfold shown_message. destruct (e_simpleMode draft) eqn:Es.
    - unfold buildReturnErrorValueText. cbn [patch_error type_message e_simpleMode e_message pe_simpleMode pe_message default from_option id].
      rewrite Es, E. by apply message_read, Hsimple.
    - rewrite (error_read _ z); [by rewrite <- E|done|done|done|]. unfold draft_readable in *. bsplit; assumption. }
  split; [by apply H|]. apply H; [by rewrite unit_string_app, Hm|]. by apply trim_snoc.
Qed.

(** ** Pruning *)

(** While a pruning rule names only a type, switching to the advanced mode has no effect:
    the text that is built is read as a simple draft again.  Adding a rule does nothing else
    than this switch, so that a first rule cannot be added either. *)
Theorem advanced_not_kept s : trim s <> [] -> unit_string s = true ->
  read_prune (buildPruneObjectsValueText (patch_prune to_advanced (default_prune s))) = default_prune (trim s).
Proof.
  intros Ht%truthy_spec Hu.
  assert (plain_value (VObj [(js "type", VStr (trim s))]) = true) as Hp.
  { apply plain_object. split; [done|]. repeat constructor. unfold plain_pair. simpl. by apply unit_string_trim. }
  destruct (json_roundtrip _ Hp) as (w & Hw & Hj).
  assert (buildPruneObjectsValueText (patch_prune to_advanced (default_prune s)) = w) as ->.
  { unfold buildPruneObjectsValueText, default_prune, patch_prune, to_advanced.
    cbn [p_simpleMode p_typeText p_logic p_recursive p_rules pp_simpleMode pp_typeText pp_logic pp_recursive default from_option id].
    rewrite Ht. cbn [bfilter map].
    change (ascii_upper (str_or (js "AND") (js "AND")) =s js "OR") with false. unfold set_if. cbn [negb app].
    change (prop_set (js "type") (VStr (trim s)) []) with [(js "type", VStr (trim s))]. rewrite get_cons. keys. cbn [v_truthy]. rewrite Ht. cbn [negb andb]. unfold text_of. by rewrite Hw. }
  unfold read_prune. rewrite (trim_id w) by (by eapply object_trimmed).
  destruct (object_opens _ _ _ _ _ Hw) as [u Eu]. rewrite Eu at 1. cbn [truthy negb]. rewrite Hj. cbv iota.
  unfold read_prune_object. read_payload. cbn [string_of to_string]. simpl. by rewrite trim_idem.
Qed.

(** ** Endpoints *)

Lemma sync_text ty key : truthy (trim key) = true -> let w := (if ty =s js "header" then js "header" else js "json") in
  buildSyncTargetSpec ty key = w ++ js ":" ++ trim key /\ trim (w ++ js ":" ++ trim key) = w ++ js ":" ++ trim key.
Proof.
  intros Hk w. unfold buildSyncTargetSpec. rewrite Hk. split; [done|]. destruct (trim_trimmed key) as [_ He].
  destruct (last (trim key)) as [y|] eqn:El; [|by apply last_None in El; rewrite El in Hk].
  assert (is_ws y = false) as Hy. { apply last_Some in El as [l El]. rewrite El, rev_app_distr in He. exact He. }
  apply trim_id. assert (last (w ++ js ":" ++ trim key) = Some y) as Hl.
  { apply last_Some in El as [l ->]. rewrite !app_assoc. apply last_snoc. }
  unfold w in *. destruct (ty =s js "header"); (eapply trimmed_ends; [reflexivity|exact Hl|done|done]).
Qed.

(** The endpoint editor reads back what it wrote: the kind and the trimmed key. *)
Theorem sync_target_roundtrip ty key : trim key <> [] ->
  parseSyncTargetSpec (buildSyncTargetSpec ty key) =
  {| s_type := if ty =s js "header" then js "header" else js "json"; s_key := trim key |}.
Proof.
  intros Hk%truthy_spec. destruct (sync_text ty key Hk) as [-> Ht]. unfold parseSyncTargetSpec. rewrite Ht.
  transitivity {| s_type := if ty =s js "header" then js "header" else js "json"; s_key := trim (trim key) |}; [|by rewrite trim_idem].
  generalize (trim key). intros k. destruct (ty =s js "header").
  - change (index_of (js ":") (js "header" ++ js ":" ++ k)) with (Some 6%nat). reflexivity.
  - change (index_of (js ":") (js "json" ++ js ":" ++ k)) with (Some 4%nat). reflexivity.
Qed.

(** ** Stored rules *)

(** The stored text of one rule that sets a field. *)
Definition set_rule (path : jstr) (value : jsval) : jsval :=
  VObj [(js "operations", VArr [VObj [(js "mode", str "set"); (js "path", VStr path); (js "value", value)]])].

Definition shown_set_rule (id path text : jstr) : ParamOverrideOperation :=
  {| o_id := id; o_description := []; o_path := path; o_mode := js "set"; o_from := []; o_to := []; o_value_text := text;
     o_keep_origin := false; o_logic := js "OR"; o_conditions := [] |}.

Lemma plain_set_rule path v : unit_string path = true -> plain_value v = true -> plain_value (set_rule path v) = true.
Proof.
  intros Hp Hv. apply plain_object. split; [done|]. repeat constructor. unfold plain_pair. cbn [fst snd plain_value forallb].
  rewrite andb_true_r. apply plain_object. split; [done|]. repeat constructor; done.
Qed.

Section stored.
Context (clock : N -> N) (t : jstr -> option nat -> jstr) (type_error : jstr).

Lemma set_rule_opened path s n : unit_string path = true -> unit_string s = true ->
  exists st n', parseInitialState clock (pretty_of (set_rule path (VStr s))) n = (Some st, n') /\
    i_operations st = [shown_set_rule (local_id clock n) path s].
Proof.
  intros Hp Hs. destruct (pretty_object_read _ (plain_set_rule path (VStr s) Hp Hs)) as (Hj & Ht & Hb). fold (set_rule path (VStr s)) in Hj, Ht, Hb.
  unfold parseInitialState. rewrite Ht, Hb, Hj. cbn [negb]. do 2 eexists. split; reflexivity.
Qed.

Lemma set_rule_saved id path text : trim path <> [] ->
  buildOperationsJson t type_error [shown_set_rule id path text] true = inr (pretty_of (set_rule (trim path) (parseLooseValue text))).
Proof.
  intros Hp%truthy_spec. unfold buildOperationsJson. cbn [bfilter].
  assert (isOperationBlank (shown_set_rule id path text) = false) as -> by (unfold isOperationBlank; simpl; by rewrite Hp).
  cbn [negb]. assert (validateOperations t type_error [shown_set_rule id path text] = []) as ->.
  { unfold validateOperations. cbn [validate_from]. unfold validate_operation. cbn [shown_set_rule o_mode o_path].
    change (meta_of (str_or (js "set") (js "set"))) with (meta_path_value true). cbn [m_path m_pathAlias meta_path_value andb]. by rewrite Hp. }
  reflexivity.
Qed.

(** A stored value that is a text which reads as JSON changes its type when the dialog is
    opened and saved without an edit: the text 123 becomes the number, the text true the
    boolean. *)
Theorem stored_text_retyped path s v n :
  trim path <> [] -> unit_string path = true -> unit_string s = true -> json_parse (trim s) = Some v ->
  exists st n', parseInitialState clock (pretty_of (set_rule path (VStr s))) n = (Some st, n') /\
    buildOperationsJson t type_error (i_operations st) true = inr (pretty_of (set_rule (trim path) v)).
Proof.
  intros Hp Hu Hs Hj. destruct (set_rule_opened path s n Hu Hs) as (st & n' & E & Ho). exists st, n'. split; [done|].
  rewrite Ho, (set_rule_saved _ _ _ Hp). unfold parseLooseValue. rewrite Hj. by destruct (trim s).
Qed.

Lemma null_throws l n : VNull ∈ l -> exists n', ids_map (normalizeOperation clock) l n = (None, n').
Proof.
  revert n. induction l as [|v l IH]; intros n Hin; [by apply elem_of_nil in Hin|]. cbn [ids_map]. unfold mbind, ids_bind.
  destruct (normalizeOperation clock v n) as [[o|] n1] eqn:E; [|eauto].
  apply elem_of_cons in Hin as [<- | Hin]; [by rewrite operation_read in E|]. destruct (IH n1 Hin) as [n2 ->]. eauto.
Qed.

(** A stored list of rules with a null in it crashes the dialog when it opens: reading a
    property of null throws inside the effect. *)
Theorem null_rule_crashes l d : VNull ∈ l -> forallb plain_value l = true ->
  d_status (openDialog clock (pretty_of (VObj [(js "operations", VArr l)])) d) = Crashed.
Proof.
  intros Hin Hp. assert (plain_value (VObj [(js "operations", VArr l)]) = true) as Hplain.
  { apply plain_object. split; [done|]. repeat constructor. unfold plain_pair. cbn [fst snd plain_value]. by rewrite Hp. }
  destruct (pretty_object_read _ Hplain) as (Hj & Ht & Hb).
  unfold openDialog, parseInitialState. rewrite Ht, Hb, Hj. cbn [negb].
  change (operations_of (VObj [(js "operations", VArr l)])) with (Some l). cbv iota.
  destruct (null_throws l (d_seed d) Hin) as [n' E]. unfold mbind, ids_bind.
  assert (rules_of clock l (d_seed d) = (None, n')) as -> by (by destruct l; [apply elem_of_nil in Hin|]). done.
Qed.

End stored.

(** ** Witnesses *)

Lemma typed_space_dropped_witness :
  shown_message (buildReturnErrorValueText (patch_error (type_message (js "no" ++ js " ")) (parseReturnErrorDraft (js "n")))) = js "no".
Proof.
  apply (typed_space_dropped (js "n") (js "no") 400); [vm_compute; reflexivity|lia|vm_compute; reflexivity|vm_compute; reflexivity|].
  intros _ o H. vm_compute in H. discriminate H.
Defined.

Lemma advanced_not_kept_witness :
  read_prune (buildPruneObjectsValueText (patch_prune to_advanced (default_prune (js "redacted_thinking")))) =
  default_prune (trim (js "redacted_thinking")).
Proof. apply advanced_not_kept; [discriminate|vm_compute; reflexivity]. Defined.

(** The text 123 becomes the number. *)
Lemma stored_text_retyped_witness :
  exists st n', parseInitialState some_time (pretty_of (set_rule (js "user") (VStr (js "123")))) 0%N = (Some st, n') /\
    buildOperationsJson plain_words (js "TypeError") (i_operations st) true =
    inr (pretty_of (set_rule (trim (js "user")) (VNum (num_of_Z 123)))).
Proof. apply stored_text_retyped; [discriminate|vm_compute; reflexivity..]. Defined.
