(* ===== verification/NavModules.v ===== *)
(** * Modules of the navigation

    [lib/nav-modules.ts]: what the client reads of the navigation settings in the status
    of the server, the guards of the routes that depend on it ([routes/pricing],
    [routes/rankings], [routes/_authenticated/playground]) and the links of the header
    ([hooks/use-top-nav-links.ts]).

    An object is the list of its own properties; the names every object inherits
    ([constructor], [__proto__] and the like) are not properties of these settings. *)

From S2P Require Import Prelude JsString JsNumber Json JsonText.

Record ModuleAccess := { enabled : bool; requireAuth : bool }.

Inductive HeaderNavModule := RankingsModule | PricingModule.

Definition module_key (m : HeaderNavModule) : jstr :=
  match m with RankingsModule => js "rankings" | PricingModule => js "pricing" end.

(** [boolean | ModuleAccess] *)
Inductive nav_value := NBool (b : bool) | NAccess (a : ModuleAccess).

Definition HeaderNavModules := list (jstr * nav_value).

(** [Object.entries(v)]; [None] is the [TypeError] for [null] and [undefined]. *)
Definition object_entries (v : jsval) : option (list (jstr * jsval)) :=
  match v with
  | VUndef | VNull => None
  | VObj o => Some o
  | VArr l => Some (imap (fun i x => (show_nat i, x)) l)
  | VStr s => Some (imap (fun i c => (show_nat i, VStr [c])) s)
  | VBool _ | VNum _ => Some []
  end.

(** [typeof v] is one of boolean, number and string. *)
Definition is_primitive (v : jsval) : bool :=
  match v with VBool _ | VNum _ | VStr _ => true | _ => false end.

(** [String(raw).trim() === ''] *)
Definition blank_text (v : jsval) : bool := trim (to_string v) =s [].

(** ** Header modules *)

Definition public_access : ModuleAccess := {| enabled := true; requireAuth := false |}.

Definition DEFAULT_HEADER_NAV_MODULES : HeaderNavModules :=
  [(js "home", NBool true); (js "console", NBool true); (js "pricing", NAccess public_access);
   (js "rankings", NAccess public_access); (js "docs", NBool true); (js "about", NBool true)].

(** [r.pricing] and [r.rankings], which hold a [ModuleAccess] from the start. *)
Definition access_at (k : jstr) (r : HeaderNavModules) : ModuleAccess :=
  match prop_get k r with Some (NAccess a) => a | _ => public_access end.

(** The words a switch may be stored as.  No code unit outside ASCII lowers to one of
    their letters. *)
Definition true_word (s : jstr) : bool := (s =s js "true") || (s =s js "1").
Definition false_word (s : jstr) : bool := (s =s js "false") || (s =s js "0").
Definition normal_word (s : jstr) : jstr := ascii_lower (trim s).

Definition parseHeaderNavBoolean (raw : jsval) (fallback : bool) : bool :=
  match raw with
  | VBool b => b
  | VNum x => if n_eqb x (num_of_Z 1) then true else if n_eqb x n_zero then false else fallback
  | VStr s => if true_word (normal_word s) then true else if false_word (normal_word s) then false else fallback
  | _ => fallback
  end.

Definition parseAccess (raw : jsval) (fallback : ModuleAccess) : ModuleAccess :=
  if is_primitive raw
  then {| enabled := parseHeaderNavBoolean raw (enabled fallback); requireAuth := requireAuth fallback |}
  else if is_record raw
  then {| enabled := parseHeaderNavBoolean (get (js "enabled") raw) (enabled fallback);
          requireAuth := parseHeaderNavBoolean (get (js "requireAuth") raw) (requireAuth fallback) |}
  else fallback.

(** [None] is [null]. *)
Definition parseHeaderNavRecord (raw : jsval) : option jsval :=
  if negb (v_truthy raw) || blank_text raw then None
  else if is_record raw then Some raw
  else json_parse (to_string raw).

(** One turn of the loop over the entries. *)
Definition header_entry (result : HeaderNavModules) (entry : jstr * jsval) : HeaderNavModules :=
  let '(key, value) := entry in
  if (key =s js "pricing") || (key =s js "rankings")
  then prop_set key (NAccess (parseAccess value (access_at key result))) result
  else
    match prop_get key result with
    | Some (NBool b) => prop_set key (NBool (parseHeaderNavBoolean value b)) result
    | _ => if is_primitive value then prop_set key (NBool (parseHeaderNavBoolean value true)) result else result
    end.

Definition parseHeaderNavModules (raw : jsval) : HeaderNavModules :=
  match parseHeaderNavRecord raw with
  | Some parsed =>
      if v_truthy parsed
      then foldl header_entry DEFAULT_HEADER_NAV_MODULES (default [] (object_entries parsed))
      else DEFAULT_HEADER_NAV_MODULES
  | None => DEFAULT_HEADER_NAV_MODULES
  end.

Definition parseHeaderNavModulesFromStatus (status : jsval) : HeaderNavModules :=
  parseHeaderNavModules (get (js "HeaderNavModules") status).

Definition getModuleAccessFromStatus (status : jsval) (m : HeaderNavModule) : ModuleAccess :=
  access_at (module_key m) (parseHeaderNavModulesFromStatus status).

(** ** The cached status *)

(** The item [status] of the browser's storage, and whether reading and writing it
    succeed: either may throw. *)
Record StatusCache := { cached : option jstr; readable : bool; writable : bool }.

Definition getCachedStatus (c : StatusCache) : jsval :=
  if readable c
  then match cached c with
       | Some raw => if truthy raw then default VNull (json_parse raw) else VNull
       | None => VNull
       end
  else VNull.

Definition cacheStatus (status : jsval) (c : StatusCache) : StatusCache :=
  if v_truthy status && writable c
  then match stringify status with
       | Some w => {| cached := Some w; readable := readable c; writable := writable c |}
       | None => c
       end
  else c.

Definition getModuleAccess (m : HeaderNavModule) (c : StatusCache) : ModuleAccess :=
  getModuleAccessFromStatus (getCachedStatus c) m.

Definition closed_access : ModuleAccess := {| enabled := false; requireAuth := true |}.

(** [answer] is what [getStatus] resolved to, [None] if it was rejected. *)
Definition getFreshModuleAccess (m : HeaderNavModule) (answer : option jsval) (c : StatusCache)
  : StatusCache * ModuleAccess :=
  match answer with
  | Some status => (cacheStatus status c, getModuleAccessFromStatus status m)
  | None => (c, closed_access)
  end.

(** [v === false] *)
Definition is_false (v : jsval) : bool := match v with VBool false => true | _ => false end.
(** [v === true] *)
Definition is_true (v : jsval) : bool := match v with VBool true => true | _ => false end.

(** Reading a property of [null] throws, which the handler answers with [true]. *)
Definition isSidebarModuleEnabled (section module : jstr) (c : StatusCache) : bool :=
  let status := getCachedStatus c in
  if negb (v_truthy status) then true
  else
    let raw := get (js "SidebarModulesAdmin") status in
    if negb (v_truthy raw) || blank_text raw then true
    else
      match json_parse (to_string raw) with
      | None | Some VNull => true
      | Some parsed =>
          let sectionConfig := get section parsed in
          if negb (v_truthy sectionConfig) then true
          else if is_false (get (js "enabled") sectionConfig) then false
          else if is_false (get module sectionConfig) then false
          else true
      end.

(** ** Route guards *)

(** What [beforeLoad] ends with: the page, or a redirection. *)
Inductive guard_result :=
  | Enter
  | RedirectTo (target : jstr)
  | RedirectSignIn (redirect : jstr).

(** [beforeLoad] of a page that belongs to a header module; [signed_in] is
    [auth.user] of the store, [href] the address asked for. *)
Definition module_guard (m : HeaderNavModule) (answer : option jsval) (signed_in : bool) (href : jstr) (c : StatusCache)
  : StatusCache * guard_result :=
  let '(c', access) := getFreshModuleAccess m answer c in
  (c', if negb (enabled access) then RedirectTo (js "/")
       else if requireAuth access && negb signed_in then RedirectSignIn href
       else Enter).

Definition pricing_guard := module_guard PricingModule.
Definition model_details_guard := module_guard PricingModule.
Definition rankings_guard := module_guard RankingsModule.

Definition playground_guard (c : StatusCache) : guard_result :=
  if negb (isSidebarModuleEnabled (js "chat") (js "playground") c) then RedirectTo (js "/dashboard") else Enter.

(** ** Links of the header *)

Record TopNavLink := { l_title : jstr; l_href : jstr; l_requiresAuth : option bool }.

Definition PUBLIC_HOME_URL : jstr := js "http://acucompute.com/".

(** [modules?.home !== false] *)
Definition not_off (k : jstr) (r : HeaderNavModules) : bool :=
  match prop_get k r with Some (NBool false) => false | _ => true end.

Definition useTopNavLinks (t : jstr -> jstr) (status : jsval) (isAuthed : bool) : list TopNavLink :=
  let modules := parseHeaderNavModulesFromStatus status in
  (if not_off (js "home") modules
   then [{| l_title := t (js "Home"); l_href := PUBLIC_HOME_URL; l_requiresAuth := None |}] else []) ++
  [{| l_title := t (js "Usage Guide"); l_href := js "/"; l_requiresAuth := None |}] ++
  (if not_off (js "console") modules
   then [{| l_title := t (js "Console"); l_href := js "/dashboard"; l_requiresAuth := None |}] else []) ++
  match prop_get (js "pricing") modules with
  | Some (NAccess pricing) =>
      if enabled pricing
      then [{| l_title := t (js "Model Pricing"); l_href := js "/pricing";
               l_requiresAuth := Some (requireAuth pricing && negb isAuthed) |}]
      else []
  | _ => []
  end.
