(* ===== verification/NavEditor.v ===== *)
(** * Editors of the navigation

    What an administrator and a user store about the navigation:
    [features/system-settings/maintenance/config.ts] (reading and writing the two
    settings), the forms of [header-navigation-section.tsx] and
    [sidebar-modules-section.tsx], and the card of a user's own choice,
    [features/profile/components/sidebar-modules-card.tsx]. *)

From S2P Require Import Prelude JsString JsNumber Json JsonText NavModules AuthSession.

(** A section of the sidebar: its modules and whether each is on, [enabled] for the
    whole section. *)
Definition SidebarSectionConfig := list (jstr * bool).
Definition SidebarModulesAdminConfig := list (jstr * SidebarSectionConfig).

(** The object with these modules, all on. *)
Definition all_on (ks : list jstr) : SidebarSectionConfig := map (fun k => (k, true)) (js "enabled" :: ks).

Definition SIDEBAR_MODULES_DEFAULT : SidebarModulesAdminConfig :=
  [(js "chat", all_on [js "playground"; js "chat"]);
   (js "console", all_on [js "detail"; js "token"; js "log"; js "midjourney"; js "task"]);
   (js "personal", all_on [js "topup"; js "personal"]);
   (js "admin", all_on [js "channel"; js "models"; js "redemption"; js "user"; js "setting"; js "subscription"])].

Definition HEADER_NAV_DEFAULT : HeaderNavModules :=
  [(js "home", NBool true); (js "console", NBool true); (js "pricing", NAccess public_access);
   (js "rankings", NAccess public_access); (js "docs", NBool true); (js "about", NBool true)].

(** ** Reading the settings *)

Definition toBoolean (value : jsval) (fallback : bool) : bool :=
  match value with
  | VBool b => b
  | VNum x => n_eqb x (num_of_Z 1)
  | VStr s => if true_word (normal_word s) then true else if false_word (normal_word s) then false else fallback
  | _ => fallback
  end.

Definition parseAccessModule (raw : jsval) (fallback : ModuleAccess) : ModuleAccess :=
  if is_primitive raw
  then {| enabled := toBoolean raw (enabled fallback); requireAuth := requireAuth fallback |}
  else if is_record raw
  then {| enabled := toBoolean (get (js "enabled") raw) (enabled fallback);
          requireAuth := toBoolean (get (js "requireAuth") raw) (requireAuth fallback) |}
  else fallback.

(** [Boolean(base[key])] *)
Definition base_boolean (key : jstr) : bool :=
  match prop_get key HEADER_NAV_DEFAULT with Some (NBool b) => b | Some (NAccess _) => true | None => false end.

(** One turn of the loop: the value of a setting, or nothing. *)
Definition header_setting (key : jstr) (raw : jsval) : option nav_value :=
  if (key =s js "pricing") || (key =s js "rankings")
  then Some (NAccess (parseAccessModule raw (access_at key HEADER_NAV_DEFAULT)))
  else
    match raw with
    | VBool b => Some (NBool b)
    | VStr _ | VNum _ => Some (NBool (toBoolean raw (base_boolean key)))
    | _ => None
    end.

Definition put_setting (result : HeaderNavModules) (entry : jstr * jsval) : HeaderNavModules :=
  match header_setting (fst entry) (snd entry) with
  | Some v => prop_set (fst entry) v result
  | None => result
  end.

(** [value] is [None] for [null] and [undefined].  A text that is no JSON, or is
    [null], ends in the handler. *)
Definition parseHeaderNavModules (value : option jstr) : HeaderNavModules :=
  match value with
  | Some s =>
      if truthy s
      then match json_parse s ≫= object_entries with
           | Some entries => foldl put_setting HEADER_NAV_DEFAULT entries
           | None => HEADER_NAV_DEFAULT
           end
      else HEADER_NAV_DEFAULT
  | None => HEADER_NAV_DEFAULT
  end.

Definition nav_json (v : nav_value) : jsval :=
  match v with
  | NBool b => VBool b
  | NAccess a => VObj [(js "enabled", VBool (enabled a)); (js "requireAuth", VBool (requireAuth a))]
  end.

(** [JSON.stringify] of an object always gives a text. *)
Definition serializeHeaderNavModules (config : HeaderNavModules) : jstr :=
  text_of (VObj (prod_map id nav_json <$> config)).

(** The modules of a section, without [enabled]. *)
Definition section_step (defaultSection : SidebarSectionConfig) (sectionConfig : SidebarSectionConfig) (entry : jstr * jsval)
  : SidebarSectionConfig :=
  let '(moduleKey, moduleValue) := entry in
  if moduleKey =s js "enabled" then sectionConfig
  else prop_set moduleKey (toBoolean moduleValue (default true (prop_get moduleKey defaultSection))) sectionConfig.

Definition read_section (defaultSection : SidebarSectionConfig) (raw : jsval) : SidebarSectionConfig :=
  foldl (section_step defaultSection)
    [(js "enabled", toBoolean (get (js "enabled") raw) (default true (prop_get (js "enabled") defaultSection)))]
    (default [] (object_entries raw)).

Definition sections_step (result : SidebarModulesAdminConfig) (entry : jstr * jsval) : SidebarModulesAdminConfig :=
  let '(sectionKey, raw) := entry in
  if is_record raw
  then prop_set sectionKey
         (read_section (default [(js "enabled", true)] (prop_get sectionKey SIDEBAR_MODULES_DEFAULT)) raw) result
  else result.

(** [if (!(moduleKey in section)) section[moduleKey] = moduleValue] *)
Definition fill_module (section : SidebarSectionConfig) (entry : jstr * bool) : SidebarSectionConfig :=
  match prop_get (fst entry) section with
  | Some _ => section
  | None => prop_set (fst entry) (snd entry) section
  end.

Definition fill_section (result : SidebarModulesAdminConfig) (entry : jstr * SidebarSectionConfig)
  : SidebarModulesAdminConfig :=
  let '(sectionKey, config) := entry in
  match prop_get sectionKey result with
  | Some section => prop_set sectionKey (foldl fill_module section config) result
  | None => prop_set sectionKey config result
  end.

Definition parseSidebarModulesAdmin (value : option jstr) : SidebarModulesAdminConfig :=
  match value with
  | Some s =>
      if negb (truthy s) || (trim s =s []) then SIDEBAR_MODULES_DEFAULT
      else match json_parse s ≫= object_entries with
           | Some entries => foldl fill_section (foldl sections_step [] entries) SIDEBAR_MODULES_DEFAULT
           | None => SIDEBAR_MODULES_DEFAULT
           end
  | None => SIDEBAR_MODULES_DEFAULT
  end.

Definition section_json (c : SidebarSectionConfig) : jsval := VObj (prod_map id VBool <$> c).
Definition sidebar_json (c : SidebarModulesAdminConfig) : jsval := VObj (prod_map id section_json <$> c).

Definition serializeSidebarModulesAdmin (config : SidebarModulesAdminConfig) : jstr := text_of (sidebar_json config).

(** ** The forms of the administrator *)

Record HeaderNavFormValues := {
  home : bool; console : bool; pricingEnabled : bool; pricingRequireAuth : bool;
  rankingsEnabled : bool; rankingsRequireAuth : bool }.

(** [config[k] === undefined ? HEADER_NAV_DEFAULT[k] : Boolean(config[k])] *)
Definition shown_switch (k : jstr) (config : HeaderNavModules) : bool :=
  match prop_get k config with
  | Some (NBool b) => b
  | Some (NAccess _) => true
  | None => base_boolean k
  end.

Definition toFormValues (config : HeaderNavModules) : HeaderNavFormValues :=
  let pricing := access_at (js "pricing") config in
  let rankings := access_at (js "rankings") config in
  {| home := shown_switch (js "home") config; console := shown_switch (js "console") config;
     pricingEnabled := enabled pricing; pricingRequireAuth := requireAuth pricing;
     rankingsEnabled := enabled rankings; rankingsRequireAuth := requireAuth rankings |}.

(** The settings of the form over those that were loaded. *)
Definition header_payload (config : HeaderNavModules) (values : HeaderNavFormValues) : HeaderNavModules :=
  prop_set (js "rankings")
    (NAccess {| enabled := rankingsEnabled values; requireAuth := rankingsRequireAuth values |})
  (prop_set (js "pricing")
    (NAccess {| enabled := pricingEnabled values; requireAuth := pricingRequireAuth values |})
  (prop_set (js "console") (NBool (console values))
  (prop_set (js "home") (NBool (home values)) config))).

(** The option sent to the server, if any. *)
Definition header_submit (config : HeaderNavModules) (initialSerialized : jstr) (values : HeaderNavFormValues)
  : option (jstr * jstr) :=
  let serialized := serializeHeaderNavModules (header_payload config values) in
  if serialized =s initialSerialized then None else Some (js "HeaderNavModules", serialized).

(** The section as the page builds it from the stored setting. *)
Definition header_section (setting : option jstr) : HeaderNavModules * jstr :=
  let config := parseHeaderNavModules setting in (config, serializeHeaderNavModules config).

(** A switch of the sidebar form sets a field that the loaded configuration has. *)
Definition set_switch (section module : jstr) (b : bool) (values : SidebarModulesAdminConfig) : SidebarModulesAdminConfig :=
  match prop_get section values with
  | Some c => match prop_get module c with
              | Some _ => prop_set section (prop_set module b c) values
              | None => values
              end
  | None => values
  end.

Definition sidebar_submit (initialSerialized : jstr) (values : SidebarModulesAdminConfig) : option (jstr * jstr) :=
  let serialized := serializeSidebarModulesAdmin values in
  if serialized =s initialSerialized then None else Some (js "SidebarModulesAdmin", serialized).

Definition sidebar_section (setting : option jstr) : SidebarModulesAdminConfig * jstr :=
  let config := parseSidebarModulesAdmin setting in (config, serializeSidebarModulesAdmin config).

(** ** The card of the user *)

(** The sections a user may narrow, with their modules. *)
Definition sectionDefs : list (jstr * list jstr) :=
  [(js "chat", [js "playground"; js "chat"]);
   (js "console", [js "detail"; js "token"; js "log"; js "midjourney"; js "task"]);
   (js "personal", [js "topup"; js "personal"])].

(** The configuration on screen, whether a save is under way (with the text it sends
    and the user it will write back), and the toasts by their messages before
    translation. *)
Record Card := {
  c_config : jsval;
  c_saving : option (jstr * option AuthUser);
  c_toasts : list jsval }.

Definition empty_card : Card := {| c_config := VObj []; c_saving := None; c_toasts := [] |}.

Definition set_config (v : jsval) (c : Card) : Card :=
  {| c_config := v; c_saving := c_saving c; c_toasts := c_toasts c |}.

Definition card_defaults : jsval :=
  VObj (prod_map id (fun ms => section_json (all_on ms)) <$> sectionDefs).

(** [loadConfig]: [reply] is [res.data], [None] if the request failed.  A text that is
    no JSON throws, and is ignored. *)
Definition loadConfig (reply : option jsval) (c : Card) : Card :=
  match reply with
  | None | Some VUndef | Some VNull => c
  | Some data =>
      let raw := get (js "sidebar_modules") (get (js "data") data) in
      if v_truthy (get (js "success") data) && v_truthy raw
      then match raw with
           | VStr s => match json_parse s with Some parsed => set_config parsed c | None => c end
           | _ => set_config raw c
           end
      else set_config card_defaults c
  end.

(** [{ ...prev }]: the own properties; [null] and [undefined] have none. *)
Definition spread (v : jsval) : list (jstr * jsval) := default [] (object_entries v).

(** [{ ...prev, [section]: { ...prev[section], [module]: val } }]; reading a property of
    [null] throws. *)
Definition toggled (section module : jstr) (val : bool) (prev : jsval) : option jsval :=
  match prev with
  | VUndef | VNull => None
  | _ => Some (VObj (prop_set section (VObj (prop_set module (VBool val) (spread (get section prev)))) (spread prev)))
  end.

Definition toggleModule (section module : jstr) (val : bool) (c : Card) : option Card :=
  v ← toggled section module val (c_config c); Some (set_config v c).

Definition toggleSection (section : jstr) (val : bool) (c : Card) : option Card :=
  v ← toggled section (js "enabled") val (c_config c); Some (set_config v c).

Definition handleReset (c : Card) : Card :=
  {| c_config := card_defaults; c_saving := c_saving c;
     c_toasts := c_toasts c ++ [VStr (js "Reset to default configuration")] |}.

(** [handleSave] up to its request; the button is off while a save is under way. *)
Definition save_start (currentUser : option AuthUser) (c : Card) : option Card :=
  match c_saving c with
  | Some _ => None
  | None => Some {| c_config := c_config c; c_saving := Some (text_of (c_config c), currentUser); c_toasts := c_toasts c |}
  end.

(** [{ ...currentUser, sidebar_modules: serialized }] *)
Definition with_modules (serialized : jstr) (u : AuthUser) : AuthUser :=
  VObj (prop_set (js "sidebar_modules") (VStr serialized) (spread u)).

(** The rest of [handleSave], on the reply ([None]: the request failed). *)
Definition save_end (reply : option jsval) (c : Card) (a : AuthState) : option (Card * AuthState) :=
  '(serialized, currentUser) ← c_saving c;
  let toast m := {| c_config := c_config c; c_saving := None; c_toasts := c_toasts c ++ [m] |} in
  let retry := toast (VStr (js "Save failed, please retry")) in
  Some (match reply with
        | None | Some VUndef | Some VNull => (retry, a)
        | Some data =>
            if v_truthy (get (js "success") data)
            then (toast (VStr (js "Saved successfully")),
                  match currentUser with
                  | Some u => setUser (Some (with_modules serialized u)) a
                  | None => a
                  end)
            else (toast (let m := get (js "message") data in
                         if v_truthy m then m else VStr (js "Save failed")), a)
        end).

(** The switches on screen: that of the section, and those of its modules.  Reading a
    property of [null] throws. *)
Definition section_switch (section : jstr) (config : jsval) : option bool :=
  match config with
  | VUndef | VNull => None
  | _ => Some (negb (is_false (get (js "enabled") (get section config))))
  end.

Definition module_switch (section module : jstr) (config : jsval) : option bool :=
  match config with
  | VUndef | VNull => None
  | _ => Some (negb (is_false (get module (get section config))))
  end.
