(* ===== verification/Sidebar.v ===== *)
(** * The sidebar

    Which entries of the sidebar are shown, to whom, and which one is highlighted:
    [hooks/use-sidebar-config.ts] (the layers of the administrator and of the user),
    [hooks/use-sidebar-data.ts] (the entries), [hooks/use-sidebar-view.ts] and
    [components/layout/lib/sidebar-view-registry.ts] (roles and nested views), and
    [components/layout/lib/url-utils.ts].  Icons and badges are left out; [t]
    translates. *)

From S2P Require Import Prelude JsString JsNumber JsRegex Json JsonText NavModules NavEditor.

(** ** Entries *)

Record BaseNavItem := {
  title : jstr; activeUrls : option (list jstr); configUrls : option (list jstr); requiredRole : option Z }.

Definition entry (t : jstr) : BaseNavItem :=
  {| title := t; activeUrls := None; configUrls := None; requiredRole := None |}.
Definition role_entry (t : jstr) (r : Z) : BaseNavItem :=
  {| title := t; activeUrls := None; configUrls := None; requiredRole := Some r |}.

Inductive NavItem :=
  | NavLink (base : BaseNavItem) (url : jstr)
  | NavCollapsible (base : BaseNavItem) (items : list (BaseNavItem * jstr))
  | NavChatPresets (base : BaseNavItem).

Definition base_of (i : NavItem) : BaseNavItem :=
  match i with NavLink b _ | NavCollapsible b _ | NavChatPresets b => b end.

Record NavGroup := { g_id : option jstr; g_title : jstr; g_items : list NavItem }.

(** ** The layers *)

(** A configuration as it is parsed: the value of each section may be anything. *)
Definition SidebarConfig := list (jstr * jsval).

Definition DEFAULT_SIDEBAR_MODULES : list (jstr * SidebarSectionConfig) :=
  [(js "chat", all_on [js "playground"; js "chat"]);
   (js "console", all_on [js "detail"; js "token"; js "log"; js "midjourney"; js "task"]);
   (js "personal", all_on [js "topup"; js "personal"]);
   (js "admin", all_on [js "channel"; js "models"; js "redemption"; js "user"; js "setting"; js "subscription"])].

Definition default_config : SidebarConfig := prod_map id section_json <$> DEFAULT_SIDEBAR_MODULES.

(** [{ ...base, ...over }] *)
Definition merge_props (base over : list (jstr * jsval)) : list (jstr * jsval) :=
  foldl (fun o p => prop_set (fst p) (snd p) o) base over.

(** The loop over the keys of the default section. *)
Definition fill_undefined (section : list (jstr * jsval)) (p : jstr * bool) : list (jstr * jsval) :=
  match default VUndef (prop_get (fst p) section) with
  | VUndef => prop_set (fst p) (VBool (snd p)) section
  | _ => section
  end.

Definition merge_section (merged : SidebarConfig) (d : jstr * SidebarSectionConfig) : SidebarConfig :=
  let '(sectionKey, defaultSection) := d in
  let existing := default VUndef (prop_get sectionKey merged) in
  if negb (v_truthy existing) then prop_set sectionKey (section_json defaultSection) merged
  else prop_set sectionKey
         (VObj (foldl fill_undefined
                  (merge_props (prod_map id VBool <$> defaultSection) (spread existing)) defaultSection)) merged.

Definition mergeWithDefaultSidebarModules (config : jsval) : SidebarConfig :=
  foldl merge_section (spread config) DEFAULT_SIDEBAR_MODULES.

Record mapping := { m_section : jstr; m_module : jstr }.

Definition URL_TO_CONFIG_MAP : list (jstr * mapping) :=
  let to s m := {| m_section := s; m_module := m |} in
  [(js "/playground", to (js "chat") (js "playground"));
   (js "/dashboard", to (js "console") (js "detail"));
   (js "/dashboard/overview", to (js "console") (js "detail"));
   (js "/dashboard/models", to (js "console") (js "detail"));
   (js "/dashboard/users", to (js "console") (js "detail"));
   (js "/keys", to (js "console") (js "token"));
   (js "/usage-logs", to (js "console") (js "log"));
   (js "/usage-logs/common", to (js "console") (js "log"));
   (js "/usage-logs/drawing", to (js "console") (js "midjourney"));
   (js "/usage-logs/task", to (js "console") (js "task"));
   (js "/wallet", to (js "personal") (js "topup"));
   (js "/profile", to (js "personal") (js "personal"));
   (js "/channels", to (js "admin") (js "channel"));
   (js "/models", to (js "admin") (js "models"));
   (js "/models/metadata", to (js "admin") (js "models"));
   (js "/models/deployments", to (js "admin") (js "models"));
   (js "/users", to (js "admin") (js "user"));
   (js "/redemption-codes", to (js "admin") (js "redemption"));
   (js "/subscriptions", to (js "admin") (js "subscription"));
   (js "/system-settings", to (js "admin") (js "setting"));
   (js "/system-settings/site", to (js "admin") (js "setting"))].

(** A value that is neither nullish, empty nor a text has no [trim]: [None]. *)
Definition parseSidebarConfig (value : jsval) : option SidebarConfig :=
  if negb (v_truthy value) then Some default_config
  else
    match value with
    | VStr s =>
        Some (if trim s =s [] then default_config
              else match json_parse s with
                   | Some parsed => mergeWithDefaultSidebarModules parsed
                   | None => default_config
                   end)
    | _ => None
    end.

(** The inner [None] is [null]: do not narrow. *)
Definition parseUserSidebarConfig (value : jsval) : option (option jsval) :=
  if negb (v_truthy value) then Some None
  else
    match value with
    | VStr s =>
        Some (if trim s =s [] then None
              else match json_parse s with
                   | Some parsed => if is_record parsed then Some parsed else None
                   | None => None
                   end)
    | _ => None
    end.

(** The first layer: the section and the module are on. *)
Definition admin_allows (section module : jstr) (admin : SidebarConfig) : bool :=
  let adminSection := default VUndef (prop_get section admin) in
  v_truthy adminSection && v_truthy (get (js "enabled") adminSection) && is_true (get module adminSection).

(** The second layer: neither was set to [false]. *)
Definition user_allows (section module : jstr) (user : option jsval) : bool :=
  match user with
  | None => true
  | Some userConfig =>
      let userSection := get section userConfig in
      if negb (v_truthy userSection) then true
      else if is_false (get (js "enabled") userSection) then false
      else negb (is_false (get module userSection))
  end.

Definition isModuleEnabled (url : jstr) (admin : SidebarConfig) (user : option jsval) : bool :=
  match prop_get url URL_TO_CONFIG_MAP with
  | None => true
  | Some m =>
      if negb (admin_allows (m_section m) (m_module m) admin) then false
      else user_allows (m_section m) (m_module m) user
  end.

Definition isNavItemVisible (item : NavItem) (admin : SidebarConfig) (user : option jsval) : bool :=
  match item with
  | NavChatPresets _ =>
      if negb (admin_allows (js "chat") (js "chat") admin) then false
      else user_allows (js "chat") (js "chat") user
  | NavLink b url =>
      if truthy url then existsb (fun u => isModuleEnabled u admin user) (default [url] (configUrls b)) else true
  | NavCollapsible _ items => existsb (fun s => isModuleEnabled (snd s) admin user) items
  end.

Definition filter_subitems (admin : SidebarConfig) (user : option jsval) (item : NavItem) : NavItem :=
  match item with
  | NavCollapsible b items => NavCollapsible b (bfilter (fun s => isModuleEnabled (snd s) admin user) items)
  | _ => item
  end.

Definition filterNavItems (items : list NavItem) (admin : SidebarConfig) (user : option jsval) : list NavItem :=
  bfilter (fun i => isNavItemVisible i admin user) (map (filter_subitems admin user) items).

(** The user of the store, [VUndef] when there is none. *)
Definition user_config (u : jsval) : option (option jsval) :=
  if is_false (get (js "sidebar_settings") (get (js "permissions") u)) then Some None
  else parseUserSidebarConfig (get (js "sidebar_modules") u).

Definition set_items (items : list NavItem) (g : NavGroup) : NavGroup :=
  {| g_id := g_id g; g_title := g_title g; g_items := items |}.

Definition shown_groups (admin : SidebarConfig) (user : option jsval) (groups : list NavGroup) : list NavGroup :=
  bfilter (fun g => (0 <? length (g_items g))%nat)
    (map (fun g => set_items (filterNavItems (g_items g) admin user) g) groups).

(** [None]: the render throws. *)
Definition useSidebarConfig (status u : jsval) (groups : list NavGroup) : option (list NavGroup) :=
  admin ← parseSidebarConfig (get (js "SidebarModulesAdmin") status);
  user ← user_config u;
  Some (shown_groups admin user groups).

Definition useIsSidebarModuleVisible (status u : jsval) (url : jstr) : option bool :=
  admin ← parseSidebarConfig (get (js "SidebarModulesAdmin") status);
  user ← user_config u;
  Some (isModuleEnabled url admin user).

(** ** The entries of the client *)

Definition GUEST : Z := 0.
Definition USER : Z := 1.
Definition ADMIN : Z := 10.
Definition SUPER_ADMIN : Z := 100.

Section texts.
Variable t : jstr -> jstr.

Definition link (k url : String.string) : NavItem := NavLink (entry (t (js k))) (js url).
Definition role_link (k url : String.string) (r : Z) : NavItem := NavLink (role_entry (t (js k)) r) (js url).
Definition group (i k : String.string) (items : list NavItem) : NavGroup :=
  {| g_id := Some (js i); g_title := t (js k); g_items := items |}.
#[local] Arguments link _%_string_scope _%_string_scope.
#[local] Arguments role_link _%_string_scope _%_string_scope _.
#[local] Arguments group _%_string_scope _%_string_scope _.

(** [userRole] is [auth.user?.role ?? ROLE.GUEST]. *)
Definition useSidebarData (userRole : Z) : list NavGroup :=
  [group "chat" "Experience" [link "ACU Conversation" "/playground"];
   group "general" "Management"
     [link "Overview" "/dashboard/overview"; link "Dashboard" "/dashboard/models"; link "API Keys" "/keys";
      link "Call Records" "/usage-logs/common"; link "Supply Monitor" "/usage-logs/channel-monitor";
      NavLink {| title := t (js "Async Tasks"); activeUrls := Some [js "/usage-logs/drawing"];
                 configUrls := Some [js "/usage-logs/drawing"; js "/usage-logs/task"]; requiredRole := Some ADMIN |}
        (js "/usage-logs/task")];
   group "acu" "ACU"
     ([link "Public ACU" "/public-acu"; link "Route Timeline" "/usage-logs/timeline"] ++
      (if (USER <=? userRole)%Z then [link "Private ACU" "/private-acu/overview"] else []));
   group "personal" "Personal" [link "Wallet" "/wallet"; link "Profile" "/profile"];
   group "admin" "Admin"
     [link "Channels" "/channels"; link "Models" "/models/metadata"; link "Users" "/users";
      link "Redemption Codes" "/redemption-codes"; link "Subscriptions" "/subscriptions";
      role_link "System Info" "/system-info" SUPER_ADMIN;
      NavLink {| title := t (js "System Settings"); activeUrls := Some [js "/system-settings"];
                 configUrls := None; requiredRole := None |} (js "/system-settings/site")]].

(** ** Nested views *)

Definition getPrivateACUNavGroups : list NavGroup :=
  [group "private-acu-workspace" "Private ACU"
     [link "Overview" "/private-acu/overview"; link "Account learning" "/private-acu/account";
      role_link "Film POC" "/private-acu/film" ADMIN; link "Learning runs" "/private-acu/learning-runs";
      link "Advisor" "/private-acu/advisor"; role_link "Prompts" "/private-acu/prompts" ADMIN]].

(** A registry of settings pages: its base path and its sections, by id and title. *)
Record SectionRegistry := { r_basePath : jstr; r_path_style : bool; r_sections : list (jstr * jstr) }.

Definition registry (base : String.string) (l : list (jstr * jstr)) : SectionRegistry :=
  {| r_basePath := js base; r_path_style := true; r_sections := l |}.

#[local] Arguments registry _%_string_scope _.

Definition getSectionNavItems (r : SectionRegistry) : list (BaseNavItem * jstr) :=
  map (fun '(i, k) => (entry (t k), r_basePath r ++ (if r_path_style r then js "/" else js "?section=") ++ i))
      (r_sections r).

Definition siteRegistry : SectionRegistry := registry "/system-settings/site"
  [(js "system-info", js "System Information"); (js "notice", js "System Notice"); (js "header-navigation", js "Header navigation");
   (js "sidebar-modules", js "Sidebar modules")].
Definition authRegistry : SectionRegistry := registry "/system-settings/auth"
  [(js "basic-auth", js "Basic Authentication"); (js "oauth", js "OAuth Integrations"); (js "passkey", js "Passkey Authentication");
   (js "bot-protection", js "Bot Protection"); (js "custom-oauth", js "Custom OAuth")].
Definition billingRegistry : SectionRegistry := registry "/system-settings/billing"
  [(js "quota", js "Quota Settings"); (js "currency", js "Currency & Display"); (js "model-pricing", js "Model Pricing");
   (js "group-pricing", js "Group Pricing"); (js "payment", js "Payment Gateway"); (js "checkin", js "Check-in Rewards")].
Definition modelsRegistry : SectionRegistry := registry "/system-settings/models"
  [(js "global", js "Global Model Configuration"); (js "routing-reliability", js "Routing Reliability"); (js "gemini", js "Gemini");
   (js "claude", js "Claude"); (js "grok", js "Grok"); (js "channel-affinity", js "Channel Affinity");
   (js "model-deployment", js "Model Deployment")].
Definition securityRegistry : SectionRegistry := registry "/system-settings/security"
  [(js "rate-limit", js "Rate Limiting"); (js "sensitive-words", js "Sensitive Words"); (js "ssrf", js "SSRF Protection");
   (js "token-limits", js "Token Limits")].
Definition contentRegistry : SectionRegistry := registry "/system-settings/content"
  [(js "dashboard", js "Data Dashboard"); (js "announcements", js "Announcements"); (js "acu-quick-start", js "ACU Setup Tutorial");
   (js "api-info", js "API Addresses"); (js "faq", js "FAQ"); (js "uptime-kuma", js "Uptime Kuma"); (js "chat", js "Chat Presets");
   (js "drawing", js "Drawing")].
Definition operationsRegistry : SectionRegistry := registry "/system-settings/operations"
  [(js "behavior", js "System Behavior"); (js "alerts", js "Monitoring & Alerts"); (js "email", js "SMTP Email");
   (js "worker", js "Worker Proxy"); (js "logs", js "Log Maintenance"); (js "performance", js "Performance");
   (js "update-checker", js "System maintenance")].

Definition getSystemSettingsNavGroups : list NavGroup :=
  let sub (k : jstr) r := NavCollapsible (entry (t k)) (getSectionNavItems r) in
  [group "system-administration" "System Administration"
     [sub (js "Site & Branding") siteRegistry; sub (js "Authentication") authRegistry; sub (js "Billing & Payment") billingRegistry;
      sub (js "Models & Routing") modelsRegistry; sub (js "Security & Limits") securityRegistry;
      sub (js "Console Content") contentRegistry; sub (js "Operations") operationsRegistry]].

Record SidebarView := { v_id : jstr; v_pattern : regex; v_parent : jstr * jstr; v_groups : list NavGroup }.

(** [/^\/name(\/|$)/] *)
Definition under (name : String.string) : regex :=
  RSeqs [RStart; RLit (js "/" ++ js name); RGroup 1 (RAlt (RLit (js "/")) REnd)].

#[local] Arguments under _%_string_scope.

Definition PRIVATE_ACU_VIEW : SidebarView :=
  {| v_id := js "private-acu"; v_pattern := under "private-acu";
     v_parent := (js "/usage-logs/timeline", js "Back to ACU"); v_groups := getPrivateACUNavGroups |}.

Definition SYSTEM_SETTINGS_VIEW : SidebarView :=
  {| v_id := js "system-settings"; v_pattern := under "system-settings";
     v_parent := (js "/dashboard/overview", js "Back to Dashboard"); v_groups := getSystemSettingsNavGroups |}.

Definition SIDEBAR_VIEWS : list SidebarView := [PRIVATE_ACU_VIEW; SYSTEM_SETTINGS_VIEW].

Definition resolveSidebarView (pathname : jstr) : option SidebarView :=
  List.find (fun v => test_re (v_pattern v) pathname) SIDEBAR_VIEWS.

Definition getNavGroupsForPath (pathname : jstr) : option (list NavGroup) :=
  v_groups <$> resolveSidebarView pathname.

(** ** The sidebar on screen *)

Definition ROOT_VIEW_KEY : jstr := js "__root".

Definition role_allows (role : Z) (item : NavItem) : bool :=
  match requiredRole (base_of item) with Some r => (r <=? role)%Z | None => true end.

Definition role_items (role : Z) (g : NavGroup) : NavGroup := set_items (bfilter (role_allows role) (g_items g)) g.

(** The groups of the root, after the layers. *)
Definition rootNavGroups (role : Z) (groups : list NavGroup) : list NavGroup :=
  map (role_items role)
    (bfilter (fun g => if bool_decide (g_id g = Some (js "admin")) then (ADMIN <=? role)%Z else true) groups).

Record ResolvedSidebarView := { rv_key : jstr; rv_view : option SidebarView; rv_groups : list NavGroup }.

(** [role] is [userRole ?? ROLE.GUEST]. *)
Definition useSidebarView (pathname : jstr) (status u : jsval) (role : Z) : option ResolvedSidebarView :=
  configFilteredRoot ← useSidebarConfig status u (useSidebarData role);
  Some (match resolveSidebarView pathname with
        | Some view =>
            {| rv_key := v_id view; rv_view := Some view;
               rv_groups := bfilter (fun g => (0 <? length (g_items g))%nat) (map (role_items role) (v_groups view)) |}
        | None =>
            {| rv_key := ROOT_VIEW_KEY; rv_view := None; rv_groups := rootNavGroups role configFilteredRoot |}
        end).
End texts.

(** ** Highlighting *)

(** [href.split('?')[0]] *)
Definition without_query (href : jstr) : jstr := default [] (head (split_on 63 href)).

(** [withoutQuery.replace(/\/+$/, '')] *)
Definition strip_slashes (s : jstr) : jstr := rev (snd (span (N.eqb 47) (rev s))).

Definition normalizeHref (href : jstr) : jstr :=
  let withoutQuery := without_query href in
  if (1 <? length withoutQuery)%nat then strip_slashes withoutQuery else withoutQuery.

(** The test of the address of an entry or of a sub-entry. *)
Definition url_active (href url : jstr) : bool :=
  truthy url &&
  ((href =s url) ||
   ((without_query url =s without_query href) && (negb (includes (js "?") url) || (href =s url)))).

(** [s.split('/')[1]] *)
Definition first_path (s : jstr) : option jstr := split_on 47 s !! 1%nat.

Definition checkIsActive (href : jstr) (item : NavItem) (mainNav : bool) : bool :=
  if existsb (fun u => u =s without_query href) (default [] (activeUrls (base_of item))) then true
  else
    match item with
    | NavChatPresets _ => false
    | NavCollapsible _ items => existsb (fun s => url_active href (snd s)) items
    | NavLink _ url =>
        if negb (truthy url) then false
        else if url_active href url then true
        else if mainNav && truthy (default [] (first_path href))
             then bool_decide (first_path href = first_path url)
             else false
    end.
