(* ===== verification/NavFacts.v ===== *)
(** * Facts on the navigation

    What an administrator saves is what visitors get: the texts the editors write are
    read back by the client's own parsers, by the guards of the routes and by the
    header. *)

From S2P Require Import Prelude JsString JsNumber JsRegex Json JsonText JsonUnits AuthSession NavModules NavEditor Sidebar.

(** The two readers of a switch agree but for numbers that are neither 0 nor 1, which
    the editor shows as off and the client leaves at its default. *)
Lemma booleans_agree v f :
  toBoolean v f = parseHeaderNavBoolean v f \/
  exists x, v = VNum x /\ n_eqb x (num_of_Z 1) = false /\ n_eqb x n_zero = false /\
            toBoolean v f = false /\ parseHeaderNavBoolean v f = f.
Proof.
  destruct v as [| |b|x|s|l|o]; try (left; reflexivity). cbn [toBoolean parseHeaderNavBoolean].
  destruct (n_eqb x (num_of_Z 1)) eqn:E1; [by left|]. destruct (n_eqb x n_zero) eqn:E0; [by left|]. right. by exists x.
Qed.

Lemma show_nat_units n : unit_string (show_nat n) = true.
Proof.
  unfold unit_string. rewrite forallb_Forall'. eapply Forall_impl; [apply show_N_digits|]. unfold is_digit.
  intros c Hc. bsplit. lia.
Qed.

Lemma entries_units v l : unit_value v = true -> object_entries v = Some l -> Forall (fun p => unit_pair p = true) l.
Proof.
  intros Hv El. destruct v as [| |b|x|w|l'|o]; try done; injection El as <-; try constructor.
  - apply Forall_forall. intros p (i & c & -> & Hc)%elem_of_lookup_imap. unfold unit_pair. cbn [fst snd unit_value].
    rewrite show_nat_units. cbn in Hv. unfold unit_string in *. rewrite forallb_Forall', Forall_lookup in Hv. cbn. by rewrite (Hv _ _ Hc).
  - apply Forall_forall. intros p (i & c & -> & Hc)%elem_of_lookup_imap. unfold unit_pair. cbn [fst snd].
    rewrite show_nat_units. cbn in Hv. rewrite forallb_Forall', Forall_lookup in Hv. by apply (Hv _ _ Hc).
  - by apply unit_object.
Qed.

Lemma unit_keys l : Forall (fun p => unit_pair p = true) l -> Forall (fun p => unit_string (fst p) = true) l.
Proof. intros H. eapply Forall_impl; [exact H|]. intros p. unfold unit_pair. rewrite andb_true_iff. tauto. Qed.

(** ** Header settings *)

Definition access_key (k : jstr) : bool := (k =s js "pricing") || (k =s js "rankings").

(** Pricing and rankings have an access, everything else a switch. *)
Definition typed_setting (p : jstr * nav_value) : Prop :=
  match snd p with NAccess _ => access_key (fst p) = true | NBool _ => access_key (fst p) = false end.

Definition header_json (r : HeaderNavModules) : jsval := VObj (prod_map id nav_json <$> r).

(** The settings of the editor: they can be written, each has its type, and those the
    client knows are all there. *)
Record header_ok (r : HeaderNavModules) : Prop := {
  header_plain : plain_value (header_json r) = true;
  header_typed : Forall typed_setting r;
  header_complete : forall k, is_Some (prop_get k DEFAULT_HEADER_NAV_MODULES) -> is_Some (prop_get k r) }.

Lemma plain_nav v : plain_value (nav_json v) = true.
Proof. by destruct v as [[] | [[] []]]. Qed.

Lemma header_ok_default : header_ok HEADER_NAV_DEFAULT.
Proof. split; [reflexivity|repeat constructor|done]. Qed.

Lemma header_ok_set k v r :
  unit_string k = true -> typed_setting (k, v) -> header_ok r -> header_ok (prop_set k v r).
Proof.
  intros Hu Ht [H1 H2 H3]. split.
  - unfold header_json. rewrite fmap_prop_set. apply plain_set; [exact H1|done|apply plain_nav].
  - by apply forall_prop_set.
  - intros k' Hk. rewrite prop_get_set. destruct (k' =s k); [done|by apply H3].
Qed.

Lemma header_ok_parse setting : (forall s, setting = Some s -> unit_string s = true) -> header_ok (NavEditor.parseHeaderNavModules setting).
Proof.
  intros Hu. unfold NavEditor.parseHeaderNavModules. destruct setting as [s|]; [|apply header_ok_default].
  destruct (truthy s); [|apply header_ok_default]. destruct (json_parse s) as [v|] eqn:Ev; [|apply header_ok_default].
  cbn [mbind option_bind]. destruct (object_entries v) as [l|] eqn:El; [|apply header_ok_default].
  assert (Forall (fun p => unit_string (fst p) = true) l) as Hl.
  { eapply unit_keys, entries_units; [|exact El]. by eapply unit_json_parse, Hu. }
  clear -Hl. generalize header_ok_default. generalize HEADER_NAV_DEFAULT.
  induction Hl as [|[k v] l Hk Hl IH]; intros r Hr; [done|]. cbn [foldl]. apply IH. unfold put_setting.
  cbn [fst snd] in *. destruct (header_setting k v) as [x|] eqn:E; [|done]. apply header_ok_set; [done| |done].
  unfold header_setting in E. unfold typed_setting, access_key. cbn [fst snd].
  destruct ((k =s js "pricing") || (k =s js "rankings")); [by injection E as <-|].
  destruct v; try done; by injection E as <-.
Qed.

(** Reading a written setting gives it back, in the client and in the editor. *)
Lemma client_entry p acc : typed_setting p -> header_entry acc (prod_map id nav_json p) = prop_set (fst p) (snd p) acc.
Proof.
  destruct p as [k [b | [e q]]]; unfold typed_setting, access_key, header_entry, prod_map; cbn [fst snd id nav_json]; intros ->.
  - by destruct (prop_get k acc) as [[|]|].
  - done.
Qed.

Lemma editor_entry p acc : typed_setting p -> put_setting acc (prod_map id nav_json p) = prop_set (fst p) (snd p) acc.
Proof.
  destruct p as [k [b | [e q]]]; unfold typed_setting, access_key, put_setting, header_setting, prod_map; cbn [fst snd id nav_json]; intros ->; done.
Qed.

Lemma fold_entries {A} (f : list (jstr * A) -> jstr * jsval -> list (jstr * A)) (g : A -> jsval) l acc :
  (forall p acc, p ∈ l -> f acc (prod_map id g p) = prop_set (fst p) (snd p) acc) ->
  foldl f acc (prod_map id g <$> l) = put_all l acc.
Proof.
  unfold put_all. revert acc. induction l as [|p l IH]; intros acc H; [done|]. cbn. rewrite H by left. apply IH.
  intros q acc' Hq. apply H. by right.
Qed.

(** The text of an object is read back, and is not blank. *)
Lemma object_text_read o : plain_value (VObj o) = true ->
  json_parse (text_of (VObj o)) = Some (VObj o) /\ truthy (text_of (VObj o)) = true /\
  (trim (text_of (VObj o)) =s []) = false.
Proof.
  intros H. destruct (json_roundtrip _ H) as (w & Ew & Ep). pose proof (text_of_plain _ H) as Et.
  assert (text_of (VObj o) = w) as -> by congruence. destruct (object_opens _ _ _ _ _ Ew) as [u ->].
  rewrite (trim_id _ (object_trimmed _ _ _ _ _ Ew)). done.
Qed.

Lemma header_nodup r : plain_value (header_json r) = true -> NoDup (map fst r).
Proof. unfold header_json. intros [H _]%plain_object. rewrite keys_fmap in H. by eapply ordered_nodup. Qed.

(** Reading all of [r] over the defaults. *)
Lemma header_over_defaults r d : header_ok r -> (forall k, is_Some (prop_get k d) -> is_Some (prop_get k DEFAULT_HEADER_NAV_MODULES)) ->
  forall k, prop_get k (put_all r d) = prop_get k r.
Proof.
  intros [Hp Ht Hc] Hd k. rewrite put_all_get by by apply header_nodup. destruct (prop_get k r) eqn:E; [done|].
  destruct (prop_get k d) eqn:Ed; [|done]. destruct (Hc k) as [x Hx]; [apply Hd; by eexists|congruence].
Qed.

Lemma client_reads r : header_ok r ->
  forall k, prop_get k (NavModules.parseHeaderNavModules (VStr (serializeHeaderNavModules r))) = prop_get k r.
Proof.
  intros Hr k. destruct (object_text_read _ (header_plain _ Hr)) as (Ep & Et & Eb).
  unfold NavModules.parseHeaderNavModules, parseHeaderNavRecord, blank_text, serializeHeaderNavModules.
  cbn [v_truthy to_string is_record]. rewrite Et, Eb, Ep. cbn [negb orb v_truthy object_entries default].
  rewrite <- (header_over_defaults r DEFAULT_HEADER_NAV_MODULES Hr (fun _ H => H) k). apply f_equal, fold_entries. intros p acc Hp. apply client_entry.
  pose proof (header_typed _ Hr) as Ht. rewrite Forall_forall in Ht. by apply Ht.
Qed.

Lemma editor_reads r : header_ok r ->
  forall k, prop_get k (NavEditor.parseHeaderNavModules (Some (serializeHeaderNavModules r))) = prop_get k r.
Proof.
  intros Hr k. destruct (object_text_read _ (header_plain _ Hr)) as (Ep & Et & Eb).
  unfold NavEditor.parseHeaderNavModules, serializeHeaderNavModules. rewrite Et, Ep. cbn [mbind option_bind object_entries].
  rewrite <- (header_over_defaults r DEFAULT_HEADER_NAV_MODULES Hr (fun _ H => H) k). apply f_equal, fold_entries. intros p acc Hp. apply editor_entry.
  pose proof (header_typed _ Hr) as Ht. rewrite Forall_forall in Ht. by apply Ht.
Qed.

Lemma header_ok_payload r values : header_ok r -> header_ok (header_payload r values).
Proof. intros Hr. unfold header_payload. by repeat (apply header_ok_set; [reflexivity|reflexivity|]). Qed.

(** The settings of the form. *)
Definition form_setting (values : HeaderNavFormValues) (k : jstr) : option nav_value :=
  prop_get k
    [(js "home", NBool (home values)); (js "console", NBool (console values));
     (js "pricing", NAccess {| enabled := pricingEnabled values; requireAuth := pricingRequireAuth values |});
     (js "rankings", NAccess {| enabled := rankingsEnabled values; requireAuth := rankingsRequireAuth values |})].

Lemma payload_get r values k :
  prop_get k (header_payload r values) = match form_setting values k with Some v => Some v | None => prop_get k r end.
Proof.
  unfold header_payload, form_setting. rewrite !prop_get_set. cbn [prop_get].
  destruct (k =s js "rankings") eqn:E1; [by apply jeqb_eq in E1 as ->|].
  destruct (k =s js "pricing") eqn:E2; [by apply jeqb_eq in E2 as ->|].
  destruct (k =s js "console") eqn:E3; [by apply jeqb_eq in E3 as ->|]. by destruct (k =s js "home").
Qed.

(** What a page does for a module with these switches. *)
Definition module_page (on auth signed_in : bool) (href : jstr) : guard_result :=
  if on then if auth && negb signed_in then RedirectSignIn href else Enter else RedirectTo (js "/").

Lemma guard_page m status signed_in href c a :
  prop_get (module_key m) (parseHeaderNavModulesFromStatus status) = Some (NAccess a) ->
  snd (module_guard m (Some status) signed_in href c) = module_page (enabled a) (requireAuth a) signed_in href.
Proof.
  intros H. unfold module_guard, getFreshModuleAccess, getModuleAccessFromStatus, access_at. rewrite H. cbn [snd].
  unfold module_page. by destruct (enabled a).
Qed.

(** C23. When the header form has saved its switches, over whatever setting it was opened
    on, the pages of pricing, model details and rankings are open, behind the sign-in or
    closed as the switches say, the header has exactly the links that are on, the form
    opened again shows the same switches, and every other setting is as it was. *)
Theorem header_saved_applies setting values w status signed_in href c t :
  (forall s, setting = Some s -> unit_string s = true) ->
  header_submit (fst (header_section setting)) (snd (header_section setting)) values = Some (js "HeaderNavModules", w) ->
  get (js "HeaderNavModules") status = VStr w ->
  snd (pricing_guard (Some status) signed_in href c) =
    module_page (pricingEnabled values) (pricingRequireAuth values) signed_in href /\
  snd (model_details_guard (Some status) signed_in href c) =
    module_page (pricingEnabled values) (pricingRequireAuth values) signed_in href /\
  snd (rankings_guard (Some status) signed_in href c) =
    module_page (rankingsEnabled values) (rankingsRequireAuth values) signed_in href /\
  map l_href (useTopNavLinks t status signed_in) =
    (if home values then [PUBLIC_HOME_URL] else []) ++ [js "/"] ++
    (if console values then [js "/dashboard"] else []) ++ (if pricingEnabled values then [js "/pricing"] else []) /\
  toFormValues (fst (header_section (Some w))) = values /\
  (forall k, form_setting values k = None ->
     prop_get k (fst (header_section (Some w))) = prop_get k (fst (header_section setting))).
Proof.
  unfold header_submit. intros Hu Hs Hw. cbn zeta in Hs. destruct (_ =s _); [done|]. injection Hs as <-. unfold header_section in *. cbn [fst snd] in *.
  pose proof (header_ok_payload _ values (header_ok_parse _ Hu)) as Hok. set (r := NavEditor.parseHeaderNavModules setting) in *.
  assert (forall k v, form_setting values k = Some v -> prop_get k (parseHeaderNavModulesFromStatus status) = Some v) as Hclient.
  { intros k v Hk. unfold parseHeaderNavModulesFromStatus. by rewrite Hw, client_reads, payload_get, Hk. }
  assert (forall k, prop_get k (NavEditor.parseHeaderNavModules (Some (serializeHeaderNavModules (header_payload r values)))) =
                    match form_setting values k with Some v => Some v | None => prop_get k r end) as Heditor.
  { intros k. by rewrite editor_reads, payload_get. }
  split; [exact (guard_page PricingModule _ _ _ _ _ (Hclient (js "pricing") _ eq_refl))|].
  split; [exact (guard_page PricingModule _ _ _ _ _ (Hclient (js "pricing") _ eq_refl))|].
  split; [exact (guard_page RankingsModule _ _ _ _ _ (Hclient (js "rankings") _ eq_refl))|].
  split; [|split].
  - unfold useTopNavLinks, not_off.
    rewrite (Hclient (js "home") _ eq_refl), (Hclient (js "console") _ eq_refl), (Hclient (js "pricing") _ eq_refl). destruct values as [[] [] [] ? ? ?]; reflexivity.
  - unfold toFormValues, shown_switch, access_at. rewrite !Heditor. by destruct values.
  - intros k Hk. by rewrite Heditor, Hk.
Qed.

(** The witness: a form opened on no setting, with pricing behind the sign-in and the
    rankings off. *)
Lemma header_saved_applies_witness :
  let values := {| home := true; console := false; pricingEnabled := true; pricingRequireAuth := true;
                   rankingsEnabled := false; rankingsRequireAuth := false |} in
  exists w, let status := VObj [(js "HeaderNavModules", VStr w)] in
  snd (pricing_guard (Some status) false (js "/pricing") {| cached := None; readable := true; writable := true |}) =
    RedirectSignIn (js "/pricing") /\
  snd (rankings_guard (Some status) true (js "/rankings") {| cached := None; readable := true; writable := true |}) = RedirectTo (js "/").
Proof.
  set (values := {| home := true; console := false; pricingEnabled := true; pricingRequireAuth := true;
                    rankingsEnabled := false; rankingsRequireAuth := false |}).
  set (c := {| cached := None; readable := true; writable := true |}).
  set (w := serializeHeaderNavModules (header_payload HEADER_NAV_DEFAULT values)). exists w. cbv zeta.
  set (status := VObj [(js "HeaderNavModules", VStr w)]).
  assert (header_submit (fst (header_section None)) (snd (header_section None)) values = Some (js "HeaderNavModules", w)) as Hs
    by (vm_compute; reflexivity).
  assert (get (js "HeaderNavModules") status = VStr w) as Hw by (vm_compute; reflexivity).
  destruct (header_saved_applies None values w status false (js "/pricing") c (fun s => s) ltac:(done) Hs Hw) as (H1 & _).
  destruct (header_saved_applies None values w status true (js "/rankings") c (fun s => s) ltac:(done) Hs Hw) as (_ & _ & H3 & _).
  split; [rewrite H1; reflexivity|rewrite H3; reflexivity].
Defined.
