(* ===== verification/SidebarFacts.v ===== *)
(** * Facts on the sidebar

    The switches of the administrator decide what the sidebar shows and whether the
    playground opens; those of a user only hide; at most one entry is highlighted. *)

From S2P Require Import Prelude JsString JsNumber JsRegex Json JsonText JsonUnits AuthSession NavModules NavEditor Sidebar NavFacts.

(** ** Switches of the administrator *)

Definition switch (s m : jstr) (v : SidebarModulesAdminConfig) : option bool := prop_get s v ≫= prop_get m.

(** The section and the module are on. *)
Definition module_on (s m : jstr) (v : SidebarModulesAdminConfig) : bool :=
  bool_decide (switch s (js "enabled") v = Some true) && bool_decide (switch s m v = Some true).

(** A section of the editor: it can be written and has the switch of the section. *)
Definition section_ok (c : SidebarSectionConfig) : Prop :=
  plain_value (section_json c) = true /\ is_Some (prop_get (js "enabled") c).

Definition sections_ok (v : SidebarModulesAdminConfig) : Prop :=
  plain_value (sidebar_json v) = true /\ Forall (fun p => section_ok (snd p)) v.

(** ... and every module the client knows has its switch. *)
Definition sidebar_ok (v : SidebarModulesAdminConfig) : Prop :=
  sections_ok v /\
  forall s d m, prop_get s SIDEBAR_MODULES_DEFAULT = Some d -> is_Some (prop_get m d) -> is_Some (switch s m v).

Lemma plain_prop {A} (f : A -> jsval) k v (o : list (jstr * A)) :
  plain_value (VObj (prod_map id f <$> o)) = true -> prop_get k o = Some v ->
  unit_string k = true /\ plain_value (f v) = true.
Proof.
  intros [_ H]%plain_object E. apply prop_get_in in E. rewrite Forall_fmap, Forall_forall in H. specialize (H _ E).
  unfold plain_pair in H. cbn in H. by apply andb_true_iff in H.
Qed.

Lemma plain_nodup {A} (f : A -> jsval) (o : list (jstr * A)) :
  plain_value (VObj (prod_map id f <$> o)) = true -> NoDup (map fst o).
Proof. intros [H _]%plain_object. rewrite keys_fmap in H. by eapply ordered_nodup. Qed.

Lemma section_get s v c : sections_ok v -> prop_get s v = Some c -> section_ok c.
Proof. intros [_ H] E. apply prop_get_in in E. rewrite Forall_forall in H. exact (H _ E). Qed.

Lemma section_set m b c : unit_string m = true -> section_ok c -> section_ok (prop_set m b c).
Proof.
  intros Hm [Hp He]. split.
  - unfold section_json. rewrite fmap_prop_set. by apply plain_set.
  - rewrite prop_get_set. by destruct (_ =s m).
Qed.

Lemma sections_set s c v : unit_string s = true -> section_ok c -> sections_ok v -> sections_ok (prop_set s c v).
Proof.
  intros Hs Hc [Hp Hv]. split; [|by apply forall_prop_set].
  unfold sidebar_json. rewrite fmap_prop_set. apply plain_set; [done|done|apply Hc].
Qed.

Lemma switch_set s c s' m v : switch s' m (prop_set s c v) = if s' =s s then prop_get m c else switch s' m v.
Proof. unfold switch. rewrite prop_get_set. by destruct (s' =s s). Qed.

Lemma set_switch_ok s m b v : sidebar_ok v -> sidebar_ok (set_switch s m b v).
Proof.
  intros [Hv Hc]. unfold set_switch. destruct (prop_get s v) as [c|] eqn:E; [|done].
  destruct (prop_get m c) as [b'|] eqn:Em; [|done]. pose proof (section_get _ _ _ Hv E) as Hs.
  destruct (plain_prop _ _ _ _ (proj1 Hv) E) as [Hus _]. destruct (plain_prop _ _ _ _ (proj1 Hs) Em) as [Hum _].
  split; [apply sections_set; [done|by apply section_set|done]|]. intros s' d m' Hd Hm'. rewrite switch_set. pose proof (Hc _ _ _ Hd Hm') as Hold.
  destruct (s' =s s) eqn:Es; [|done]. apply jeqb_eq in Es as ->. unfold switch in Hold. rewrite E in Hold. cbn in Hold.
  rewrite prop_get_set. by destruct (m' =s m).
Qed.

(** ** Reading the switches *)

Lemma fill_module_get m c d :
  prop_get m (foldl fill_module c d) = match prop_get m c with Some b => Some b | None => prop_get m d end.
Proof.
  revert c. induction d as [|[k b] d IH]; intros c; [cbn; by destruct (prop_get m c)|]. cbn [foldl prop_get]. rewrite IH.
  unfold fill_module. cbn [fst snd]. destruct (prop_get k c) as [b'|] eqn:Ek.
  - destruct (prop_get m c) eqn:Em; [done|]. destruct (m =s k) eqn:E; [|done]. apply jeqb_eq in E as ->. congruence.
  - rewrite prop_get_set. destruct (m =s k) eqn:E; [|done]. apply jeqb_eq in E as ->. by rewrite Ek.
Qed.

Lemma fill_module_ok c d : plain_value (section_json d) = true -> section_ok c -> section_ok (foldl fill_module c d).
Proof.
  intros [_ Hd]%plain_object. unfold section_json in Hd. rewrite Forall_fmap in Hd. revert c.
  induction Hd as [|[k b] d Hk Hd IH]; intros c Hc; [done|]. cbn [foldl]. apply IH. unfold fill_module. cbn [fst snd].
  destruct (prop_get k c); [done|]. apply section_set; [|done]. cbn in Hk. unfold plain_pair in Hk. by apply andb_true_iff in Hk as [Hk _].
Qed.

Lemma fill_section_get s r l : NoDup (map fst l) ->
  prop_get s (foldl fill_section r l) =
  match prop_get s l with
  | Some d => Some (match prop_get s r with Some c => foldl fill_module c d | None => d end)
  | None => prop_get s r
  end.
Proof.
  revert r. induction l as [|[k d] l IH]; intros r Hn; [done|]. inversion Hn as [|? ? Hk Hn']; subst. cbn [foldl prop_get].
  rewrite IH by done.
  assert (prop_get s (fill_section r (k, d)) =
    if s =s k then Some (match prop_get s r with Some c => foldl fill_module c d | None => d end) else prop_get s r) as ->.
  { unfold fill_section. destruct (prop_get k r) as [c|] eqn:E; rewrite prop_get_set; destruct (s =s k) eqn:Es; try done;
      apply jeqb_eq in Es as ->; by rewrite E. }
  destruct (s =s k) eqn:Es; [|done]. apply jeqb_eq in Es as ->.
  replace (prop_get k l) with (@None SidebarSectionConfig); [done|]. symmetry. by apply prop_get_None_iff.
Qed.

Lemma default_sections : Forall (fun p => section_ok (snd p) /\ unit_string (fst p) = true) SIDEBAR_MODULES_DEFAULT.
Proof. repeat constructor; by eexists. Qed.

Lemma fill_sections_ok r l :
  Forall (fun p => section_ok (snd p) /\ unit_string (fst p) = true) l -> sections_ok r -> sections_ok (foldl fill_section r l).
Proof.
  intros Hl. revert r. induction Hl as [|[k d] l [Hd Hk] Hl IH]; intros r Hr; [done|]. cbn [foldl]. apply IH.
  unfold fill_section. cbn [fst snd] in *. destruct (prop_get k r) as [c|] eqn:E; apply sections_set; try done.
  apply fill_module_ok; [apply Hd|]. by eapply section_get.
Qed.

Lemma filled_complete r s d m : prop_get s SIDEBAR_MODULES_DEFAULT = Some d -> is_Some (prop_get m d) ->
  is_Some (switch s m (foldl fill_section r SIDEBAR_MODULES_DEFAULT)).
Proof.
  intros Hd Hm. unfold switch. rewrite fill_section_get by (by apply (ordered_nodup [])). rewrite Hd. cbn.
  destruct (prop_get s r) as [c|]; [|done]. rewrite fill_module_get. by destruct (prop_get m c).
Qed.

Lemma section_step_ok d l c :
  Forall (fun p => unit_string (fst p) = true) l -> section_ok c -> section_ok (foldl (section_step d) c l).
Proof.
  intros Hl. revert c. induction Hl as [|[k v] l Hk Hl IH]; intros c Hc; [done|]. cbn [foldl]. apply IH.
  unfold section_step. destruct (k =s js "enabled"); [done|]. by apply section_set.
Qed.

Lemma read_section_ok d v : unit_value v = true -> is_record v = true -> section_ok (read_section d v).
Proof.
  intros Hv Hr. unfold read_section. apply section_step_ok.
  - destruct (object_entries v) as [l|] eqn:El; [|constructor]. by eapply unit_keys, entries_units.
  - split; [by destruct (toBoolean _ _)|by eexists].
Qed.

Lemma sections_step_ok l v : Forall (fun p => unit_pair p = true) l -> sections_ok v -> sections_ok (foldl sections_step v l).
Proof.
  intros Hl. revert v. induction Hl as [|[k x] l Hk Hl IH]; intros v Hv; [done|]. cbn [foldl]. apply IH.
  unfold sections_step. unfold unit_pair in Hk. cbn [fst snd] in Hk. apply andb_true_iff in Hk as [Hk Hx].
  destruct (is_record x) eqn:Ex; [|done]. apply sections_set; [done|by apply read_section_ok|done].
Qed.

Lemma sidebar_ok_default : sidebar_ok SIDEBAR_MODULES_DEFAULT.
Proof.
  split; [|intros s d m Hd Hm; unfold switch; by rewrite Hd].
  split; [reflexivity|]. eapply Forall_impl; [apply default_sections|]. by intros p [? _].
Qed.

Lemma sidebar_ok_parse setting :
  (forall s, setting = Some s -> unit_string s = true) -> sidebar_ok (parseSidebarModulesAdmin setting).
Proof.
  intros Hu. unfold parseSidebarModulesAdmin. destruct setting as [s|]; [|apply sidebar_ok_default].
  destruct (_ || _); [apply sidebar_ok_default|]. destruct (json_parse s) as [v|] eqn:Ev; [|apply sidebar_ok_default].
  cbn [mbind option_bind]. destruct (object_entries v) as [l|] eqn:El; [|apply sidebar_ok_default].
  split; [|intros s' d m; apply filled_complete]. apply fill_sections_ok; [apply default_sections|].
  apply sections_step_ok; [|split; [reflexivity|constructor]]. eapply entries_units; [|exact El].
  by eapply unit_json_parse, Hu.
Qed.

(** The administrator's layer as the client reads it. *)
Lemma merge_section_get s M l : NoDup (map fst l) ->
  prop_get s (foldl merge_section M l) =
  match prop_get s l with
  | Some d =>
      let existing := default VUndef (prop_get s M) in
      Some (if negb (v_truthy existing) then section_json d
            else VObj (foldl fill_undefined (merge_props (prod_map id VBool <$> d) (spread existing)) d))
  | None => prop_get s M
  end.
Proof.
  revert M. induction l as [|[k d] l IH]; intros M Hn; [done|]. inversion Hn as [|? ? Hk Hn']; subst. cbn [foldl prop_get].
  rewrite IH by done.
  assert (forall s', prop_get s' (merge_section M (k, d)) =
    if s' =s k then Some (let existing := default VUndef (prop_get s' M) in
      if negb (v_truthy existing) then section_json d
      else VObj (foldl fill_undefined (merge_props (prod_map id VBool <$> d) (spread existing)) d)) else prop_get s' M) as Hm.
  { intros s'. unfold merge_section. destruct (negb _) eqn:E; rewrite prop_get_set; (destruct (s' =s k) eqn:Es; [|done]);
      apply jeqb_eq in Es as ->; by rewrite E. }
  rewrite Hm. destruct (s =s k) eqn:Es; [|done]. apply jeqb_eq in Es as ->.
  replace (prop_get k l) with (@None SidebarSectionConfig); [done|]. symmetry. by apply prop_get_None_iff.
Qed.

Lemma merge_bools c d : merge_props (prod_map id VBool <$> d) (prod_map id VBool <$> c) = prod_map id VBool <$> put_all c d.
Proof.
  unfold merge_props, put_all. revert d. induction c as [|[k b] c IH]; intros d; [done|]. cbn. rewrite <- IH. f_equal.
  by rewrite <- fmap_prop_set.
Qed.

Lemma fill_undefined_bools (c d : SidebarSectionConfig) :
  Forall (fun p => is_Some (prop_get (fst p) c)) d -> foldl fill_undefined (prod_map id VBool <$> c) d = prod_map id VBool <$> c.
Proof.
  induction 1 as [|[k b] d [x Hk] Hd IH]; [done|]. cbn [foldl]. unfold fill_undefined at 2. cbn [fst snd] in *.
  by rewrite prop_get_fmap, Hk.
Qed.

(** A section of the editor, read by the client, has the switches of the section. *)
Lemma merged_section c d m : NoDup (map fst c) -> Forall (fun p => is_Some (prop_get (fst p) c)) d -> is_Some (prop_get m c) ->
  get m (VObj (foldl fill_undefined (merge_props (prod_map id VBool <$> d) (prod_map id VBool <$> c)) d)) =
  VBool (bool_decide (prop_get m c = Some true)).
Proof.
  intros Hn Hd [b Hb]. rewrite merge_bools, fill_undefined_bools.
  - unfold get. rewrite prop_get_fmap, put_all_get, Hb by done. cbn. f_equal. by destruct b.
  - eapply Forall_impl; [exact Hd|]. intros p [x Hp]. rewrite put_all_get by done. rewrite Hp. by eexists.
Qed.

Lemma default_switches s d : prop_get s SIDEBAR_MODULES_DEFAULT = Some d ->
  is_Some (prop_get (js "enabled") d) /\ forall v c, sidebar_ok v -> prop_get s v = Some c ->
  Forall (fun p => is_Some (prop_get (fst p) c)) d.
Proof.
  intros Hd. pose proof default_sections as Hs. rewrite Forall_forall in Hs. destruct (Hs _ (prop_get_in _ _ _ Hd)) as [[Hp He] _].
  split; [done|]. intros v c [_ Hv] Hc. apply Forall_forall. intros [m b] Hin.
  destruct (Hv s d m Hd) as [x Hx].
  - destruct (prop_get m d) eqn:E; [by eexists|]. apply prop_get_None_iff in E. destruct E. apply list_elem_of_fmap.
    by exists (m, b).
  - unfold switch in Hx. rewrite Hc in Hx. by exists x.
Qed.

(** The section of a known module, with its switches. *)
Lemma known_section v s d m : sidebar_ok v -> prop_get s SIDEBAR_MODULES_DEFAULT = Some d -> is_Some (prop_get m d) ->
  exists c, prop_get s v = Some c /\ NoDup (map fst c) /\ Forall (fun p => is_Some (prop_get (fst p) c)) d /\
            is_Some (prop_get (js "enabled") c) /\ is_Some (prop_get m c).
Proof.
  intros Hv Hd Hm. destruct (default_switches _ _ Hd) as [_ Hall]. destruct Hv as [Hv Hc]. destruct (Hc _ _ _ Hd Hm) as [x Hx].
  unfold switch in Hx. destruct (prop_get s v) as [c|] eqn:E; [|done]. exists c. split; [done|].
  destruct (section_get _ _ _ Hv E) as [Hp He]. split; [by apply (plain_nodup _ _ Hp)|]. split; [|split; [done|by exists x]].
  by apply (Hall v c).
Qed.

Lemma client_admin v s d m : sidebar_ok v -> prop_get s SIDEBAR_MODULES_DEFAULT = Some d -> is_Some (prop_get m d) ->
  admin_allows s m (mergeWithDefaultSidebarModules (sidebar_json v)) = module_on s m v.
Proof.
  intros Hv Hd Hm. destruct (known_section _ _ _ _ Hv Hd Hm) as (c & Hc & Hn & Hall & He & Hx).
  unfold admin_allows, module_on, switch, mergeWithDefaultSidebarModules.
  change DEFAULT_SIDEBAR_MODULES with SIDEBAR_MODULES_DEFAULT.
  rewrite merge_section_get by (by apply (ordered_nodup [])). rewrite Hd, Hc.
  assert (prop_get s (spread (sidebar_json v)) = Some (section_json c)) as ->.
  { transitivity (section_json <$> prop_get s v); [|by rewrite Hc]. apply (prop_get_fmap section_json). }
  set (M := VObj (foldl fill_undefined (merge_props (prod_map id VBool <$> d) (prod_map id VBool <$> c)) d)).
  change (v_truthy M && v_truthy (get (js "enabled") M) && is_true (get m M) =
    bool_decide (prop_get (js "enabled") c = Some true) && bool_decide (prop_get m c = Some true)).
  subst M. rewrite !merged_section by done. cbn [v_truthy andb]. f_equal. by destruct (bool_decide _).
Qed.

(** The guard of a route, on a cached status with the saved text. *)
Lemma guard_admin v s d m c status : sidebar_ok v -> prop_get s SIDEBAR_MODULES_DEFAULT = Some d -> is_Some (prop_get m d) ->
  getCachedStatus c = status -> get (js "SidebarModulesAdmin") status = VStr (serializeSidebarModulesAdmin v) ->
  isSidebarModuleEnabled s m c = module_on s m v.
Proof.
  intros Hv Hd Hm Hc Hw. destruct (object_text_read _ (proj1 (proj1 Hv))) as (Ep & Et & Eb).
  destruct (known_section _ _ _ _ Hv Hd Hm) as (sc & Hs & _ & _ & [e He] & [x Hx]).
  unfold isSidebarModuleEnabled. rewrite Hc. cbv zeta. rewrite Hw. unfold serializeSidebarModulesAdmin, blank_text in *.
  assert (v_truthy status = true) as -> by (by destruct status). cbn [negb v_truthy to_string].
  fold (sidebar_json v) in Ep, Et, Eb. rewrite Et, Eb, Ep. cbn [negb orb].
  assert (get s (sidebar_json v) = section_json sc) as Hget.
  { unfold sidebar_json, get. by rewrite prop_get_fmap, Hs. }
  assert (forall k, get k (section_json sc) = default VUndef (VBool <$> prop_get k sc)) as Hsec.
  { intros k. unfold section_json, get. by rewrite prop_get_fmap. }
  unfold sidebar_json in Hget |- *. rewrite Hget, !Hsec, He, Hx. unfold module_on, switch. rewrite Hs. cbn [mbind option_bind].
  rewrite He, Hx. by destruct e, x.
Qed.

Lemma section_step_get m d acc c : NoDup (map fst c) ->
  prop_get m (foldl (section_step d) acc (prod_map id VBool <$> c)) =
  if m =s js "enabled" then prop_get m acc else match prop_get m c with Some b => Some b | None => prop_get m acc end.
Proof.
  revert acc. induction c as [|[k b] c IH]; intros acc Hn; [cbn; by destruct (_ =s _)|]. inversion Hn as [|? ? Hk Hn']; subst.
  cbn [fmap list_fmap prod_map id fst snd foldl prop_get]. rewrite IH by done. cbn [section_step toBoolean].
  destruct (k =s js "enabled") eqn:Ek.
  - apply jeqb_eq in Ek as ->. by destruct (m =s js "enabled").
  - rewrite prop_get_set. destruct (m =s js "enabled") eqn:Em.
    + destruct (m =s k) eqn:E; [|done]. apply jeqb_eq in E as ->. congruence.
    + destruct (m =s k) eqn:E; [|done]. apply jeqb_eq in E as ->.
      replace (prop_get k c) with (@None bool); [done|]. symmetry. by apply prop_get_None_iff.
Qed.

Lemma section_read_back m d c : section_ok c -> prop_get m (read_section d (section_json c)) = prop_get m c.
Proof.
  intros [Hp [e He]]. unfold read_section. change (default [] (object_entries (section_json c))) with (prod_map id VBool <$> c).
  rewrite section_step_get by (by apply (plain_nodup _ _ Hp)).
  assert (get (js "enabled") (section_json c) = VBool e) as ->.
  { unfold section_json, get. by rewrite prop_get_fmap, He. }
  cbn [toBoolean prop_get]. destruct (m =s js "enabled") eqn:E; [apply jeqb_eq in E as ->; by rewrite He|]. by destruct (prop_get m c).
Qed.

Lemma sections_step_get s acc v : NoDup (map fst v) ->
  prop_get s (foldl sections_step acc (prod_map id section_json <$> v)) =
  match prop_get s v with
  | Some c => Some (read_section (default [(js "enabled", true)] (prop_get s SIDEBAR_MODULES_DEFAULT)) (section_json c))
  | None => prop_get s acc
  end.
Proof.
  revert acc. induction v as [|[k c] v IH]; intros acc Hn; [done|]. inversion Hn as [|? ? Hk Hn']; subst.
  cbn [fmap list_fmap prod_map id fst snd foldl prop_get]. rewrite IH by done. unfold sections_step. cbn [is_record section_json].
  rewrite prop_get_set. destruct (s =s k) eqn:E; [|done]. apply jeqb_eq in E as ->.
  replace (prop_get k v) with (@None SidebarSectionConfig); [done|]. symmetry. by apply prop_get_None_iff.
Qed.

(** The editor reads its own text back. *)
Lemma sidebar_read_back v s m : sidebar_ok v ->
  switch s m (parseSidebarModulesAdmin (Some (serializeSidebarModulesAdmin v))) = switch s m v.
Proof.
  intros Hv. destruct (object_text_read _ (proj1 (proj1 Hv))) as (Ep & Et & Eb).
  unfold parseSidebarModulesAdmin, serializeSidebarModulesAdmin. fold (sidebar_json v) in Ep, Et, Eb. rewrite Et, Eb, Ep.
  cbn [negb orb mbind option_bind sidebar_json object_entries]. unfold switch.
  rewrite fill_section_get by (by apply (ordered_nodup [])).
  rewrite sections_step_get by (by apply (plain_nodup section_json), Hv).
  destruct (prop_get s v) as [c|] eqn:Es.
  - pose proof (section_get _ _ _ (proj1 Hv) Es) as Hc. destruct (prop_get s SIDEBAR_MODULES_DEFAULT) as [d|] eqn:Ed; cbn [mbind option_bind].
    + rewrite fill_module_get, section_read_back by done. destruct (prop_get m c) eqn:Em; [done|].
      destruct (prop_get m d) eqn:Emd; [|done]. destruct Hv as [_ Hv]. destruct (Hv s d m Ed) as [x Hx]; [by eexists|].
      unfold switch in Hx. rewrite Es in Hx. cbn in Hx. congruence.
    + by apply section_read_back.
  - destruct (prop_get s SIDEBAR_MODULES_DEFAULT) as [d|] eqn:Ed; [|done]. destruct (default_switches _ _ Ed) as [He _].
    destruct Hv as [_ Hv]. destruct (Hv _ _ _ Ed He) as [x Hx]. unfold switch in Hx. by rewrite Es in Hx.
Qed.

(** Every address of the sidebar belongs to a module the editor knows. *)
Lemma mapped_modules : Forall (fun p => exists d, prop_get (m_section (snd p)) SIDEBAR_MODULES_DEFAULT = Some d /\
  is_Some (prop_get (m_module (snd p)) d)) URL_TO_CONFIG_MAP.
Proof. repeat (constructor; [eexists; split; [reflexivity|by eexists]|]). constructor. Qed.

(** The switches after the edits of the form, one after the other. *)
Definition edited (edits : list (jstr * jstr * bool)) (v : SidebarModulesAdminConfig) : SidebarModulesAdminConfig :=
  foldl (fun v e => set_switch (fst (fst e)) (snd (fst e)) (snd e) v) v edits.

Lemma edited_ok edits v : sidebar_ok v -> sidebar_ok (edited edits v).
Proof.
  unfold edited. revert v. induction edits as [|e edits IH]; intros v Hv; [done|]. cbn [foldl]. by apply IH, set_switch_ok.
Qed.

(** ** The entries on screen *)

(** The addresses whose modules decide on an entry. *)
Definition config_addresses (i : NavItem) : list jstr :=
  match i with
  | NavLink b url => default [url] (configUrls b)
  | NavCollapsible _ items => map snd items
  | NavChatPresets _ => []
  end.

(** An address is on when its module is, by [on], or when it has no module. *)
Definition address_on (on : jstr -> jstr -> bool) (url : jstr) : bool :=
  match prop_get url URL_TO_CONFIG_MAP with Some m => on (m_section m) (m_module m) | None => true end.

(** The entries of the root sidebar for a role, when [on] says which modules are on: an
    entry needs one address that is on and its role, those of the administration also
    the role of an administrator. *)
Definition entry_shown (on : jstr -> jstr -> bool) (role : Z) (g : NavGroup) (i : NavItem) : bool :=
  existsb (address_on on) (config_addresses i) && role_allows role i &&
  (if bool_decide (g_id g = Some (js "admin")) then (ADMIN <=? role)%Z else true).

Definition entries_shown (on : jstr -> jstr -> bool) (t : jstr -> jstr) (role : Z) : list NavItem :=
  concat (map (fun g => bfilter (entry_shown on role g) (g_items g)) (useSidebarData t role)).

Definition entries (v : ResolvedSidebarView) : list NavItem := concat (map g_items (rv_groups v)).

Lemma entries_shown_ext on on' t role :
  Forall (fun p => on (m_section (snd p)) (m_module (snd p)) = on' (m_section (snd p)) (m_module (snd p))) URL_TO_CONFIG_MAP ->
  entries_shown on t role = entries_shown on' t role.
Proof.
  intros H. assert (forall url, address_on on url = address_on on' url) as Ha.
  { intros url. unfold address_on. destruct (prop_get url _) as [m|] eqn:E; [|done]. rewrite Forall_forall in H.
    exact (H _ (prop_get_in _ _ _ E)). }
  unfold entries_shown. f_equal. apply map_ext. intros g. apply filter_ext. intros i. unfold entry_shown. do 2 f_equal.
  induction (config_addresses i) as [|u l IH]; [done|]. cbn. by rewrite Ha, IH.
Qed.

(** The root sidebar has links with an address only. *)
Definition plain_link (i : NavItem) : bool := match i with NavLink _ url => truthy url | _ => false end.

Lemma data_links t role : Forall (fun g => forallb plain_link (g_items g) = true) (useSidebarData t role).
Proof. unfold useSidebarData. destruct (USER <=? role)%Z; by repeat constructor. Qed.

Lemma bfilter_and {A} (p q : A -> bool) l : bfilter p (bfilter q l) = bfilter (fun x => q x && p x) l.
Proof. induction l as [|x l IH]; [done|]. cbn. destruct (q x); cbn; [by destruct (p x); rewrite IH|done]. Qed.

Lemma filter_links items admin user : forallb plain_link items = true ->
  filterNavItems items admin user =
  bfilter (fun i => existsb (address_on (fun s m => admin_allows s m admin && user_allows s m user)) (config_addresses i)) items.
Proof.
  unfold filterNavItems. induction items as [|i items IH]; [done|]. cbn [forallb map]. intros [Hi H]%andb_true_iff.
  destruct i as [b url|b l|b]; try done. cbn [filter_subitems List.filter]. rewrite (IH H).
  assert (isNavItemVisible (NavLink b url) admin user =
    existsb (address_on (fun s m => admin_allows s m admin && user_allows s m user)) (config_addresses (NavLink b url))) as ->; [|done].
  cbn in Hi. cbn [isNavItemVisible config_addresses]. rewrite Hi. generalize (default [url] (configUrls b)). intros us.
  induction us as [|u us IHu]; [done|]. cbn [existsb]. rewrite IHu. f_equal. unfold isModuleEnabled, address_on.
  destruct (prop_get u _); [|done]. by destruct (admin_allows _ _ admin).
Qed.

Lemma concat_nonempty (groups : list NavGroup) :
  concat (map g_items (bfilter (fun g => (0 <? length (g_items g))%nat) groups)) = concat (map g_items groups).
Proof.
  induction groups as [|g groups IH]; [done|]. cbn [List.filter map concat].
  destruct (Nat.ltb_spec 0 (length (g_items g))) as [_ | H]; cbn [map concat]; rewrite IH; [done|].
  by destruct (g_items g); [|cbn in H; lia].
Qed.

(** Roles and the layers commute with dropping the groups that are empty. *)
Lemma root_items role (groups : list NavGroup) :
  concat (map g_items (rootNavGroups role (bfilter (fun g => (0 <? length (g_items g))%nat) groups))) =
  concat (map (fun g => bfilter (fun i => role_allows role i &&
    (if bool_decide (g_id g = Some (js "admin")) then (ADMIN <=? role)%Z else true)) (g_items g)) groups).
Proof.
  unfold rootNavGroups. induction groups as [|g groups IH]; [done|]. cbn [List.filter map concat]. rewrite <- IH.
  assert (bfilter (fun i => role_allows role i && (if bool_decide (g_id g = Some (js "admin")) then (ADMIN <=? role)%Z else true)) (g_items g) =
    if (if bool_decide (g_id g = Some (js "admin")) then (ADMIN <=? role)%Z else true) then bfilter (role_allows role) (g_items g) else []) as ->.
  { destruct (if bool_decide _ then _ else _).
    - apply filter_ext. intros i. by rewrite andb_true_r.
    - induction (g_items g) as [|i l IHl]; [done|]. cbn. by rewrite andb_false_r. }
  destruct (Nat.ltb_spec 0 (length (g_items g))) as [_ | H]; cbn [List.filter].
  - by destruct (if bool_decide _ then _ else _).
  - destruct (g_items g) eqn:E; [|cbn in H; lia]. by destruct (if bool_decide _ then _ else _).
Qed.

Lemma root_entries t pathname status u role admin user :
  parseSidebarConfig (get (js "SidebarModulesAdmin") status) = Some admin -> user_config u = Some user ->
  resolveSidebarView t pathname = None ->
  exists v, useSidebarView t pathname status u role = Some v /\
    entries v = entries_shown (fun s m => admin_allows s m admin && user_allows s m user) t role.
Proof.
  intros Ha Hu Hp. unfold useSidebarView, useSidebarConfig. rewrite Ha, Hu, Hp. cbn [mbind option_bind]. eexists. split; [reflexivity|].
  unfold entries, shown_groups. cbn [rv_groups]. rewrite root_items, map_map. unfold entries_shown. f_equal.
  pose proof (data_links t role) as Hl. induction Hl as [|g groups Hg _ IH]; [done|]. cbn [map]. rewrite IH. f_equal.
  cbn [set_items g_items g_id]. rewrite filter_links, bfilter_and by done. apply filter_ext. intros i. unfold entry_shown.
  by rewrite andb_assoc.
Qed.

(** C24. When the sidebar form has saved its switches, after any edits and over whatever
    setting it was opened on, a visitor without a choice of their own sees in the root
    sidebar exactly the entries of their role that have an address whose section and
    module are on, or that has no module; the other places that ask about an address are
    told the same; the playground opens exactly when its switches are on; and the form
    opened again shows the same switches. *)
Theorem sidebar_saved_applies setting edits w status c :
  (forall s, setting = Some s -> unit_string s = true) ->
  let values := edited edits (fst (sidebar_section setting)) in
  let on s m := module_on s m values in
  sidebar_submit (snd (sidebar_section setting)) values = Some (js "SidebarModulesAdmin", w) ->
  get (js "SidebarModulesAdmin") status = VStr w -> getCachedStatus c = status ->
  (forall t pathname u role, user_config u = Some None -> resolveSidebarView t pathname = None ->
     exists v, useSidebarView t pathname status u role = Some v /\ entries v = entries_shown on t role) /\
  (forall u url, user_config u = Some None -> useIsSidebarModuleVisible status u url = Some (address_on on url)) /\
  playground_guard c =
    (if module_on (js "chat") (js "playground") values then Enter else RedirectTo (js "/dashboard")) /\
  (forall s m, switch s m (fst (sidebar_section (Some w))) = switch s m values).
Proof.
  cbv zeta. unfold sidebar_section. cbn [fst snd]. intros Hu Hs Hw Hc.
  pose proof (edited_ok edits _ (sidebar_ok_parse _ Hu)) as Hok. set (v := edited _ _) in *.
  unfold sidebar_submit in Hs. destruct (_ =s _); [done|]. injection Hs as <-.
  destruct (object_text_read _ (proj1 (proj1 Hok))) as (Ep & Et & Eb). fold (sidebar_json v) in Ep, Et, Eb.
  assert (parseSidebarConfig (get (js "SidebarModulesAdmin") status) = Some (mergeWithDefaultSidebarModules (sidebar_json v))) as Ha.
  { unfold parseSidebarConfig. rewrite Hw. cbn [v_truthy]. unfold serializeSidebarModulesAdmin. by rewrite Et, Eb, Ep. }
  assert (Forall (fun p => admin_allows (m_section (snd p)) (m_module (snd p)) (mergeWithDefaultSidebarModules (sidebar_json v)) =
    module_on (m_section (snd p)) (m_module (snd p)) v) URL_TO_CONFIG_MAP) as Hon.
  { eapply Forall_impl; [apply mapped_modules|]. intros p (d & Hd & Hm). by apply (client_admin v _ d). }
  split; [|split; [|split]].
  - intros t pathname u role Hu' Hp. destruct (root_entries t pathname status u role _ _ Ha Hu' Hp) as (vw & H1 & He).
    exists vw. split; [done|]. rewrite He. apply entries_shown_ext. eapply Forall_impl; [exact Hon|]. intros p Hpm. cbv beta in Hpm |- *.
    cbn [user_allows]. by rewrite andb_true_r.
  - intros u url Hu'. unfold useIsSidebarModuleVisible. rewrite Ha, Hu'. cbn [mbind option_bind]. f_equal.
    unfold isModuleEnabled, address_on. destruct (prop_get url URL_TO_CONFIG_MAP) as [m|] eqn:E; [|done].
    rewrite Forall_forall in Hon. pose proof (Hon _ (prop_get_in _ _ _ E)) as Hm. cbn [snd] in Hm. rewrite Hm.
    by destruct (module_on _ _ v).
  - unfold playground_guard. rewrite (guard_admin v _ (all_on [js "playground"; js "chat"]) _ c status) by (try done; by eexists).
    by destruct (module_on _ _ v).
  - intros s m. by apply sidebar_read_back.
Qed.

(** The witness: the playground and the records of tasks switched off in a form opened on
    no setting.  The entry of the tasks stays, as its other address is on. *)
Definition ex_edits : list (jstr * jstr * bool) := [(js "chat", js "playground", false); (js "console", js "task", false)].

Lemma sidebar_saved_applies_witness :
  let w := serializeSidebarModulesAdmin (edited ex_edits SIDEBAR_MODULES_DEFAULT) in
  let status := VObj [(js "SidebarModulesAdmin", VStr w)] in
  let c := {| cached := Some (text_of status); readable := true; writable := true |} in
  (exists v, useSidebarView (fun s => s) (js "/keys") status VUndef 10 = Some v /\
     concat (map config_addresses (entries v)) =
     [js "/dashboard/overview"; js "/dashboard/models"; js "/keys"; js "/usage-logs/common"; js "/usage-logs/channel-monitor";
      js "/usage-logs/drawing"; js "/usage-logs/task"; js "/public-acu"; js "/usage-logs/timeline"; js "/private-acu/overview";
      js "/wallet"; js "/profile"; js "/channels"; js "/models/metadata"; js "/users"; js "/redemption-codes";
      js "/subscriptions"; js "/system-settings/site"]) /\
  useIsSidebarModuleVisible status VUndef (js "/usage-logs/task") = Some false /\
  playground_guard c = RedirectTo (js "/dashboard").
Proof.
  set (w := serializeSidebarModulesAdmin (edited ex_edits SIDEBAR_MODULES_DEFAULT)).
  cbv zeta. set (status := VObj [(js "SidebarModulesAdmin", VStr w)]).
  set (c := {| cached := Some (text_of status); readable := true; writable := true |}).
  destruct (sidebar_saved_applies None ex_edits w status c) as (H1 & H2 & H3 & _);
    [done|vm_compute; reflexivity|reflexivity|vm_compute; reflexivity|].
  split; [|split].
  - destruct (H1 (fun s => s) (js "/keys") VUndef 10%Z) as (v & Hv & He); [reflexivity|vm_compute; reflexivity|].
    exists v. split; [exact Hv|]. rewrite He. vm_compute. reflexivity.
  - rewrite H2 by reflexivity. vm_compute. reflexivity.
  - rewrite H3. vm_compute. reflexivity.
Defined.

(** A switch stored as a text: the form shows the playground as on and its route opens,
    but the sidebar, which asks for [true], leaves the entry out. *)
Theorem text_switch_hidden :
  let w := jsq "{`chat`:{`enabled`:true,`playground`:`true`}}" in
  let status := VObj [(js "SidebarModulesAdmin", VStr w)] in
  module_on (js "chat") (js "playground") (parseSidebarModulesAdmin (Some w)) = true /\
  playground_guard {| cached := Some (text_of status); readable := true; writable := true |} = Enter /\
  useIsSidebarModuleVisible status VUndef (js "/playground") = Some false.
Proof. vm_compute. done. Qed.

(** A section stored as off by a text: the form shows it as off, the sidebar and the
    guard take the text for on. *)
Theorem text_section_shown :
  let w := jsq "{`chat`:{`enabled`:`false`}}" in
  let status := VObj [(js "SidebarModulesAdmin", VStr w)] in
  switch (js "chat") (js "enabled") (parseSidebarModulesAdmin (Some w)) = Some false /\
  playground_guard {| cached := Some (text_of status); readable := true; writable := true |} = Enter /\
  useIsSidebarModuleVisible status VUndef (js "/playground") = Some true.
Proof. vm_compute. done. Qed.
