(* ===== verification/SidebarLayers.v ===== *)
(** * Who sees which entry

    The layer of the user over that of the administrator, the card that writes it, roles,
    and the highlighted entry. *)

From S2P Require Import Prelude JsString JsNumber JsRegex Json JsonText JsonUnits AuthSession NavModules NavEditor Sidebar NavFacts SidebarFacts.

(** ** The user only hides *)

(** The lines an entry has on screen: its address, those of its sub-entries, or the chat
    presets ([None]). *)
Definition rows (i : NavItem) : list (option jstr) :=
  match i with
  | NavLink _ url => [Some url]
  | NavCollapsible _ items => map (fun s => Some (snd s)) items
  | NavChatPresets _ => [None]
  end.

Definition group_rows (g : NavGroup) : list (option jstr) := concat (map rows (g_items g)).
Definition rows_of (groups : list NavGroup) : list (option jstr) := concat (map group_rows groups).

Lemma module_narrowed url admin user : isModuleEnabled url admin user = true -> isModuleEnabled url admin None = true.
Proof. unfold isModuleEnabled. destruct (prop_get url _); [|done]. by destruct (negb _). Qed.

Lemma bfilter_impl {A} (p q : A -> bool) l : (forall x, p x = true -> q x = true) -> bfilter p l `sublist_of` bfilter q l.
Proof.
  intros H. induction l as [|x l IH]; [done|]. cbn. destruct (p x) eqn:E; [rewrite (H _ E); by constructor|].
  destruct (q x); [by constructor|done].
Qed.

Lemma existsb_impl {A} (p q : A -> bool) l : (forall x, p x = true -> q x = true) -> existsb p l = true -> existsb q l = true.
Proof. intros H. rewrite !existsb_exists. intros (x & Hx & Hp). exists x. auto. Qed.

Lemma map_sublist {A B} (f : A -> B) l l' : l `sublist_of` l' -> map f l `sublist_of` map f l'.
Proof. induction 1; cbn; by constructor. Qed.

Lemma sub_rows admin user i : rows (filter_subitems admin user i) `sublist_of` rows (filter_subitems admin None i).
Proof.
  destruct i as [b u|b items|b]; cbn; [done| |done]. apply map_sublist, bfilter_impl. intros s. apply module_narrowed.
Qed.

Lemma visible_narrowed admin user i :
  isNavItemVisible (filter_subitems admin user i) admin user = true ->
  isNavItemVisible (filter_subitems admin None i) admin None = true.
Proof.
  destruct i as [b u|b items|b]; cbn.
  - destruct (truthy u); [|done]. apply existsb_impl. intros x. apply module_narrowed.
  - rewrite !existsb_exists. intros (x & Hx & Hp). exists x. apply module_narrowed in Hp. split; [|done].
    apply filter_In in Hx as [Hx _]. by apply filter_In.
  - by destruct (negb _).
Qed.

Lemma items_narrowed admin user items :
  concat (map rows (filterNavItems items admin user)) `sublist_of` concat (map rows (filterNavItems items admin None)).
Proof.
  unfold filterNavItems. induction items as [|i items IH]; [done|]. cbn.
  destruct (isNavItemVisible (filter_subitems admin user i) admin user) eqn:E.
  - rewrite (visible_narrowed _ _ _ E). cbn. apply sublist_app; [apply sub_rows|exact IH].
  - destruct (isNavItemVisible (filter_subitems admin None i) admin None); [|exact IH]. cbn. by apply sublist_inserts_l.
Qed.

(** Groups without entries have no rows. *)
Lemma rows_nonempty groups : rows_of (bfilter (fun g => (0 <? length (g_items g))%nat) groups) = rows_of groups.
Proof.
  unfold rows_of. induction groups as [|g groups IH]; [done|]. cbn [List.filter map concat].
  destruct (Nat.ltb_spec 0 (length (g_items g))) as [_ | H]; cbn [map concat]; rewrite IH; [done|].
  unfold group_rows at 2. by destruct (g_items g); [|cbn in H; lia].
Qed.

Lemma shown_narrowed admin user groups :
  rows_of (shown_groups admin user groups) `sublist_of` rows_of (shown_groups admin None groups).
Proof.
  unfold shown_groups. rewrite !rows_nonempty. unfold rows_of. induction groups as [|g groups IH]; [done|]. cbn.
  apply sublist_app; [apply items_narrowed|exact IH].
Qed.

(** C26. Whatever a user has stored as a choice of sidebar modules, the entries on screen
    are among those shown without it, in the same order; a user who may not configure the
    sidebar sees exactly those. *)
Theorem user_only_hides status u groups shown :
  useSidebarConfig status u groups = Some shown ->
  exists base, useSidebarConfig status VUndef groups = Some base /\
    rows_of shown `sublist_of` rows_of base /\
    (is_false (get (js "sidebar_settings") (get (js "permissions") u)) = true -> shown = base).
Proof.
  unfold useSidebarConfig. destruct (parseSidebarConfig _) as [admin|]; [|done]. cbn [mbind option_bind].
  destruct (user_config u) as [user|] eqn:E; [|done]. cbn [mbind option_bind]. intros [= <-]. eexists. split; [reflexivity|].
  split; [apply shown_narrowed|]. intros Hp. unfold user_config in E. rewrite Hp in E. by injection E as <-.
Qed.

(** ** The card of the user *)

Lemma user_switches s m o :
  user_allows s m (Some (VObj o)) =
  bool_decide (section_switch s (VObj o) = Some true) && bool_decide (module_switch s m (VObj o) = Some true).
Proof.
  unfold user_allows, section_switch, module_switch. cbv zeta. destruct (v_truthy (get s (VObj o))) eqn:E; cbn [negb].
  - by destruct (is_false (get (js "enabled") _)), (is_false (get m _)).
  - assert (forall k, get k (get s (VObj o)) = VUndef) as Hk by (intros k; by destruct (get s (VObj o))). rewrite !Hk. done.
Qed.

(** C25. When the card of a user has saved its switches, the signed-in user carries the
    saved text at once, and sees in the root sidebar exactly the entries of their role
    that have an address without a module, or whose module the administrator allows and
    whose section and module are on in the card; the other places that ask about an
    address are told the same. *)
Theorem card_saved_applies o c c1 c2 uo data a a' :
  c_config c = VObj o -> plain_value (VObj o) = true ->
  is_false (get (js "sidebar_settings") (get (js "permissions") (VObj uo))) = false ->
  save_start (Some (VObj uo)) c = Some c1 ->
  v_truthy (get (js "success") data) = true -> save_end (Some data) c1 a = Some (c2, a') ->
  exists u', user a' = Some u' /\
    get (js "sidebar_modules") u' = VStr (text_of (VObj o)) /\
    forall status admin, parseSidebarConfig (get (js "SidebarModulesAdmin") status) = Some admin ->
      let on s m := admin_allows s m admin &&
        (bool_decide (section_switch s (c_config c2) = Some true) &&
         bool_decide (module_switch s m (c_config c2) = Some true)) in
      (forall t pathname role, resolveSidebarView t pathname = None ->
        exists v, useSidebarView t pathname status u' role = Some v /\ entries v = entries_shown on t role) /\
      (forall url, useIsSidebarModuleVisible status u' url = Some (address_on on url)).
Proof.
  intros Hc Hp Hperm Hs Hok He. unfold save_start in Hs. destruct (c_saving c); [done|]. injection Hs as <-.
  unfold save_end in He. cbn [c_saving mbind option_bind c_config c_toasts] in He. rewrite Hc in He.
  assert (data <> VUndef /\ data <> VNull) as [Hd1 Hd2] by (split; by intros ->).
  assert (user a' = Some (with_modules (text_of (VObj o)) (VObj uo)) /\ c_config c2 = VObj o) as [Hu Hc2].
  { destruct data; try done; rewrite Hok in He; by injection He as <- <-. }
  exists (with_modules (text_of (VObj o)) (VObj uo)). split; [done|]. rewrite Hc2. unfold with_modules. change (spread (VObj uo)) with uo.
  assert (forall k, get k (VObj (prop_set (js "sidebar_modules") (VStr (text_of (VObj o))) uo)) =
    if k =s js "sidebar_modules" then VStr (text_of (VObj o)) else get k (VObj uo)) as Hget.
  { intros k. unfold get. rewrite prop_get_set. by destruct (k =s _). }
  split; [by rewrite Hget|]. intros status admin Ha. cbv zeta.
  set (u' := VObj (prop_set _ _ uo)) in *.
  assert (user_config u' = Some (Some (VObj o))) as Huc.
  { unfold user_config. rewrite !Hget. change (js "permissions" =s js "sidebar_modules") with false.
  change (js "sidebar_modules" =s js "sidebar_modules") with true. cbv iota. rewrite Hperm. unfold parseUserSidebarConfig.
  destruct (object_text_read _ Hp) as (Ep & Et & Eb). cbn [v_truthy]. rewrite Et, Eb, Ep. done. }
  split.
  - intros t pathname role Hpath. destruct (root_entries t pathname status u' role _ _ Ha Huc Hpath) as (v & Hv & He').
    exists v. split; [done|]. rewrite He'. apply entries_shown_ext. apply Forall_true. intros p. by rewrite user_switches.
  - intros url. unfold useIsSidebarModuleVisible. rewrite Ha, Huc. cbn [mbind option_bind]. f_equal.
    unfold isModuleEnabled, address_on. destruct (prop_get url URL_TO_CONFIG_MAP) as [m|]; [|done].
    rewrite <- user_switches. by destruct (admin_allows _ _ admin).
Qed.

(** A save that ends after the user signed out puts the user back into the store, without
    a token: [setUser] is called with the user of the click. *)
Theorem late_save_restores_user u c c1 data a b :
  save_start (Some u) c = Some c1 -> v_truthy (get (js "success") data) = true ->
  exists c2 a', save_end (Some data) c1 (reset b a) = Some (c2, a') /\
    user (reset b a) = None /\ is_Some (user a') /\ accessToken a' = None.
Proof.
  intros Hs Hok. unfold save_start in Hs. destruct (c_saving c); [done|]. injection Hs as <-.
  unfold save_end. cbn [c_saving mbind option_bind]. destruct data; try done; rewrite Hok; do 2 eexists; (split; [reflexivity|]); by repeat split.
Qed.

(** ** The highlighted entry *)

(** The addresses an entry stands for. *)
Definition addresses (i : NavItem) : list jstr :=
  default [] (activeUrls (base_of i)) ++
  match i with
  | NavLink _ url => [url]
  | NavCollapsible _ items => map snd items
  | NavChatPresets _ => []
  end.

Definition group_addresses (g : NavGroup) : list jstr := concat (map addresses (g_items g)).
Definition all_addresses (groups : list NavGroup) : list jstr := concat (map group_addresses groups).

(** An address without a query. *)
Definition plain_address (u : jstr) : bool := truthy u && negb (includes (js "?") u) && (without_query u =s u).

Lemma url_active_plain href u : plain_address u = true -> url_active href u = (u =s without_query href).
Proof.
  unfold plain_address, url_active. rewrite !andb_true_iff, negb_true_iff, jeqb_eq. intros [[-> ->] Eu]. rewrite Eu.
  cbn [andb negb orb]. rewrite andb_true_r. destruct (href =s u) eqn:E; [|done]. apply jeqb_eq in E as ->. by rewrite Eu, jeqb_refl.
Qed.

Lemma active_addresses href i : forallb plain_address (addresses i) = true ->
  checkIsActive href i false = existsb (fun u => u =s without_query href) (addresses i).
Proof.
  intros H. unfold checkIsActive, addresses in *. rewrite existsb_app. destruct (existsb _ (default [] _)); [done|].
  rewrite forallb_app in H. bsplit. destruct i as [b u|b items|b]; cbn [orb map existsb forallb] in *; [| |done].
  - bsplit. rewrite url_active_plain by done. rewrite orb_false_r. assert (truthy u = true) as -> by (unfold plain_address in *; by bsplit).
    cbn [negb]. by destruct (u =s _).
  - clear -H0. induction items as [|s items IH]; [done|]. cbn [existsb map forallb] in *. bsplit. rewrite url_active_plain, IH by done. done.
Qed.

(** Distinct addresses: at most one entry stands for a path. *)
Lemma one_address x items : NoDup (concat (map addresses items)) ->
  (length (bfilter (fun i => existsb (fun u => u =s x) (addresses i)) items) <= 1)%nat.
Proof.
  induction items as [|i items IH]; intros Hn; [cbn; lia|]. cbn [map concat] in Hn. apply NoDup_app in Hn as (_ & Hd & Hn).
  cbn [List.filter]. destruct (existsb _ (addresses i)) eqn:E; [|by apply IH]. cbn [length].
  enough (bfilter (fun i => existsb (fun u => u =s x) (addresses i)) items = []) as -> by (cbn; lia).
  apply existsb_exists in E as (u & Hu & Eu). apply jeqb_eq in Eu as ->. apply list_elem_of_In in Hu. specialize (Hd _ Hu).
  clear -Hd. induction items as [|j items IH]; [done|]. cbn [map concat] in Hd. rewrite elem_of_app in Hd. cbn [List.filter].
  destruct (existsb _ (addresses j)) eqn:E; [|apply IH; tauto]. exfalso. apply Hd. left.
  apply existsb_exists in E as (u & Hu & Eu). apply jeqb_eq in Eu as ->. by apply list_elem_of_In.
Qed.

Lemma concat_bfilter {A B} (f : A -> list B) p l : concat (map f (bfilter p l)) `sublist_of` concat (map f l).
Proof. induction l as [|x l IH]; [done|]. cbn. destruct (p x); cbn; [by apply sublist_app|by apply sublist_inserts_l]. Qed.

Lemma concat_pointwise {A B} (f : A -> list B) g l : (forall x, f (g x) `sublist_of` f x) -> concat (map f (map g l)) `sublist_of` concat (map f l).
Proof. intros H. induction l as [|x l IH]; [done|]. cbn. by apply sublist_app. Qed.

Lemma shown_addresses admin user groups : all_addresses (shown_groups admin user groups) `sublist_of` all_addresses groups.
Proof.
  unfold shown_groups, all_addresses. etrans; [apply concat_bfilter|]. apply concat_pointwise. intros g. unfold group_addresses, filterNavItems.
  cbn [set_items g_items]. etrans; [apply concat_bfilter|]. apply concat_pointwise. intros [b u|b items|b]; [done| |done].
  unfold addresses. cbn [filter_subitems base_of]. apply sublist_app; [done|]. apply map_sublist, bfilter_sublist.
Qed.

Lemma role_addresses role groups : all_addresses (map (role_items role) groups) `sublist_of` all_addresses groups.
Proof. apply concat_pointwise. intros g. apply concat_bfilter. Qed.

(** The addresses of the views are distinct and have no query. *)
Definition distinct_addresses (groups : list NavGroup) : Prop :=
  NoDup (all_addresses groups) /\ forallb plain_address (all_addresses groups) = true.

Lemma distinct_sublist gs gs' : all_addresses gs `sublist_of` all_addresses gs' -> distinct_addresses gs' -> distinct_addresses gs.
Proof.
  intros Hs [Hn Hp]. split; [by eapply sublist_NoDup|]. rewrite forallb_Forall', Forall_forall in *. intros x Hx. apply Hp.
  by eapply elem_of_sublist.
Qed.

Lemma distinct_data t role : distinct_addresses (useSidebarData t role).
Proof.
  unfold useSidebarData. destruct (USER <=? role)%Z; (split; [by apply (ordered_nodup []); vm_compute|by vm_compute]).
Qed.

Lemma distinct_views t : Forall (fun v => distinct_addresses (v_groups v)) (SIDEBAR_VIEWS t).
Proof.
  repeat (apply Forall_cons; split; [split; [by apply (ordered_nodup []); vm_compute|by vm_compute]|]). constructor.
Qed.

Lemma distinct_one href groups : distinct_addresses groups ->
  (length (bfilter (fun i => checkIsActive href i false) (concat (map g_items groups))) <= 1)%nat.
Proof.
  unfold distinct_addresses, all_addresses, group_addresses.
  assert (concat (map (fun g => concat (map addresses (g_items g))) groups) = concat (map addresses (concat (map g_items groups)))) as ->.
  { induction groups as [|g gs IH]; [done|]. cbn. by rewrite IH, map_app, concat_app. }
  generalize (concat (map g_items groups)). intros l [Hn Hp]. erewrite filter_ext_in; [by apply one_address|].
  intros i Hi. apply active_addresses. rewrite forallb_Forall', Forall_forall in *. intros u Hu. apply Hp.
  apply list_elem_of_In, in_concat. exists (addresses i). split; [by apply in_map|by apply list_elem_of_In].
Qed.

(** Whatever the settings, the choice of the user, the role and the address, the
    sidebar on screen highlights at most one of its entries. *)
Theorem one_entry_active t pathname status u role v href :
  useSidebarView t pathname status u role = Some v ->
  (length (bfilter (fun i => checkIsActive href i false) (concat (map g_items (rv_groups v)))) <= 1)%nat.
Proof.
  unfold useSidebarView, useSidebarConfig. destruct (parseSidebarConfig _) as [admin|]; [|done]. cbn [mbind option_bind].
  destruct (user_config u) as [user|]; [|done]. cbn [mbind option_bind]. intros [= <-]. apply distinct_one.
  destruct (resolveSidebarView t pathname) as [view|] eqn:E; cbn [rv_groups].
  - apply find_some in E as [E _]. pose proof (distinct_views t) as Hv. rewrite Forall_forall in Hv.
    eapply distinct_sublist; [|apply Hv, list_elem_of_In, E]. etrans; [apply concat_bfilter|apply role_addresses].
  - eapply distinct_sublist; [|apply distinct_data]. etrans; [apply role_addresses|]. etrans; [apply concat_bfilter|]. apply shown_addresses.
Qed.

(** ** Roles *)

(** An administrator who is not the root account and has no module of the administration
    left still sees the heading of the group, with nothing under it: the entry of the
    system information has no module, so the group is kept, and its role removes it
    afterwards. *)
Theorem empty_admin_group t admin user role :
  (forall m, admin_allows (js "admin") m admin = false) -> (ADMIN <= role < SUPER_ADMIN)%Z ->
  exists g, g ∈ rootNavGroups role (shown_groups admin user (useSidebarData t role)) /\
            g_id g = Some (js "admin") /\ g_items g = [].
Proof.
  intros Ha [Hr1 Hr2]. set (G := default {| g_id := None; g_title := []; g_items := [] |} (useSidebarData t role !! 4%nat)).
  set (info := NavLink (role_entry (t (js "System Info")) SUPER_ADMIN) (js "/system-info")).
  assert (filterNavItems (g_items G) admin user = [info]) as Hitems.
  { assert (forall b m u, configUrls b = None -> truthy u = true ->
      prop_get u URL_TO_CONFIG_MAP = Some {| m_section := js "admin"; m_module := m |} ->
      isNavItemVisible (NavLink b u) admin user = false) as Hoff.
    { intros b m u Hb Hu E. unfold isNavItemVisible, isModuleEnabled. rewrite Hu, Hb. cbn [default existsb]. unfold id. cbn [existsb].
      rewrite E. cbn [m_section m_module]. by rewrite Ha. }
    unfold filterNavItems. change (g_items G) with
      [NavLink (entry (t (js "Channels"))) (js "/channels"); NavLink (entry (t (js "Models"))) (js "/models/metadata");
       NavLink (entry (t (js "Users"))) (js "/users"); NavLink (entry (t (js "Redemption Codes"))) (js "/redemption-codes");
       NavLink (entry (t (js "Subscriptions"))) (js "/subscriptions"); info;
       NavLink {| title := t (js "System Settings"); activeUrls := Some [js "/system-settings"];
                  configUrls := None; requiredRole := None |} (js "/system-settings/site")].
    cbn [map filter_subitems info List.filter].
    rewrite (Hoff _ (js "channel")), (Hoff _ (js "models")), (Hoff _ (js "user")), (Hoff _ (js "redemption")),
      (Hoff _ (js "subscription")), (Hoff _ (js "setting")) by reflexivity. done. }
  exists (set_items [] G). split; [|done].
  unfold rootNavGroups. apply list_elem_of_In, in_map_iff. exists (set_items [info] G). split.
  - unfold role_items, role_allows. cbn [set_items g_items List.filter info base_of role_entry requiredRole].
    destruct (Z.leb_spec SUPER_ADMIN role); [lia|done].
  - apply filter_In. split; [|cbn [set_items g_id]; rewrite bool_decide_true by done; lia].
    unfold shown_groups. apply filter_In. split; [|done]. apply in_map_iff. exists G. split; [by rewrite Hitems|].
    do 4 right. by left.
Qed.

(** ** Witnesses *)

Lemma user_only_hides_witness :
  let u := VObj [(js "sidebar_modules", VStr (jsq "{`personal`:{`topup`:false}}"))] in
  exists shown base, useSidebarConfig VNull u (useSidebarData (fun s => s) 1) = Some shown /\
    useSidebarConfig VNull VUndef (useSidebarData (fun s => s) 1) = Some base /\
    rows_of shown `sublist_of` rows_of base /\ Some (js "/wallet") ∈ rows_of base /\ Some (js "/wallet") ∉ rows_of shown.
Proof.
  set (u := VObj [(js "sidebar_modules", VStr (jsq "{`personal`:{`topup`:false}}"))]). cbv zeta.
  destruct (useSidebarConfig VNull u (useSidebarData (fun s => s) 1)) as [shown|] eqn:E; [|by vm_compute in E].
  destruct (user_only_hides VNull u (useSidebarData (fun s => s) 1) shown E) as (base & Hb & Hs & _).
  exists shown, base. split; [done|]. split; [done|]. split; [done|]. split.
  - apply (bool_decide_unpack _). vm_compute in Hb. injection Hb as <-. vm_compute. exact I.
  - apply (bool_decide_unpack _). vm_compute in E. injection E as <-. vm_compute. exact I.
Defined.

(** The wallet switched off in the card. *)
Lemma card_saved_applies_witness :
  let o := [(js "personal", VObj [(js "enabled", VBool true); (js "topup", VBool false)])] in
  let c := {| c_config := VObj o; c_saving := None; c_toasts := [] |} in
  exists c1 c2 a' u' v, save_start (Some (VObj [])) c = Some c1 /\
    save_end (Some (VObj [(js "success", VBool true)])) c1 initial_auth = Some (c2, a') /\ user a' = Some u' /\
    useSidebarView (fun s => s) (js "/keys") VNull u' 1 = Some v /\
    concat (map config_addresses (entries v)) =
    [js "/playground"; js "/dashboard/overview"; js "/dashboard/models"; js "/keys"; js "/usage-logs/common";
     js "/usage-logs/channel-monitor"; js "/public-acu"; js "/usage-logs/timeline"; js "/private-acu/overview"; js "/profile"].
Proof.
  set (o := [(js "personal", VObj [(js "enabled", VBool true); (js "topup", VBool false)])]). cbv zeta.
  set (c := {| c_config := VObj o; c_saving := None; c_toasts := [] |}).
  destruct (save_start (Some (VObj [])) c) as [c1|] eqn:E1; [|by vm_compute in E1].
  destruct (save_end (Some (VObj [(js "success", VBool true)])) c1 initial_auth) as [[c2 a']|] eqn:E2;
    [|vm_compute in E1; injection E1 as <-; by vm_compute in E2].
  destruct (card_saved_applies o c c1 c2 [] (VObj [(js "success", VBool true)]) initial_auth a'
    eq_refl eq_refl eq_refl E1 eq_refl E2) as (u' & Hu & _ & Hv).
  destruct (Hv VNull default_config eq_refl) as [Hroot _].
  destruct (Hroot (fun s => s) (js "/keys") 1%Z) as (v & Hs & He); [vm_compute; reflexivity|].
  exists c1, c2, a', u', v. split; [done|]. split; [done|]. split; [done|]. split; [done|]. rewrite He.
  assert (c_config c2 = VObj o) as -> by (vm_compute in E1; injection E1 as <-; vm_compute in E2; by injection E2 as <- <-).
  by vm_compute.
Defined.

Lemma one_entry_active_witness :
  exists v, useSidebarView (fun s => s) (js "/usage-logs/drawing") VNull VUndef 10 = Some v /\
    length (bfilter (fun i => checkIsActive (js "/usage-logs/drawing?p=2") i false) (concat (map g_items (rv_groups v)))) = 1%nat /\
    (length (bfilter (fun i => checkIsActive (js "/usage-logs/drawing?p=2") i false) (concat (map g_items (rv_groups v)))) <= 1)%nat.
Proof.
  destruct (useSidebarView (fun s => s) (js "/usage-logs/drawing") VNull VUndef 10) as [v|] eqn:E; [|by vm_compute in E].
  exists v. split; [done|]. split; [|exact (one_entry_active _ _ _ _ _ _ _ E)]. vm_compute in E. injection E as <-. by vm_compute.
Defined.
