(* ===== verification/DashboardFlow.v ===== *)
(** * The flow view of the dashboard

    [features/dashboard/lib/flow.ts]: usage rows become the nodes and links of a Sankey
    graph, with a limit on the nodes of a stage, masking of labels, highlighting of a
    selection, colours, and the filters offered beside it.  The nodes and links are
    objects that only the two maps of [buildFlowGraph] and the array sorted from one of
    them refer to, so they are values here; a change through the array is a change of the
    link with that key.  [localeCompare], the number format of [Intl] and the colour
    schemes of the chart library are parameters. *)

From S2P Require Import Prelude JsString JsNumber JsMath Json JsMap.

Open Scope Z_scope.

(** ** Data *)

(** [None]: the property is missing. *)
Record FlowQuotaDataItem := {
  user_id : option number; username : option jstr; node_name : option jstr; use_group : option jstr;
  token_id : option number; token_name : option jstr; channel_id : option number; channel_name : option jstr;
  model_name : option jstr; token_used : option number; count : option number; quota : option number }.

Inductive FlowMetric := MQuota | MTokens | MRequests.
Inductive FlowOverflowMode := Aggregate | Hide.
Inductive FlowRole := RUser | RAdmin | RRoot.
Inductive FlowNodeKind := KUser | KNode | KToken | KGroup | KModel | KChannel.

#[export] Instance kind_eq_dec : EqDecision FlowNodeKind.
Proof. solve_decision. Defined.
#[export] Instance role_eq_dec : EqDecision FlowRole.
Proof. solve_decision. Defined.

Record FlowNodeFilter := { nf_kind : FlowNodeKind; nf_id : jstr }.
Record FlowLinkSelection := { ls_source : jstr; ls_target : jstr }.
Record FlowMetrics := { m_quota : number; m_tokens : number; m_requests : number }.
Record FlowPathNode := { pn_id : jstr; pn_label : jstr; pn_kind : FlowNodeKind }.
Record PreparedFlowPath := { pp_path : list FlowPathNode; pp_metrics : FlowMetrics }.

Record DashboardFlowNode := {
  n_id : jstr; n_label : jstr; n_kind : FlowNodeKind; n_value : number; n_requests : number;
  n_quota : number; n_tokens : number; n_color : jstr; n_colorKey : jstr;
  n_highlighted : option bool; n_dimmed : option bool }.

Record DashboardFlowLink := {
  l_source : jstr; l_target : jstr; l_value : number; l_requests : number; l_quota : number;
  l_tokens : number; l_sourceLabel : jstr; l_targetLabel : jstr; l_color : jstr; l_linkColor : jstr;
  l_linkAlpha : number; l_hoverColor : jstr; l_colorKey : jstr; l_share : number;
  l_highlighted : option bool; l_dimmed : option bool }.

Record DashboardFlowGraph := { g_nodes : list DashboardFlowNode; g_links : list DashboardFlowLink }.

Record FlowUserFilterOption := {
  uo_value : jstr; uo_label : jstr; uo_valueLabel : jstr; uo_valueRaw : number; uo_color : jstr }.
Record FlowNodeFilterOption := {
  no_kind : FlowNodeKind; no_value : jstr; no_label : jstr; no_valueLabel : jstr; no_valueRaw : number;
  no_color : jstr }.
Record FlowFilterOptions := { fo_users : list FlowUserFilterOption; fo_nodes : list FlowNodeFilterOption }.
Record FlowSummary := { s_quota : number; s_tokens : number; s_requests : number }.
Record ProcessedFlowData := {
  pd_summary : FlowSummary; pd_flow : DashboardFlowGraph; pd_filterOptions : FlowFilterOptions }.

Record FlowPathContext := { ctx_deletedTokenLabel : option (number -> jstr) }.
Definition EMPTY_FLOW_PATH_CONTEXT : FlowPathContext := {| ctx_deletedTokenLabel := None |}.

Record FlowGraphOptions := {
  go_topNodeLimit : option number; go_overflowMode : option FlowOverflowMode;
  go_otherNodeLabel : option (FlowNodeKind -> jstr); go_activeNode : option FlowNodeFilter;
  go_activeLink : option FlowLinkSelection; go_maskSensitive : bool }.

Record FlowBuildOptions := {
  bo_role : option FlowRole; bo_selectedUsers : option (list jstr); bo_selectedNodes : option (list FlowNodeFilter);
  bo_activeNode : option FlowNodeFilter; bo_activeLink : option FlowLinkSelection;
  bo_colorPalette : option (list jstr); bo_visibleStages : option (list FlowNodeKind);
  bo_topNodeLimit : option number; bo_overflowMode : option FlowOverflowMode; bo_maskSensitive : bool;
  bo_deletedTokenLabel : option (number -> jstr); bo_otherNodeLabel : option (FlowNodeKind -> jstr) }.

Definition DEFAULT_FLOW_ROLE : FlowRole := RUser.
Definition DEFAULT_FLOW_OVERFLOW_MODE : FlowOverflowMode := Aggregate.
Definition DEFAULT_FLOW_CHART_COLOR : jstr := js "#1664FF".
Definition FLOW_NODE_KINDS : list FlowNodeKind := [KUser; KNode; KToken; KGroup; KModel; KChannel].

(** The text of a kind. *)
Definition kind_text (k : FlowNodeKind) : jstr :=
  match k with
  | KUser => js "user" | KNode => js "node" | KToken => js "token" | KGroup => js "group"
  | KModel => js "model" | KChannel => js "channel"
  end.

Definition OTHER_FLOW_NODE_IDS (k : FlowNodeKind) : jstr :=
  match k with
  | KUser => js "user:__other__" | KNode => js "node:__other__" | KToken => js "token:__other__"
  | KGroup => js "group:__other__" | KModel => js "model:__other__" | KChannel => js "channel:__other__"
  end.

Definition DEFAULT_OTHER_FLOW_NODE_LABELS (k : FlowNodeKind) : jstr :=
  match k with
  | KUser => js "Other users" | KNode => js "Other nodes" | KToken => js "Other tokens"
  | KGroup => js "Other groups" | KModel => js "Other models" | KChannel => js "Other channels"
  end.

Definition SENSITIVE_FLOW_KINDS : list FlowNodeKind := [KUser; KNode; KToken; KGroup; KChannel].
Definition OTHER_FLOW_NODE_ID_SET : list jstr := map OTHER_FLOW_NODE_IDS FLOW_NODE_KINDS.

(** ** Rows and paths *)

(** [Number.isFinite(Number(value)) ? Number(value) : 0] *)
Definition finite_or_zero (n : number) : number := if n_isFinite n then n else n_zero.
Definition numberValue (value : option number) : number := finite_or_zero (default n_nan value).

Definition rowMetrics (row : FlowQuotaDataItem) : FlowMetrics :=
  {| m_quota := numberValue (quota row); m_tokens := numberValue (token_used row);
     m_requests := numberValue (count row) |}.

Definition metricValue (m : FlowMetrics) (metric : FlowMetric) : number :=
  match metric with MRequests => m_requests m | MTokens => m_tokens m | MQuota => m_quota m end.

(** [field || fallback] *)
Definition text_or (field : option jstr) (fallback : jstr) : jstr := str_or (default [] field) fallback.

Definition userNode (row : FlowQuotaDataItem) : FlowPathNode :=
  let userID := numberValue (user_id row) in
  {| pn_id := if n_positive userID then js "user:" ++ show_num userID
              else js "user:" ++ text_or (username row) (js "unknown");
     pn_label := text_or (username row)
       (if n_positive userID then js "user-" ++ show_num userID else js "Unknown User");
     pn_kind := KUser |}.

Definition nodeNameNode (row : FlowQuotaDataItem) : FlowPathNode :=
  let nodeName := text_or (node_name row) (js "default-node") in
  {| pn_id := js "node:" ++ nodeName; pn_label := nodeName; pn_kind := KNode |}.

Definition deletedTokenLabel (tokenID : number) (ctx : FlowPathContext) : jstr :=
  if n_leb tokenID n_zero then js "Unknown Token"
  else match ctx_deletedTokenLabel ctx with
       | Some f => f tokenID
       | None => js "token-" ++ show_num tokenID
       end.

Definition tokenNode (row : FlowQuotaDataItem) (ctx : FlowPathContext) : FlowPathNode :=
  let tokenID := numberValue (token_id row) in
  {| pn_id := if n_positive tokenID then js "token:" ++ show_num tokenID
              else js "token:" ++ text_or (token_name row) (js "unknown");
     pn_label := text_or (token_name row) (deletedTokenLabel tokenID ctx);
     pn_kind := KToken |}.

Definition groupNode (row : FlowQuotaDataItem) : FlowPathNode :=
  let useGroup := text_or (use_group row) (js "unknown") in
  {| pn_id := js "group:" ++ useGroup; pn_label := useGroup; pn_kind := KGroup |}.

Definition modelNode (row : FlowQuotaDataItem) : FlowPathNode :=
  let model := text_or (model_name row) (js "unknown") in
  {| pn_id := js "model:" ++ model; pn_label := text_or (model_name row) (js "Unknown Model"); pn_kind := KModel |}.

Definition channelNode (row : FlowQuotaDataItem) : FlowPathNode :=
  let channelID := numberValue (channel_id row) in
  {| pn_id := if n_positive channelID then js "channel:" ++ show_num channelID
              else js "channel:" ++ text_or (channel_name row) (js "unknown");
     pn_label := text_or (channel_name row)
       (if n_positive channelID then js "channel-" ++ show_num channelID else js "Unknown");
     pn_kind := KChannel |}.

Definition NODE_BUILDERS (k : FlowNodeKind) (row : FlowQuotaDataItem) (ctx : FlowPathContext) : FlowPathNode :=
  match k with
  | KUser => userNode row | KNode => nodeNameNode row | KToken => tokenNode row ctx
  | KGroup => groupNode row | KModel => modelNode row | KChannel => channelNode row
  end.

Definition ROLE_FLOW_STAGES (r : FlowRole) : list FlowNodeKind :=
  match r with
  | RRoot => [KUser; KNode; KToken; KGroup; KModel; KChannel]
  | RAdmin => [KUser; KGroup; KModel; KChannel]
  | RUser => [KToken; KGroup; KModel]
  end.

Definition MIN_FLOW_STAGES : nat := 2.

Definition getFlowStages (r : FlowRole) : list FlowNodeKind := ROLE_FLOW_STAGES r.

Definition resolveVisibleStages (r : FlowRole) (visibleStages : option (list FlowNodeKind)) : list FlowNodeKind :=
  let stages := getFlowStages r in
  match visibleStages with
  | None => stages
  | Some visible =>
      let filtered := bfilter (fun stage => bool_decide (stage ∈ visible)) stages in
      if (MIN_FLOW_STAGES <=? length filtered)%nat then filtered else stages
  end.

Definition flowPathForStages (row : FlowQuotaDataItem) (stages : list FlowNodeKind) (ctx : FlowPathContext)
  : list FlowPathNode := map (fun stage => NODE_BUILDERS stage row ctx) stages.

(** ** Filters *)

Definition filterRows (rows : list FlowQuotaDataItem) (options : FlowBuildOptions) : list FlowQuotaDataItem :=
  let selectedUsers := dedup (default [] (bo_selectedUsers options)) in
  match selectedUsers with
  | [] => rows
  | _ => bfilter (fun row => bool_decide (pn_id (userNode row) ∈ selectedUsers)) rows
  end.

(** [`${kind}\u0000${id}`] *)
Definition nodeFilterKey (f : FlowNodeFilter) : jstr := kind_text (nf_kind f) ++ [0%N] ++ nf_id f.

(** [selected.add(filter.id)] for the filters on visible kinds. *)
Definition add_filter (filters : list (FlowNodeKind * list jstr)) (f : FlowNodeFilter) : list (FlowNodeKind * list jstr) :=
  let selected := default [] (m_get (nf_kind f) filters) in
  m_set (nf_kind f) (if bool_decide (nf_id f ∈ selected) then selected else selected ++ [nf_id f]) filters.

Definition normalizeSelectedNodeFilters (selectedNodes : option (list FlowNodeFilter)) (stages : list FlowNodeKind)
  : list (FlowNodeKind * list jstr) :=
  fold_left (fun filters f => if negb (bool_decide (nf_kind f ∈ stages)) then filters else add_filter filters f)
    (default [] selectedNodes) [].

Definition add_path_id (ids : list (FlowNodeKind * list jstr)) (n : FlowPathNode) : list (FlowNodeKind * list jstr) :=
  add_filter ids {| nf_kind := pn_kind n; nf_id := pn_id n |}.

Definition pathMatchesNodeFilters (path : list FlowPathNode) (filters : list (FlowNodeKind * list jstr)) : bool :=
  match filters with
  | [] => true
  | _ =>
      let pathNodesByKind := fold_left add_path_id path [] in
      forallb (fun '(kind, selectedIds) =>
        match m_get kind pathNodesByKind with
        | None => false
        | Some pathIds => existsb (fun id => bool_decide (id ∈ pathIds)) selectedIds
        end) filters
  end.

Definition filterRowsByNodes (rows : list FlowQuotaDataItem) (selectedNodes : option (list FlowNodeFilter))
    (stages : list FlowNodeKind) (ctx : FlowPathContext) : list FlowQuotaDataItem :=
  let filters := normalizeSelectedNodeFilters selectedNodes stages in
  match filters with
  | [] => rows
  | _ => bfilter (fun row => pathMatchesNodeFilters (flowPathForStages row stages ctx) filters) rows
  end.

Definition selectedNodeFiltersExceptKind (selectedNodes : option (list FlowNodeFilter)) (kind : FlowNodeKind)
  : option (list FlowNodeFilter) :=
  let filtered := bfilter (fun f => negb (bool_decide (nf_kind f = kind))) (default [] selectedNodes) in
  match filtered with [] => None | _ => Some filtered end.

(** ** Nodes and links *)

Definition node_amounts (n : DashboardFlowNode) (m : FlowMetrics) (metric : FlowMetric) : DashboardFlowNode :=
  {| n_id := n_id n; n_label := n_label n; n_kind := n_kind n;
     n_value := n_add (n_value n) (metricValue m metric); n_requests := n_add (n_requests n) (m_requests m);
     n_quota := n_add (n_quota n) (m_quota m); n_tokens := n_add (n_tokens n) (m_tokens m);
     n_color := n_color n; n_colorKey := n_colorKey n; n_highlighted := n_highlighted n; n_dimmed := n_dimmed n |}.

Definition new_node (p : FlowPathNode) (color colorKey : jstr) : DashboardFlowNode :=
  {| n_id := pn_id p; n_label := pn_label p; n_kind := pn_kind p; n_value := n_zero; n_requests := n_zero;
     n_quota := n_zero; n_tokens := n_zero; n_color := color; n_colorKey := colorKey;
     n_highlighted := None; n_dimmed := None |}.

Definition addNode (nodes : list (jstr * DashboardFlowNode)) (p : FlowPathNode) (m : FlowMetrics)
    (metric : FlowMetric) (color colorKey : jstr) : list (jstr * DashboardFlowNode) :=
  let previous := default (new_node p color colorKey) (m_get (pn_id p) nodes) in
  m_set (pn_id p) (node_amounts previous m metric) nodes.

Definition link_amounts (l : DashboardFlowLink) (m : FlowMetrics) (metric : FlowMetric) : DashboardFlowLink :=
  {| l_source := l_source l; l_target := l_target l; l_value := n_add (l_value l) (metricValue m metric);
     l_requests := n_add (l_requests l) (m_requests m); l_quota := n_add (l_quota l) (m_quota m);
     l_tokens := n_add (l_tokens l) (m_tokens m); l_sourceLabel := l_sourceLabel l;
     l_targetLabel := l_targetLabel l; l_color := l_color l; l_linkColor := l_linkColor l;
     l_linkAlpha := l_linkAlpha l; l_hoverColor := l_hoverColor l; l_colorKey := l_colorKey l;
     l_share := l_share l; l_highlighted := l_highlighted l; l_dimmed := l_dimmed l |}.

Definition new_link (source target : FlowPathNode) (color colorKey : jstr) : DashboardFlowLink :=
  {| l_source := pn_id source; l_target := pn_id target; l_value := n_zero; l_requests := n_zero;
     l_quota := n_zero; l_tokens := n_zero; l_sourceLabel := pn_label source; l_targetLabel := pn_label target;
     l_color := color; l_linkColor := color; l_linkAlpha := num_of_Z 1; l_hoverColor := color;
     l_colorKey := colorKey; l_share := n_zero; l_highlighted := None; l_dimmed := None |}.

Definition pathLinkKey (source target : FlowPathNode) : jstr := pn_id source ++ [0%N] ++ pn_id target.
Definition linkStableKey (l : DashboardFlowLink) : jstr := l_source l ++ [0%N] ++ l_target l.

Definition addLink (links : list (jstr * DashboardFlowLink)) (source target : FlowPathNode) (m : FlowMetrics)
    (metric : FlowMetric) (color colorKey : jstr) : list (jstr * DashboardFlowLink) :=
  let key := pathLinkKey source target in
  let previous := default (new_link source target color colorKey) (m_get key links) in
  m_set key (link_amounts previous m metric) links.

Definition add_summary (s : FlowSummary) (row : FlowQuotaDataItem) : FlowSummary :=
  let m := rowMetrics row in
  {| s_quota := n_add (s_quota s) (m_quota m); s_tokens := n_add (s_tokens s) (m_tokens m);
     s_requests := n_add (s_requests s) (m_requests m) |}.

Definition buildSummary (rows : list FlowQuotaDataItem) : FlowSummary :=
  fold_left add_summary rows {| s_quota := n_zero; s_tokens := n_zero; s_requests := n_zero |}.

(** ** The limit on the nodes of a stage *)

(** A positive whole number, as the end of a slice. *)
Definition normalizeTopNodeLimit (limit : option number) : option N :=
  match limit with
  | None => None
  | Some l =>
      let parsed := n_floor l in
      if n_isFinite parsed && n_positive parsed then Some (Z.to_N (int_value parsed)) else None
  end.

Definition slice_to {A} (n : N) (l : list A) : list A := take (N.to_nat (N.min n (N.of_nat (length l)))) l.

Definition otherFlowNode (kind : FlowNodeKind) (labeler : option (FlowNodeKind -> jstr)) : FlowPathNode :=
  {| pn_id := OTHER_FLOW_NODE_IDS kind;
     pn_label := match labeler with Some f => f kind | None => DEFAULT_OTHER_FLOW_NODE_LABELS kind end;
     pn_kind := kind |}.

Section flow.
(** [a.localeCompare(b)] in the browser's locale. *)
Variable localeCompare : jstr -> jstr -> Z.
(** [vchartDefaultDataScheme] of the chart library: the schemes with the largest domain
    each is meant for. *)
Variable vchartDefaultDataScheme : list (option nat * list jsval).
(** [Intl.NumberFormat(undefined, { maximumFractionDigits: 0 }).format(value)] *)
Variable formatNumber : number -> jstr.

Record FlowNodeRank := { rk_node : FlowPathNode; rk_value : number }.

(** [current.value += value] *)
Definition rank_add (value : number) (r : FlowNodeRank) : FlowNodeRank :=
  {| rk_node := rk_node r; rk_value := n_add (rk_value r) value |}.

(** One node of a row, in the totals of its stage. *)
Definition add_rank (value : number) (totals : list (FlowNodeKind * list (jstr * FlowNodeRank))) (node : FlowPathNode)
  : list (FlowNodeKind * list (jstr * FlowNodeRank)) :=
  match m_get (pn_kind node) totals with
  | None => totals
  | Some stageTotals =>
      let current := default {| rk_node := node; rk_value := n_zero |} (m_get (pn_id node) stageTotals) in
      m_set (pn_kind node) (m_set (pn_id node) (rank_add value current) stageTotals) totals
  end.

Definition add_row_ranks (metric : FlowMetric) (stages : list FlowNodeKind) (ctx : FlowPathContext)
    (totals : list (FlowNodeKind * list (jstr * FlowNodeRank))) (row : FlowQuotaDataItem)
  : list (FlowNodeKind * list (jstr * FlowNodeRank)) :=
  fold_left (add_rank (metricValue (rowMetrics row) metric)) (flowPathForStages row stages ctx) totals.

(** By value, largest first, then label, then id. *)
Definition rank_le (a b : FlowNodeRank) : bool :=
  then_by (n_sub (rk_value b) (rk_value a))
    (then_by_locale (localeCompare (pn_label (rk_node a)) (pn_label (rk_node b)))
      (localeCompare (pn_id (rk_node a)) (pn_id (rk_node b)) <=? 0)%Z).

Definition top_ids (limit : N) (stageTotals : list (jstr * FlowNodeRank)) : list jstr :=
  dedup (map (fun r => pn_id (rk_node r)) (slice_to limit (js_sort rank_le (map snd stageTotals)))).

Definition buildTopNodeSets (rows : list FlowQuotaDataItem) (metric : FlowMetric) (stages : list FlowNodeKind)
    (limit : option N) (ctx : FlowPathContext) : option (list (FlowNodeKind * list jstr)) :=
  match limit with
  | None => None
  | Some limit =>
      let totals := fold_left (fun t stage => m_set stage [] t) stages [] in
      let totals := fold_left (add_row_ranks metric stages ctx) rows totals in
      Some (map (fun '(kind, stageTotals) => (kind, top_ids limit stageTotals)) totals)
  end.

Definition isTopFlowNode (node : FlowPathNode) (topNodeSets : list (FlowNodeKind * list jstr)) : bool :=
  match m_get (pn_kind node) topNodeSets with
  | None => true
  | Some topNodes => bool_decide (pn_id node ∈ topNodes)
  end.

Definition applyTopNodeLimit (path : list FlowPathNode) (topNodeSets : option (list (FlowNodeKind * list jstr)))
    (mode : FlowOverflowMode) (labeler : option (FlowNodeKind -> jstr)) : option (list FlowPathNode) :=
  match topNodeSets with
  | None => Some path
  | Some sets =>
      if negb (existsb (fun node => negb (isTopFlowNode node sets)) path) then Some path
      else match mode with
           | Hide => None
           | Aggregate =>
               Some (map (fun node => if isTopFlowNode node sets then node
                                      else otherFlowNode (pn_kind node) labeler) path)
           end
  end.

(** ** Highlighting *)

Definition pathContainsFlowNode (path : list FlowPathNode) (f : FlowNodeFilter) : bool :=
  existsb (fun node => bool_decide (pn_kind node = nf_kind f) && (pn_id node =s nf_id f)) path.

(** The pairs [path[i]], [path[i + 1]]. *)
Fixpoint steps_of (path : list FlowPathNode) : list (FlowPathNode * FlowPathNode) :=
  match path with
  | a :: ((b :: _) as t) => (a, b) :: steps_of t
  | _ => []
  end.

Definition pathContainsFlowLink (path : list FlowPathNode) (l : FlowLinkSelection) : bool :=
  existsb (fun '(a, b) => (pn_id a =s ls_source l) && (pn_id b =s ls_target l)) (steps_of path).

Record FlowHighlightSets := { hs_nodes : list jstr; hs_links : list jstr }.

Definition matchesPath (activeNode : option FlowNodeFilter) (activeLink : option FlowLinkSelection)
    (path : list FlowPathNode) : bool :=
  match activeLink with
  | Some l => pathContainsFlowLink path l
  | None => match activeNode with Some f => pathContainsFlowNode path f | None => false end
  end.

Definition buildFlowHighlightSets (preparedPaths : list PreparedFlowPath) (activeNode : option FlowNodeFilter)
    (activeLink : option FlowLinkSelection) (stages : list FlowNodeKind) : option FlowHighlightSets :=
  let nodeActive := match activeNode with Some f => bool_decide (nf_kind f ∈ stages) | None => false end in
  if negb nodeActive && match activeLink with None => true | Some _ => false end then None
  else
    let matching := bfilter (fun p => matchesPath activeNode activeLink (pp_path p)) preparedPaths in
    let nodes := dedup (concat (map (fun p => map pn_id (pp_path p)) matching)) in
    let links := dedup (concat (map (fun p => map (fun '(a, b) => pathLinkKey a b) (steps_of (pp_path p))) matching)) in
    match nodes with [] => None | _ => Some {| hs_nodes := nodes; hs_links := links |} end.

Definition highlight_node (sets : FlowHighlightSets) (n : DashboardFlowNode) : DashboardFlowNode :=
  let highlighted := bool_decide (n_id n ∈ hs_nodes sets) in
  {| n_id := n_id n; n_label := n_label n; n_kind := n_kind n; n_value := n_value n; n_requests := n_requests n;
     n_quota := n_quota n; n_tokens := n_tokens n; n_color := n_color n; n_colorKey := n_colorKey n;
     n_highlighted := Some highlighted; n_dimmed := Some (negb highlighted) |}.

Definition set_link_marks (highlighted : bool) (l : DashboardFlowLink) : DashboardFlowLink :=
  {| l_source := l_source l; l_target := l_target l; l_value := l_value l; l_requests := l_requests l;
     l_quota := l_quota l; l_tokens := l_tokens l; l_sourceLabel := l_sourceLabel l;
     l_targetLabel := l_targetLabel l; l_color := l_color l; l_linkColor := l_linkColor l;
     l_linkAlpha := l_linkAlpha l; l_hoverColor := l_hoverColor l; l_colorKey := l_colorKey l;
     l_share := l_share l; l_highlighted := Some highlighted; l_dimmed := Some (negb highlighted) |}.

Definition highlight_link (sets : FlowHighlightSets) (l : DashboardFlowLink) : DashboardFlowLink :=
  set_link_marks (bool_decide (linkStableKey l ∈ hs_links sets)) l.

(** On the values of the two maps. *)
Definition on_values {V} (f : V -> V) (m : list (jstr * V)) : list (jstr * V) := map (fun '(k, v) => (k, f v)) m.

Definition applyFlowHighlights (nodes : list (jstr * DashboardFlowNode)) (links : list (jstr * DashboardFlowLink))
    (sets : option FlowHighlightSets) : list (jstr * DashboardFlowNode) * list (jstr * DashboardFlowLink) :=
  match sets with
  | None => (nodes, links)
  | Some s => (on_values (highlight_node s) nodes, on_values (highlight_link s) links)
  end.

(** ** Masking *)

Definition FLOW_MASK_TEXT : jstr := [8226; 8226; 8226; 8226]%N.

Definition maskFlowLabel (label : jstr) : jstr := match label with [] => label | _ => FLOW_MASK_TEXT end.

Definition is_masked (n : DashboardFlowNode) : bool :=
  bool_decide (n_kind n ∈ SENSITIVE_FLOW_KINDS) && negb (bool_decide (n_id n ∈ OTHER_FLOW_NODE_ID_SET)).

Definition set_node_label (label : jstr) (n : DashboardFlowNode) : DashboardFlowNode :=
  {| n_id := n_id n; n_label := label; n_kind := n_kind n; n_value := n_value n; n_requests := n_requests n;
     n_quota := n_quota n; n_tokens := n_tokens n; n_color := n_color n; n_colorKey := n_colorKey n;
     n_highlighted := n_highlighted n; n_dimmed := n_dimmed n |}.

Definition mask_node (n : DashboardFlowNode) : DashboardFlowNode :=
  if is_masked n then set_node_label (maskFlowLabel (n_label n)) n else n.

Definition set_link_labels (source target : jstr) (l : DashboardFlowLink) : DashboardFlowLink :=
  {| l_source := l_source l; l_target := l_target l; l_value := l_value l; l_requests := l_requests l;
     l_quota := l_quota l; l_tokens := l_tokens l; l_sourceLabel := source; l_targetLabel := target;
     l_color := l_color l; l_linkColor := l_linkColor l; l_linkAlpha := l_linkAlpha l;
     l_hoverColor := l_hoverColor l; l_colorKey := l_colorKey l; l_share := l_share l;
     l_highlighted := l_highlighted l; l_dimmed := l_dimmed l |}.

Definition mask_link (maskedById : list (jstr * jstr)) (l : DashboardFlowLink) : DashboardFlowLink :=
  set_link_labels (default (l_sourceLabel l) (m_get (l_source l) maskedById))
    (default (l_targetLabel l) (m_get (l_target l) maskedById)) l.

Definition masked_labels (nodes : list (jstr * DashboardFlowNode)) : list (jstr * jstr) :=
  fold_left (fun m n => if is_masked n then m_set (n_id n) (maskFlowLabel (n_label n)) m else m) (map snd nodes) [].

Definition maskFlowGraphLabels (nodes : list (jstr * DashboardFlowNode)) (links : list (jstr * DashboardFlowLink))
  : list (jstr * DashboardFlowNode) * list (jstr * DashboardFlowLink) :=
  let maskedById := masked_labels nodes in
  (on_values mask_node nodes,
   match maskedById with [] => links | _ => on_values (mask_link maskedById) links end).

(** ** Colours *)

(** The first scheme meant for so many values, else the last one.  The library's list is
    not empty. *)
Definition getDashboardChartColors (domainLength : nat) : list jstr :=
  let fits item := match fst item with
                   | Some (S n) => (domainLength <=? S n)%nat
                   | _ => true
                   end in
  let scheme := match find_first fits vchartDefaultDataScheme with
                | Some item => Some item
                | None => last vchartDefaultDataScheme
                end in
  omap (fun c => match c with VStr color => Some color | _ => None end) (default [] (snd <$> scheme)).

(** [palette && palette.length > 0] *)
Definition given (palette : option (list jstr)) : option (list jstr) :=
  match palette with Some (c :: l) => Some (c :: l) | _ => None end.

Definition colorAt (index : nat) (palette : option (list jstr)) : jstr :=
  let colors := match given palette with Some c => c | None => getDashboardChartColors (index + 1) end in
  match colors with
  | [] => DEFAULT_FLOW_CHART_COLOR
  | _ => default DEFAULT_FLOW_CHART_COLOR (colors !! (index mod length colors)%nat)
  end.

Definition colorPalette (colorCount : nat) (palette : option (list jstr)) : list jstr :=
  match given palette with
  | Some c => c
  | None => match getDashboardChartColors colorCount with [] => [DEFAULT_FLOW_CHART_COLOR] | colors => colors end
  end.

Definition stableColorMap (keys : list jstr) (palette : option (list jstr)) : list (jstr * jstr) :=
  let uniqueKeys := dedup keys in
  let colors := colorPalette (length uniqueKeys) palette in
  imap (fun index key => (key, colorAt index (Some colors))) uniqueKeys.

(** [/^[0-9a-f]{6}$/i] and [Number.parseInt(hex, 16)] *)
Definition six_hex (s : jstr) : option N :=
  if (length s =? 6)%nat then radix_val 16 s else None.

Definition alphaColor (color : jstr) (alpha : number) : jstr * number :=
  let normalized := trim color in
  let hex := match normalized with c :: t => if (c =? 35)%N then t else normalized | [] => normalized end in
  match six_hex hex with
  | None => (normalized, alpha)
  | Some value =>
      let red := N.land (N.shiftr value 16) 255 in
      let green := N.land (N.shiftr value 8) 255 in
      let blue := N.land value 255 in
      (js "rgba(" ++ show_N red ++ js ", " ++ show_N green ++ js ", " ++ show_N blue ++ js ", " ++
         to_fixed 2 alpha ++ js ")", num_of_Z 1)
  end.

Definition set_link_colors (linkColor : jstr) (linkAlpha : number) (l : DashboardFlowLink) : DashboardFlowLink :=
  {| l_source := l_source l; l_target := l_target l; l_value := l_value l; l_requests := l_requests l;
     l_quota := l_quota l; l_tokens := l_tokens l; l_sourceLabel := l_sourceLabel l;
     l_targetLabel := l_targetLabel l; l_color := l_color l; l_linkColor := linkColor;
     l_linkAlpha := linkAlpha; l_hoverColor := l_color l; l_colorKey := l_colorKey l;
     l_share := l_share l; l_highlighted := l_highlighted l; l_dimmed := l_dimmed l |}.

(** By value, largest first, then key. *)
Definition link_le (a b : DashboardFlowLink) : bool :=
  then_by (n_sub (l_value b) (l_value a)) (localeCompare (linkStableKey a) (linkStableKey b) <=? 0)%Z.

Definition link_alpha (count index : nat) : number :=
  if (count =? 1)%nat then dec (js "0.34")
  else n_add (dec (js "0.24"))
         (n_mul (n_div (num_of_Z (Z.of_nat index)) (num_of_Z (Z.of_nat (Nat.max (count - 1) 1)))) (dec (js "0.2"))).

(** The link with this key, changed. *)
Definition update_link (key : jstr) (f : DashboardFlowLink -> DashboardFlowLink) (links : list DashboardFlowLink)
  : list DashboardFlowLink := map (fun l => if linkStableKey l =s key then f l else l) links.

Definition color_group (links sourceLinks : list DashboardFlowLink) : list DashboardFlowLink :=
  let sortedLinks := js_sort link_le sourceLinks in
  fold_left (fun ls '(index, l) =>
      let '(c, a) := alphaColor (l_color l) (link_alpha (length sortedLinks) index) in
      update_link (linkStableKey l) (set_link_colors c a) ls)
    (imap (fun i l => (i, l)) sortedLinks) links.

Definition assignLinkDisplayColors (links : list DashboardFlowLink) : list DashboardFlowLink :=
  let linksBySource := tally l_source (fun _ => []) (fun g l => g ++ [l]) links in
  fold_left color_group (map snd linksBySource) links.

(** ** The graph *)

Definition byValueThenLabel (a b : DashboardFlowNode) : bool :=
  then_by (n_sub (n_value b) (n_value a)) (localeCompare (n_label a) (n_label b) <=? 0)%Z.

Definition flow_link_le (a b : DashboardFlowLink) : bool :=
  then_by_locale (localeCompare (l_source a) (l_source b)) (localeCompare (l_target a) (l_target b) <=? 0)%Z.

(** [prepared.path[0]?.id] when it is not empty *)
Definition root_ids (preparedPaths : list PreparedFlowPath) : list jstr :=
  bfilter truthy (omap (fun p => pn_id <$> head (pp_path p)) preparedPaths).

Definition prepare (rows : list FlowQuotaDataItem) (stages : list FlowNodeKind) (ctx : FlowPathContext)
    (topNodeSets : option (list (FlowNodeKind * list jstr))) (mode : FlowOverflowMode)
    (labeler : option (FlowNodeKind -> jstr)) : list PreparedFlowPath :=
  omap (fun row => (fun path => {| pp_path := path; pp_metrics := rowMetrics row |}) <$>
                   applyTopNodeLimit (flowPathForStages row stages ctx) topNodeSets mode labeler) rows.

(** One prepared path: its nodes, then its links. *)
Definition add_path (metric : FlowMetric) (colors : list (jstr * jstr)) (palette : option (list jstr))
    (st : list (jstr * DashboardFlowNode) * list (jstr * DashboardFlowLink)) (p : PreparedFlowPath)
  : list (jstr * DashboardFlowNode) * list (jstr * DashboardFlowLink) :=
  match pp_path p with
  | [] => st
  | root :: _ =>
      let color := default (colorAt 0 palette) (m_get (pn_id root) colors) in
      (fold_left (fun m n => addNode m n (pp_metrics p) metric color (pn_id root)) (pp_path p) (fst st),
       fold_left (fun m '(a, b) => addLink m a b (pp_metrics p) metric color (pn_id root)) (steps_of (pp_path p)) (snd st))
  end.

Definition set_share (total : number) (l : DashboardFlowLink) : DashboardFlowLink :=
  {| l_source := l_source l; l_target := l_target l; l_value := l_value l; l_requests := l_requests l;
     l_quota := l_quota l; l_tokens := l_tokens l; l_sourceLabel := l_sourceLabel l;
     l_targetLabel := l_targetLabel l; l_color := l_color l; l_linkColor := l_linkColor l;
     l_linkAlpha := l_linkAlpha l; l_hoverColor := l_hoverColor l; l_colorKey := l_colorKey l;
     l_share := if n_ltb n_zero total then n_div (l_value l) total else n_zero;
     l_highlighted := l_highlighted l; l_dimmed := l_dimmed l |}.

Definition first_step_total (preparedPaths : list PreparedFlowPath) (links : list DashboardFlowLink) : number :=
  let firstStepSources := dedup (root_ids preparedPaths) in
  fold_left (fun sum l => n_add sum (l_value l))
    (bfilter (fun l => bool_decide (l_source l ∈ firstStepSources)) links) n_zero.

Definition prepared_paths (rows : list FlowQuotaDataItem) (metric : FlowMetric) (stages : list FlowNodeKind)
    (ctx : FlowPathContext) (options : FlowGraphOptions) : list PreparedFlowPath :=
  let topNodeSets := buildTopNodeSets rows metric stages (normalizeTopNodeLimit (go_topNodeLimit options)) ctx in
  prepare rows stages ctx topNodeSets (default DEFAULT_FLOW_OVERFLOW_MODE (go_overflowMode options))
    (go_otherNodeLabel options).

Definition buildFlowGraph (rows : list FlowQuotaDataItem) (metric : FlowMetric) (r : FlowRole)
    (palette : option (list jstr)) (visibleStages : option (list FlowNodeKind)) (ctx : FlowPathContext)
    (options : FlowGraphOptions) : DashboardFlowGraph :=
  let stages := resolveVisibleStages r visibleStages in
  let preparedPaths := prepared_paths rows metric stages ctx options in
  let colors := stableColorMap (js_sort (fun a b => (localeCompare a b <=? 0)%Z) (root_ids preparedPaths)) palette in
  let st := fold_left (add_path metric colors palette) preparedPaths ([], []) in
  let st := if go_maskSensitive options then maskFlowGraphLabels (fst st) (snd st) else st in
  let st := applyFlowHighlights (fst st) (snd st)
              (buildFlowHighlightSets preparedPaths (go_activeNode options) (go_activeLink options) stages) in
  let flowLinks := js_sort flow_link_le (map snd (snd st)) in
  let total := first_step_total preparedPaths flowLinks in
  {| g_nodes := js_sort byValueThenLabel (map snd (fst st));
     g_links := assignLinkDisplayColors (map (set_share total) flowLinks) |}.

(** ** The filters offered *)

Record UserTotal := { ut_label : jstr; ut_value : number; ut_color : jstr }.

Definition user_option_le (a b : FlowUserFilterOption) : bool :=
  then_by (n_sub (uo_valueRaw b) (uo_valueRaw a)) (localeCompare (uo_label a) (uo_label b) <=? 0)%Z.

Definition buildUserFilterOptions (rows : list FlowQuotaDataItem) (metric : FlowMetric) (palette : option (list jstr))
  : list FlowUserFilterOption :=
  let colors := stableColorMap
    (js_sort (fun a b => (localeCompare a b <=? 0)%Z) (map (fun row => pn_id (userNode row)) rows)) palette in
  let named row := n_truthy (default n_nan (user_id row)) || truthy (default [] (username row)) in
  let users := tally (fun row => pn_id (userNode row))
    (fun row => {| ut_label := pn_label (userNode row); ut_value := n_zero;
                   ut_color := default (colorAt 0 palette) (m_get (pn_id (userNode row)) colors) |})
    (fun u row => {| ut_label := ut_label u; ut_value := n_add (ut_value u) (metricValue (rowMetrics row) metric);
                     ut_color := ut_color u |}) (bfilter named rows) in
  js_sort user_option_le
    (map (fun '(value, u) => {| uo_value := value; uo_label := ut_label u; uo_valueLabel := formatNumber (ut_value u);
                                uo_valueRaw := ut_value u; uo_color := ut_color u |}) users).

Definition stage_order (stages : list FlowNodeKind) (k : FlowNodeKind) : nat :=
  default O (fst <$> list_find (fun s => s = k) stages).

Definition node_option_le (stages : list FlowNodeKind) (a b : FlowNodeFilterOption) : bool :=
  then_by (num_of_Z (Z.of_nat (stage_order stages (no_kind a)) - Z.of_nat (stage_order stages (no_kind b))))
    (then_by (n_sub (no_valueRaw b) (no_valueRaw a))
      (then_by_locale (localeCompare (no_label a) (no_label b))
        (localeCompare (no_value a) (no_value b) <=? 0)%Z)).

(** The totals of one stage over the rows the filters of the other stages leave. *)
Definition stage_totals (rows : list FlowQuotaDataItem) (metric : FlowMetric) (stages : list FlowNodeKind)
    (ctx : FlowPathContext) (selectedNodes : option (list FlowNodeFilter)) (stage : FlowNodeKind)
  : list (jstr * FlowNodeRank) :=
  let candidateRows := filterRowsByNodes rows (selectedNodeFiltersExceptKind selectedNodes stage) stages ctx in
  tally (fun row => let node := NODE_BUILDERS stage row ctx in
                    nodeFilterKey {| nf_kind := pn_kind node; nf_id := pn_id node |})
    (fun row => {| rk_node := NODE_BUILDERS stage row ctx; rk_value := n_zero |})
    (fun rank row => rank_add (metricValue (rowMetrics row) metric) rank) candidateRows.

Definition node_option (colors : list (jstr * jstr)) (palette : option (list jstr)) (rank : FlowNodeRank)
  : FlowNodeFilterOption :=
  {| no_kind := pn_kind (rk_node rank); no_value := pn_id (rk_node rank); no_label := pn_label (rk_node rank);
     no_valueLabel := formatNumber (rk_value rank); no_valueRaw := rk_value rank;
     no_color := default (colorAt 0 palette) (m_get (pn_id (rk_node rank)) colors) |}.

Definition buildNodeFilterOptions (rows : list FlowQuotaDataItem) (metric : FlowMetric) (r : FlowRole)
    (visibleStages : option (list FlowNodeKind)) (palette : option (list jstr)) (ctx : FlowPathContext)
    (selectedNodes : option (list FlowNodeFilter)) : list FlowNodeFilterOption :=
  let stages := resolveVisibleStages r visibleStages in
  let colorIds := dedup (concat (map (fun row => map pn_id (flowPathForStages row stages ctx)) rows)) in
  let colors := stableColorMap (js_sort (fun a b => (localeCompare a b <=? 0)%Z) colorIds) palette in
  js_sort (node_option_le stages)
    (concat (map (fun stage =>
       map (fun '(_, rank) => node_option colors palette rank)
         (stage_totals rows metric stages ctx selectedNodes stage)) stages)).

Definition buildFlowFilterOptions (rows : list FlowQuotaDataItem) (metric : FlowMetric) (palette : option (list jstr))
    (r : FlowRole) (visibleStages : option (list FlowNodeKind)) (selectedNodes : option (list FlowNodeFilter))
  : FlowFilterOptions :=
  {| fo_users := buildUserFilterOptions rows metric palette;
     fo_nodes := buildNodeFilterOptions rows metric r visibleStages palette EMPTY_FLOW_PATH_CONTEXT selectedNodes |}.

Definition buildDashboardFlowData (rows : list FlowQuotaDataItem) (metric : FlowMetric) (options : FlowBuildOptions)
  : ProcessedFlowData :=
  let r := default DEFAULT_FLOW_ROLE (bo_role options) in
  let palette := bo_colorPalette options in
  let ctx := {| ctx_deletedTokenLabel := bo_deletedTokenLabel options |} in
  let stages := resolveVisibleStages r (bo_visibleStages options) in
  let userFilteredRows := filterRows rows options in
  let filteredRows := filterRowsByNodes userFilteredRows (bo_selectedNodes options) stages ctx in
  {| pd_summary := buildSummary filteredRows;
     pd_flow := buildFlowGraph filteredRows metric r palette (bo_visibleStages options) ctx
       {| go_topNodeLimit := bo_topNodeLimit options; go_overflowMode := bo_overflowMode options;
          go_otherNodeLabel := bo_otherNodeLabel options; go_activeNode := bo_activeNode options;
          go_activeLink := bo_activeLink options; go_maskSensitive := bo_maskSensitive options |};
     pd_filterOptions :=
       {| fo_users := buildUserFilterOptions rows metric palette;
          fo_nodes := buildNodeFilterOptions userFilteredRows metric r (bo_visibleStages options) palette ctx
            (bo_selectedNodes options) |} |}.
End flow.

(** ** Selections from the chart *)

(** [value && typeof value === 'object' ? value : undefined]; an array has no property of
    the names used. *)
Definition recordValue (v : jsval) : option jsval := if is_record v then Some v else None.

(** [nested[depth]] *)
Definition element_at (l : list jsval) (depth : number) : jsval :=
  if n_isInteger depth && n_leb n_zero depth then default VUndef (l !! Z.to_nat (int_value depth)) else VUndef.

Definition sankeyDatumSource (datum : jsval) : jsval :=
  match get (js "datum") datum with
  | VArr nested =>
      let depth := finite_or_zero (to_number (get (js "depth") datum)) in
      match recordValue (element_at nested depth) with
      | Some v => v
      | None => default datum (recordValue (default VUndef (head nested)))
      end
  | nested => default datum (recordValue nested)
  end.

Definition sankeyDatumValue (datum : jsval) (key : jstr) : jsval :=
  match get key datum with VUndef => get key (sankeyDatumSource datum) | v => v end.

Definition flowSankeyDatumValue (datum : jsval) (key : jstr) : jsval :=
  match recordValue datum with Some r => sankeyDatumValue r key | None => VUndef end.

Definition is_undefined (v : jsval) : bool := match v with VUndef => true | _ => false end.

Definition isSankeyLinkDatum (datum : jsval) : bool :=
  negb (is_undefined (sankeyDatumValue datum (js "source"))) && negb (is_undefined (sankeyDatumValue datum (js "target"))).

Definition isFlowNodeKind (v : jsval) : option FlowNodeKind :=
  match v with VStr s => find_first (fun k => kind_text k =s s) FLOW_NODE_KINDS | _ => None end.

Definition flowNodeFilterFromSankeyDatum (datum : jsval) : option FlowNodeFilter :=
  record ← recordValue datum;
  if isSankeyLinkDatum record then None
  else
    kind ← isFlowNodeKind (flowSankeyDatumValue record (js "kind"));
    match flowSankeyDatumValue record (js "key") with
    | (VStr _ | VNum _) as id => Some {| nf_kind := kind; nf_id := to_string id |}
    | _ => None
    end.
