(* ===== verification/FlowFacts.v ===== *)
(** * The flow view: what the graph shows

    The amounts of the nodes and links are the totals of the rows that pass through
    them, nothing is lost between two stages, the limit bounds a stage, masking hides
    every sensitive label, and every filter offered leads to the rows it announces. *)

From S2P Require Import Prelude JsString JsNumber JsInteger JsMath Json JsMap DashboardFlow.

(** ** Paths *)

(** The id of a node starts with its kind and a colon. *)
Definition id_ok (n : FlowPathNode) : Prop := exists rest, pn_id n = kind_text (pn_kind n) ++ 58%N :: rest.

Lemma builder_ok stage row ctx : id_ok (NODE_BUILDERS stage row ctx) /\ pn_kind (NODE_BUILDERS stage row ctx) = stage.
Proof.
  destruct stage; (split; [|done]); unfold id_ok; simpl;
    try (destruct (n_positive _)); by eexists.
Qed.

Lemma other_ok kind labeler : id_ok (otherFlowNode kind labeler) /\ pn_kind (otherFlowNode kind labeler) = kind.
Proof. split; [|done]. destruct kind; by eexists. Qed.

Lemma kind_prefix k k' a b : kind_text k ++ 58%N :: a = kind_text k' ++ 58%N :: b -> k = k'.
Proof. destruct k, k'; simpl; intros H; done || discriminate. Qed.

Lemma id_kind n n' : id_ok n -> id_ok n' -> pn_id n = pn_id n' -> pn_kind n = pn_kind n'.
Proof. intros [a Ha] [b Hb] E. rewrite Ha, Hb in E. by apply kind_prefix in E. Qed.

Lemma stages_nodup r vis : NoDup (resolveVisibleStages r vis).
Proof.
  assert (NoDup (getFlowStages r)) as H by (destruct r; simpl; repeat constructor; set_solver).
  unfold resolveVisibleStages. destruct vis as [v|]; [|done]. case_match; [|done].
  apply NoDup_ListNoDup, List.NoDup_filter. by apply NoDup_ListNoDup.
Qed.

(** A path with one node for every stage. *)
Definition path_ok (stages : list FlowNodeKind) (path : list FlowPathNode) : Prop :=
  map pn_kind path = stages /\ Forall id_ok path.

Lemma flow_path_ok row stages ctx : path_ok stages (flowPathForStages row stages ctx).
Proof.
  unfold path_ok, flowPathForStages. rewrite map_map. split.
  - induction stages as [|k t IH]; [done|]. simpl. rewrite IH. by rewrite (proj2 (builder_ok k row ctx)).
  - apply Forall_map, Forall_true. intros k. apply builder_ok.
Qed.

Lemma limited_path_ok stages path sets mode labeler path' :
  path_ok stages path -> applyTopNodeLimit path sets mode labeler = Some path' -> path_ok stages path'.
Proof.
  intros [Hk Hi]. unfold applyTopNodeLimit. destruct sets as [s|]; [|by intros [= <-]].
  destruct (negb _); [by intros [= <-]|]. destruct mode; [|done]. intros [= <-]. split.
  - rewrite map_map. rewrite <- Hk. apply map_ext. intros n. by destruct (isTopFlowNode n s).
  - apply Forall_map. apply (Forall_impl _ _ _ Hi). intros n Hn. destruct (isTopFlowNode n s); [done|]. apply other_ok.
Qed.

Lemma path_ids_nodup stages path : NoDup stages -> path_ok stages path -> NoDup (map pn_id path).
Proof.
  intros Hs [<- Hi]. induction path as [|n path IH]; [constructor|]. simpl in *.
  apply NoDup_cons in Hs as [Hn Hs]. inversion Hi as [|? ? Hn1 Hi']; subst. constructor; [|auto].
  rewrite elem_of_lmap. intros (n' & Hn' & E). apply Hn. rewrite elem_of_lmap. exists n'. split; [done|].
  rewrite Forall_forall in Hi'. eauto using id_kind.
Qed.

(** Two nodes of a path with the same id are one. *)
Lemma path_id_inj stages path n n' :
  NoDup stages -> path_ok stages path -> n ∈ path -> n' ∈ path -> pn_id n = pn_id n' -> n = n'.
Proof.
  intros Hs Hp. pose proof (path_ids_nodup _ _ Hs Hp) as Hnd. clear Hs Hp.
  induction path as [|a path IH]; [by intros ?%elem_of_nil|]. simpl in Hnd. apply NoDup_cons in Hnd as [Ha Hnd].
  rewrite !elem_of_cons. intros [-> | H] [-> | H'] E; try done; [| |auto]; exfalso; apply Ha; rewrite elem_of_lmap; eauto.
Qed.

(** ** The steps of a path *)

Lemma steps_fst path a b : (a, b) ∈ steps_of path -> a ∈ path /\ b ∈ path.
Proof.
  induction path as [|x [|y t] IH]; simpl; [by intros ?%elem_of_nil..|]. rewrite elem_of_cons.
  intros [[= -> ->] | H]; [set_solver|]. apply IH in H. set_solver.
Qed.

Lemma steps_sources path : map fst (steps_of path) = removelast path.
Proof. induction path as [|x [|y t] IH]; [done..|].
  change (x :: map fst (steps_of (y :: t)) = x :: removelast (y :: t)). by rewrite IH.
Qed.

Lemma steps_targets path : map snd (steps_of path) = tail path.
Proof. induction path as [|x [|y t] IH]; [done..|].
  change (y :: map snd (steps_of (y :: t)) = y :: t). by rewrite IH.
Qed.

Lemma step_key_kind a b a' b' : id_ok a -> id_ok a' -> pathLinkKey a b = pathLinkKey a' b' -> pn_kind a = pn_kind a'.
Proof.
  intros [x Hx] [y Hy]. unfold pathLinkKey. rewrite Hx, Hy, <- !app_assoc. simpl. apply kind_prefix.
Qed.

Lemma removelast_sublist {A} (l : list A) : removelast l `sublist_of` l.
Proof. induction l as [|x [|y l] IH]; [done|repeat constructor|]. cbn [removelast]. by constructor. Qed.

(** At most one step of a path has a given key. *)
Lemma step_keys_nodup stages path :
  NoDup stages -> path_ok stages path -> NoDup (map (fun '(a, b) => pathLinkKey a b) (steps_of path)).
Proof.
  intros Hs Hp. assert (NoDup (map pn_kind (map fst (steps_of path)))) as Hk.
  { rewrite steps_sources. eapply sublist_NoDup; [exact Hs|]. destruct Hp as [<- _]. apply (fmap_sublist pn_kind), removelast_sublist. }
  assert (Forall (fun s => id_ok (fst s)) (steps_of path)) as Hi.
  { apply Forall_forall. intros [a b] Hab. destruct Hp as [_ Hp]. rewrite Forall_forall in Hp. by apply Hp, (steps_fst path a b). }
  induction (steps_of path) as [|[a b] l IH]; [constructor|]. simpl in *. apply NoDup_cons in Hk as [Ha Hk].
  inversion Hi as [|? ? Hi1 Hi2]; subst. constructor; [|auto]. rewrite elem_of_lmap. intros ([a' b'] & H' & E).
  apply Ha. rewrite elem_of_lmap. exists a'. rewrite elem_of_lmap. rewrite Forall_forall in Hi2. split; [by exists (a', b')|].
  eapply step_key_kind; [done|by apply (Hi2 (a', b'))|exact E].
Qed.

(** ** The amounts of nodes and links *)

Lemma fold_concat {A B} (f : B -> A -> B) ll x : fold_left f (concat ll) x = fold_left (fun x l => fold_left f l x) ll x.
Proof. revert x. induction ll as [|l ll IH]; intros x; [done|]. simpl. by rewrite fold_left_app, IH. Qed.

Lemma fold_map {A B C} (f : B -> C -> B) (g : A -> C) l x : fold_left f (map g l) x = fold_left (fun x a => f x (g a)) l x.
Proof. revert x. induction l as [|a l IH]; intros x; [done|]. simpl. apply IH. Qed.

Lemma fold_ext_in {A B} (f g : B -> A -> B) l x : (forall b a, a ∈ l -> f b a = g b a) -> fold_left f l x = fold_left g l x.
Proof.
  revert x. induction l as [|a l IH]; intros x H; [done|]. simpl. rewrite (H x a) by left. apply IH.
  intros b c Hc. apply H. by right.
Qed.

(** The metrics of some paths, added in order. *)
Definition sum_of (f : FlowMetrics -> number) (ps : list PreparedFlowPath) : number :=
  fold_left (fun s p => n_add s (f (pp_metrics p))) ps n_zero.

Definition through (k : jstr) (p : PreparedFlowPath) : bool := bool_decide (k ∈ map pn_id (pp_path p)).

(** A step of the path has this key. *)
Definition crosses (k : jstr) (p : PreparedFlowPath) : bool :=
  bool_decide (k ∈ map (fun '(a, b) => pathLinkKey a b) (steps_of (pp_path p))).

(** Of a list without repetitions, the elements with a key: none or one. *)
Lemma with_key_nodup {A K} `{EqDecision K} (key : A -> K) (k : K) (l : list A) :
  NoDup (map key l) ->
  (k ∉ map key l /\ with_key key k l = []) \/ (exists a, a ∈ l /\ key a = k /\ with_key key k l = [a]).
Proof.
  induction l as [|a l IH]; intros Hnd; [left; split; [apply not_elem_of_nil|done]|].
  simpl in Hnd. apply NoDup_cons in Hnd as [Ha Hnd]. unfold with_key. simpl. case_bool_decide as E.
  - right. exists a. split; [left|]. split; [done|]. f_equal. apply bfilter_nil_iff, Forall_forall. intros b Hb.
    apply bool_decide_eq_false. intros Eb. apply Ha. rewrite E, <- Eb. rewrite elem_of_lmap. eauto.
  - destruct (IH Hnd) as [[H1 H2] | (b & Hb & Hk & H2)].
    + left. split; [|done]. simpl. rewrite elem_of_cons. naive_solver.
    + right. exists b. split; [by right|]. done.
Qed.

Lemma with_key_app {A K} `{EqDecision K} (key : A -> K) (k : K) a b :
  with_key key k (a ++ b) = with_key key k a ++ with_key key k b.
Proof. apply List.filter_app. Qed.

Section visits.
(** What is visited by each path, at most once under a key. *)
Context {X V : Type}.
Variables (items : PreparedFlowPath -> list X) (key : X -> jstr) (init : PreparedFlowPath * X -> V).
Variable add : V -> FlowMetrics -> V.

Definition visits (ps : list PreparedFlowPath) : list (PreparedFlowPath * X) :=
  concat (map (fun p => map (pair p) (items p)) ps).

Definition visited : list PreparedFlowPath -> list (jstr * V) :=
  fun ps => tally (fun v => key (snd v)) init (fun a v => add a (pp_metrics (fst v))) (visits ps).

Definition has_item (k : jstr) (p : PreparedFlowPath) : bool := bool_decide (k ∈ map key (items p)).

Lemma visits_with_key k ps :
  Forall (fun p => NoDup (map key (items p))) ps ->
  map fst (with_key (fun v => key (snd v)) k (visits ps)) = bfilter (has_item k) ps.
Proof.
  induction 1 as [|p ps Hp _ IH]; [done|]. set (kk := fun v : PreparedFlowPath * X => key (snd v)) in *.
  change (visits (p :: ps)) with (map (pair p) (items p) ++ visits ps). rewrite with_key_app, map_app, IH.
  change (bfilter (has_item k) (p :: ps))
    with (if has_item k p then p :: bfilter (has_item k) ps else bfilter (has_item k) ps).
  assert (map kk (map (pair p) (items p)) = map key (items p)) as Em by (by rewrite map_map).
  unfold has_item at 2. destruct (with_key_nodup kk k (map (pair p) (items p)))
    as [[H1 H2] | (v & Hv & Hk & H2)]; [by rewrite Em| |]; rewrite H2.
  - rewrite Em in H1. by rewrite bool_decide_false.
  - rewrite bool_decide_true.
    + apply elem_of_lmap in Hv as (x & Hx & ->). done.
    + rewrite <- Em, elem_of_lmap. by exists v.
Qed.

(** The value kept under a key: the metrics of the paths that have it, in order. *)
Lemma visited_get k ps :
  Forall (fun p => NoDup (map key (items p))) ps ->
  match m_get k (visited ps) with
  | None => bfilter (has_item k) ps = []
  | Some v => exists p x, p ∈ ps /\ x ∈ items p /\ key x = k /\
      v = fold_left (fun a q => add a (pp_metrics q)) (bfilter (has_item k) ps) (init (p, x))
  end.
Proof.
  intros Hnd. unfold visited. rewrite tally_get. rewrite <- (visits_with_key k ps Hnd).
  destruct (with_key _ k (visits ps)) as [|[p x] l] eqn:E; [done|]. unfold total. exists p, x.
  assert ((p, x) ∈ with_key (fun v => key (snd v)) k (visits ps)) as Hin by (rewrite E; left).
  unfold with_key in Hin. apply elem_of_bfilter in Hin as [Hin Hk]. apply bool_decide_eq_true in Hk. simpl in Hk.
  unfold visits in Hin. apply list_elem_of_In, in_concat in Hin as (vs & Hvs & Hin).
  apply list_elem_of_In, elem_of_lmap in Hvs as (q & Hq & ->). apply list_elem_of_In, elem_of_lmap in Hin as (y & Hy & [= -> ->]).
  split_and!; try done. by rewrite fold_map.
Qed.

Lemma visited_keys ps k : k ∈ map fst (visited ps) <-> exists p, p ∈ ps /\ has_item k p = true.
Proof.
  unfold visited. rewrite tally_keys, elem_of_dedup, elem_of_lmap. unfold visits, has_item. split.
  - intros ([p x] & Hin & ->). apply list_elem_of_In, in_concat in Hin as (vs & Hvs & Hin).
    apply list_elem_of_In, elem_of_lmap in Hvs as (q & Hq & ->). apply list_elem_of_In, elem_of_lmap in Hin as (y & Hy & [= -> ->]).
    exists q. split; [done|]. apply bool_decide_eq_true. rewrite elem_of_lmap. eauto.
  - intros (p & Hp & Hk). apply bool_decide_eq_true, elem_of_lmap in Hk as (x & Hx & ->). exists (p, x). split; [|done].
    apply list_elem_of_In, in_concat. exists (map (pair p) (items p)).
    rewrite <- !list_elem_of_In, !elem_of_lmap. split; [by exists p|by exists x].
Qed.

Lemma visited_nodup ps : NoDup (map fst (visited ps)).
Proof. apply tally_nodup. Qed.
End visits.

Lemma fold_pair {A B C} (F : A * B -> C -> A * B) (f : A -> C -> A) (g : B -> C -> B) l a b :
  (forall st c, F st c = (f (fst st) c, g (snd st) c)) -> fold_left F l (a, b) = (fold_left f l a, fold_left g l b).
Proof. intros H. revert a b. induction l as [|c l IH]; intros a b; [done|]. simpl. by rewrite H, IH. Qed.

Section graph.
Context (localeCompare : jstr -> jstr -> Z) (dataScheme : list (option nat * list jsval)).
Context (metric : FlowMetric) (colors : list (jstr * jstr)) (palette : option (list jstr)).

Definition path_color (p : PreparedFlowPath) : jstr :=
  default (colorAt dataScheme 0 palette) (m_get (default [] (pn_id <$> head (pp_path p))) colors).
Definition path_root (p : PreparedFlowPath) : jstr := default [] (pn_id <$> head (pp_path p)).

Definition node_start (v : PreparedFlowPath * FlowPathNode) : DashboardFlowNode :=
  new_node (snd v) (path_color (fst v)) (path_root (fst v)).
Definition link_start (v : PreparedFlowPath * (FlowPathNode * FlowPathNode)) : DashboardFlowLink :=
  new_link (fst (snd v)) (snd (snd v)) (path_color (fst v)) (path_root (fst v)).

Definition path_steps (p : PreparedFlowPath) : list (FlowPathNode * FlowPathNode) := steps_of (pp_path p).
Definition step_key (s : FlowPathNode * FlowPathNode) : jstr := pathLinkKey (fst s) (snd s).

Definition graph_nodes (ps : list PreparedFlowPath) : list (jstr * DashboardFlowNode) :=
  visited pp_path pn_id node_start (fun n m => node_amounts n m metric) ps.
Definition graph_links (ps : list PreparedFlowPath) : list (jstr * DashboardFlowLink) :=
  visited path_steps step_key link_start (fun l m => link_amounts l m metric) ps.

(** The two maps of the graph are totals over the visits of the paths. *)
Lemma paths_added ps :
  fold_left (add_path dataScheme metric colors palette) ps ([], []) = (graph_nodes ps, graph_links ps).
Proof.
  unfold graph_nodes, graph_links, visited, tally, visits. rewrite !fold_concat, !fold_map. apply fold_pair.
  intros [ns ls] p. unfold add_path. cbn [fst snd]. rewrite !fold_map. unfold path_steps.
  destruct (pp_path p) as [|root t] eqn:E; [done|].
  assert (path_color p = default (colorAt dataScheme 0 palette) (m_get (pn_id root) colors) /\ path_root p = pn_id root) as [Ec Er].
  { unfold path_color, path_root. by rewrite E. }
  f_equal; apply fold_ext_in.
  - intros m n _. unfold tally_step, addNode, node_start. cbn [fst snd]. by rewrite Ec, Er.
  - intros m [a b] _. unfold tally_step, addLink, link_start, step_key. cbn [fst snd]. by rewrite Ec, Er.
Qed.

(** Adding metrics changes the amounts only. *)
Lemma node_fold ps n :
  let n' := fold_left (fun a q => node_amounts a (pp_metrics q) metric) ps n in
  n_id n' = n_id n /\ n_label n' = n_label n /\ n_kind n' = n_kind n /\
  n_value n' = fold_left (fun s p => n_add s (metricValue (pp_metrics p) metric)) ps (n_value n) /\
  n_requests n' = fold_left (fun s p => n_add s (m_requests (pp_metrics p))) ps (n_requests n) /\
  n_quota n' = fold_left (fun s p => n_add s (m_quota (pp_metrics p))) ps (n_quota n) /\
  n_tokens n' = fold_left (fun s p => n_add s (m_tokens (pp_metrics p))) ps (n_tokens n).
Proof. revert n. induction ps as [|p ps IH]; intros n; [done|]. cbn [fold_left]. apply (IH (node_amounts n (pp_metrics p) metric)). Qed.

Lemma link_fold ps l :
  let l' := fold_left (fun a q => link_amounts a (pp_metrics q) metric) ps l in
  l_source l' = l_source l /\ l_target l' = l_target l /\
  l_sourceLabel l' = l_sourceLabel l /\ l_targetLabel l' = l_targetLabel l /\
  l_value l' = fold_left (fun s p => n_add s (metricValue (pp_metrics p) metric)) ps (l_value l) /\
  l_requests l' = fold_left (fun s p => n_add s (m_requests (pp_metrics p))) ps (l_requests l) /\
  l_quota l' = fold_left (fun s p => n_add s (m_quota (pp_metrics p))) ps (l_quota l) /\
  l_tokens l' = fold_left (fun s p => n_add s (m_tokens (pp_metrics p))) ps (l_tokens l).
Proof. revert l. induction ps as [|p ps IH]; intros l; [done|]. cbn [fold_left]. apply (IH (link_amounts l (pp_metrics p) metric)). Qed.
End graph.

Lemma through_item k p : has_item pp_path pn_id k p = through k p.
Proof. reflexivity. Qed.

Lemma crosses_item k p : has_item path_steps step_key k p = crosses k p.
Proof.
  unfold has_item, crosses, path_steps. apply bool_decide_ext.
  assert (map step_key (steps_of (pp_path p)) = map (fun '(a, b) => pathLinkKey a b) (steps_of (pp_path p))) as ->; [|done].
  apply map_ext. by intros [a b].
Qed.

(** The paths of a graph. *)
Definition paths_ok (stages : list FlowNodeKind) (ps : list PreparedFlowPath) : Prop :=
  NoDup stages /\ Forall (fun p => path_ok stages (pp_path p)) ps.

Lemma prepared_ok localeCompare rows metric r vis ctx options :
  let stages := resolveVisibleStages r vis in
  paths_ok stages (prepared_paths localeCompare rows metric stages ctx options).
Proof.
  intros stages. split; [apply stages_nodup|]. unfold prepared_paths, prepare. apply Forall_forall. intros p.
  rewrite list_elem_of_omap. intros (row & _ & H). apply fmap_Some in H as (path & H & ->). simpl.
  eapply limited_path_ok; [apply flow_path_ok|exact H].
Qed.

Lemma node_items stages ps : paths_ok stages ps -> Forall (fun p => NoDup (map pn_id (pp_path p))) ps.
Proof. intros [Hs Hp]. apply (Forall_impl _ _ _ Hp). intros p. by apply path_ids_nodup. Qed.

Lemma link_items stages ps : paths_ok stages ps -> Forall (fun p => NoDup (map step_key (path_steps p))) ps.
Proof.
  intros [Hs Hp]. apply (Forall_impl _ _ _ Hp). intros p Hok. pose proof (step_keys_nodup _ _ Hs Hok) as H.
  erewrite map_ext; [exact H|]. by intros [a b].
Qed.

(** ** From the maps to the graph *)

(** What masking, highlighting, shares and colours leave alone. *)
Definition node_core (n : DashboardFlowNode) : jstr * FlowNodeKind * list number :=
  (n_id n, n_kind n, [n_value n; n_requests n; n_quota n; n_tokens n]).
Definition link_core (l : DashboardFlowLink) : jstr * jstr * list number :=
  (l_source l, l_target l, [l_value l; l_requests l; l_quota l; l_tokens l]).

Lemma on_values_snd {V} (f : V -> V) (m : list (jstr * V)) : map snd (on_values f m) = map f (map snd m).
Proof. unfold on_values. rewrite !map_map. apply map_ext. by intros [k v]. Qed.

Lemma map_core {A B} (core : A -> B) (f : A -> A) l : (forall x, core (f x) = core x) -> map core (map f l) = map core l.
Proof. intros H. rewrite map_map. by apply map_ext. Qed.

Lemma color_group_core localeCompare ls g : map link_core (color_group localeCompare ls g) = map link_core ls.
Proof.
  unfold color_group. set (f := fun _ _ => _). generalize (imap (fun i l => (i, l)) (js_sort (link_le localeCompare) g)).
  intros xs. revert ls. induction xs as [|[i l] xs IH]; intros ls; [done|]. cbn [fold_left]. rewrite IH. unfold f.
  destruct (alphaColor _ _) as [c a]. unfold update_link. apply map_core. intros x. by case_match.
Qed.

Lemma assign_core localeCompare ls : map link_core (assignLinkDisplayColors localeCompare ls) = map link_core ls.
Proof.
  unfold assignLinkDisplayColors. generalize (map snd (tally l_source (fun _ => []) (fun g l => g ++ [l]) ls)). intros gs.
  revert ls. induction gs as [|g gs IH]; intros l; [done|]. cbn [fold_left]. by rewrite IH, color_group_core.
Qed.

Section core.
Context (localeCompare : jstr -> jstr -> Z) (dataScheme : list (option nat * list jsval)).

Lemma graph_cores rows metric r palette vis ctx options :
  let ps := prepared_paths localeCompare rows metric (resolveVisibleStages r vis) ctx options in
  let g := buildFlowGraph localeCompare dataScheme rows metric r palette vis ctx options in
  exists colors,
  map node_core (g_nodes g) ≡ₚ map node_core (map snd (graph_nodes dataScheme metric colors palette ps)) /\
  map link_core (g_links g) ≡ₚ map link_core (map snd (graph_links dataScheme metric colors palette ps)).
Proof.
  intros ps g. unfold g, buildFlowGraph. fold ps.
  set (colors := stableColorMap _ _ _). exists colors. rewrite paths_added.
  set (ns := graph_nodes _ _ _ _ ps). set (ls := graph_links _ _ _ _ ps).
  set (masked := if go_maskSensitive options then _ else _).
  assert (map node_core (map snd (fst masked)) = map node_core (map snd ns) /\
          map link_core (map snd (snd masked)) = map link_core (map snd ls)) as [M1 M2].
  { unfold masked. destruct (go_maskSensitive options); [|done]. unfold maskFlowGraphLabels. cbn [fst snd]. split.
    - rewrite on_values_snd. apply map_core. intros n. unfold mask_node. by destruct (is_masked n).
    - destruct (masked_labels ns); [done|]. rewrite on_values_snd. by apply map_core. }
  set (sets := buildFlowHighlightSets _ _ _ _). clearbody sets.
  assert (map node_core (map snd (fst (applyFlowHighlights (fst masked) (snd masked) sets))) = map node_core (map snd ns) /\
          map link_core (map snd (snd (applyFlowHighlights (fst masked) (snd masked) sets))) = map link_core (map snd ls)) as [H1 H2].
  { destruct sets as [sets|]; [|done]. unfold applyFlowHighlights. cbn [fst snd]. rewrite !on_values_snd. split.
    - rewrite <- M1. by apply map_core.
    - rewrite <- M2. by apply map_core. }
  cbn [g_nodes g_links]. split.
  - rewrite js_sort_perm. by rewrite H1.
  - rewrite assign_core, map_core by done. rewrite js_sort_perm. by rewrite H2.
Qed.
End core.

(** The amounts of a node or link with their source: value, requests, quota and tokens
    are the sums over [ps]. *)
Definition amounts_of (metric : FlowMetric) (ps : list PreparedFlowPath) : list number :=
  [sum_of (fun m => metricValue m metric) ps; sum_of m_requests ps; sum_of m_quota ps; sum_of m_tokens ps].

Section totals.
Context (localeCompare : jstr -> jstr -> Z) (dataScheme : list (option nat * list jsval)).
Context (metric : FlowMetric) (colors : list (jstr * jstr)) (palette : option (list jstr)).
Context (stages : list FlowNodeKind) (ps : list PreparedFlowPath) (Hps : paths_ok stages ps).

Lemma graph_node_spec k n :
  (k, n) ∈ graph_nodes dataScheme metric colors palette ps ->
  n_id n = k /\ [n_value n; n_requests n; n_quota n; n_tokens n] = amounts_of metric (bfilter (through k) ps) /\
  exists p x, p ∈ ps /\ x ∈ pp_path p /\ pn_id x = k /\ n_kind n = pn_kind x /\ n_label n = pn_label x.
Proof.
  intros H. unfold graph_nodes in H. apply m_get_elem in H; [|apply visited_nodup].
  pose proof (visited_get pp_path pn_id (node_start dataScheme colors palette) (fun n m => node_amounts n m metric)
    k ps (node_items _ _ Hps)) as G.
  rewrite H in G. destruct G as (p & x & Hp & Hx & Hk & ->).
  destruct (node_fold metric (bfilter (has_item pp_path pn_id k) ps) (node_start dataScheme colors palette (p, x)))
    as (-> & -> & -> & -> & -> & -> & ->).
  split; [done|]. split; [done|]. by exists p, x.
Qed.

Lemma graph_link_spec k l :
  (k, l) ∈ graph_links dataScheme metric colors palette ps ->
  linkStableKey l = k /\ [l_value l; l_requests l; l_quota l; l_tokens l] = amounts_of metric (bfilter (crosses k) ps) /\
  exists p a b, p ∈ ps /\ (a, b) ∈ steps_of (pp_path p) /\ l_source l = pn_id a /\ l_target l = pn_id b /\
    l_sourceLabel l = pn_label a /\ l_targetLabel l = pn_label b.
Proof.
  intros H. unfold graph_links in H. apply m_get_elem in H; [|apply visited_nodup].
  pose proof (visited_get path_steps step_key (link_start dataScheme colors palette) (fun n m => link_amounts n m metric)
    k ps (link_items _ _ Hps)) as G.
  rewrite H in G. destruct G as (p & [a b] & Hp & Hx & Hk & ->). rewrite (List.filter_ext _ _ (crosses_item k)).
  destruct (link_fold metric (bfilter (crosses k) ps) (link_start dataScheme colors palette (p, (a, b))))
    as (E1 & E2 & E3 & E4 & -> & -> & -> & ->). unfold linkStableKey. rewrite E1, E2, E3, E4.
  split; [done|]. split; [done|]. by exists p, a, b.
Qed.
End totals.

Lemma perm_core {A B} (core : A -> B) l l' x : map core l ≡ₚ map core l' -> x ∈ l -> exists y, y ∈ l' /\ core y = core x.
Proof.
  intros Hp Hx. assert (core x ∈ map core l') as H by (rewrite <- Hp, elem_of_lmap; eauto).
  apply elem_of_lmap in H as (y & Hy & E). eauto.
Qed.

Lemma perm_map_core {A B C} (core : A -> B) (f : A -> C) (g : B -> C) l l' :
  (forall x, f x = g (core x)) -> map core l ≡ₚ map core l' -> map f l ≡ₚ map f l'.
Proof.
  intros H Hp. assert (forall l, map f l = map g (map core l)) as E by (intros; rewrite map_map; by apply map_ext).
  rewrite !E. by rewrite Hp.
Qed.

Section origin.
Context (localeCompare : jstr -> jstr -> Z) (dataScheme : list (option nat * list jsval)).
Context (rows : list FlowQuotaDataItem) (metric : FlowMetric) (r : FlowRole) (palette : option (list jstr)).
Context (vis : option (list FlowNodeKind)) (ctx : FlowPathContext) (options : FlowGraphOptions).
Let ps := prepared_paths localeCompare rows metric (resolveVisibleStages r vis) ctx options.
Let g := buildFlowGraph localeCompare dataScheme rows metric r palette vis ctx options.

(** Every node of the graph is on a path, with its kind. *)
Lemma node_origin n : n ∈ g_nodes g ->
  exists p x, p ∈ ps /\ x ∈ pp_path p /\ pn_id x = n_id n /\ pn_kind x = n_kind n.
Proof.
  intros Hin. destruct (graph_cores localeCompare dataScheme rows metric r palette vis ctx options) as (colors & Hn & _).
  destruct (perm_core node_core _ _ n Hn Hin) as (n' & H' & [= E1 E2 _ _ _ _]).
  apply elem_of_lmap in H' as ([k0 n0] & H' & ->). cbn [snd] in *.
  apply (graph_node_spec dataScheme metric colors palette _ ps (prepared_ok _ _ _ _ _ _ _)) in H'
    as (<- & _ & p & x & Hp & Hxp & Hid & Hkind & _).
  exists p, x. split_and!; congruence.
Qed.

End origin.

Section shown.
Context (localeCompare : jstr -> jstr -> Z) (dataScheme : list (option nat * list jsval)).
Context (rows : list FlowQuotaDataItem) (metric : FlowMetric) (r : FlowRole) (palette : option (list jstr)).
Context (vis : option (list FlowNodeKind)) (ctx : FlowPathContext) (options : FlowGraphOptions).
Let ps := prepared_paths localeCompare rows metric (resolveVisibleStages r vis) ctx options.
Let g := buildFlowGraph localeCompare dataScheme rows metric r palette vis ctx options.

Lemma nodes_shown :
  NoDup (map n_id (g_nodes g)) /\
  (forall k, k ∈ map n_id (g_nodes g) <-> exists p, p ∈ ps /\ through k p = true) /\
  (forall n, n ∈ g_nodes g ->
     [n_value n; n_requests n; n_quota n; n_tokens n] = amounts_of metric (bfilter (through (n_id n)) ps)).
Proof.
  pose proof (prepared_ok localeCompare rows metric r vis ctx options) as Hok.
  destruct (graph_cores localeCompare dataScheme rows metric r palette vis ctx options) as (colors & Hn & _).
  fold ps g in Hn, Hok. pose proof (perm_map_core node_core n_id (fun c => fst (fst c)) _ _ (fun _ => eq_refl) Hn) as Hid.
  assert (map n_id (map snd (graph_nodes dataScheme metric colors palette ps)) =
          map fst (graph_nodes dataScheme metric colors palette ps)) as Ek.
  { rewrite map_map. apply map_ext_in. intros [k n] H%list_elem_of_In.
    by apply (graph_node_spec dataScheme metric colors palette _ ps Hok) in H as [? _]. }
  rewrite Ek in Hid. split_and!.
  - rewrite Hid. apply visited_nodup.
  - intros k. rewrite Hid. apply visited_keys.
  - intros n H. destruct (perm_core node_core _ _ n Hn H) as (n' & H' & [= E1 E2 E3 E4 E5 E6]).
    apply elem_of_lmap in H' as ([k n0] & H' & ->). cbn [snd] in *.
    apply (graph_node_spec dataScheme metric colors palette _ ps Hok) in H' as (<- & Ha & _). congruence.
Qed.

Lemma links_shown :
  NoDup (map linkStableKey (g_links g)) /\
  (forall k, k ∈ map linkStableKey (g_links g) <-> exists p, p ∈ ps /\ crosses k p = true) /\
  (forall l, l ∈ g_links g ->
     [l_value l; l_requests l; l_quota l; l_tokens l] = amounts_of metric (bfilter (crosses (linkStableKey l)) ps) /\
     exists p a b, p ∈ ps /\ (a, b) ∈ steps_of (pp_path p) /\ l_source l = pn_id a /\ l_target l = pn_id b).
Proof.
  pose proof (prepared_ok localeCompare rows metric r vis ctx options) as Hok.
  destruct (graph_cores localeCompare dataScheme rows metric r palette vis ctx options) as (colors & _ & Hl).
  fold ps g in Hl, Hok.
  pose proof (perm_map_core link_core linkStableKey (fun c => fst (fst c) ++ [0%N] ++ snd (fst c)) _ _ (fun _ => eq_refl) Hl) as Hid.
  assert (map linkStableKey (map snd (graph_links dataScheme metric colors palette ps)) =
          map fst (graph_links dataScheme metric colors palette ps)) as Ek.
  { rewrite map_map. apply map_ext_in. intros [k n] H%list_elem_of_In.
    by apply (graph_link_spec dataScheme metric colors palette _ ps Hok) in H as [? _]. }
  rewrite Ek in Hid. split_and!.
  - rewrite Hid. apply visited_nodup.
  - intros k. rewrite Hid. unfold graph_links. rewrite visited_keys. by setoid_rewrite crosses_item.
  - intros n H. destruct (perm_core link_core _ _ n Hl H) as (n' & H' & [= E1 E2 E3 E4 E5 E6]).
    apply elem_of_lmap in H' as ([k n0] & H' & ->). cbn [snd] in *.
    apply (graph_link_spec dataScheme metric colors palette _ ps Hok) in H' as (Ek' & Ha & p & a & b & Hp & Hab & Es & Et & _).
    assert (linkStableKey n = k) as -> by (rewrite <- Ek'; unfold linkStableKey; congruence).
    split; [congruence|]. exists p, a, b. split_and!; congruence.
Qed.
End shown.

(** C39. The graph shows the totals of the rows: every node is there once, exactly for
    the ids on the paths of the prepared rows, and its value, requests, quota and tokens
    are the sums over the rows whose path passes through it, in their order; every link
    is there once, for the pairs of neighbours on a path, with the sums over the rows
    that take that step. *)
Theorem flow_totals localeCompare dataScheme rows metric r palette vis ctx options :
  let ps := prepared_paths localeCompare rows metric (resolveVisibleStages r vis) ctx options in
  let g := buildFlowGraph localeCompare dataScheme rows metric r palette vis ctx options in
  (NoDup (map n_id (g_nodes g)) /\
   (forall k, k ∈ map n_id (g_nodes g) <-> exists p, p ∈ ps /\ through k p = true) /\
   (forall n, n ∈ g_nodes g ->
      [n_value n; n_requests n; n_quota n; n_tokens n] = amounts_of metric (bfilter (through (n_id n)) ps))) /\
  (NoDup (map linkStableKey (g_links g)) /\
   (forall k, k ∈ map linkStableKey (g_links g) <-> exists p, p ∈ ps /\ crosses k p = true) /\
   (forall l, l ∈ g_links g ->
      [l_value l; l_requests l; l_quota l; l_tokens l] = amounts_of metric (bfilter (crosses (linkStableKey l)) ps))).
Proof.
  intros ps g. split; [apply nodes_shown|]. pose proof (links_shown localeCompare dataScheme rows metric r palette vis ctx options)
    as (H1 & H2 & H3). split_and!; [done..|]. intros l Hl. by apply H3.
Qed.

(** ** The limit of a stage *)

Lemma m_get_map {K V W} `{EqDecision K} (f : V -> W) k (m : list (K * V)) :
  m_get k (map (fun '(k, v) => (k, f v)) m) = f <$> m_get k m.
Proof. induction m as [|[k' v] m IH]; [done|]. simpl. by case_bool_decide. Qed.

Lemma m_set_is_Some {K V} `{EqDecision K} (k k' : K) (v : V) m : is_Some (m_get k m) -> is_Some (m_get k (m_set k' v m)).
Proof. rewrite m_get_set. case_bool_decide; eauto. Qed.

Section limit.
Context (localeCompare : jstr -> jstr -> Z).

Lemma add_ranks_keeps value path totals k :
  is_Some (m_get k totals) -> is_Some (m_get k (fold_left (add_rank value) path totals)).
Proof.
  revert totals. induction path as [|n path IH]; intros totals H; [done|]. simpl. apply IH. unfold add_rank.
  destruct (m_get (pn_kind n) totals); [|done]. by apply m_set_is_Some.
Qed.

Lemma totals_of_stage rows metric stages ctx k :
  k ∈ stages ->
  is_Some (m_get k (fold_left (add_row_ranks metric stages ctx) rows (fold_left (fun t stage => m_set stage [] t) stages []))).
Proof.
  intros Hk. assert (forall t : list (FlowNodeKind * list (jstr * FlowNodeRank)), is_Some (m_get k t) ->
    is_Some (m_get k (fold_left (add_row_ranks metric stages ctx) rows t))) as Hrows.
  { induction rows as [|row rows IH]; intros t Ht; [done|]. simpl. apply IH. by apply add_ranks_keeps. }
  apply Hrows. assert (forall l (t : list (FlowNodeKind * list (jstr * FlowNodeRank))), k ∈ l \/ is_Some (m_get k t) ->
    is_Some (m_get k (fold_left (fun t stage => m_set stage [] t) l t))) as H; [|by apply H; left].
  induction l as [|s l IH]; intros t [Hl | Ht]; [by apply elem_of_nil in Hl|done| |].
  - simpl. apply IH. apply elem_of_cons in Hl as [-> | Hl]; [|by left]. right. rewrite m_get_set, bool_decide_true; eauto.
  - simpl. apply IH. right. by apply m_set_is_Some.
Qed.

Lemma slice_length {A} limit (l : list A) : (length (slice_to limit l) <= N.to_nat limit)%nat.
Proof. unfold slice_to. rewrite length_take. lia. Qed.

Lemma dedup_length {A} `{EqDecision A} (l : list A) : (length (dedup l) <= length l)%nat.
Proof.
  unfold dedup. generalize (@nil A) at 1. induction l as [|x l IH]; intros seen; simpl; [lia|].
  case_bool_decide; simpl; [pose proof (IH seen)|pose proof (IH (seen ++ [x]))]; lia.
Qed.

(** The ids kept for a stage are at most the limit. *)
Lemma top_set rows metric stages ctx limit k :
  k ∈ stages ->
  exists sets ids, buildTopNodeSets localeCompare rows metric stages (Some limit) ctx = Some sets /\
    m_get k sets = Some ids /\ (length ids <= N.to_nat limit)%nat.
Proof.
  intros Hk. destruct (totals_of_stage rows metric stages ctx k Hk) as [st Hst]. unfold buildTopNodeSets.
  eexists _, (top_ids localeCompare limit st). split; [reflexivity|]. rewrite m_get_map, Hst. split; [reflexivity|].
  unfold top_ids. etransitivity; [apply dedup_length|]. rewrite length_map. apply slice_length.
Qed.

(** A node of a limited path is one of the kept ones, or stands for the others. *)
Lemma limited_nodes path sets mode labeler path' x :
  applyTopNodeLimit path (Some sets) mode labeler = Some path' -> x ∈ path' ->
  isTopFlowNode x sets = true \/ mode = Aggregate /\ pn_id x = OTHER_FLOW_NODE_IDS (pn_kind x).
Proof.
  unfold applyTopNodeLimit. destruct (existsb _ path) eqn:E; simpl.
  - destruct mode; [|done]. intros [= <-]. rewrite elem_of_lmap. intros (n & Hn & ->).
    destruct (isTopFlowNode n sets) eqn:Et; [by left|right; done].
  - intros [= <-] Hx. left. rewrite existsb_none in E. specialize (E x Hx). by apply negb_false_iff in E.
Qed.
End limit.

(** C18. A limit bounds every stage: with a limit on the nodes of a stage, the graph has at
    most that many nodes of each kind when the rest is hidden, and at most one more, the
    node that stands for the others, when it is aggregated. *)
Theorem stage_bounded localeCompare dataScheme rows metric r palette vis ctx options limit k :
  normalizeTopNodeLimit (go_topNodeLimit options) = Some limit ->
  let g := buildFlowGraph localeCompare dataScheme rows metric r palette vis ctx options in
  (length (bfilter (fun n => bool_decide (n_kind n = k)) (g_nodes g)) <=
   N.to_nat limit + match go_overflowMode options with Some Hide => 0 | _ => 1 end)%nat.
Proof.
  intros Hlim g. set (stages := resolveVisibleStages r vis).
  set (ps := prepared_paths localeCompare rows metric stages ctx options).
  pose proof (prepared_ok localeCompare rows metric r vis ctx options) as Hok. fold stages ps in Hok.
  set (ns := bfilter _ _).
  assert (forall n, n ∈ ns -> exists p x, p ∈ ps /\ x ∈ pp_path p /\ pn_id x = n_id n /\ pn_kind x = k) as Hx.
  { intros n Hin. unfold ns in Hin. apply elem_of_bfilter in Hin as [Hin Hk]. apply bool_decide_eq_true in Hk as <-.
    by apply node_origin in Hin. }
  assert (NoDup (map n_id ns)) as Hnd.
  { eapply sublist_NoDup; [apply (nodes_shown localeCompare dataScheme rows metric r palette vis ctx options)|].
    apply (fmap_sublist n_id), bfilter_sublist. }
  destruct ns as [|n0 ns0] eqn:Ens; [simpl; lia|]. rewrite <- Ens in *.
  assert (k ∈ stages) as Hk.
  { destruct (Hx n0) as (p & x & Hp & Hxp & _ & <-); [rewrite Ens; left|]. destruct Hok as [_ Hok]. rewrite Forall_forall in Hok.
    destruct (Hok p Hp) as [<- _]. rewrite elem_of_lmap. eauto. }
  destruct (top_set localeCompare rows metric stages ctx limit k Hk) as (sets & ids & Hsets & Hids & Hlen).
  set (more := match go_overflowMode options with Some Hide => [] | _ => [OTHER_FLOW_NODE_IDS k] end).
  assert (map n_id ns ⊆ ids ++ more) as Hsub.
  { intros id Hid. apply elem_of_lmap in Hid as (n & Hin & ->). destruct (Hx n Hin) as (p & x & Hp & Hxp & <- & Ek).
    unfold ps, prepared_paths, prepare in Hp. rewrite Hlim, Hsets in Hp. apply list_elem_of_omap in Hp as (row & _ & Hp).
    apply fmap_Some in Hp as (path & Hp & ->). simpl in Hxp. apply elem_of_app.
    destruct (limited_nodes _ _ _ _ _ x Hp Hxp) as [Ht | [Hm He]].
    - left. unfold isTopFlowNode in Ht. rewrite Ek, Hids in Ht. by apply bool_decide_eq_true in Ht.
    - right. rewrite Ek in He. rewrite He. unfold more. destruct (go_overflowMode options) as [[|]|]; [left|done|left]. }
  assert (length (map n_id ns) <= length (ids ++ more))%nat as Hle.
  { apply List.NoDup_incl_length; [by apply NoDup_ListNoDup|]. intros x. rewrite <- !list_elem_of_In. apply Hsub. }
  rewrite length_map, length_app in Hle. unfold more in Hle.
  destruct (go_overflowMode options) as [[|]|]; simpl in Hle; lia.
Qed.

(** ** Masking *)

Definition node_text (n : DashboardFlowNode) : jstr * FlowNodeKind * jstr := (n_id n, n_kind n, n_label n).
Definition link_text (l : DashboardFlowLink) : jstr * jstr * (jstr * jstr) :=
  (l_source l, l_target l, (l_sourceLabel l, l_targetLabel l)).

Definition hidden (label : jstr) : Prop := label = [] \/ label = FLOW_MASK_TEXT.

Lemma mask_hides label : hidden (maskFlowLabel label).
Proof. destruct label; [by left|by right]. Qed.

Lemma color_group_text localeCompare ls g : map link_text (color_group localeCompare ls g) = map link_text ls.
Proof.
  unfold color_group. set (f := fun _ _ => _). generalize (imap (fun i l => (i, l)) (js_sort (link_le localeCompare) g)).
  intros xs. revert ls. induction xs as [|[i l] xs IH]; intros ls; [done|]. cbn [fold_left]. rewrite IH. unfold f.
  destruct (alphaColor _ _) as [c a]. unfold update_link. apply map_core. intros x. by case_match.
Qed.

Lemma assign_text localeCompare ls : map link_text (assignLinkDisplayColors localeCompare ls) = map link_text ls.
Proof.
  unfold assignLinkDisplayColors. generalize (map snd (tally l_source (fun _ => []) (fun g l => g ++ [l]) ls)). intros gs.
  revert ls. induction gs as [|g gs IH]; intros l; [done|]. cbn [fold_left]. by rewrite IH, color_group_text.
Qed.

(** Every masked node is in the table of masked labels, and the table hides them. *)
Lemma masked_labels_spec (ns : list (jstr * DashboardFlowNode)) :
  (forall n, n ∈ map snd ns -> is_masked n = true -> is_Some (m_get (n_id n) (masked_labels ns))) /\
  (forall k v, m_get k (masked_labels ns) = Some v -> hidden v).
Proof.
  unfold masked_labels. set (f := fun m n => _). generalize (map snd ns). intros l.
  assert (forall m, (forall k v, m_get k m = Some v -> hidden v) ->
    (forall n, (n ∈ l /\ is_masked n = true) \/ is_Some (m_get (n_id n) m) -> is_Some (m_get (n_id n) (fold_left f l m))) /\
    (forall k v, m_get k (fold_left f l m) = Some v -> hidden v)) as H.
  { induction l as [|x l IH]; intros m Hm; [split; [intros n [[Hn _] | Hn]; [by apply elem_of_nil in Hn|done]|done]|].
    assert (forall k v, m_get k (f m x) = Some v -> hidden v) as Hfm.
    { intros k v. unfold f. destruct (is_masked x); [|apply Hm]. rewrite m_get_set. case_bool_decide; [|apply Hm].
      intros [= <-]. apply mask_hides. }
    destruct (IH (f m x) Hfm) as [H1 H2]. split; [|apply H2]. intros n Hn. simpl. apply H1.
    destruct Hn as [[Hn Hk] | Hn].
    - apply elem_of_cons in Hn as [-> | Hn]; [|by left]. right. unfold f. rewrite Hk, m_get_set, bool_decide_true by done. eauto.
    - right. unfold f. destruct (is_masked x); [by apply m_set_is_Some|done]. }
  destruct (H [] ltac:(done)) as [H1 H2]. split; [|done]. intros n Hn Hk. apply H1. by left.
Qed.

Section masked.
Context (localeCompare : jstr -> jstr -> Z) (dataScheme : list (option nat * list jsval)).
Context (rows : list FlowQuotaDataItem) (metric : FlowMetric) (r : FlowRole) (palette : option (list jstr)).
Context (vis : option (list FlowNodeKind)) (ctx : FlowPathContext) (options : FlowGraphOptions).

(** The texts of a masked graph are those of the masked maps. *)
Lemma masked_texts :
  go_maskSensitive options = true ->
  let g := buildFlowGraph localeCompare dataScheme rows metric r palette vis ctx options in
  exists ns ls,
  map node_text (g_nodes g) ≡ₚ map node_text (map mask_node ns) /\
  map link_text (g_links g) ≡ₚ
    map link_text (match masked_labels (map (fun n => (n_id n, n)) ns) with [] => ls | m => map (mask_link m) ls end).
Proof.
  intros Hm g. unfold g, buildFlowGraph. set (ps := prepared_paths _ _ _ _ _ _). set (colors := stableColorMap _ _ _).
  rewrite paths_added, Hm. set (ns := graph_nodes _ _ _ _ ps). set (ls := graph_links _ _ _ _ ps).
  exists (map snd ns), (map snd ls). unfold maskFlowGraphLabels. cbn [fst snd].
  assert (masked_labels (map (fun n => (n_id n, n)) (map snd ns)) = masked_labels ns) as ->.
  { unfold masked_labels. by rewrite !map_map. }
  set (sets := buildFlowHighlightSets _ _ _ _). clearbody sets.
  set (ls' := match masked_labels ns with [] => ls | _ => _ end).
  assert (map link_text (map snd ls') = map link_text (match masked_labels ns with [] => map snd ls | m => map (mask_link m) (map snd ls) end)) as El.
  { unfold ls'. destruct (masked_labels ns); [done|]. by rewrite on_values_snd. }
  rewrite <- El. cbn [g_nodes g_links]. split.
  - rewrite js_sort_perm. destruct sets as [sets|]; unfold applyFlowHighlights; cbn [fst]; rewrite ?on_values_snd; [|done].
    by rewrite map_core.
  - rewrite assign_text, map_core by done. rewrite js_sort_perm.
    destruct sets as [sets|]; unfold applyFlowHighlights; cbn [snd]; rewrite ?on_values_snd; [|done]. by rewrite map_core.
Qed.
End masked.

(** Masking hides: with masking on, the label of every node of a sensitive kind is
    empty or the mask, the nodes that stand for the others excepted, and so are the
    labels that every link shows for its two ends when they are such nodes. *)
Theorem sensitive_labels_hidden localeCompare dataScheme rows metric r palette vis ctx options n :
  let g := buildFlowGraph localeCompare dataScheme rows metric r palette vis ctx options in
  go_maskSensitive options = true -> n ∈ g_nodes g ->
  n_kind n ∈ SENSITIVE_FLOW_KINDS -> n_id n ∉ OTHER_FLOW_NODE_ID_SET ->
  hidden (n_label n) /\
  forall l, l ∈ g_links g ->
    (l_source l = n_id n -> hidden (l_sourceLabel l)) /\ (l_target l = n_id n -> hidden (l_targetLabel l)).
Proof.
  intros g Hm Hn Hk Ho. destruct (masked_texts localeCompare dataScheme rows metric r palette vis ctx options Hm) as (ns & ls & Hns & Hls).
  fold g in Hns, Hls. destruct (perm_core node_text _ _ n Hns Hn) as (n' & H' & [= E1 E2 E3]).
  apply elem_of_lmap in H' as (n0 & H0 & ->).
  assert (n_id (mask_node n0) = n_id n0 /\ n_kind (mask_node n0) = n_kind n0) as [I1 I2]
    by (unfold mask_node; by destruct (is_masked n0)).
  assert (is_masked n0 = true) as Hmask.
  { unfold is_masked. rewrite <- I1, <- I2, E1, E2. rewrite bool_decide_true, bool_decide_false by done. done. }
  split.
  { rewrite <- E3. unfold mask_node. rewrite Hmask. apply mask_hides. }
  destruct (masked_labels_spec (map (fun n => (n_id n, n)) ns)) as [S1 S2]. set (m := masked_labels _) in *.
  assert (is_Some (m_get (n_id n0) m)) as [lab Hlab].
  { apply S1; [|done]. rewrite elem_of_lmap. exists (n_id n0, n0). rewrite elem_of_lmap. eauto. }
  intros l Hl. destruct (perm_core link_text _ _ l Hls Hl) as (l' & Hl' & [= L1 L2 L3 L4]).
  destruct m as [|e m0] eqn:Em; [done|]. rewrite <- Em in *. apply elem_of_lmap in Hl' as (l0 & Hl0 & ->).
  rewrite <- L1, <- L2, <- L3, <- L4. unfold mask_link. cbn [l_source l_target l_sourceLabel l_targetLabel set_link_labels].
  rewrite <- E1, I1. split; intros ->; rewrite Hlab; by apply (S2 _ _ Hlab).
Qed.

(** ** An example

    The rows of the repository's own test, with a comparison of code units for the
    locale's. *)

Definition sample_row (user : Z) (name group : jstr) (channel : Z) (model : jstr) (q : Z) : FlowQuotaDataItem :=
  {| user_id := Some (num_of_Z user); username := Some name; node_name := None; use_group := Some group;
     token_id := None; token_name := None; channel_id := Some (num_of_Z channel); channel_name := None;
     model_name := Some model; token_used := None; count := None; quota := Some (num_of_Z q) |}.

Definition sample_rows : list FlowQuotaDataItem :=
  [sample_row 1 (js "alice") (js "vip") 101 (js "gpt-4.1") 100;
   sample_row 1 (js "alice") (js "vip") 102 (js "gpt-4.1") 50;
   sample_row 2 (js "bob") (js "default") 101 (js "claude-4-sonnet") 70].

Definition sample_options (limit : option Z) (mask : bool) : FlowGraphOptions :=
  {| go_topNodeLimit := num_of_Z <$> limit; go_overflowMode := None; go_otherNodeLabel := None;
     go_activeNode := None; go_activeLink := None; go_maskSensitive := mask |}.

Definition sample_graph (limit : option Z) (mask : bool) : DashboardFlowGraph :=
  buildFlowGraph unit_compare [] sample_rows MQuota RAdmin None None EMPTY_FLOW_PATH_CONTEXT (sample_options limit mask).

Example admin_flow :
  map (fun l => (l_source l, l_target l, int_value (l_value l))) (g_links (sample_graph None false)) =
  [(js "group:default", js "model:claude-4-sonnet", 70); (js "group:vip", js "model:gpt-4.1", 150);
   (js "model:claude-4-sonnet", js "channel:101", 70); (js "model:gpt-4.1", js "channel:101", 100);
   (js "model:gpt-4.1", js "channel:102", 50); (js "user:1", js "group:vip", 150); (js "user:2", js "group:default", 70)]%Z.
Proof. vm_compute. reflexivity. Qed.

Example limited_flow :
  map (fun n => (n_id n, n_label n, int_value (n_value n))) (g_nodes (sample_graph (Some 1%Z) true)) =
  [(js "channel:101", FLOW_MASK_TEXT, 170); (js "model:gpt-4.1", js "gpt-4.1", 150); (js "user:1", FLOW_MASK_TEXT, 150);
   (js "group:vip", FLOW_MASK_TEXT, 150); (js "group:__other__", js "Other groups", 70);
   (js "model:__other__", js "Other models", 70); (js "user:__other__", js "Other users", 70);
   (js "channel:__other__", js "Other channels", 50)]%Z.
Proof. vm_compute. reflexivity. Qed.

Lemma stage_bounded_witness :
  normalizeTopNodeLimit (go_topNodeLimit (sample_options (Some 1%Z) false)) = Some 1%N /\
  (length (bfilter (fun n => bool_decide (n_kind n = KUser)) (g_nodes (sample_graph (Some 1%Z) false))) <= 2)%nat.
Proof.
  assert (normalizeTopNodeLimit (go_topNodeLimit (sample_options (Some 1%Z) false)) = Some 1%N) as H by (vm_compute; reflexivity).
  split; [exact H|].
  exact (stage_bounded unit_compare [] sample_rows MQuota RAdmin None None EMPTY_FLOW_PATH_CONTEXT
    (sample_options (Some 1%Z) false) 1%N KUser H).
Defined.

Definition alice_node : DashboardFlowNode :=
  {| n_id := js "user:1"; n_label := FLOW_MASK_TEXT; n_kind := KUser; n_value := num_of_Z 150; n_requests := n_zero;
     n_quota := num_of_Z 150; n_tokens := n_zero; n_color := js "#1664FF"; n_colorKey := js "user:1";
     n_highlighted := None; n_dimmed := None |}.

Lemma sensitive_labels_hidden_witness : alice_node ∈ g_nodes (sample_graph None true) /\ hidden (n_label alice_node).
Proof.
  assert (find_first (fun n => n_id n =s js "user:1") (g_nodes (sample_graph None true)) = Some alice_node) as H
    by (vm_compute; reflexivity).
  apply find_first_Some in H as [_ H]. split; [exact H|].
  refine (proj1 (sensitive_labels_hidden unit_compare [] sample_rows MQuota RAdmin None None EMPTY_FLOW_PATH_CONTEXT
    (sample_options None true) alice_node eq_refl H _ _)).
  - vm_compute. left.
  - apply (bool_decide_unpack _). vm_compute. exact I.
Defined.
