(* ===== verification/FlowConservation.v ===== *)
(** * The flow view: nothing is lost between two stages

    For whole amounts within 2^53 the sums of the graph are exact, so every stage adds up
    to the rows shown, and what enters and leaves a node is what the node shows. *)

From Stdlib Require Import SpecFloat.
From S2P Require Import Prelude JsString JsNumber JsInteger JsMath Json JsMap DashboardFlow FlowFacts.

Open Scope Z_scope.

(** ** Whole amounts *)

Definition Zsum (l : list Z) : Z := foldr Z.add 0 l.

Lemma Zsum_app a b : Zsum (a ++ b) = Zsum a + Zsum b.
Proof. unfold Zsum. induction a as [|x a IH]; simpl; [done|]. rewrite IH. lia. Qed.

#[export] Instance Zsum_perm : Proper ((≡ₚ) ==> eq) Zsum.
Proof. intros a b. unfold Zsum. induction 1; simpl; lia. Qed.

Lemma Zsum_abs_ge l : Z.abs (Zsum l) <= Zsum (map Z.abs l).
Proof. unfold Zsum. induction l as [|x l IH]; simpl; lia. Qed.

(** The metric of a path as an integer. *)
Definition units (metric : FlowMetric) (p : PreparedFlowPath) : Z := int_value (metricValue (pp_metrics p) metric).

(** Every metric is a whole number and together they stay within 2^53. *)
Definition whole_amounts (metric : FlowMetric) (ps : list PreparedFlowPath) : Prop :=
  Forall (fun p => metricValue (pp_metrics p) metric = num_of_Z (units metric p)) ps /\
  Zsum (map Z.abs (map (units metric) ps)) < 2 ^ 53.

Lemma sum_whole metric ps :
  whole_amounts metric ps -> sum_of (fun m => metricValue m metric) ps = num_of_Z (Zsum (map (units metric) ps)).
Proof.
  intros [Hw Hs]. unfold sum_of. assert (forall a, Z.abs a + Zsum (map Z.abs (map (units metric) ps)) < 2 ^ 53 ->
    fold_left (fun s p => n_add s (metricValue (pp_metrics p) metric)) ps (num_of_Z a) =
    num_of_Z (a + Zsum (map (units metric) ps))) as H; [|by apply (H 0); simpl; lia].
  clear Hs. induction Hw as [|p ps Hp _ IH]; intros a Ha; [simpl; f_equal; lia|]. cbn [map fold_left Zsum foldr] in *.
  fold (Zsum (map Z.abs (map (units metric) ps))) in Ha. fold (Zsum (map (units metric) ps)).
  pose proof (Zsum_abs_ge (map (units metric) ps)).
  rewrite Hp, add_exact by (unfold safe; lia). rewrite IH by lia. f_equal. lia.
Qed.

Lemma whole_filter metric f ps : whole_amounts metric ps -> whole_amounts metric (bfilter f ps).
Proof.
  intros [Hw Hs]. split.
  - rewrite Forall_forall in *. intros p Hp. apply elem_of_bfilter in Hp as [Hp _]. by apply Hw.
  - clear Hw. assert (Zsum (map Z.abs (map (units metric) (bfilter f ps))) <= Zsum (map Z.abs (map (units metric) ps))); [|lia].
    clear Hs. unfold Zsum. induction ps as [|p ps IH]; simpl; [lia|]. destruct (f p); simpl; lia.
Qed.

Lemma whole_value metric ps :
  whole_amounts metric ps -> int_value (sum_of (fun m => metricValue m metric) ps) = Zsum (map (units metric) ps).
Proof.
  intros H. rewrite sum_whole by done. apply int_of_Z. destruct H as [_ H]. unfold safe.
  pose proof (Zsum_abs_ge (map (units metric) ps)). lia.
Qed.

(** ** Partitions *)

Lemma unique_count {A} `{EqDecision A} (sel : A -> bool) ks k0 :
  NoDup ks -> k0 ∈ ks -> (forall k, k ∈ ks -> sel k = true <-> k = k0) -> length (bfilter sel ks) = 1%nat.
Proof.
  intros Hnd Hk Hs. induction Hnd as [|k ks Hn Hnd IH]; [by apply elem_of_nil in Hk|].
  cbn [bfilter]. destruct (sel k) eqn:E.
  - apply Hs in E; [|left]. subst. assert (bfilter sel ks = []) as ->; [|done]. apply bfilter_nil_iff, Forall_forall.
    intros k Hin. destruct (sel k) eqn:E; [|done]. apply Hs in E; [|by right]. by subst.
  - apply elem_of_cons in Hk as [-> | Hk]; [|apply IH; [done|]; intros; apply Hs; by right].
    assert (sel k = true) by (apply Hs; [left|done]). congruence.
Qed.

(** Counting every path under the keys that select it. *)
Lemma sum_partition {A} (ks : list A) (sel : A -> PreparedFlowPath -> bool) (tot : PreparedFlowPath -> bool) ps
    (f : PreparedFlowPath -> Z) :
  Forall (fun p => length (bfilter (fun k => sel k p) ks) = if tot p then 1%nat else 0%nat) ps ->
  Zsum (map (fun k => Zsum (map f (bfilter (sel k) ps))) ks) = Zsum (map f (bfilter tot ps)).
Proof.
  induction 1 as [|p ps Hp _ IH]; [clear; by induction ks|].
  assert (Zsum (map (fun k => Zsum (map f (bfilter (sel k) (p :: ps)))) ks) =
    f p * Z.of_nat (length (bfilter (fun k => sel k p) ks)) + Zsum (map (fun k => Zsum (map f (bfilter (sel k) ps))) ks)) as ->.
  { assert (forall k, Zsum (map f (bfilter (sel k) (p :: ps))) = (if sel k p then f p else 0) + Zsum (map f (bfilter (sel k) ps))) as H.
    { intros k. cbn [bfilter]. by destruct (sel k p). }
    assert (forall F G : A -> Z, (forall k, F k = (if sel k p then f p else 0) + G k) ->
      Zsum (map F ks) = f p * Z.of_nat (length (bfilter (fun k => sel k p) ks)) + Zsum (map G ks)) as HG; [|by apply HG].
    clear. intros F G H. unfold Zsum. induction ks as [|k ks IH]; simpl; [lia|]. rewrite H, IH. destruct (sel k p); cbn [length]; lia. }
  rewrite Hp, IH. unfold Zsum. cbn [bfilter]. destruct (tot p); simpl; lia.
Qed.

Lemma split_at_nul (a a' b b' : jstr) : 0%N ∉ a -> 0%N ∉ a' -> a ++ [0%N] ++ b = a' ++ [0%N] ++ b' -> a = a' /\ b = b'.
Proof.
  revert a'. induction a as [|x a IH]; intros [|x' a'] Ha Ha' E; simpl in *.
  - by injection E.
  - injection E as <- _. set_solver.
  - injection E as -> _. set_solver.
  - injection E as -> E. destruct (IH a') as [-> ->]; [set_solver..|done|done].
Qed.

Lemma bool_decide_iff (P : Prop) `{Decision P} : bool_decide P = true <-> P.
Proof. apply bool_decide_eq_true. Qed.

Section conservation.
Context (localeCompare : jstr -> jstr -> Z) (dataScheme : list (option nat * list jsval)).
Context (rows : list FlowQuotaDataItem) (metric : FlowMetric) (r : FlowRole) (palette : option (list jstr)).
Context (vis : option (list FlowNodeKind)) (ctx : FlowPathContext) (options : FlowGraphOptions).
Let stages := resolveVisibleStages r vis.
Let ps := prepared_paths localeCompare rows metric stages ctx options.
Let g := buildFlowGraph localeCompare dataScheme rows metric r palette vis ctx options.

Lemma paths_are_ok p : p ∈ ps -> NoDup stages /\ path_ok stages (pp_path p).
Proof.
  destruct (prepared_ok localeCompare rows metric r vis ctx options) as [Hs Hp]. rewrite Forall_forall in Hp.
  intros H. split; [done|]. by apply Hp.
Qed.

Lemma path_node_of p k : p ∈ ps -> k ∈ stages -> exists x, x ∈ pp_path p /\ pn_kind x = k.
Proof.
  intros Hp Hk. destruct (paths_are_ok p Hp) as [_ [<- _]]. apply elem_of_lmap in Hk as (x & Hx & ->). eauto.
Qed.

Lemma path_kind_inj p x y : p ∈ ps -> x ∈ pp_path p -> y ∈ pp_path p -> pn_kind x = pn_kind y -> x = y.
Proof.
  intros Hp Hx Hy E. destruct (paths_are_ok p Hp) as [Hs [Hm _]]. rewrite <- Hm in Hs. clear Hm Hp.
  induction (pp_path p) as [|a t IH]; [by apply elem_of_nil in Hx|]. simpl in Hs. apply NoDup_cons in Hs as [Ha Hs].
  rewrite elem_of_cons in Hx, Hy. destruct Hx as [-> | Hx], Hy as [-> | Hy]; try done; [| |auto]; exfalso; apply Ha;
    rewrite elem_of_lmap; eauto.
Qed.

Lemma path_id_ok p x : p ∈ ps -> x ∈ pp_path p -> id_ok x.
Proof. intros Hp Hx. destruct (paths_are_ok p Hp) as [_ [_ Hi]]. rewrite Forall_forall in Hi. auto. Qed.

Definition of_kind (k : FlowNodeKind) : list DashboardFlowNode := bfilter (fun n => bool_decide (n_kind n = k)) (g_nodes g).

(** Each path passes through exactly one node of a stage. *)
Lemma stage_count k p : k ∈ stages -> p ∈ ps ->
  length (bfilter (fun id => through id p) (map n_id (of_kind k))) = 1%nat.
Proof.
  intros Hk Hp. destruct (path_node_of p k Hp Hk) as (x & Hx & Ek).
  destruct (nodes_shown localeCompare dataScheme rows metric r palette vis ctx options) as (Hnd & Hin & _). fold ps g in Hnd, Hin.
  apply (unique_count _ _ (pn_id x)).
  - eapply sublist_NoDup; [exact Hnd|]. apply (fmap_sublist n_id), bfilter_sublist.
  - assert (pn_id x ∈ map n_id (g_nodes g)) as H.
    { apply Hin. exists p. split; [done|]. apply bool_decide_eq_true. rewrite elem_of_lmap. eauto. }
    apply elem_of_lmap in H as (n & Hn & E). rewrite elem_of_lmap. exists n. split; [|done]. apply elem_of_bfilter.
    split; [done|]. apply bool_decide_eq_true. destruct (node_origin _ _ _ _ _ _ _ _ _ n Hn) as (q & y & Hq & Hy & Eid & Eky).
    rewrite <- Eky, <- Ek. apply id_kind; [by apply (path_id_ok q)|by apply (path_id_ok p)|congruence].
  - intros id Hid. apply elem_of_lmap in Hid as (n & Hn & ->). unfold of_kind in Hn. apply elem_of_bfilter in Hn as [Hn Hkn].
    apply bool_decide_eq_true in Hkn. unfold through. rewrite bool_decide_eq_true. split; [|intros ->; rewrite elem_of_lmap; eauto].
    intros H. apply elem_of_lmap in H as (y & Hy & E). rewrite E. f_equal. apply (path_kind_inj p); [done..|].
    destruct (node_origin _ _ _ _ _ _ _ _ _ n Hn) as (q & z & Hq & Hz & Eid & Ekz).
    rewrite Ek, <- Hkn, <- Ekz. apply id_kind; [by apply (path_id_ok p)|by apply (path_id_ok q)|congruence].
Qed.

Hypothesis Hwhole : whole_amounts metric ps.

Lemma node_units n : n ∈ g_nodes g -> int_value (n_value n) = Zsum (map (units metric) (bfilter (through (n_id n)) ps)).
Proof.
  intros Hn. destruct (nodes_shown localeCompare dataScheme rows metric r palette vis ctx options) as (_ & _ & H).
  specialize (H n Hn). fold ps in H. injection H as -> _ _ _. apply whole_value. by apply whole_filter.
Qed.

Lemma link_units l : l ∈ g_links g -> int_value (l_value l) = Zsum (map (units metric) (bfilter (crosses (linkStableKey l)) ps)).
Proof.
  intros Hl. destruct (links_shown localeCompare dataScheme rows metric r palette vis ctx options) as (_ & _ & H).
  destruct (H l Hl) as [H1 _]. fold ps in H1. injection H1 as -> _ _ _. apply whole_value. by apply whole_filter.
Qed.

Lemma stage_total k : k ∈ stages -> Zsum (map (fun n => int_value (n_value n)) (of_kind k)) = Zsum (map (units metric) ps).
Proof.
  intros Hk.
  transitivity (Zsum (map (fun id => Zsum (map (units metric) (bfilter (through id) ps))) (map n_id (of_kind k)))).
  - rewrite map_map. f_equal. apply map_ext_in. intros n Hn%list_elem_of_In. apply node_units.
    unfold of_kind in Hn. by apply elem_of_bfilter in Hn as [? _].
  - rewrite (sum_partition _ through (fun _ => true)).
    + by rewrite bfilter_id by (by apply Forall_forall).
    + apply Forall_forall. intros p Hp. by apply stage_count.
Qed.

(** No name has the unit that separates the two ends of a link's key. *)
Hypothesis Hplain : Forall (fun p => Forall (fun x => 0%N ∉ pn_id x) (pp_path p)) ps.

Lemma path_plain p x : p ∈ ps -> x ∈ pp_path p -> 0%N ∉ pn_id x.
Proof. intros Hp Hx. rewrite Forall_forall in Hplain. specialize (Hplain p Hp). rewrite Forall_forall in Hplain. auto. Qed.

(** A step with the key of a link has its ends. *)
Lemma crossing_ends l p : l ∈ g_links g -> p ∈ ps ->
  crosses (linkStableKey l) p = true <->
  exists a b, (a, b) ∈ steps_of (pp_path p) /\ pn_id a = l_source l /\ pn_id b = l_target l.
Proof.
  intros Hl Hp. destruct (links_shown localeCompare dataScheme rows metric r palette vis ctx options) as (_ & _ & H).
  destruct (H l Hl) as (_ & q & c & d & Hq & Hcd & Es & Et). unfold crosses. rewrite bool_decide_eq_true, elem_of_lmap. split.
  - intros ([a b] & Hab & E). exists a, b. split; [done|]. apply steps_fst in Hcd as [Hc Hd]. pose proof Hab as [Ha Hb]%steps_fst.
    symmetry in E. apply split_at_nul in E as [-> ->]; [done|by apply (path_plain p)|]. rewrite Es. by apply (path_plain q).
  - intros (a & b & Hab & Ea & Eb). exists (a, b). split; [done|]. unfold linkStableKey, pathLinkKey. congruence.
Qed.

Lemma link_of_step p a b : p ∈ ps -> (a, b) ∈ steps_of (pp_path p) ->
  exists l, l ∈ g_links g /\ l_source l = pn_id a /\ l_target l = pn_id b.
Proof.
  intros Hp Hab. destruct (links_shown localeCompare dataScheme rows metric r palette vis ctx options) as (_ & Hin & _).
  fold ps g in Hin. assert (pathLinkKey a b ∈ map linkStableKey (g_links g)) as H.
  { apply Hin. exists p. split; [done|]. unfold crosses. rewrite bool_decide_eq_true, elem_of_lmap. by exists (a, b). }
  apply elem_of_lmap in H as (l & Hl & E). exists l. split; [done|].
  assert (crosses (linkStableKey l) p = true) as Hc.
  { rewrite <- E. unfold crosses. rewrite bool_decide_eq_true, elem_of_lmap. by exists (a, b). }
  apply crossing_ends in Hc as (a' & b' & Hab' & Ea & Eb); [|done..].
  pose proof Hab as [Ha Hb]%steps_fst. pose proof Hab' as [Ha' Hb']%steps_fst.
  unfold linkStableKey, pathLinkKey in E. rewrite <- Ea, <- Eb in E.
  apply split_at_nul in E as [E1 E2]; [|by apply (path_plain p)..]. split; congruence.
Qed.

(** ** Links in and out *)

Definition links_from (id : jstr) : list DashboardFlowLink := bfilter (fun l => l_source l =s id) (g_links g).
Definition links_to (id : jstr) : list DashboardFlowLink := bfilter (fun l => l_target l =s id) (g_links g).

(** One end of the links: which end of a link and of a step it is. *)
Record end_of := { link_end : DashboardFlowLink -> jstr; step_end : FlowPathNode * FlowPathNode -> FlowPathNode;
                   ends : list FlowNodeKind }.
Definition source_end : end_of := {| link_end := l_source; step_end := fst; ends := removelast stages |}.
Definition target_end : end_of := {| link_end := l_target; step_end := snd; ends := tail stages |}.

Lemma ends_of_path e p : e ∈ [source_end; target_end] -> p ∈ ps ->
  map (fun s => pn_kind (step_end e s)) (steps_of (pp_path p)) = ends e.
Proof.
  intros He Hp. destruct (paths_are_ok p Hp) as [_ [Hk _]]. rewrite elem_of_cons, list_elem_of_singleton in He.
  destruct He as [-> | ->]; simpl; rewrite <- Hk.
  - rewrite <- map_map, steps_sources. clear. induction (pp_path p) as [|x [|y t] IH]; [done..|].
    change (pn_kind x :: map pn_kind (removelast (y :: t)) = pn_kind x :: removelast (map pn_kind (y :: t))). by rewrite IH.
  - rewrite <- map_map, steps_targets. by destruct (pp_path p).
Qed.

Lemma ends_nodup e : e ∈ [source_end; target_end] -> NoDup (ends e).
Proof.
  pose proof (stages_nodup r vis : NoDup stages) as Hs. rewrite elem_of_cons, list_elem_of_singleton. intros [-> | ->]; simpl.
  - eapply sublist_NoDup; [exact Hs|apply removelast_sublist].
  - destruct stages; [constructor|]. by apply NoDup_cons in Hs as [_ ?].
Qed.

Lemma step_end_on_path e p s : e ∈ [source_end; target_end] -> s ∈ steps_of (pp_path p) -> step_end e s ∈ pp_path p.
Proof.
  rewrite elem_of_cons, list_elem_of_singleton. destruct s as [a b]. intros [-> | ->] [Ha Hb]%steps_fst; done.
Qed.

Lemma crossing_end e l p s : e ∈ [source_end; target_end] -> s ∈ steps_of (pp_path p) ->
  pn_id (fst s) = l_source l -> pn_id (snd s) = l_target l -> pn_id (step_end e s) = link_end e l.
Proof. rewrite elem_of_cons, list_elem_of_singleton. by intros [-> | ->] _ ? ?. Qed.

(** A step is known by the kind of one of its ends. *)
Lemma step_by_end e p s s' : e ∈ [source_end; target_end] -> p ∈ ps ->
  s ∈ steps_of (pp_path p) -> s' ∈ steps_of (pp_path p) -> step_end e s = step_end e s' -> s = s'.
Proof.
  intros He Hp Hs Hs' E. pose proof (ends_nodup e He) as Hnd. rewrite <- (ends_of_path e p He Hp) in Hnd. clear Hp.
  induction (steps_of (pp_path p)) as [|t ts IH]; [by apply elem_of_nil in Hs|]. cbn [map] in Hnd.
  apply NoDup_cons in Hnd as [Hn Hnd]. rewrite elem_of_cons in Hs, Hs'.
  destruct Hs as [-> | Hs], Hs' as [-> | Hs']; [done| | |auto]; exfalso; apply Hn; rewrite elem_of_lmap; eexists; split; [done| |done|];
    by rewrite E.
Qed.

(** A path through a node takes exactly one of its links on a side, other paths none. *)
Lemma end_count e n p : e ∈ [source_end; target_end] -> n ∈ g_nodes g -> n_kind n ∈ ends e -> p ∈ ps ->
  length (bfilter (fun k => crosses k p)
    (map linkStableKey (bfilter (fun l => link_end e l =s n_id n) (g_links g)))) = if through (n_id n) p then 1%nat else 0%nat.
Proof.
  intros He Hn Hk Hp. destruct (links_shown localeCompare dataScheme rows metric r palette vis ctx options) as (Hnd & _ & _).
  fold g in Hnd. destruct (node_origin _ _ _ _ _ _ _ _ _ n Hn) as (q & z & Hq & Hz & Ez & Ekz).
  set (ls := bfilter _ (g_links g)).
  assert (forall k, k ∈ map linkStableKey ls -> crosses k p = true ->
    exists s, s ∈ steps_of (pp_path p) /\ pn_id (step_end e s) = n_id n /\ pathLinkKey (fst s) (snd s) = k) as Hcross.
  { intros k Hkin Hc. apply elem_of_lmap in Hkin as (l & Hl & ->). unfold ls in Hl. apply elem_of_bfilter in Hl as [Hl El].
    apply jeqb_eq in El. apply crossing_ends in Hc as (a & b & Hab & Ea & Eb); [|done..]. exists (a, b). split; [done|].
    split; [by rewrite (crossing_end e l p (a, b))|]. unfold pathLinkKey, linkStableKey. simpl. congruence. }
  destruct (through (n_id n) p) eqn:Et.
  - unfold through in Et. apply bool_decide_eq_true, elem_of_lmap in Et as (x & Hx & Ex).
    assert (pn_kind x = n_kind n) as Ekx.
    { rewrite <- Ekz. apply id_kind; [by apply (path_id_ok p)|by apply (path_id_ok q)|congruence]. }
    rewrite <- (ends_of_path e p He Hp), <- Ekx in Hk. apply elem_of_lmap in Hk as (s & Hs & Eks).
    assert (step_end e s = x) as Es by (apply (path_kind_inj p); [done|by apply step_end_on_path|done|done]).
    apply (unique_count _ _ (pathLinkKey (fst s) (snd s))).
    + eapply sublist_NoDup; [exact Hnd|]. apply (fmap_sublist linkStableKey), bfilter_sublist.
    + destruct s as [a b]. destruct (link_of_step p a b Hp Hs) as (l & Hl & El1 & El2). rewrite elem_of_lmap. exists l.
      split; [|unfold linkStableKey, pathLinkKey; simpl; congruence]. unfold ls. apply elem_of_bfilter. split; [done|].
      apply jeqb_eq. rewrite <- (crossing_end e l p (a, b)); [congruence|done..].
    + intros k Hkin. split; [|intros ->; unfold crosses; rewrite bool_decide_eq_true, elem_of_lmap; by exists s; destruct s].
      intros Hc. destruct (Hcross k Hkin Hc) as (s' & Hs' & Es' & <-). destruct (paths_are_ok p Hp) as [Hst Hpo].
      assert (step_end e s' = step_end e s) as Ess.
      { apply (path_id_inj stages (pp_path p)); [done|done|by apply step_end_on_path..|congruence]. }
      by rewrite (step_by_end e p s' s).
  - assert (bfilter (fun k => crosses k p) (map linkStableKey ls) = []) as ->; [|done].
    apply bfilter_nil_iff, Forall_forall. intros k Hkin. destruct (crosses k p) eqn:Hc; [|done].
    destruct (Hcross k Hkin Hc) as (s & Hs & Es & _). unfold through in Et. apply bool_decide_eq_false in Et. exfalso. apply Et.
    rewrite elem_of_lmap. exists (step_end e s). split; [by apply step_end_on_path|done].
Qed.

Lemma end_total e n : e ∈ [source_end; target_end] -> n ∈ g_nodes g -> n_kind n ∈ ends e ->
  Zsum (map (fun l => int_value (l_value l)) (bfilter (fun l => link_end e l =s n_id n) (g_links g))) = int_value (n_value n).
Proof.
  intros He Hn Hk. set (ls := bfilter _ (g_links g)).
  transitivity (Zsum (map (fun k => Zsum (map (units metric) (bfilter (crosses k) ps))) (map linkStableKey ls))).
  - rewrite map_map. f_equal. apply map_ext_in. intros l Hl%list_elem_of_In. apply link_units.
    unfold ls in Hl. by apply elem_of_bfilter in Hl as [? _].
  - rewrite (sum_partition _ crosses (through (n_id n))); [by rewrite node_units|].
    apply Forall_forall. intros p Hp. by apply end_count.
Qed.
End conservation.

(** ** The summary *)

Definition summary_value (s : FlowSummary) (metric : FlowMetric) : number :=
  match metric with MRequests => s_requests s | MTokens => s_tokens s | MQuota => s_quota s end.

Lemma summary_sum rows metric :
  summary_value (buildSummary rows) metric = fold_left (fun s row => n_add s (metricValue (rowMetrics row) metric)) rows n_zero.
Proof.
  unfold buildSummary. assert (forall s, summary_value (fold_left add_summary rows s) metric =
    fold_left (fun s row => n_add s (metricValue (rowMetrics row) metric)) rows (summary_value s metric)) as H.
  { induction rows as [|row rows IH]; intros s; [done|]. cbn [fold_left]. rewrite IH. by destruct metric. }
  rewrite H. by destruct metric.
Qed.

Lemma prepared_metrics localeCompare rows metric stages ctx options :
  go_overflowMode options <> Some Hide ->
  map pp_metrics (prepared_paths localeCompare rows metric stages ctx options) = map rowMetrics rows.
Proof.
  intros Hm. unfold prepared_paths. set (sets := buildTopNodeSets _ _ _ _ _ _). clearbody sets.
  assert (default DEFAULT_FLOW_OVERFLOW_MODE (go_overflowMode options) = Aggregate) as ->
    by (by destruct (go_overflowMode options) as [[|]|]).
  unfold prepare. induction rows as [|row rows IH]; [done|]. csimpl.
  assert (is_Some (applyTopNodeLimit (flowPathForStages row stages ctx) sets Aggregate (go_otherNodeLabel options))) as [path ->].
  { unfold applyTopNodeLimit. destruct sets as [s|]; [|eauto]. destruct (negb _); eauto. }
  simpl. by rewrite IH.
Qed.

(** C17. The flow is conserved: for whole amounts that together stay within 2^53, and names
    without the separator of the link keys, the nodes of every stage add up to the same
    total, the links out of a node that is not in the last stage and the links into a
    node that is not in the first one add up to the node's value, and unless rows are
    hidden that total is the one of the summary. *)
Theorem flow_conserved localeCompare dataScheme rows metric r palette vis ctx options :
  let stages := resolveVisibleStages r vis in
  let ps := prepared_paths localeCompare rows metric stages ctx options in
  let g := buildFlowGraph localeCompare dataScheme rows metric r palette vis ctx options in
  whole_amounts metric ps -> Forall (fun p => Forall (fun x => 0%N ∉ pn_id x) (pp_path p)) ps ->
  (forall k, k ∈ stages ->
     Zsum (map (fun n => int_value (n_value n)) (bfilter (fun n => bool_decide (n_kind n = k)) (g_nodes g))) =
     Zsum (map (units metric) ps)) /\
  (forall n, n ∈ g_nodes g ->
     (n_kind n ∈ removelast stages ->
      Zsum (map (fun l => int_value (l_value l)) (bfilter (fun l => l_source l =s n_id n) (g_links g))) = int_value (n_value n)) /\
     (n_kind n ∈ tail stages ->
      Zsum (map (fun l => int_value (l_value l)) (bfilter (fun l => l_target l =s n_id n) (g_links g))) = int_value (n_value n))) /\
  (go_overflowMode options <> Some Hide ->
   Zsum (map (units metric) ps) = int_value (summary_value (buildSummary rows) metric)).
Proof.
  intros stages ps g Hw Hp. split_and!.
  - intros k Hk. by apply stage_total.
  - intros n Hn. split; intros Hk.
    + apply (end_total localeCompare dataScheme rows metric r palette vis ctx options Hw Hp (source_end r vis)); [left|done..].
    + apply (end_total localeCompare dataScheme rows metric r palette vis ctx options Hw Hp (target_end r vis)); [right; left|done..].
  - intros Hm. rewrite <- whole_value by done. f_equal. rewrite summary_sum.
    rewrite <- (fold_map (fun s m => n_add s (metricValue m metric)) rowMetrics).
    rewrite <- (prepared_metrics localeCompare rows metric stages ctx options Hm). fold ps. by rewrite fold_map.
Qed.

Lemma flow_conserved_witness :
  let ps := prepared_paths unit_compare sample_rows MQuota (resolveVisibleStages RAdmin None) EMPTY_FLOW_PATH_CONTEXT (sample_options None false) in
  whole_amounts MQuota ps /\
  Zsum (map (fun n => int_value (n_value n)) (bfilter (fun n => bool_decide (n_kind n = KModel)) (g_nodes (sample_graph None false)))) =
  Zsum (map (units MQuota) ps).
Proof.
  intros ps. assert (whole_amounts MQuota ps) as Hw.
  { split; [|vm_compute; reflexivity]. apply Forall_forall. intros p Hp.
    assert (bool_decide (Forall (fun p => metricValue (pp_metrics p) MQuota = num_of_Z (units MQuota p)) ps) = true) as H
      by (vm_compute; reflexivity).
    apply bool_decide_eq_true in H. rewrite Forall_forall in H. by apply H. }
  assert (Forall (fun p => Forall (fun x => 0%N ∉ pn_id x) (pp_path p)) ps) as Hp.
  { apply (bool_decide_unpack _). vm_compute. exact I. }
  split; [exact Hw|].
  refine (proj1 (flow_conserved unit_compare [] sample_rows MQuota RAdmin None None EMPTY_FLOW_PATH_CONTEXT
    (sample_options None false) Hw Hp) KModel _).
  vm_compute. do 2 right. left.
Defined.
