(* ===== verification/FlowFilters.v ===== *)
(** * The flow view: the filters offered

    Filters of one kind are alternatives, filters of different kinds are conjunctive.  An
    option of the filter menu leads to the rows it announces, and every row that the
    filters of the other kinds leave has its option. *)

From S2P Require Import Prelude JsString JsNumber JsInteger JsMath Json JsMap DashboardFlow FlowFacts.

(** ** What the filters select *)

(** For every visible kind with a filter, the row's node of that kind is one of them. *)
Definition selects (fs : list FlowNodeFilter) (stages : list FlowNodeKind) (ctx : FlowPathContext)
    (row : FlowQuotaDataItem) : bool :=
  forallb (fun k =>
    negb (existsb (fun f => bool_decide (nf_kind f = k)) fs) ||
    existsb (fun f => bool_decide (nf_kind f = k) && (nf_id f =s pn_id (NODE_BUILDERS k row ctx))) fs) stages.

Definition add_id (ids : list jstr) (id : jstr) : list jstr := if bool_decide (id ∈ ids) then ids else ids ++ [id].

Lemma fold_if {A B} (c : A -> bool) (f : B -> A -> B) l x :
  fold_left (fun b a => if negb (c a) then b else f b a) l x = fold_left f (bfilter c l) x.
Proof. revert x. induction l as [|a l IH]; intros x; [done|]. simpl. by destruct (c a). Qed.

Lemma add_ids_elem {A} (id_of : A -> jstr) l ids x :
  x ∈ fold_left (fun i a => add_id i (id_of a)) l ids <-> x ∈ ids \/ exists a, a ∈ l /\ id_of a = x.
Proof.
  revert ids. induction l as [|a l IH]; intros ids; simpl.
  - split; [by left|]. intros [H | (a & H & _)]; [done|]. by apply elem_of_nil in H.
  - rewrite IH. unfold add_id. setoid_rewrite elem_of_cons. case_bool_decide; [naive_solver|].
    rewrite elem_of_app, list_elem_of_singleton. naive_solver.
Qed.

Lemma normalized_tally fs stages :
  normalizeSelectedNodeFilters (Some fs) stages =
  tally nf_kind (fun _ => []) (fun ids f => add_id ids (nf_id f)) (bfilter (fun f => bool_decide (nf_kind f ∈ stages)) fs).
Proof.
  unfold normalizeSelectedNodeFilters. cbn [default from_option id].
  rewrite (fold_if (fun f => bool_decide (nf_kind f ∈ stages)) add_filter). reflexivity.
Qed.

Lemma path_ids_tally path :
  fold_left add_path_id path [] = tally pn_kind (fun _ => []) (fun ids n => add_id ids (pn_id n)) path.
Proof. reflexivity. Qed.

Lemma path_ids_of row stages ctx k :
  NoDup stages ->
  m_get k (fold_left add_path_id (flowPathForStages row stages ctx) []) =
  if bool_decide (k ∈ stages) then Some [pn_id (NODE_BUILDERS k row ctx)] else None.
Proof.
  intros Hs. rewrite path_ids_tally, tally_get. destruct (flow_path_ok row stages ctx) as [Hk _].
  destruct (with_key_nodup pn_kind k (flowPathForStages row stages ctx)) as [[H1 ->] | (x & Hx & E & ->)]; [by rewrite Hk|..].
  - rewrite Hk in H1. by rewrite bool_decide_false.
  - rewrite bool_decide_true.
    + unfold flowPathForStages in Hx. apply elem_of_lmap in Hx as (s & Hs' & ->). rewrite (proj2 (builder_ok s row ctx)) in E. by subst.
    + rewrite <- Hk, elem_of_lmap. eauto.
Qed.

Lemma matches_selects fs stages ctx row :
  NoDup stages ->
  pathMatchesNodeFilters (flowPathForStages row stages ctx) (normalizeSelectedNodeFilters (Some fs) stages) =
  selects fs stages ctx row.
Proof.
  intros Hs. rewrite normalized_tally. set (fs' := bfilter _ fs).
  set (m := tally _ _ _ fs').
  assert (pathMatchesNodeFilters (flowPathForStages row stages ctx) m =
    forallb (fun '(kind, selectedIds) =>
      match m_get kind (fold_left add_path_id (flowPathForStages row stages ctx) []) with
      | None => false
      | Some pathIds => existsb (fun id => bool_decide (id ∈ pathIds)) selectedIds
      end) m) as -> by (by destruct m).
  apply eq_true_iff_eq. unfold selects. rewrite !forallb_Forall', !Forall_forall. split.
  - intros H k Hk. destruct (existsb (fun f => bool_decide (nf_kind f = k)) fs) eqn:Ef; [|done]. cbn [negb orb].
    apply existsb_elem in Ef as (f & Hf & Ek). apply bool_decide_eq_true in Ek.
    assert (f ∈ with_key nf_kind k fs') as Hin.
    { unfold with_key, fs'. rewrite !elem_of_bfilter, !bool_decide_eq_true. by subst. }
    destruct (total (fun _ => []) (fun ids f => add_id ids (nf_id f)) (with_key nf_kind k fs')) as [ids|] eqn:Et.
    2:{ destruct (with_key nf_kind k fs'); [by apply elem_of_nil in Hin|done]. }
    specialize (H (k, ids) (proj2 (tally_elem _ _ _ k ids fs') Et)). cbn beta iota in H.
    rewrite path_ids_of, bool_decide_true in H by done. apply existsb_elem in H as (x & Hx & Ex).
    apply bool_decide_eq_true, list_elem_of_singleton in Ex as ->.
    destruct (with_key nf_kind k fs') as [|f0 l] eqn:Ew; [done|]. injection Et as <-.
    change (pn_id (NODE_BUILDERS k row ctx) ∈ fold_left (fun ids f => add_id ids (nf_id f)) (f0 :: l) []) in Hx.
    rewrite <- Ew, add_ids_elem in Hx. destruct Hx as [Hx | (a & Ha & Ea)]; [by apply elem_of_nil in Hx|].
    apply existsb_elem. unfold with_key, fs' in Ha. rewrite !elem_of_bfilter, !bool_decide_eq_true in Ha.
    exists a. split; [by apply Ha|]. rewrite bool_decide_true by apply Ha. rewrite Ea. apply jeqb_refl.
  - intros H [k ids] Hin. apply tally_elem in Hin.
    destruct (with_key nf_kind k fs') as [|f0 l] eqn:Ew; [done|]. injection Hin as <-.
    assert (f0 ∈ with_key nf_kind k fs') as H0 by (rewrite Ew; left).
    unfold with_key, fs' in H0. rewrite !elem_of_bfilter, !bool_decide_eq_true in H0. destruct H0 as [[Hf0 Hk0] Ek0].
    rewrite Ek0 in Hk0. rewrite path_ids_of, bool_decide_true by done. specialize (H k Hk0).
    assert (existsb (fun f => bool_decide (nf_kind f = k)) fs = true) as E.
    { apply existsb_elem. exists f0. split; [done|]. by apply bool_decide_eq_true. }
    rewrite E in H. cbn [negb orb] in H. apply existsb_elem in H as (f & Hf & Ef). bsplit.
    match goal with H1 : bool_decide _ = true, H2 : _ =s _ = true |- _ => apply bool_decide_eq_true in H1; apply jeqb_eq in H2; rename H1 into Ekf; rename H2 into Eid end.
    apply existsb_elem. exists (nf_id f). split; [|apply bool_decide_eq_true; rewrite Eid; left].
    change (nf_id f ∈ fold_left (fun ids f => add_id ids (nf_id f)) (f0 :: l) []). rewrite <- Ew, add_ids_elem. right.
    exists f. split; [|done]. unfold with_key, fs'. rewrite !elem_of_bfilter, !bool_decide_eq_true. by subst.
Qed.

Lemma filtered_rows rows sel stages ctx :
  NoDup stages -> filterRowsByNodes rows sel stages ctx = bfilter (selects (default [] sel) stages ctx) rows.
Proof.
  intros Hs. assert (normalizeSelectedNodeFilters sel stages = normalizeSelectedNodeFilters (Some (default [] sel)) stages) as E
    by (by destruct sel).
  unfold filterRowsByNodes. rewrite E. transitivity (bfilter (fun row => pathMatchesNodeFilters (flowPathForStages row stages ctx)
    (normalizeSelectedNodeFilters (Some (default [] sel)) stages)) rows).
  - destruct (normalizeSelectedNodeFilters _ _) eqn:En; [|done]. symmetry. apply bfilter_id. by apply Forall_forall.
  - apply List.filter_ext. intros row. by apply matches_selects.
Qed.

(** ** Options *)

Lemma bfilter_bfilter {A} (f g : A -> bool) l : bfilter f (bfilter g l) = bfilter (fun x => g x && f x) l.
Proof. induction l as [|x l IH]; simpl; [done|]. destruct (g x); simpl; [destruct (f x)|]; by rewrite IH. Qed.

(** The filters of the other kinds. *)
Definition other_filters (sel : option (list FlowNodeFilter)) (k : FlowNodeKind) : list FlowNodeFilter :=
  bfilter (fun f => negb (bool_decide (nf_kind f = k))) (default [] sel).

Lemma except_kind sel k : default [] (selectedNodeFiltersExceptKind sel k) = other_filters sel k.
Proof. unfold selectedNodeFiltersExceptKind, other_filters. by destruct (bfilter _ _). Qed.

Lemma selects_one sel k id stages ctx row :
  k ∈ stages -> 
  selects (other_filters sel k ++ [ {| nf_kind := k; nf_id := id |} ]) stages ctx row =
  selects (other_filters sel k) stages ctx row && (id =s pn_id (NODE_BUILDERS k row ctx)).
Proof.
  intros Hk. set (fs := other_filters sel k).
  assert (forall f, f ∈ fs -> nf_kind f <> k) as Ho.
  { intros f Hf. unfold fs, other_filters in Hf. apply elem_of_bfilter in Hf as [_ Hf]. by apply negb_true_iff, bool_decide_eq_false in Hf. }
  apply eq_true_iff_eq. unfold selects. rewrite andb_true_iff, !forallb_Forall', !Forall_forall.
  assert (existsb (fun f => bool_decide (nf_kind f = k)) fs = false /\
          existsb (fun f => bool_decide (nf_kind f = k) && (nf_id f =s pn_id (NODE_BUILDERS k row ctx))) fs = false) as [E1 E2].
  { split; apply existsb_none; intros f Hf; by rewrite bool_decide_false by auto. }
  split.
  - intros H. split.
    + intros k' Hk'. specialize (H k' Hk'). rewrite !existsb_app in H. simpl in H.
      destruct (decide (k = k')) as [<- | Hne]; [by rewrite E1|]. rewrite bool_decide_false in H by done. by rewrite !orb_false_r in H.
    + specialize (H k Hk). rewrite !existsb_app, E1, E2 in H. simpl in H. rewrite bool_decide_true in H by done.
      simpl in H. by rewrite orb_false_r in H.
  - intros [H Hid] k' Hk'. specialize (H k' Hk'). rewrite !existsb_app. simpl.
    destruct (decide (k = k')) as [<- | Hne]; [|by rewrite bool_decide_false, !orb_false_r by done].
    rewrite Hid. rewrite bool_decide_true by done. by rewrite !orb_true_r.
Qed.

Lemma filter_key k row row' ctx :
  nodeFilterKey {| nf_kind := pn_kind (NODE_BUILDERS k row ctx); nf_id := pn_id (NODE_BUILDERS k row ctx) |} =
  nodeFilterKey {| nf_kind := pn_kind (NODE_BUILDERS k row' ctx); nf_id := pn_id (NODE_BUILDERS k row' ctx) |} <->
  pn_id (NODE_BUILDERS k row ctx) = pn_id (NODE_BUILDERS k row' ctx).
Proof.
  unfold nodeFilterKey. cbn [nf_kind nf_id]. rewrite !(proj2 (builder_ok k _ ctx)). split; [|by intros ->].
  intros H%(app_inv_head _). by injection H.
Qed.

Lemma rank_fold metric (rows : list FlowQuotaDataItem) rk :
  let rk' := fold_left (fun rank row => rank_add (metricValue (rowMetrics row) metric) rank) rows rk in
  rk_node rk' = rk_node rk /\ rk_value rk' = fold_left (fun s row => n_add s (metricValue (rowMetrics row) metric)) rows (rk_value rk).
Proof. revert rk. induction rows as [|row rows IH]; intros rk; [done|]. simpl. apply (IH (rank_add _ rk)). Qed.

(** The total of a metric over rows. *)
Definition rows_total (metric : FlowMetric) (rows : list FlowQuotaDataItem) : number :=
  fold_left (fun s row => n_add s (metricValue (rowMetrics row) metric)) rows n_zero.

(** The rows an option stands for: the filters of the other kinds and the option. *)
Definition option_rows (rows : list FlowQuotaDataItem) (stages : list FlowNodeKind) (ctx : FlowPathContext)
    (sel : option (list FlowNodeFilter)) (k : FlowNodeKind) (id : jstr) : list FlowQuotaDataItem :=
  filterRowsByNodes rows (Some (other_filters sel k ++ [ {| nf_kind := k; nf_id := id |} ])) stages ctx.

Section options.
Context (rows : list FlowQuotaDataItem) (metric : FlowMetric) (stages : list FlowNodeKind) (ctx : FlowPathContext).
Context (sel : option (list FlowNodeFilter)) (Hs : NoDup stages).

Definition stage_key (k : FlowNodeKind) (row : FlowQuotaDataItem) : jstr :=
  nodeFilterKey {| nf_kind := pn_kind (NODE_BUILDERS k row ctx); nf_id := pn_id (NODE_BUILDERS k row ctx) |}.

Definition candidates (k : FlowNodeKind) : list FlowQuotaDataItem :=
  filterRowsByNodes rows (selectedNodeFiltersExceptKind sel k) stages ctx.

Definition rank_start (k : FlowNodeKind) (row : FlowQuotaDataItem) : FlowNodeRank :=
  {| rk_node := NODE_BUILDERS k row ctx; rk_value := n_zero |}.
Definition rank_row (rank : FlowNodeRank) (row : FlowQuotaDataItem) : FlowNodeRank :=
  rank_add (metricValue (rowMetrics row) metric) rank.

Lemma candidates_with_key k row0 : k ∈ stages ->
  with_key (stage_key k) (stage_key k row0) (candidates k) = option_rows rows stages ctx sel k (pn_id (NODE_BUILDERS k row0 ctx)).
Proof.
  intros Hk. unfold with_key, candidates, option_rows. rewrite !filtered_rows, except_kind by done. rewrite bfilter_bfilter.
  apply List.filter_ext. intros row. cbn [default from_option id]. rewrite selects_one by done. f_equal.
  apply eq_true_iff_eq. rewrite bool_decide_eq_true, jeqb_eq. unfold stage_key. rewrite filter_key. split; congruence.
Qed.

(** A total of a stage: its node is the node of a row, its value the total of the rows it
    stands for. *)
Lemma stage_total_spec k key rank : k ∈ stages ->
  (key, rank) ∈ stage_totals rows metric stages ctx sel k ->
  pn_kind (rk_node rank) = k /\ option_rows rows stages ctx sel k (pn_id (rk_node rank)) <> [] /\
  rk_value rank = rows_total metric (option_rows rows stages ctx sel k (pn_id (rk_node rank))).
Proof.
  intros Hk H0. pose proof (proj1 (tally_elem (stage_key k) (rank_start k) rank_row key rank (candidates k)) H0) as H. clear H0.
  destruct (with_key (stage_key k) key (candidates k)) as [|row0 l] eqn:E; [done|].
  assert (row0 ∈ with_key (stage_key k) key (candidates k)) as H0 by (rewrite E; left).
  unfold with_key in H0. apply elem_of_bfilter in H0 as [_ H0]. apply bool_decide_eq_true in H0. subst key.
  rewrite candidates_with_key in E by done.
  assert (rank = fold_left (fun rank row => rank_add (metricValue (rowMetrics row) metric) rank) (row0 :: l)
    {| rk_node := NODE_BUILDERS k row0 ctx; rk_value := n_zero |}) as -> by (by injection H).
  destruct (rank_fold metric (row0 :: l) {| rk_node := NODE_BUILDERS k row0 ctx; rk_value := n_zero |}) as [-> ->].
  cbn [rk_node rk_value]. rewrite E. split; [apply builder_ok|]. done.
Qed.

(** Every row the other filters leave is in a total. *)
Lemma stage_total_complete k row : k ∈ stages -> row ∈ candidates k ->
  exists key rank, (key, rank) ∈ stage_totals rows metric stages ctx sel k /\ pn_id (rk_node rank) = pn_id (NODE_BUILDERS k row ctx).
Proof.
  intros Hk Hrow. change (stage_totals rows metric stages ctx sel k) with (tally (stage_key k) (rank_start k) rank_row (candidates k)).
  setoid_rewrite tally_elem. exists (stage_key k row).
  destruct (with_key (stage_key k) (stage_key k row) (candidates k)) as [|row0 l] eqn:E.
  - exfalso. assert (row ∈ with_key (stage_key k) (stage_key k row) (candidates k)) as H.
    { unfold with_key. apply elem_of_bfilter. split; [done|]. by apply bool_decide_eq_true. }
    rewrite E in H. by apply elem_of_nil in H.
  - eexists. split; [reflexivity|].
    transitivity (pn_id (NODE_BUILDERS k row0 ctx)); [f_equal; exact (proj1 (rank_fold metric (row0 :: l) (rank_start k row0)))|].
    assert (row0 ∈ with_key (stage_key k) (stage_key k row) (candidates k)) as H0 by (rewrite E; left).
    unfold with_key in H0. apply elem_of_bfilter in H0 as [_ H0]. apply bool_decide_eq_true in H0.
    by apply filter_key in H0.
Qed.
End options.

(** The filter menu is exact: every option it offers for a stage, chosen together with
    the filters of the other stages, leaves rows, and the amount shown beside it is their
    total; and every row that the filters of the other stages leave is reached by an
    option of each stage. *)
Theorem filter_options_exact localeCompare dataScheme formatNumber rows metric r vis palette ctx sel :
  let stages := resolveVisibleStages r vis in
  let options := buildNodeFilterOptions localeCompare dataScheme formatNumber rows metric r vis palette ctx sel in
  (forall o, o ∈ options ->
     no_kind o ∈ stages /\ option_rows rows stages ctx sel (no_kind o) (no_value o) <> [] /\
     no_valueRaw o = rows_total metric (option_rows rows stages ctx sel (no_kind o) (no_value o)) /\
     no_valueLabel o = formatNumber (no_valueRaw o)) /\
  (forall k row, k ∈ stages -> row ∈ filterRowsByNodes rows (selectedNodeFiltersExceptKind sel k) stages ctx ->
     exists o, o ∈ options /\ no_kind o = k /\ no_value o = pn_id (NODE_BUILDERS k row ctx)).
Proof.
  intros stages options. pose proof (stages_nodup r vis : NoDup stages) as Hs. unfold options, buildNodeFilterOptions. fold stages. split.
  - intros o Ho. apply elem_of_js_sort, list_elem_of_In, in_concat in Ho as (l & Hl & Ho).
    apply list_elem_of_In, elem_of_lmap in Hl as (k & Hk & ->). apply list_elem_of_In, elem_of_lmap in Ho as ([key rank] & Hr & ->).
    destruct (stage_total_spec rows metric stages ctx sel Hs k key rank Hk Hr) as (Ek & Hne & Hv).
    unfold node_option. cbn [no_kind no_value no_valueRaw no_valueLabel]. by rewrite Ek.
  - intros k row Hk Hrow. destruct (stage_total_complete rows metric stages ctx sel k row Hk Hrow) as (key & rank & Hin & Eid).
    destruct (stage_total_spec rows metric stages ctx sel Hs k key rank Hk Hin) as (Ek & _).
    eexists (node_option dataScheme formatNumber _ palette rank). split; [|split; [exact Ek|exact Eid]].
    apply elem_of_js_sort, list_elem_of_In, in_concat. eexists. split.
    + apply list_elem_of_In, elem_of_lmap. exists k. split; [done|reflexivity].
    + apply list_elem_of_In, elem_of_lmap. by exists (key, rank).
Qed.
