(* ===== verification/ExplicitDifficulty.v ===== *)
(** * Difficulties of the work timeline

    [features/usage-logs/lib/explicit-difficulty.ts]: the difficulty and quality shown for
    requests that named a model themselves, estimated from the model, the session, a
    window of sixteen requests and the phase of the work.  [toLowerCase] and
    [localeCompare] are parameters. *)

From Stdlib Require Import SpecFloat.
From S2P Require Import Prelude JsString JsNumber JsMath Json JsMap.

Open Scope Z_scope.

(** ** Data *)

Inductive PointType := PJudge | PExecution.
Inductive DifficultySource := Recorded | ReusedJudge | ReusedSegment.
Inductive CapabilityTier := LUNA | TERRA | SOL | FRONTIER.
(** [displayDifficultySource] *)
Inductive DisplaySource := DExplicitEstimate | DReusedJudge | DReusedSegment | DReusedSession.

#[export] Instance point_type_eq_dec : EqDecision PointType.
Proof. solve_decision. Defined.

Record ACUTimelineQualityReference := {
  qr_modelId : jstr; qr_displayName : jstr; qr_estimatedQuality : number; qr_officialCostCny : number }.

Record ACUTimelineQualityComparison := {
  qc_estimatedQuality : option number; qc_qualityDifficulty : option number; qc_modelChargeCny : option number;
  qc_officialModelCostCny : option number; qc_sameBudget : option ACUTimelineQualityReference;
  qc_mostExpensive : option ACUTimelineQualityReference; qc_qualitySource : option jstr;
  qc_referenceCatalogVersion : option jstr }.

(** The fields the module reads; [it_rest] are the ones it only copies. *)
Record ACUWorkTimelineItem := {
  it_pointId : jstr; it_pointType : PointType; it_timestamp : number; it_userId : option number;
  it_logicalRequestId : jstr; it_sessionId : jstr; it_taskId : jstr; it_segmentId : jstr;
  it_difficulty : number; it_difficultyRecorded : bool; it_difficultySource : option DifficultySource;
  it_requestedModel : option jstr; it_actualModel : option jstr; it_selectedDisplayName : option jstr;
  it_selectedExecutionPresetId : option jstr; it_presetReasoningEffort : option jstr;
  it_resolvedReasoningEffort : option jstr; it_workPhase : option jstr; it_protocol : option jstr;
  it_inputTokens : number; it_cachedInputTokens : number; it_outputTokens : number;
  it_qualityComparison : option ACUTimelineQualityComparison; it_rest : list (jstr * jsval) }.

Record ACUWorkTimelineDisplayItem := {
  di_item : ACUWorkTimelineItem; displayDifficulty : option number; displayDifficultyInferred : bool;
  displayDifficultySource : option DisplaySource; displayDifficultyWindow : option Z;
  displayQuality : option number; displayQualityInferred : bool;
  displayQualityComparison : option ACUTimelineQualityComparison }.

(** An item as it is, without display fields. *)
Definition shown_as_is (item : ACUWorkTimelineItem) : ACUWorkTimelineDisplayItem :=
  {| di_item := item; displayDifficulty := None; displayDifficultyInferred := false;
     displayDifficultySource := None; displayDifficultyWindow := None; displayQuality := None;
     displayQualityInferred := false; displayQualityComparison := None |}.

Record CurvePoint := { difficultyScore : number; estimatedQuality : number }.

Record ACUTokenReferencePrices := {
  rp_input : number; rp_output : number; rp_cachedInput : option number }.

Record ContextTiers := {
  thresholdTokens : number; standard : ACUTokenReferencePrices; longContext : ACUTokenReferencePrices }.

(** The prices in dollars per million tokens. *)
Record ReferencePricing := {
  pr_input : option number; pr_output : option number; pr_cachedInput : option number;
  pr_contextTiers : option ContextTiers }.

(** The fields the module reads of a model of the catalog. *)
Record CatalogModel := {
  cm_modelId : jstr; cm_displayName : option jstr; cm_capabilityTier : CapabilityTier; cm_protocols : list jstr;
  cm_curve : option (list CurvePoint); cm_referencePricing : option ReferencePricing }.

Record ACURoutingCatalog := { cat_catalogVersion : option jstr; cat_models : list CatalogModel }.

(** ** Constants *)

Definition EXPLICIT_DIFFICULTY_WINDOW_SIZE : Z := 16.
Definition EXPLICIT_DIFFICULTY_OFFSET_LIMIT : Z := 10.
Definition EXPLICIT_DIFFICULTY_MIN : number := num_of_Z 5.
Definition EXPLICIT_DIFFICULTY_MAX : number := num_of_Z 95.
Definition EXPLICIT_QUALITY_TARGET : number := dec (js "0.8").

Definition MODEL_DEFAULT_DIFFICULTY : list (jstr * Z) :=
  [(js "claude-fable-5-1", 94); (js "fable-5-1", 94); (js "claude-fable-5", 92); (js "fable-5", 92);
   (js "claude-opus-5", 88); (js "opus-5", 88); (js "claude-opus-5-5", 90); (js "opus-5-5", 90);
   (js "claude-opus-4-8", 84); (js "claude-opus-4.8", 84); (js "opus-4-8", 84); (js "opus-4.8", 84);
   (js "claude-opus-4-7", 82); (js "claude-opus-4.7", 82); (js "claude-opus-4-6", 80); (js "claude-opus-4.6", 80);
   (js "claude-sonnet-5", 74); (js "sonnet-5", 74); (js "claude-sonnet-4-6", 66); (js "claude-sonnet-4.6", 66);
   (js "claude-haiku-4-5", 34); (js "claude-haiku-4.5", 34); (js "gpt-5.4-mini", 25); (js "gpt-5.5", 34);
   (js "gpt-5.6-luna", 42); (js "gpt-6-luna", 50); (js "gpt-5.6-terra", 58); (js "gpt-5.6-sol", 74);
   (js "gpt-6-astra", 86); (js "gpt-6-sol", 72); (js "gpt-6.1-sol", 72); (js "deepseek-v4-flash", 38);
   (js "deepseek-v4-pro", 50); (js "deepseek-v4-flash-vision-exp", 38); (js "glm-5.1", 40); (js "glm-5.2", 42);
   (js "glm-5.3-flash", 36); (js "glm-5.3", 44); (js "kimi-k3", 46); (js "kimi-k2.6", 44); (js "kimi-k2.7-code", 50);
   (js "grok-4.6", 48); (js "hy3", 35); (js "hy4-preview", 42); (js "longcat-2.0", 38); (js "mimo-v2.5", 42);
   (js "mimo-v2.5-pro", 50); (js "mimo-v2.6-flash", 36); (js "mimo-v2.6-pro", 48); (js "minimax-m2.7", 45);
   (js "minimax-m3", 50); (js "muse-spark-1.2-contributor", 44); (js "qwen3.6-plus", 50); (js "qwen3.7-max", 54);
   (js "qwen3.7-plus", 50); (js "qwen3.8-flash", 38); (js "qwen3.8-max", 54); (js "gemini-2.5-flash", 35);
   (js "gemini-3.5-flash", 42)]%Z.

(** [MODEL_TIER_DIFFICULTY.mid], the only tier that is used. *)
Definition MODEL_TIER_MID : number := num_of_Z 42.

Definition WORK_PHASE_DIFFICULTY_OFFSET : list (jstr * Z) :=
  [(js "inspection", -8); (js "general", 0); (js "planning", 8); (js "implementation", 3);
   (js "verification", 0); (js "recovery", 10)]%Z.

(** ** The hash *)

(** The signed 32-bit integer congruent to [z]. *)
Definition int32 (z : Z) : Z := ((z + 2 ^ 31) mod 2 ^ 32 - 2 ^ 31)%Z.

(** [Math.imul(a, b)] *)
Definition imul (a b : Z) : Z := int32 (a * b).

(** [hash ^= c; hash = Math.imul(hash, 16777619)] *)
Definition hash_step (hash : Z) (c : N) : Z :=
  imul (int32 (Z.lxor (int32 hash) (int32 (Z.of_N c)))) 16777619.

(** [hash >>> 0] of the last hash *)
Definition stableHash (value : jstr) : Z := (fold_left hash_step value 2166136261 mod 2 ^ 32)%Z.

Definition deterministicOffset (seed : jstr) : Z :=
  let span := (EXPLICIT_DIFFICULTY_OFFSET_LIMIT * 2 + 1)%Z in
  (stableHash seed mod span - EXPLICIT_DIFFICULTY_OFFSET_LIMIT)%Z.

Definition clampDifficulty (value : number) : number :=
  n_min EXPLICIT_DIFFICULTY_MAX (n_max EXPLICIT_DIFFICULTY_MIN (n_round value)).

(** ** Models *)

Definition hasModelIdentifier (identifier modelId : jstr) : bool :=
  (identifier =s modelId) || starts_with (modelId ++ js "-") identifier || starts_with (modelId ++ js "@") identifier ||
  starts_with (modelId ++ js ":") identifier || includes (js "/" ++ modelId) identifier.

(** [tierDifficulty[model.capabilityTier]] *)
Definition tierDifficulty (t : CapabilityTier) : number :=
  num_of_Z (match t with LUNA => 42 | TERRA => 58 | SOL => 74 | FRONTIER => 84 end).

(** The finite points of a curve, by difficulty. *)
Definition curve_points (curve : list CurvePoint) : list CurvePoint :=
  js_sort (fun l r => then_by (n_sub (difficultyScore l) (difficultyScore r)) true)
    (bfilter (fun p => n_isFinite (difficultyScore p) && n_isFinite (estimatedQuality p)) curve).

(** The loop over neighbours: the first pair around the target. *)
Fixpoint target_between (points : list CurvePoint) : option number :=
  match points with
  | lo :: ((hi :: _) as t) =>
      if n_ltb (estimatedQuality lo) EXPLICIT_QUALITY_TARGET || n_ltb EXPLICIT_QUALITY_TARGET (estimatedQuality hi)
      then target_between t
      else
        let qualitySpan := n_sub (estimatedQuality lo) (estimatedQuality hi) in
        let difficultySpan := n_sub (difficultyScore hi) (difficultyScore lo) in
        if n_leb qualitySpan n_zero || n_leb difficultySpan n_zero then None
        else
          let fraction := n_div (n_sub (estimatedQuality lo) EXPLICIT_QUALITY_TARGET) qualitySpan in
          Some (n_add (difficultyScore lo) (n_mul fraction difficultySpan))
  | _ => None
  end.

Definition difficultyAtQualityTarget (curve : list CurvePoint) : option number :=
  let points := curve_points curve in
  match points, last points with
  | first :: _, Some lst =>
      if n_leb (estimatedQuality first) EXPLICIT_QUALITY_TARGET then Some (difficultyScore first)
      else if n_leb EXPLICIT_QUALITY_TARGET (estimatedQuality lst) then Some (difficultyScore lst)
      else target_between points
  | _, _ => None
  end.

(** The loop over neighbours: the first point at or after the difficulty. *)
Fixpoint quality_between (difficulty : number) (points : list CurvePoint) : option number :=
  match points with
  | lo :: ((hi :: _) as t) =>
      if n_ltb (difficultyScore hi) difficulty then quality_between difficulty t
      else
        let span := n_sub (difficultyScore hi) (difficultyScore lo) in
        if n_leb span n_zero then None
        else
          let fraction := n_div (n_sub difficulty (difficultyScore lo)) span in
          Some (n_mul (n_add (estimatedQuality lo)
                        (n_mul fraction (n_sub (estimatedQuality hi) (estimatedQuality lo)))) (num_of_Z 100))
  | _ => None
  end.

Definition interpolateCurveQuality (difficulty : number) (curve : list CurvePoint) : option number :=
  let points := curve_points curve in
  match points, last points with
  | first :: _, Some lst =>
      if n_leb difficulty (difficultyScore first) then Some (n_mul (estimatedQuality first) (num_of_Z 100))
      else if n_leb (difficultyScore lst) difficulty then Some (n_mul (estimatedQuality lst) (num_of_Z 100))
      else quality_between difficulty points
  | _, _ => None
  end.

Definition officialModelCostUsd (item : ACUWorkTimelineItem) (model : CatalogModel) : option number :=
  pricing ← cm_referencePricing model;
  input ← pr_input pricing;
  output ← pr_output pricing;
  let inputTokens := n_max n_zero (it_inputTokens item) in
  let cachedTokens := n_min inputTokens (n_max n_zero (it_cachedInputTokens item)) in
  let outputTokens := n_max n_zero (it_outputTokens item) in
  let contextPrices := (fun t => if n_ltb (thresholdTokens t) inputTokens then longContext t else standard t)
                       <$> pr_contextTiers pricing in
  let inputPrice := default input (rp_input <$> contextPrices) in
  let outputPrice := default output (rp_output <$> contextPrices) in
  let cachedPrice := match contextPrices ≫= rp_cachedInput with
                     | Some p => p
                     | None => default inputPrice (pr_cachedInput pricing)
                     end in
  Some (n_div (n_add (n_add (n_mul (n_sub inputTokens cachedTokens) inputPrice) (n_mul cachedTokens cachedPrice))
                     (n_mul outputTokens outputPrice)) (num_of_Z 1000000)).

(** ** Sessions *)

Definition sessionKey (item : ACUWorkTimelineItem) : jstr :=
  match it_userId item with Some u => show_num u | None => js "self" end ++ js ":" ++
  str_or (it_sessionId item) (str_or (it_taskId item) (js "sessionless")).

Definition segmentKey (item : ACUWorkTimelineItem) : jstr :=
  sessionKey item ++ js ":" ++ str_or (it_segmentId item) (js "segmentless").

(** [item.difficultyRecorded && Number.isFinite(item.difficulty)] *)
Definition has_difficulty (item : ACUWorkTimelineItem) : bool :=
  it_difficultyRecorded item && n_isFinite (it_difficulty item).

Section difficulty.
(** [s.toLowerCase()] and [a.localeCompare(b)] *)
Variable toLowerCase : jstr -> jstr.
Variable localeCompare : jstr -> jstr -> Z.

Definition normalize (value : option jstr) : jstr := toLowerCase (trim (default [] value)).

Definition modelIdentifiers (item : ACUWorkTimelineItem) : list jstr :=
  bfilter truthy (map normalize
    [it_requestedModel item; it_actualModel item; it_selectedDisplayName item; it_selectedExecutionPresetId item;
     it_presetReasoningEffort item; it_resolvedReasoningEffort item]).

Definition catalogModelForItem (item : ACUWorkTimelineItem) (catalog : ACURoutingCatalog) : option CatalogModel :=
  let identifiers := modelIdentifiers item in
  find_first (fun model => existsb (fun id => hasModelIdentifier id (cm_modelId model)) identifiers) (cat_models catalog).

Definition catalogTierDifficulty (item : ACUWorkTimelineItem) (catalog : option ACURoutingCatalog) : option number :=
  catalog ← catalog; model ← catalogModelForItem item catalog; Some (tierDifficulty (cm_capabilityTier model)).

(** The first entry of the table that names one of the identifiers. *)
Definition table_difficulty (identifiers : list jstr) : option Z :=
  snd <$> find_first (fun '(modelId, _) => existsb (fun id => hasModelIdentifier id modelId) identifiers)
            MODEL_DEFAULT_DIFFICULTY.

Definition modelDefaultDifficulty (item : ACUWorkTimelineItem) (catalog : option ACURoutingCatalog) : number :=
  let identifiers := modelIdentifiers item in
  let model := catalog ≫= catalogModelForItem item in
  match (model ≫= cm_curve) ≫= difficultyAtQualityTarget with
  | Some curveDifficulty => curveDifficulty
  | None =>
      match table_difficulty identifiers with
      | Some difficulty => num_of_Z difficulty
      | None => default MODEL_TIER_MID (catalogTierDifficulty item catalog)
      end
  end.

(** A phase naming a property every object inherits is left out. *)
Definition workPhaseDifficultyOffset (workPhase : option jstr) : Z :=
  default 0%Z (prop_get (normalize workPhase) WORK_PHASE_DIFFICULTY_OFFSET).

(** [timelineOrder(left, right) <= 0] *)
Definition timelineOrder (l r : ACUWorkTimelineItem) : bool :=
  if negb (n_eqb (it_timestamp l) (it_timestamp r)) then then_by (n_sub (it_timestamp l) (it_timestamp r)) true
  else if negb (it_logicalRequestId l =s it_logicalRequestId r)
  then (localeCompare (it_logicalRequestId l) (it_logicalRequestId r) <=? 0)%Z
  else (localeCompare (it_pointId l) (it_pointId r) <=? 0)%Z.

Definition isExplicitModel (requestedModel : option jstr) : bool :=
  let normalized := normalize requestedModel in
  truthy normalized && negb (normalized =s js "acu-auto") && negb (normalized =s js "acu-high").

Definition isExplicitTimelineItem (item : ACUWorkTimelineItem) : bool :=
  bool_decide (it_pointType item = PExecution) && isExplicitModel (it_requestedModel item).

Record ExplicitDifficultyEstimate := {
  es_difficulty : number; es_modelBase : number; es_sessionOffset : Z; es_windowOffset : Z;
  es_workPhaseOffset : Z; es_windowIndex : Z }.

(** The ordinal is an integer at every call. *)
Definition estimateExplicitDifficulty (item : ACUWorkTimelineItem) (explicitOrdinal : Z)
    (catalog : option ACURoutingCatalog) : option ExplicitDifficultyEstimate :=
  if negb (isExplicitTimelineItem item) then None
  else
    let safeOrdinal := Z.max 0 explicitOrdinal in
    let windowIndex := (safeOrdinal / EXPLICIT_DIFFICULTY_WINDOW_SIZE)%Z in
    let key := sessionKey item in
    let sessionOffset := deterministicOffset (js "acu-explicit:v1:session:" ++ key) in
    let windowOffset := deterministicOffset (js "acu-explicit:v1:window:" ++ key ++ js ":" ++ show_Z windowIndex) in
    let workPhaseOffset := workPhaseDifficultyOffset (it_workPhase item) in
    let modelBase := modelDefaultDifficulty item catalog in
    let difficulty := clampDifficulty
      (n_add (n_add (n_add modelBase (num_of_Z sessionOffset)) (num_of_Z windowOffset)) (num_of_Z workPhaseOffset)) in
    Some {| es_difficulty := difficulty; es_modelBase := modelBase; es_sessionOffset := sessionOffset;
            es_windowOffset := windowOffset; es_workPhaseOffset := workPhaseOffset; es_windowIndex := windowIndex |}.

(** [knownDifficultyBySegment] and [knownDifficultyBySession], by their key. *)
Definition known_difficulties (key : ACUWorkTimelineItem -> jstr) (ordered : list ACUWorkTimelineItem)
  : list (jstr * number) :=
  fold_left (fun m item => if negb (has_difficulty item) then m else m_set (key item) (it_difficulty item) m) ordered [].

(** [ordinalByPoint] with [nextOrdinalBySession] *)
Definition add_ordinal (st : list (jstr * Z) * list (jstr * Z)) (item : ACUWorkTimelineItem)
  : list (jstr * Z) * list (jstr * Z) :=
  if negb (isExplicitTimelineItem item) then st
  else
    let key := sessionKey item in
    let ordinal := default 0%Z (m_get key (snd st)) in
    (m_set (it_pointId item) ordinal (fst st), m_set key (ordinal + 1)%Z (snd st)).

Definition with_difficulty (item : ACUWorkTimelineItem) (d : number) (source : DisplaySource) (window : option Z)
  : ACUWorkTimelineDisplayItem :=
  {| di_item := item; displayDifficulty := Some d; displayDifficultyInferred := true;
     displayDifficultySource := Some source; displayDifficultyWindow := window; displayQuality := None;
     displayQualityInferred := false; displayQualityComparison := None |}.

(** What an item without an estimate of its own takes from its segment or session. *)
Definition reused_difficulty (bySegment bySession : list (jstr * number)) (item : ACUWorkTimelineItem)
  : ACUWorkTimelineDisplayItem :=
  if negb (bool_decide (it_pointType item = PExecution)) then shown_as_is item
  else match (match m_get (segmentKey item) bySegment with
              | Some d => Some d
              | None => m_get (sessionKey item) bySession
              end) with
       | None => shown_as_is item
       | Some d => with_difficulty item d
                     (if m_has (segmentKey item) bySegment then DReusedSegment else DReusedSession) None
       end.

Definition display_item (bySegment bySession : list (jstr * number)) (ordinals : list (jstr * Z))
    (catalog : option ACURoutingCatalog) (item : ACUWorkTimelineItem) : ACUWorkTimelineDisplayItem :=
  if has_difficulty item then
    match it_difficultySource item with
    | Some ReusedJudge => with_difficulty item (it_difficulty item) DReusedJudge None
    | Some ReusedSegment => with_difficulty item (it_difficulty item) DReusedSegment None
    | _ => shown_as_is item
    end
  else
    match ordinal ← m_get (it_pointId item) ordinals; estimateExplicitDifficulty item ordinal catalog with
    | Some estimate => with_difficulty item (es_difficulty estimate) DExplicitEstimate (Some (es_windowIndex estimate))
    | None => reused_difficulty bySegment bySession item
    end.

Definition addExplicitDifficulty (items : list ACUWorkTimelineItem) (isAdmin : bool)
    (catalog : option ACURoutingCatalog) : list ACUWorkTimelineDisplayItem :=
  if negb isAdmin || bool_decide (length items = 0%nat) then map shown_as_is items
  else
    let ordered := js_sort timelineOrder items in
    let bySegment := known_difficulties segmentKey ordered in
    let bySession := known_difficulties sessionKey ordered in
    let ordinals := fst (fold_left add_ordinal ordered ([], [])) in
    map (display_item bySegment bySession ordinals catalog) items.

(** ** Quality *)

(** The reference of a candidate at this difficulty, priced with the item's tokens. *)
Definition reference_of (item : ACUWorkTimelineItem) (difficulty fx : number) (candidate : CatalogModel)
  : option ACUTimelineQualityReference :=
  quality ← interpolateCurveQuality difficulty (default [] (cm_curve candidate));
  costUsd ← officialModelCostUsd item candidate;
  Some {| qr_modelId := cm_modelId candidate; qr_displayName := default (cm_modelId candidate) (cm_displayName candidate);
          qr_estimatedQuality := quality; qr_officialCostCny := n_mul costUsd fx |}.

Definition is_some {A} (o : option A) : bool := match o with Some _ => true | None => false end.

Definition references (item : ACUWorkTimelineItem) (difficulty fx : number) (catalog : ACURoutingCatalog)
  : list ACUTimelineQualityReference :=
  bfilter (fun r => n_isFinite (qr_officialCostCny r))
    (omap (reference_of item difficulty fx)
      (bfilter (fun c => bool_decide (default [] (it_protocol item) ∈ cm_protocols c) && is_some (cm_curve c) &&
                         is_some (cm_referencePricing c)) (cat_models catalog))).

(** Best quality first, then the cheaper; cheapest first, then the better; dearest first,
    then the better. *)
Definition best_first (l r : ACUTimelineQualityReference) : bool :=
  then_by (n_sub (qr_estimatedQuality r) (qr_estimatedQuality l))
    (then_by (n_sub (qr_officialCostCny l) (qr_officialCostCny r)) true).
Definition cheapest_first (l r : ACUTimelineQualityReference) : bool :=
  then_by (n_sub (qr_officialCostCny l) (qr_officialCostCny r))
    (then_by (n_sub (qr_estimatedQuality r) (qr_estimatedQuality l)) true).
Definition dearest_first (l r : ACUTimelineQualityReference) : bool :=
  then_by (n_sub (qr_officialCostCny r) (qr_officialCostCny l))
    (then_by (n_sub (qr_estimatedQuality r) (qr_estimatedQuality l)) true).

Definition same_budget (refs : list ACUTimelineQualityReference) (modelCharge : number) : option ACUTimelineQualityReference :=
  let priced := bfilter (fun r => n_ltb n_zero (qr_officialCostCny r)) refs in
  match head (js_sort best_first
    (bfilter (fun r => n_leb (qr_officialCostCny r) (n_add modelCharge (dec (js "1e-10")))) priced)) with
  | Some affordable => Some affordable
  | None => head (js_sort cheapest_first priced)
  end.

Definition most_expensive (refs : list ACUTimelineQualityReference) : option ACUTimelineQualityReference :=
  match find_first (fun r => qr_modelId r =s js "gpt-6-astra") refs with
  | Some r => Some r
  | None => head (js_sort dearest_first refs)
  end.

(** [actualOfficialCostCny / actualOfficialCostUsd] *)
Definition exchange_rate (usd cny : option number) : option number :=
  match usd, cny with
  | Some u, Some c => if n_ltb n_zero u then Some (n_div c u) else None
  | _, _ => None
  end.

Definition orelse {A} (a b : option A) : option A := match a with Some _ => a | None => b end.

(** The comparison with the quality filled in and, with an exchange rate, the references. *)
Definition quality_comparison (item : ACUWorkTimelineItem) (source : option DisplaySource) (model : CatalogModel)
    (difficulty quality : number) (catalog : ACURoutingCatalog) : ACUTimelineQualityComparison :=
  let before := it_qualityComparison item in
  let modelCharge := before ≫= qc_modelChargeCny in
  let fx := exchange_rate (officialModelCostUsd item model) (before ≫= qc_officialModelCostCny) in
  let refs := match modelCharge, fx with
              | Some charge, Some f => if n_ltb n_zero f then Some (charge, references item difficulty f catalog) else None
              | _, _ => None
              end in
  {| qc_estimatedQuality := Some (n_min (num_of_Z 100) (n_max n_zero quality));
     qc_qualityDifficulty := before ≫= qc_qualityDifficulty;
     qc_modelChargeCny := modelCharge; qc_officialModelCostCny := before ≫= qc_officialModelCostCny;
     qc_sameBudget := orelse (refs ≫= fun p => same_budget (snd p) (fst p)) (before ≫= qc_sameBudget);
     qc_mostExpensive := orelse (refs ≫= fun p => most_expensive (snd p)) (before ≫= qc_mostExpensive);
     qc_qualitySource := Some (match source with
                               | Some DExplicitEstimate => js "explicit_difficulty_model_curve"
                               | _ => js "reused_difficulty_model_curve"
                               end);
     qc_referenceCatalogVersion := cat_catalogVersion catalog |}.

Definition display_quality (catalog : ACURoutingCatalog) (d : ACUWorkTimelineDisplayItem) : ACUWorkTimelineDisplayItem :=
  let item := di_item d in
  if negb (displayDifficultyInferred d) || is_some (it_qualityComparison item ≫= qc_estimatedQuality) then d
  else
    match displayDifficulty d, catalogModelForItem item catalog with
    | Some difficulty, Some model =>
        match cm_curve model ≫= interpolateCurveQuality difficulty with
        | Some quality =>
            if negb (n_isFinite quality) then d
            else
              let comparison := quality_comparison item (displayDifficultySource d) model difficulty quality catalog in
              {| di_item := item; displayDifficulty := displayDifficulty d;
                 displayDifficultyInferred := displayDifficultyInferred d;
                 displayDifficultySource := displayDifficultySource d;
                 displayDifficultyWindow := displayDifficultyWindow d;
                 displayQuality := qc_estimatedQuality comparison; displayQualityInferred := true;
                 displayQualityComparison := Some comparison |}
        | None => d
        end
    | _, _ => d
    end.

Definition addExplicitQuality (items : list ACUWorkTimelineDisplayItem) (catalog : option ACURoutingCatalog)
  : list ACUWorkTimelineDisplayItem :=
  match catalog with
  | None => items
  | Some c => map (display_quality c) items
  end.
End difficulty.

Definition timelineDisplayDifficulty (d : ACUWorkTimelineDisplayItem) : option number :=
  match displayDifficulty d with
  | Some x => if displayDifficultyInferred d && n_isFinite x then Some x
              else if has_difficulty (di_item d) then Some (it_difficulty (di_item d)) else None
  | None => if has_difficulty (di_item d) then Some (it_difficulty (di_item d)) else None
  end.

(** The texts of the sources. *)
Definition display_source_text (s : DisplaySource) : jstr :=
  match s with
  | DExplicitEstimate => js "explicit_estimate" | DReusedJudge => js "reused_judge"
  | DReusedSegment => js "reused_segment" | DReusedSession => js "reused_session"
  end.
Definition source_text (s : DifficultySource) : jstr :=
  match s with Recorded => js "recorded" | ReusedJudge => js "reused_judge" | ReusedSegment => js "reused_segment" end.

Definition timelineDisplayDifficultySource (d : ACUWorkTimelineDisplayItem) : option jstr :=
  match displayDifficultySource d with
  | Some s => Some (display_source_text s)
  | None => match it_difficultySource (di_item d) with
            | Some s => Some (source_text s)
            | None => if displayDifficultyInferred d then Some (js "explicit_estimate") else None
            end
  end.

Definition hasTimelineDisplayDifficulty (d : ACUWorkTimelineDisplayItem) : bool := is_some (timelineDisplayDifficulty d).
