(* ===== verification/DifficultyFacts.v ===== *)
(** * Difficulties of the work timeline: what is shown

    The hash is FNV-1a; estimates stay within their bounds and are exact for models
    without a curve; what an item shows is what a direct definition says, and does not
    depend on the order in which the items arrive. *)

From Stdlib Require Import SpecFloat.
From S2P Require Import Prelude JsString JsNumber JsInteger JsMath Json JsMap ExplicitDifficulty.

Open Scope Z_scope.

(** ** The hash *)

(** 32-bit FNV-1a over code units, on unsigned words. *)
Definition fnv1a (s : jstr) : Z :=
  fold_left (fun h c => (Z.lxor h (Z.of_N c) * 16777619) mod 2 ^ 32) s 2166136261.

Lemma int32_mod z : int32 z mod 2 ^ 32 = z mod 2 ^ 32.
Proof. unfold int32. rewrite Zminus_mod, Zmod_mod, <- Zminus_mod. f_equal. lia. Qed.

Lemma mod_of_mod a b : a mod 2 ^ 32 = b mod 2 ^ 32 -> forall c, (a * c) mod 2 ^ 32 = (b * c) mod 2 ^ 32.
Proof. intros H c. rewrite (Zmult_mod a), (Zmult_mod b). by rewrite H. Qed.

Lemma lxor_mod a b : Z.lxor a b mod 2 ^ 32 = Z.lxor (a mod 2 ^ 32) (b mod 2 ^ 32).
Proof.
  rewrite <- !Z.land_ones by lia. apply Z.bits_inj'. intros n Hn.
  rewrite !Z.land_spec, !Z.lxor_spec, !Z.land_spec. destruct (Z.testbit a n), (Z.testbit b n), (Z.testbit (Z.ones 32) n); done.
Qed.

Lemma hash_step_mod h c : hash_step h c mod 2 ^ 32 = (Z.lxor (h mod 2 ^ 32) (Z.of_N c mod 2 ^ 32) * 16777619) mod 2 ^ 32.
Proof.
  unfold hash_step, imul. rewrite int32_mod. apply mod_of_mod. rewrite int32_mod, lxor_mod, !int32_mod, <- lxor_mod.
  rewrite lxor_mod. symmetry. rewrite lxor_mod, !Zmod_mod. done.
Qed.

Lemma hash_fold s h h' : Forall (fun c => (c < 65536)%N) s -> h mod 2 ^ 32 = h' -> 
  fold_left hash_step s h mod 2 ^ 32 = fold_left (fun h c => (Z.lxor h (Z.of_N c) * 16777619) mod 2 ^ 32) s h'.
Proof.
  intros Hs. revert h h'. induction Hs as [|c s Hc _ IH]; intros h h' Hh; [done|]. cbn [fold_left]. apply IH.
  rewrite hash_step_mod, Hh. do 2 f_equal. f_equal. apply Z.mod_small. lia.
Qed.

Lemma hash_range s : 0 <= stableHash s < 2 ^ 32.
Proof. unfold stableHash. apply Z.mod_pos_bound. lia. Qed.

Lemma offset_range s : -10 <= deterministicOffset s <= 10.
Proof. unfold deterministicOffset, EXPLICIT_DIFFICULTY_OFFSET_LIMIT. pose proof (Z.mod_pos_bound (stableHash s) 21). simpl. lia. Qed.

(** The hash of the code is 32-bit FNV-1a on unsigned words: the signed arithmetic of
    [^=] and [Math.imul] and the final shift compute it for every text. *)
Theorem stable_hash_fnv1a s : Forall (fun c => (c < 65536)%N) s -> stableHash s = fnv1a s.
Proof. intros Hs. unfold stableHash, fnv1a. apply hash_fold; [done|]. reflexivity. Qed.

Lemma stable_hash_fnv1a_witness :
  Forall (fun c => (c < 65536)%N) (js "acu-explicit:v1:session:self:s1") /\
  stableHash (js "acu-explicit:v1:session:self:s1") = fnv1a (js "acu-explicit:v1:session:self:s1").
Proof.
  assert (Forall (fun c => (c < 65536)%N) (js "acu-explicit:v1:session:self:s1")) as H.
  { apply (bool_decide_unpack _). vm_compute. exact I. }
  split; [exact H|]. exact (stable_hash_fnv1a _ H).
Defined.

(** ** Bounds *)

Lemma round_not_nan v : n_isNaN v = false -> n_isNaN (n_round v) = false.
Proof.
  destruct v as [| | |s m e]; try done. intros _. simpl. destruct (0 <=? e); [done|]. unfold whole.
  destruct (_ =? 0); [done|]. apply num_not_nan.
Qed.

Lemma ltb_leb x y : n_ltb x y = true -> n_leb x y = true.
Proof. unfold n_ltb, n_leb, SFltb, SFleb. by destruct (SFcompare x y) as [[]|]. Qed.

(** Between two bounds that are not zero. *)
Lemma between lo hi x :
  n_isNaN x = false -> n_truthy lo = true -> n_truthy hi = true -> n_leb lo lo = true -> n_leb hi hi = true ->
  n_ltb lo hi = true ->
  let y := n_min hi (n_max lo x) in n_leb lo y = true /\ n_leb y hi = true.
Proof.
  intros Hx Hlo Hhi L1 L2 Hlh y.
  assert (n_max lo x = if n_ltb lo x then x else lo) as Em.
  { unfold n_max. destruct lo as [[]| | |], x; done. }
  assert (exists z, n_max lo x = z /\ n_leb lo z = true /\ n_isNaN z = false) as (z & Ez & Hz & Hn).
  { rewrite Em. destruct (n_ltb lo x) eqn:E.
    - exists x. split; [done|]. split; [by apply ltb_leb|done].
    - exists lo. split; [done|]. split; [done|]. by destruct lo. }
  unfold y. rewrite Ez. assert (n_min hi z = if n_ltb z hi then z else hi) as ->.
  { unfold n_min. destruct hi as [[]| | |], z; done. }
  destruct (n_ltb z hi) eqn:E; [split; [done|by apply ltb_leb]|]. split; [by apply ltb_leb|done].
Qed.

Lemma clamp_range v : n_isNaN v = false ->
  n_leb EXPLICIT_DIFFICULTY_MIN (clampDifficulty v) = true /\ n_leb (clampDifficulty v) EXPLICIT_DIFFICULTY_MAX = true.
Proof. intros Hv. apply between; try reflexivity. by apply round_not_nan. Qed.

Lemma clamp_nan v : n_isNaN v = true -> clampDifficulty v = n_nan.
Proof. by destruct v. Qed.

(** On the integers that offsets and bases can add up to, clamping is exact. *)
Definition in_range (lo hi : Z) : list Z := map (fun i => lo + Z.of_nat i) (seq 0 (Z.to_nat (hi - lo + 1))).

Lemma in_range_elem lo hi z : lo <= z <= hi -> z ∈ in_range lo hi.
Proof.
  intros H. unfold in_range. apply elem_of_lmap. exists (Z.to_nat (z - lo)). split; [|lia].
  apply list_elem_of_In, in_seq. lia.
Qed.

Lemma clamp_exact z : -100 <= z <= 300 -> clampDifficulty (num_of_Z z) = num_of_Z (Z.min 95 (Z.max 5 z)).
Proof.
  intros Hz%in_range_elem.
  assert (forallb (fun z => bool_decide (clampDifficulty (num_of_Z z) = num_of_Z (Z.min 95 (Z.max 5 z)))) (in_range (-100) 300) = true) as H
    by (vm_compute; reflexivity).
  rewrite forallb_Forall', Forall_forall in H. apply (bool_decide_eq_true_1 _). by apply H.
Qed.

Section bounds.
Context (toLowerCase : jstr -> jstr).

Lemma phase_range workPhase : -8 <= workPhaseDifficultyOffset toLowerCase workPhase <= 10.
Proof.
  unfold workPhaseDifficultyOffset. generalize (normalize toLowerCase workPhase). intros k.
  destruct (prop_get k WORK_PHASE_DIFFICULTY_OFFSET) as [v|] eqn:E; [|simpl; lia]. cbn [default from_option id].
  assert (forallb (fun p => (-8 <=? snd p) && (snd p <=? 10)) WORK_PHASE_DIFFICULTY_OFFSET = true) as H by reflexivity.
  rewrite forallb_Forall', Forall_forall in H. apply prop_get_in in E. specialize (H _ E). simpl in H. lia.
Qed.

Lemma table_range ids b : table_difficulty ids = Some b -> 25 <= b <= 94.
Proof.
  unfold table_difficulty. intros H. apply fmap_Some in H as ([k v] & H & ->). apply find_first_Some in H as [_ H].
  assert (forallb (fun p => (25 <=? snd p) && (snd p <=? 94)) MODEL_DEFAULT_DIFFICULTY = true) as G by (vm_compute; reflexivity).
  rewrite forallb_Forall', Forall_forall in G. specialize (G _ H). simpl in *. lia.
Qed.

(** Without a curve the base is a whole number of the tables. *)
Lemma base_whole item (catalog : option ACURoutingCatalog) :
  ((catalog ≫= catalogModelForItem toLowerCase item) ≫= cm_curve) ≫= difficultyAtQualityTarget = None ->
  exists b, modelDefaultDifficulty toLowerCase item catalog = num_of_Z b /\ 25 <= b <= 94.
Proof.
  intros Hc. unfold modelDefaultDifficulty. rewrite Hc. destruct (table_difficulty _) as [b|] eqn:E.
  - exists b. split; [done|]. by apply table_range in E.
  - unfold catalogTierDifficulty, tierDifficulty. destruct catalog as [c|]; cbn [mbind option_bind default from_option id];
      [|exists 42; split; [done|lia]].
    destruct (catalogModelForItem toLowerCase item c) as [m|]; cbn [mbind option_bind default from_option id];
      [|exists 42; split; [done|lia]].
    eexists. split; [reflexivity|]. destruct (cm_capabilityTier m); lia.
Qed.
End bounds.

(** Estimates stay within bounds: the two offsets of an estimate are between -10 and
    10, the offset of the phase between -8 and 10 and the window not negative; the
    difficulty is between 5 and 95 unless a curve made it NaN; and for a model without a
    usable curve it is exactly the whole sum of the table's base and the offsets, clamped
    to 5 and 95. *)
Theorem estimate_bounds toLowerCase item ordinal catalog e :
  estimateExplicitDifficulty toLowerCase item ordinal catalog = Some e ->
  (-10 <= es_sessionOffset e <= 10 /\ -10 <= es_windowOffset e <= 10 /\ -8 <= es_workPhaseOffset e <= 10 /\
   0 <= es_windowIndex e /\ 16 * es_windowIndex e <= Z.max 0 ordinal < 16 * es_windowIndex e + 16) /\
  (es_difficulty e = n_nan \/
   n_leb EXPLICIT_DIFFICULTY_MIN (es_difficulty e) = true /\ n_leb (es_difficulty e) EXPLICIT_DIFFICULTY_MAX = true) /\
  (((catalog ≫= catalogModelForItem toLowerCase item) ≫= cm_curve) ≫= difficultyAtQualityTarget = None ->
   exists b, es_modelBase e = num_of_Z b /\ 25 <= b <= 94 /\
     es_difficulty e = num_of_Z (Z.min 95 (Z.max 5 (b + es_sessionOffset e + es_windowOffset e + es_workPhaseOffset e)))).
Proof.
  unfold estimateExplicitDifficulty. destruct (negb _); [done|]. intros H. apply (inj Some) in H. subst e.
  cbn [es_sessionOffset es_windowOffset es_workPhaseOffset es_windowIndex es_difficulty es_modelBase].
  set (so := deterministicOffset _). set (wo := deterministicOffset _). set (po := workPhaseDifficultyOffset _ _).
  pose proof (offset_range (js "acu-explicit:v1:session:" ++ sessionKey item)) as Hso. fold so in Hso.
  assert (-10 <= wo <= 10) as Hwo by apply offset_range. assert (-8 <= po <= 10) as Hpo by apply phase_range.
  unfold EXPLICIT_DIFFICULTY_WINDOW_SIZE. split; [|split].
  - pose proof (Z.div_mod (Z.max 0 ordinal) 16). pose proof (Z.mod_pos_bound (Z.max 0 ordinal) 16).
    pose proof (Z.div_pos (Z.max 0 ordinal) 16). lia.
  - set (v := n_add _ _). destruct (n_isNaN v) eqn:E; [left; by apply clamp_nan|right; by apply clamp_range].
  - intros Hc. destruct (base_whole toLowerCase item catalog Hc) as (b & Eb & Hb). exists b. rewrite Eb. split; [done|]. split; [done|].
    rewrite !add_exact by (unfold safe; lia). apply clamp_exact. lia.
Qed.

(** Three entries of the table are never used: looking a model of the table up by its
    own name gives its own difficulty for every entry but claude-opus-5-5, opus-5-5 and
    mimo-v2.5-pro, which an earlier entry shadows, since a name followed by a dash counts
    as the same model. *)
Theorem shadowed_models :
  bfilter (fun '(modelId, d) => negb (bool_decide (table_difficulty [modelId] = Some d))) MODEL_DEFAULT_DIFFICULTY =
    [(js "claude-opus-5-5", 90); (js "opus-5-5", 90); (js "mimo-v2.5-pro", 50)] /\
  map (fun m => table_difficulty [m]) [js "claude-opus-5-5"; js "opus-5-5"; js "mimo-v2.5-pro"] =
    [Some 88; Some 88; Some 42].
Proof. split; vm_compute; reflexivity. Qed.

(** ** What an item shows *)

Section reference.
Context (toLowerCase : jstr -> jstr).

(** The items of the timeline before this one. *)
Definition before (item : ACUWorkTimelineItem) (ordered : list ACUWorkTimelineItem) : list ACUWorkTimelineItem :=
  fst (span (fun x => negb (it_pointId x =s it_pointId item)) ordered).

(** Its place among the explicit requests of its session. *)
Definition place (item : ACUWorkTimelineItem) (ordered : list ACUWorkTimelineItem) : Z :=
  Z.of_nat (length (bfilter (fun x => isExplicitTimelineItem toLowerCase x && (sessionKey x =s sessionKey item)) (before item ordered))).

(** The latest recorded difficulty under a key. *)
Definition latest (key : ACUWorkTimelineItem -> jstr) (k : jstr) (ordered : list ACUWorkTimelineItem) : option number :=
  last (map it_difficulty (bfilter (fun x => has_difficulty x && (key x =s k)) ordered)).

(** The direct definition of what is shown. *)
Definition direct_display (ordered : list ACUWorkTimelineItem) (catalog : option ACURoutingCatalog)
    (item : ACUWorkTimelineItem) : ACUWorkTimelineDisplayItem :=
  if has_difficulty item then
    match it_difficultySource item with
    | Some ReusedJudge => with_difficulty item (it_difficulty item) DReusedJudge None
    | Some ReusedSegment => with_difficulty item (it_difficulty item) DReusedSegment None
    | _ => shown_as_is item
    end
  else
    match estimateExplicitDifficulty toLowerCase item (place item ordered) catalog with
    | Some e => with_difficulty item (es_difficulty e) DExplicitEstimate (Some (es_windowIndex e))
    | None =>
        match it_pointType item, latest segmentKey (segmentKey item) ordered, latest sessionKey (sessionKey item) ordered with
        | PExecution, Some d, _ => with_difficulty item d DReusedSegment None
        | PExecution, None, Some d => with_difficulty item d DReusedSession None
        | _, _, _ => shown_as_is item
        end
    end.

Lemma known_latest key k ordered : m_get k (known_difficulties key ordered) = latest key k ordered.
Proof.
  unfold known_difficulties, latest. induction ordered as [|x l IH] using rev_ind; [done|].
  rewrite fold_left_app, List.filter_app, map_app. simpl. destruct (has_difficulty x); simpl; [|by rewrite app_nil_r].
  rewrite m_get_set, IH. destruct (key x =s k) eqn:E.
  - apply jeqb_eq in E. rewrite bool_decide_true by done. simpl. by rewrite last_snoc.
  - apply jeqb_neq in E. rewrite bool_decide_false by done. simpl. by rewrite app_nil_r.
Qed.

(** The ordinals after some items: each session's counter is its number of explicit
    requests, each explicit request got the counter at its turn. *)
Lemma ordinals_next l k :
  default 0 (m_get k (snd (fold_left (add_ordinal toLowerCase) l ([], [])))) =
  Z.of_nat (length (bfilter (fun x => isExplicitTimelineItem toLowerCase x && (sessionKey x =s k)) l)).
Proof.
  induction l as [|x l IH] using rev_ind; [done|]. rewrite fold_left_app, List.filter_app, length_app. simpl. unfold add_ordinal at 1.
  destruct (isExplicitTimelineItem toLowerCase x); simpl; [|by rewrite IH, Nat.add_0_r].
  rewrite m_get_set. destruct (sessionKey x =s k) eqn:E; simpl.
  - apply jeqb_eq in E as ->. rewrite bool_decide_true by done. cbn [default from_option id]. rewrite IH. lia.
  - apply jeqb_neq in E. rewrite bool_decide_false by done. rewrite IH. lia.
Qed.

Lemma ordinals_kept l st k : k ∉ map it_pointId l -> m_get k (fst (fold_left (add_ordinal toLowerCase) l st)) = m_get k (fst st).
Proof.
  revert st. induction l as [|x l IH]; intros st Hk; [done|]. cbn [fold_left map] in *. apply not_elem_of_cons in Hk as [Hx Hk].
  rewrite IH by done. unfold add_ordinal. destruct (negb _); [done|]. simpl. by rewrite m_get_set, bool_decide_false.
Qed.

Lemma before_split item pre post :
  it_pointId item ∉ map it_pointId pre -> before item (pre ++ item :: post) = pre.
Proof.
  intros Hn. unfold before. rewrite span_exact; [done| |].
  - apply Forall_forall. intros x Hx. apply negb_true_iff, jeqb_neq. intros E. apply Hn. rewrite <- E, elem_of_lmap. eauto.
  - by rewrite jeqb_refl.
Qed.

Lemma ordinal_place ordered item :
  NoDup (map it_pointId ordered) -> item ∈ ordered -> isExplicitTimelineItem toLowerCase item = true ->
  m_get (it_pointId item) (fst (fold_left (add_ordinal toLowerCase) ordered ([], []))) = Some (place item ordered).
Proof.
  intros Hnd Hin He. apply list_elem_of_split in Hin as (pre & post & ->). rewrite map_app in Hnd. cbn [map] in Hnd.
  apply NoDup_app in Hnd as (_ & Hpre & Hpost). apply NoDup_cons in Hpost as [Hpost _].
  assert (it_pointId item ∉ map it_pointId pre) as Hn by (intros H; apply (Hpre _ H); left).
  unfold place. rewrite before_split by done. rewrite fold_left_app. cbn [fold_left]. rewrite ordinals_kept by done.
  unfold add_ordinal at 1. rewrite He. cbn [negb fst]. rewrite m_get_set, bool_decide_true by done. by rewrite ordinals_next.
Qed.

Lemma display_direct ordered catalog item :
  NoDup (map it_pointId ordered) -> item ∈ ordered ->
  display_item toLowerCase (known_difficulties segmentKey ordered) (known_difficulties sessionKey ordered)
    (fst (fold_left (add_ordinal toLowerCase) ordered ([], []))) catalog item = direct_display ordered catalog item.
Proof.
  intros Hnd Hin. unfold display_item, direct_display. destruct (has_difficulty item); [done|].
  assert (reused_difficulty (known_difficulties segmentKey ordered) (known_difficulties sessionKey ordered) item =
    match it_pointType item, latest segmentKey (segmentKey item) ordered, latest sessionKey (sessionKey item) ordered with
    | PExecution, Some d, _ => with_difficulty item d DReusedSegment None
    | PExecution, None, Some d => with_difficulty item d DReusedSession None
    | _, _, _ => shown_as_is item
    end) as Hr.
  { unfold reused_difficulty, m_has. rewrite !known_latest. destruct (it_pointType item); [done|]. cbn [negb bool_decide].
    rewrite bool_decide_true by done. simpl. 
    by destruct (latest segmentKey (segmentKey item) ordered), (latest sessionKey (sessionKey item) ordered). }
  rewrite Hr. destruct (isExplicitTimelineItem toLowerCase item) eqn:He.
  - rewrite (ordinal_place ordered item Hnd Hin He). done.
  - assert (forall n, estimateExplicitDifficulty toLowerCase item n catalog = None) as Hno
      by (intros n; unfold estimateExplicitDifficulty; by rewrite He).
    rewrite Hno. by destruct (m_get _ _) as [o|]; cbn [mbind option_bind]; rewrite ?Hno.
Qed.
End reference.

(** C19. What is shown is what the direct definition says: for an administrator and items
    with distinct ids, the maps the code fills in one pass over the sorted items give
    each item its recorded difficulty, or the estimate at its place among the earlier
    explicit requests of its session, or the latest difficulty recorded in its segment
    or else its session. *)
Theorem timeline_displays_direct toLowerCase localeCompare items catalog :
  NoDup (map it_pointId items) ->
  addExplicitDifficulty toLowerCase localeCompare items true catalog =
  map (direct_display toLowerCase (js_sort (timelineOrder localeCompare) items) catalog) items.
Proof.
  intros Hnd. unfold addExplicitDifficulty. cbn [negb orb]. case_bool_decide as E; [by destruct items|].
  apply map_ext_in. intros item Hin%list_elem_of_In. apply display_direct.
  - by rewrite js_sort_perm.
  - by apply elem_of_js_sort.
Qed.

(** ** The order of the items *)

(** The comparison of the locale orders texts, and tells the ids apart. *)
Record LocaleOrder (localeCompare : jstr -> jstr -> Z) (ids : list jstr) : Prop := {
  locale_total : forall a b, localeCompare a b <= 0 \/ localeCompare b a <= 0;
  locale_trans : forall a b c, localeCompare a b <= 0 -> localeCompare b c <= 0 -> localeCompare a c <= 0;
  locale_antisym : forall a b, a ∈ ids -> b ∈ ids -> localeCompare a b <= 0 -> localeCompare b a <= 0 -> a = b }.

(** The ids the order of the timeline compares. *)
Definition item_ids (items : list ACUWorkTimelineItem) : list jstr :=
  map it_logicalRequestId items ++ map it_pointId items.

(** The time of an item, a whole number of milliseconds. *)
Definition time (item : ACUWorkTimelineItem) : Z := int_value (it_timestamp item).
Definition whole_time (item : ACUWorkTimelineItem) : Prop :=
  it_timestamp item = num_of_Z (time item) /\ 0 <= time item < 2 ^ 53.

Lemma point_inj items a b : NoDup (map it_pointId items) -> a ∈ items -> b ∈ items -> it_pointId a = it_pointId b -> a = b.
Proof.
  induction items as [|x l IH]; intros Hids Ha Hb E; [by apply elem_of_nil in Ha|]. simpl in Hids. apply NoDup_cons in Hids as [Hx Hl].
  rewrite elem_of_cons in Ha, Hb. destruct Ha as [-> | Ha], Hb as [-> | Hb]; [done| | |by apply IH]; exfalso; apply Hx; rewrite elem_of_lmap; eauto.
Qed.

Section order.
Context (localeCompare : jstr -> jstr -> Z) (items : list ACUWorkTimelineItem).
Context (Hlocale : LocaleOrder localeCompare (item_ids items)).

Lemma timeline_order a b : whole_time a -> whole_time b ->
  timelineOrder localeCompare a b = true <->
  time a < time b \/ time a = time b /\
    (it_logicalRequestId a <> it_logicalRequestId b /\ localeCompare (it_logicalRequestId a) (it_logicalRequestId b) <= 0 \/
     it_logicalRequestId a = it_logicalRequestId b /\ localeCompare (it_pointId a) (it_pointId b) <= 0).
Proof.
  intros [Ea Ha] [Eb Hb]. unfold timelineOrder. rewrite Ea, Eb. rewrite eqb_exact, sub_exact by (unfold safe; lia).
  unfold then_by. rewrite truthy_exact, positive_exact by (unfold safe; lia).
  destruct (time a =? time b) eqn:E; simpl.
  - apply Z.eqb_eq in E. destruct (it_logicalRequestId a =s it_logicalRequestId b) eqn:Er; simpl.
    + apply jeqb_eq in Er. rewrite Z.leb_le. split; [intros; right; tauto|]. intros [? | (_ & [[? _] | [_ ?]])]; [lia|done|done].
    + apply jeqb_neq in Er. rewrite Z.leb_le. split; [intros; right; tauto|]. intros [? | (_ & [[_ ?] | [? _]])]; [lia|done|done].
  - apply Z.eqb_neq in E. rewrite (proj2 (Z.eqb_neq _ _)) by lia. simpl. rewrite negb_true_iff, Z.ltb_ge. lia.
Qed.

Lemma logical_id a : a ∈ items -> it_logicalRequestId a ∈ item_ids items.
Proof. intros H. unfold item_ids. apply elem_of_app. left. apply elem_of_lmap. eauto. Qed.
Lemma point_id a : a ∈ items -> it_pointId a ∈ item_ids items.
Proof. intros H. unfold item_ids. apply elem_of_app. right. apply elem_of_lmap. eauto. Qed.
Local Hint Resolve logical_id point_id : core.

Definition listed (a : ACUWorkTimelineItem) : Prop := a ∈ items /\ whole_time a.

Lemma order_total a b : listed a -> listed b -> timelineOrder localeCompare a b = true \/ timelineOrder localeCompare b a = true.
Proof.
  intros [_ Ha] [_ Hb]. rewrite !timeline_order by done. pose proof (locale_total _ _ Hlocale (it_logicalRequestId a) (it_logicalRequestId b)).
  pose proof (locale_total _ _ Hlocale (it_pointId a) (it_pointId b)).
  destruct (decide (it_logicalRequestId a = it_logicalRequestId b)) as [E | E]; [rewrite E|]; destruct (Z.lt_total (time a) (time b)) as [? | [? | ?]];
    intuition congruence.
Qed.

Lemma order_trans a b c : listed a -> listed b -> listed c ->
  timelineOrder localeCompare a b = true -> timelineOrder localeCompare b c = true -> timelineOrder localeCompare a c = true.
Proof.
  intros [Ia Ha] [Ib Hb] [Ic Hc]. rewrite !timeline_order by done.
  intros [? | (E1 & R1)] [? | (E2 & R2)]; [left; lia..|]. right. split; [lia|].
  destruct R1 as [[N1 L1] | [Q1 L1]], R2 as [[N2 L2] | [Q2 L2]].
  - left. split; [|by eapply (locale_trans _ _ Hlocale)]. intros Q. apply N1, (locale_antisym _ _ Hlocale); auto. by rewrite Q.
  - left. by rewrite <- Q2.
  - left. by rewrite Q1.
  - right. split; [congruence|by eapply (locale_trans _ _ Hlocale)].
Qed.

Hypothesis Hids : NoDup (map it_pointId items).

Lemma order_antisym a b : listed a -> listed b ->
  timelineOrder localeCompare a b = true -> timelineOrder localeCompare b a = true -> a = b.
Proof.
  intros [Ia Ha] [Ib Hb]. rewrite !timeline_order by done. intros [? | (E1 & R1)] [? | (E2 & R2)]; [lia..|].
  apply (point_inj items); [done..|]. destruct R1 as [[N1 L1] | [Q1 L1]], R2 as [[N2 L2] | [Q2 L2]]; try congruence.
  - exfalso. apply N1, (locale_antisym _ _ Hlocale); auto.
  - apply (locale_antisym _ _ Hlocale); auto.
Qed.
End order.

(** The order in which the items arrive does not matter: for items with distinct ids
    and whole times, any two orders of the same items show the same for each of them. *)
Theorem timeline_order_irrelevant toLowerCase localeCompare items items' isAdmin catalog :
  LocaleOrder localeCompare (item_ids items) -> NoDup (map it_pointId items) -> Forall whole_time items -> items ≡ₚ items' ->
  exists f, addExplicitDifficulty toLowerCase localeCompare items isAdmin catalog = map f items /\
            addExplicitDifficulty toLowerCase localeCompare items' isAdmin catalog = map f items'.
Proof.
  intros Hl Hnd Ht Hp. unfold addExplicitDifficulty. destruct isAdmin; [|by exists shown_as_is]. cbn [negb orb].
  assert (js_sort (timelineOrder localeCompare) items = js_sort (timelineOrder localeCompare) items') as Es.
  { apply (js_sort_perm_eq (timelineOrder localeCompare) (listed items)).
    - by apply order_total.
    - by apply order_trans.
    - by apply order_antisym.
    - rewrite Forall_forall in *. intros a Ha. split; auto.
    - done. }
  rewrite <- Es, <- (Permutation_length Hp). case_bool_decide; [by exists shown_as_is|]. eexists. split; reflexivity.
Qed.

(** ** The quality that is shown *)

Lemma percentage v : n_isFinite v = true ->
  let q := n_min (num_of_Z 100) (n_max n_zero v) in n_leb n_zero q = true /\ n_leb q (num_of_Z 100) = true.
Proof.
  destruct v as [s| | |s m e]; try done; intros _.
  destruct s; [split; reflexivity|]. intros q. unfold q.
  change (n_max n_zero (S754_finite false m e)) with (S754_finite false m e).
  assert (n_min (num_of_Z 100) (S754_finite false m e) =
    if n_ltb (S754_finite false m e) (num_of_Z 100) then S754_finite false m e else num_of_Z 100) as -> by done.
  destruct (n_ltb (S754_finite false m e) (num_of_Z 100)) eqn:E; [split; [done|by apply ltb_leb]|done].
Qed.

(** The quality shown is a percentage: wherever the curve of a model fills in a
    quality, what is shown is between 0 and 100, it is the one of the comparison, and the
    difficulty and everything recorded in the item are as before; other items are left
    alone. *)
Theorem quality_filled_in toLowerCase catalog d :
  let d' := display_quality toLowerCase catalog d in
  d' = d \/
  exists q c, displayQuality d' = Some q /\ n_leb n_zero q = true /\ n_leb q (num_of_Z 100) = true /\
    displayQualityComparison d' = Some c /\ qc_estimatedQuality c = Some q /\
    qc_modelChargeCny c = it_qualityComparison (di_item d) ≫= qc_modelChargeCny /\
    displayDifficultyInferred d = true /\ it_qualityComparison (di_item d) ≫= qc_estimatedQuality = None /\
    di_item d' = di_item d /\ timelineDisplayDifficulty d' = timelineDisplayDifficulty d.
Proof.
  unfold display_quality. destruct (displayDifficultyInferred d) eqn:Ei; [|by left]. cbn [negb orb].
  destruct (it_qualityComparison (di_item d) ≫= qc_estimatedQuality) eqn:Eq; [by left|]. cbn [is_some].
  destruct (displayDifficulty d) as [x|] eqn:Ed; [|by left]. destruct (catalogModelForItem _ _ _) as [m|]; [|by left].
  destruct (cm_curve m ≫= _) as [v|]; [|by left]. destruct (n_isFinite v) eqn:Ef; [|by left]. cbn [negb].
  right. eexists _, _. split; [reflexivity|].
  assert (n_leb n_zero (n_min (num_of_Z 100) (n_max n_zero v)) = true /\ n_leb (n_min (num_of_Z 100) (n_max n_zero v)) (num_of_Z 100) = true) as [? ?].
  { by apply percentage. }
  repeat split; try done. unfold timelineDisplayDifficulty. simpl. by rewrite Ei, Ed.
Qed.

(** ** An example *)

Definition sample_item (id session model : jstr) (t : Z) (recorded : option Z) : ACUWorkTimelineItem :=
  {| it_pointId := id; it_pointType := PExecution; it_timestamp := num_of_Z t; it_userId := None;
     it_logicalRequestId := js "request-" ++ id; it_sessionId := session; it_taskId := []; it_segmentId := [];
     it_difficulty := num_of_Z (default 0 recorded); it_difficultyRecorded := is_some recorded; it_difficultySource := None;
     it_requestedModel := Some model; it_actualModel := None; it_selectedDisplayName := None;
     it_selectedExecutionPresetId := None; it_presetReasoningEffort := None; it_resolvedReasoningEffort := None;
     it_workPhase := Some (js "planning"); it_protocol := None; it_inputTokens := n_zero; it_cachedInputTokens := n_zero;
     it_outputTokens := n_zero; it_qualityComparison := None; it_rest := [] |}.

Definition sample_items : list ACUWorkTimelineItem :=
  [sample_item (js "c") (js "s1") (js "acu-auto") 30 None; sample_item (js "a") (js "s1") (js "GPT-6-sol") 10 None;
   sample_item (js "b") (js "s1") (js "acu-auto") 20 (Some 61)].

Example sample_shown :
  map (fun d => (show_num <$> timelineDisplayDifficulty d, timelineDisplayDifficultySource d))
    (addExplicitDifficulty ascii_lower unit_compare sample_items true None) =
  [(Some (js "61"), Some (js "reused_segment")); (Some (js "90"), Some (js "explicit_estimate"));
   (Some (js "61"), None)].
Proof. vm_compute. reflexivity. Qed.

Lemma sample_ids : NoDup (map it_pointId sample_items).
Proof. apply (bool_decide_unpack _). vm_compute. exact I. Defined.

Lemma estimate_bounds_witness : exists e,
  estimateExplicitDifficulty ascii_lower (sample_item (js "a") (js "s1") (js "GPT-6-sol") 10 None) 17 None = Some e /\
  es_windowIndex e = 1 /\ -10 <= es_sessionOffset e <= 10.
Proof.
  eexists. split; [vm_compute; reflexivity|]. split; [reflexivity|].
  exact (proj1 (proj1 (estimate_bounds ascii_lower (sample_item (js "a") (js "s1") (js "GPT-6-sol") 10 None) 17 None _
    ltac:(vm_compute; reflexivity)))).
Defined.

Lemma timeline_displays_direct_witness :
  NoDup (map it_pointId sample_items) /\
  addExplicitDifficulty ascii_lower unit_compare sample_items true None =
  map (direct_display ascii_lower (js_sort (timelineOrder unit_compare) sample_items) None) sample_items.
Proof. split; [exact sample_ids|]. exact (timeline_displays_direct ascii_lower unit_compare sample_items None sample_ids). Defined.

Lemma unit_compare_order ids : LocaleOrder unit_compare ids.
Proof.
  split.
  - intros a b. rewrite (unit_compare_swap a b). lia.
  - apply unit_compare_trans.
  - intros a b _ _. rewrite (unit_compare_swap a b). intros ? ?. apply unit_compare_zero. lia.
Qed.

Lemma timeline_order_irrelevant_witness : exists f,
  addExplicitDifficulty ascii_lower unit_compare sample_items true None = map f sample_items /\
  addExplicitDifficulty ascii_lower unit_compare (rev sample_items) true None = map f (rev sample_items).
Proof.
  apply (timeline_order_irrelevant ascii_lower unit_compare sample_items (rev sample_items) true None).
  - apply unit_compare_order.
  - exact sample_ids.
  - repeat constructor; vm_compute; congruence.
  - apply Permutation_rev.
Defined.
